(** * S8Interpreter: a shallow embedding of the execution engine

    The development follows [src/S8Interpreter.js]: guest values and guest
    objects, the host objects that back [properties], [getter] and [setter],
    the property primitives ([getProperty], [hasProperty], [setProperty]),
    exception unwinding, the host bridge ([nativeToPseudo],
    [pseudoToNative]) and the step machine ([step], [run]) for a fragment of
    the node handlers. *)

From Stdlib Require Import ZArith Ascii String List Bool Lia.
From stdpp Require Import base numbers option list strings pretty gmap sorting.

Local Open Scope string_scope.
Local Open Scope list_scope.
Local Open Scope Z_scope.

Set Warnings "-register-all".

(** ** Host language numbers

    A guest number is a host double.  The embedding keeps the doubles the
    engine computes with exactly: the integers (array lengths and indices are
    integers below 2^32), [NaN] and the infinities.  A finite double that is
    not an integer is carried by its floor and by its canonical decimal
    rendering; negative zero is identified with zero. *)
Inductive number : Type :=
| NaN
| Infinity (negative : bool)
| NInt (z : Z)
| NFrac (floor : Z) (repr : string).

#[global] Instance number_eq_dec : EqDecision number.
Proof. solve_decision. Defined.

Definition isNaN (n : number) : bool :=
  match n with NaN => true | _ => false end.

(** [a === b] on two numbers. *)
Definition number_strict_eq (a b : number) : bool :=
  match a, b with
  | NaN, _ | _, NaN => false
  | _, _ => bool_decide (a = b)
  end.

(** [x >>> 0] on a number: ToUint32. *)
Definition ToUint32 (n : number) : Z :=
  match n with
  | NaN | Infinity _ => 0
  | NInt z => z mod 2 ^ 32
  | NFrac f _ => (if 0 <=? f then f else f + 1) mod 2 ^ 32
  end.

(** [z < n] and [n < z] for an integer [z] and a number [n]. *)
Definition int_lt_number (z : Z) (n : number) : bool :=
  match n with
  | NaN => false
  | Infinity neg => negb neg
  | NInt y => z <? y
  | NFrac f _ => z <=? f
  end.

Definition number_lt_int (n : number) (z : Z) : bool :=
  match n with
  | NaN => false
  | Infinity neg => neg
  | NInt x => x <? z
  | NFrac f _ => f <? z
  end.

(** [Math.max(n, z)] for a number and an integer. *)
Definition Math_max (n : number) (z : Z) : number :=
  match n with
  | NaN => NaN
  | Infinity false => Infinity false
  | Infinity true => NInt z
  | NInt x => NInt (Z.max x z)
  | NFrac f r => if z <=? f then NFrac f r else NInt z
  end.

(** [String(n)] for a number. *)
Definition NumberToString (n : number) : string :=
  match n with
  | NaN => "NaN"
  | Infinity false => "Infinity"
  | Infinity true => "-Infinity"
  | NInt z => pretty z
  | NFrac _ r => r
  end.

(** Reading a string of decimal digits. *)
Definition digit_of_ascii (c : ascii) : option Z :=
  let n := Z.of_nat (nat_of_ascii c) in
  if (48 <=? n) && (n <=? 57) then Some (n - 48) else None.

Fixpoint parse_digits (s : string) (acc : Z) : option Z :=
  match s with
  | EmptyString => Some acc
  | String c s' =>
      match digit_of_ascii c with
      | Some d => parse_digits s' (10 * acc + d)
      | None => None
      end
  end.

(** The integer a string denotes when the string is the canonical decimal
    rendering of a non-negative integer (no sign, no leading zero). *)
Definition canonical_decimal (s : string) : option Z :=
  match s with
  | EmptyString => None
  | _ =>
      match parse_digits s 0 with
      | Some z => if bool_decide (pretty z = s) then Some z else None
      | None => None
      end
  end.

(** ** Guest values

    [S8Interpreter.Value]: the primitives and references to guest objects
    (instances of [S8Interpreter.Object], held by their place in the heap).
    A frame's [value] slot can also hold the two-element host array a node
    evaluated in reference mode leaves there ([state.components]):
    [[SCOPE_REFERENCE, name]] or [[object, propertyName]]. *)
Abbreviation loc := nat (only parsing).

Inductive Value : Type :=
| VUndefined
| VNull
| VBool (b : bool)
| VNumber (n : number)
| VString (s : string)
| VObject (l : loc)
| VScopeReference (name : string)
| VPropertyReference (obj : Value) (name : Value).

#[global] Instance Value_eq_dec : EqDecision Value.
Proof. solve_decision. Defined.

(** Truthiness, as [if (v)] and [!v] read it. *)
Definition ToBoolean (v : Value) : bool :=
  match v with
  | VUndefined | VNull => false
  | VBool b => b
  | VNumber NaN => false
  | VNumber (NInt z) => negb (z =? 0)
  | VNumber _ => true
  | VString s => negb (bool_decide (s = ""))
  | VObject _ | VScopeReference _ | VPropertyReference _ _ => true
  end.

(** [v instanceof S8Interpreter.Object]. *)
Definition isPseudoObject (v : Value) : bool :=
  match v with VObject _ => true | _ => false end.

(** [Array.isArray(v)] for the contents of a frame's [value] slot. *)
Definition isReference (v : Value) : bool :=
  match v with
  | VScopeReference _ | VPropertyReference _ _ => true
  | _ => false
  end.

(** [typeof v === 'object' && !(v instanceof S8Interpreter.Object)]. *)
Definition isHostObject (v : Value) : bool :=
  match v with
  | VNull | VScopeReference _ | VPropertyReference _ _ => true
  | _ => false
  end.

(** ** Host objects used as property maps

    [obj.properties] is a host object without prototype.  The engine reads it
    with [in] and indexing, writes it by assignment and through
    [Object.defineProperty], removes keys with [delete] and enumerates it with
    [for-in]; the file is a module, so these run in the host's strict mode.
    Every entry is a data property with the three host attributes. *)
Record Property : Type := mkProperty {
  p_value : Value;
  p_writable : bool;
  p_enumerable : bool;
  p_configurable : bool
}.

#[global] Instance Property_eq_dec : EqDecision Property.
Proof. solve_decision. Defined.

(** Entries in creation order. *)
Abbreviation Properties := (list (string * Property)).

Fixpoint props_lookup (name : string) (ps : Properties) : option Property :=
  match ps with
  | [] => None
  | (k, p) :: ps' => if bool_decide (k = name) then Some p else props_lookup name ps'
  end.

(** [name in properties]. *)
Definition props_has (name : string) (ps : Properties) : bool :=
  match props_lookup name ps with Some _ => true | None => false end.

(** [properties[name]]. *)
Definition props_get (name : string) (ps : Properties) : Value :=
  match props_lookup name ps with Some p => p_value p | None => VUndefined end.

Fixpoint props_update (name : string) (p : Property) (ps : Properties) : Properties :=
  match ps with
  | [] => []
  | (k, q) :: ps' =>
      if bool_decide (k = name) then (k, p) :: ps' else (k, q) :: props_update name p ps'
  end.

Fixpoint props_remove (name : string) (ps : Properties) : Properties :=
  match ps with
  | [] => []
  | (k, q) :: ps' =>
      if bool_decide (k = name) then props_remove name ps'
      else (k, q) :: props_remove name ps'
  end.

(** [properties[name] = v] in strict mode: [None] is the host's TypeError on
    a read-only entry. *)
Definition props_assign (name : string) (v : Value) (ps : Properties) : option Properties :=
  match props_lookup name ps with
  | Some p =>
      if p_writable p
      then Some (props_update name
                   (mkProperty v (p_writable p) (p_enumerable p) (p_configurable p)) ps)
      else None
  | None => Some (ps ++ [(name, mkProperty v true true true)])
  end.

(** [delete properties[name]] in strict mode: [None] is the host's TypeError
    on an entry that is not configurable. *)
Definition props_delete (name : string) (ps : Properties) : option Properties :=
  match props_lookup name ps with
  | Some p => if p_configurable p then Some (props_remove name ps) else None
  | None => Some ps
  end.

(** The descriptor object [setProperty] hands to [Object.defineProperty]: a
    field is present when [Some]. *)
Record HostDescriptor : Type := mkHostDescriptor {
  hd_configurable : option bool;
  hd_enumerable : option bool;
  hd_writable : option bool;
  hd_value : option Value
}.

Definition agrees {A} `{EqDecision A} (field : option A) (current : A) : bool :=
  match field with Some x => bool_decide (x = current) | None => true end.

(** [Object.defineProperty(properties, name, d)] on an extensible object whose
    entries are data properties (ES5 8.12.9): [None] is the host's TypeError. *)
Definition props_define (name : string) (d : HostDescriptor) (ps : Properties)
  : option Properties :=
  match props_lookup name ps with
  | None =>
      Some (ps ++ [(name, mkProperty (default VUndefined (hd_value d))
                            (default false (hd_writable d))
                            (default false (hd_enumerable d))
                            (default false (hd_configurable d)))])
  | Some p =>
      let same := agrees (hd_configurable d) (p_configurable p)
                  && agrees (hd_enumerable d) (p_enumerable p)
                  && agrees (hd_writable d) (p_writable p)
                  && agrees (hd_value d) (p_value p) in
      let allowed :=
        p_configurable p
        || (negb (bool_decide (hd_configurable d = Some true))
            && agrees (hd_enumerable d) (p_enumerable p)
            && (p_writable p
                || (negb (bool_decide (hd_writable d = Some true))
                    && agrees (hd_value d) (p_value p)))) in
      if same then Some ps
      else if allowed
      then Some (props_update name
                   (mkProperty (default (p_value p) (hd_value d))
                      (default (p_writable p) (hd_writable d))
                      (default (p_enumerable p) (hd_enumerable d))
                      (default (p_configurable p) (hd_configurable d))) ps)
      else None
  end.

(** A key is an array index when it is the canonical rendering of an integer
    in [0, 2^32 - 2]; the host enumerates such keys first, in ascending
    order, and the others in creation order. *)
Definition array_index_key (k : string) : option Z :=
  match canonical_decimal k with
  | Some z => if z <? 2 ^ 32 - 1 then Some z else None
  | None => None
  end.

Definition enumerable_keys (ps : Properties) : list string :=
  map fst (filter (fun kp => p_enumerable (snd kp) = true) ps).

(** The order in which the host enumerates the keys [ks], given in creation
    order. *)
Definition hostOrder (ks : list string) : list string :=
  map pretty (merge_sort Z.le (omap array_index_key ks))
  ++ filter (fun k => array_index_key k = None) ks.

(** The keys [for (k in properties)] visits, in order. *)
Definition props_forin (ps : Properties) : list string :=
  hostOrder (enumerable_keys ps).

(** ** Guest objects *)

(** [obj.data]: the internal slot of dates, regular expressions and boxed
    primitives. *)
Inductive InternalData : Type :=
| DataNull
| DataBool (b : bool)
| DataNumber (n : number)
| DataString (s : string)
| DataDate (ms : number)
| DataRegExp (source flags : string) (lastIndex : Z).

#[global] Instance InternalData_eq_dec : EqDecision InternalData.
Proof. solve_decision. Defined.

(** [func.nativeFunc]: the host closures the embedding knows. *)
Inductive NativeFunc : Type :=
| NativeWrapper (hostFunction : nat)
    (* the wrapper [nativeToPseudo] builds around a host function *)
| NativeErrorConstructor
    (* the constructors installed by [initError] *)
| NativePreventExtensions
    (* [Object.preventExtensions] *)
| NativeOpaque
    (* a built-in wrapper whose body is not embedded *).

#[global] Instance NativeFunc_eq_dec : EqDecision NativeFunc.
Proof. solve_decision. Defined.

Module Obj.
(** [S8Interpreter.Object]. *)
Record t : Type := mk {
  proto : option loc;
  class : string;
  data : InternalData;
  getter : gmap string Value;
  setter : gmap string Value;
  properties : Properties;
  preventExtensions : bool;
  illegalConstructor : bool;
  nativeFunc : option NativeFunc;
  asyncFunc : option (nat * nat);
  eval : bool
}.

(** [new S8Interpreter.Object(proto)]. *)
Definition new (proto : option loc) : t :=
  mk proto "Object" DataNull ∅ ∅ [] false false None None false.

Definition set_proto (x : option loc) (o : t) : t :=
  mk x (class o) (data o) (getter o) (setter o) (properties o)
     (preventExtensions o) (illegalConstructor o) (nativeFunc o) (asyncFunc o) (eval o).
Definition set_class (x : string) (o : t) : t :=
  mk (proto o) x (data o) (getter o) (setter o) (properties o)
     (preventExtensions o) (illegalConstructor o) (nativeFunc o) (asyncFunc o) (eval o).
Definition set_data (x : InternalData) (o : t) : t :=
  mk (proto o) (class o) x (getter o) (setter o) (properties o)
     (preventExtensions o) (illegalConstructor o) (nativeFunc o) (asyncFunc o) (eval o).
Definition set_getter (x : gmap string Value) (o : t) : t :=
  mk (proto o) (class o) (data o) x (setter o) (properties o)
     (preventExtensions o) (illegalConstructor o) (nativeFunc o) (asyncFunc o) (eval o).
Definition set_setter (x : gmap string Value) (o : t) : t :=
  mk (proto o) (class o) (data o) (getter o) x (properties o)
     (preventExtensions o) (illegalConstructor o) (nativeFunc o) (asyncFunc o) (eval o).
Definition set_properties (x : Properties) (o : t) : t :=
  mk (proto o) (class o) (data o) (getter o) (setter o) x
     (preventExtensions o) (illegalConstructor o) (nativeFunc o) (asyncFunc o) (eval o).
Definition set_preventExtensions (x : bool) (o : t) : t :=
  mk (proto o) (class o) (data o) (getter o) (setter o) (properties o)
     x (illegalConstructor o) (nativeFunc o) (asyncFunc o) (eval o).
Definition set_illegalConstructor (x : bool) (o : t) : t :=
  mk (proto o) (class o) (data o) (getter o) (setter o) (properties o)
     (preventExtensions o) x (nativeFunc o) (asyncFunc o) (eval o).
Definition set_nativeFunc (x : option NativeFunc) (o : t) : t :=
  mk (proto o) (class o) (data o) (getter o) (setter o) (properties o)
     (preventExtensions o) (illegalConstructor o) x (asyncFunc o) (eval o).
Definition set_asyncFunc (x : option (nat * nat)) (o : t) : t :=
  mk (proto o) (class o) (data o) (getter o) (setter o) (properties o)
     (preventExtensions o) (illegalConstructor o) (nativeFunc o) x (eval o).
Definition set_eval (x : bool) (o : t) : t :=
  mk (proto o) (class o) (data o) (getter o) (setter o) (properties o)
     (preventExtensions o) (illegalConstructor o) (nativeFunc o) (asyncFunc o) x.
End Obj.

(** The heap: every guest object ever created, by creation order. *)
Abbreviation Heap := (list Obj.t).

(** ** Scopes

    [S8Interpreter.Scope] objects are never modified after creation; a scope
    is kept as the chain of its entries, innermost first, so that
    [scope.parentScope] is the tail and the empty chain stands for [null]. *)
Record ScopeEntry : Type := mkScopeEntry {
  strict : bool;
  object : loc
}.

#[global] Instance ScopeEntry_eq_dec : EqDecision ScopeEntry.
Proof. solve_decision. Defined.

Abbreviation Scope := (list ScopeEntry).

Definition parentScope (s : Scope) : Scope := tail s.

(** ** Syntax trees

    The nodes of the embedded fragment, with the fields the handlers read.
    [nend] is the node's [end] offset: [0] for a node without one (stripped
    polyfill code, synthetic nodes). *)
Inductive Node : Type :=
| Program (nend : nat) (body : list Node)
| ExpressionStatement (nend : nat) (expression : Node)
| BlockStatement (nend : nat) (body : list Node)
| EmptyStatement (nend : nat)
| ThrowStatement (nend : nat) (argument : Node)
| TryStatement (nend : nat) (block : Node) (handler finalizer : option Node)
| CatchClause (nend : nat) (param : string) (body : Node)
| Literal (nend : nat) (value : Value)
| Identifier (nend : nat) (name : string)
| UnaryExpression (nend : nat) (operator : string) (argument : Node)
| CallExpression (nend : nat) (callee : Node) (arguments : list Node)
| NewExpression (nend : nat) (callee : Node) (arguments : list Node)
| SyntheticCall
    (* the bare node of type CallExpression made by createGetter_ and createSetter_ *).

Definition node_type (n : Node) : string :=
  match n with
  | Program _ _ => "Program"
  | ExpressionStatement _ _ => "ExpressionStatement"
  | BlockStatement _ _ => "BlockStatement"
  | EmptyStatement _ => "EmptyStatement"
  | ThrowStatement _ _ => "ThrowStatement"
  | TryStatement _ _ _ _ => "TryStatement"
  | CatchClause _ _ _ => "CatchClause"
  | Literal _ _ => "Literal"
  | Identifier _ _ => "Identifier"
  | UnaryExpression _ _ _ => "UnaryExpression"
  | CallExpression _ _ _ => "CallExpression"
  | NewExpression _ _ _ => "NewExpression"
  | SyntheticCall => "CallExpression"
  end.

Definition node_end (n : Node) : nat :=
  match n with
  | Program e _ | ExpressionStatement e _ | BlockStatement e _ | EmptyStatement e
  | ThrowStatement e _ | TryStatement e _ _ _ | CatchClause e _ _ | Literal e _
  | Identifier e _ | UnaryExpression e _ _ | CallExpression e _ _
  | NewExpression e _ _ => e
  | SyntheticCall => 0%nat
  end.

(** ** Completions and frames *)
Inductive Completion : Type := NORMAL | BREAK | CONTINUE | RETURN | THROW.

#[global] Instance Completion_eq_dec : EqDecision Completion.
Proof. solve_decision. Defined.

(** [state.cv]. *)
Record CompletionValue : Type := mkCV {
  cv_type : Completion;
  cv_value : Value;
  cv_label : option string
}.

(** [state.doneCallee_] is absent, [1], [2] or [true]. *)
Inductive DoneCallee : Type := CalleeNotDone | CalleeOne | CalleeTwo | CalleeTrue.

Module State.
(** [S8Interpreter.State] with the bookkeeping fields of the embedded
    handlers; an absent field is [false], [0], [undefined] or [None]. *)
Record t : Type := mk {
  node : Node;
  scope : Scope;
  done : bool;
  value : Value;
  cv : option CompletionValue;
  labels : option (list string);
  isLoop : bool;
  isSwitch : bool;
  done_ : bool;
  components : bool;
  throwValue : Value;
  n_ : nat;
  doneCallee_ : DoneCallee;
  func_ : Value;
  funcThis_ : Value;
  arguments_ : list Value;
  doneArgs_ : bool;
  doneExec_ : bool;
  isConstructor : bool;
  directEval_ : bool;
  doneBlock_ : bool;
  doneHandler_ : bool;
  doneFinalizer_ : bool
}.

(** [new S8Interpreter.State(node, scope)]. *)
Definition new (node : Node) (scope : Scope) : t :=
  mk node scope false VUndefined None None false false false false VUndefined 0%nat
     CalleeNotDone VUndefined VUndefined [] false false false false false false false.

Definition set_node (x : Node) (s : t) : t :=
  mk x (scope s) (done s) (value s) (cv s) (labels s) (isLoop s) (isSwitch s) (done_ s) (components s) (throwValue s) (n_ s) (doneCallee_ s) (func_ s) (funcThis_ s) (arguments_ s) (doneArgs_ s) (doneExec_ s) (isConstructor s) (directEval_ s) (doneBlock_ s) (doneHandler_ s) (doneFinalizer_ s).
Definition set_scope (x : Scope) (s : t) : t :=
  mk (node s) x (done s) (value s) (cv s) (labels s) (isLoop s) (isSwitch s) (done_ s) (components s) (throwValue s) (n_ s) (doneCallee_ s) (func_ s) (funcThis_ s) (arguments_ s) (doneArgs_ s) (doneExec_ s) (isConstructor s) (directEval_ s) (doneBlock_ s) (doneHandler_ s) (doneFinalizer_ s).
Definition set_done (x : bool) (s : t) : t :=
  mk (node s) (scope s) x (value s) (cv s) (labels s) (isLoop s) (isSwitch s) (done_ s) (components s) (throwValue s) (n_ s) (doneCallee_ s) (func_ s) (funcThis_ s) (arguments_ s) (doneArgs_ s) (doneExec_ s) (isConstructor s) (directEval_ s) (doneBlock_ s) (doneHandler_ s) (doneFinalizer_ s).
Definition set_value (x : Value) (s : t) : t :=
  mk (node s) (scope s) (done s) x (cv s) (labels s) (isLoop s) (isSwitch s) (done_ s) (components s) (throwValue s) (n_ s) (doneCallee_ s) (func_ s) (funcThis_ s) (arguments_ s) (doneArgs_ s) (doneExec_ s) (isConstructor s) (directEval_ s) (doneBlock_ s) (doneHandler_ s) (doneFinalizer_ s).
Definition set_cv (x : option CompletionValue) (s : t) : t :=
  mk (node s) (scope s) (done s) (value s) x (labels s) (isLoop s) (isSwitch s) (done_ s) (components s) (throwValue s) (n_ s) (doneCallee_ s) (func_ s) (funcThis_ s) (arguments_ s) (doneArgs_ s) (doneExec_ s) (isConstructor s) (directEval_ s) (doneBlock_ s) (doneHandler_ s) (doneFinalizer_ s).
Definition set_labels (x : option (list string)) (s : t) : t :=
  mk (node s) (scope s) (done s) (value s) (cv s) x (isLoop s) (isSwitch s) (done_ s) (components s) (throwValue s) (n_ s) (doneCallee_ s) (func_ s) (funcThis_ s) (arguments_ s) (doneArgs_ s) (doneExec_ s) (isConstructor s) (directEval_ s) (doneBlock_ s) (doneHandler_ s) (doneFinalizer_ s).
Definition set_isLoop (x : bool) (s : t) : t :=
  mk (node s) (scope s) (done s) (value s) (cv s) (labels s) x (isSwitch s) (done_ s) (components s) (throwValue s) (n_ s) (doneCallee_ s) (func_ s) (funcThis_ s) (arguments_ s) (doneArgs_ s) (doneExec_ s) (isConstructor s) (directEval_ s) (doneBlock_ s) (doneHandler_ s) (doneFinalizer_ s).
Definition set_isSwitch (x : bool) (s : t) : t :=
  mk (node s) (scope s) (done s) (value s) (cv s) (labels s) (isLoop s) x (done_ s) (components s) (throwValue s) (n_ s) (doneCallee_ s) (func_ s) (funcThis_ s) (arguments_ s) (doneArgs_ s) (doneExec_ s) (isConstructor s) (directEval_ s) (doneBlock_ s) (doneHandler_ s) (doneFinalizer_ s).
Definition set_done_ (x : bool) (s : t) : t :=
  mk (node s) (scope s) (done s) (value s) (cv s) (labels s) (isLoop s) (isSwitch s) x (components s) (throwValue s) (n_ s) (doneCallee_ s) (func_ s) (funcThis_ s) (arguments_ s) (doneArgs_ s) (doneExec_ s) (isConstructor s) (directEval_ s) (doneBlock_ s) (doneHandler_ s) (doneFinalizer_ s).
Definition set_components (x : bool) (s : t) : t :=
  mk (node s) (scope s) (done s) (value s) (cv s) (labels s) (isLoop s) (isSwitch s) (done_ s) x (throwValue s) (n_ s) (doneCallee_ s) (func_ s) (funcThis_ s) (arguments_ s) (doneArgs_ s) (doneExec_ s) (isConstructor s) (directEval_ s) (doneBlock_ s) (doneHandler_ s) (doneFinalizer_ s).
Definition set_throwValue (x : Value) (s : t) : t :=
  mk (node s) (scope s) (done s) (value s) (cv s) (labels s) (isLoop s) (isSwitch s) (done_ s) (components s) x (n_ s) (doneCallee_ s) (func_ s) (funcThis_ s) (arguments_ s) (doneArgs_ s) (doneExec_ s) (isConstructor s) (directEval_ s) (doneBlock_ s) (doneHandler_ s) (doneFinalizer_ s).
Definition set_n_ (x : nat) (s : t) : t :=
  mk (node s) (scope s) (done s) (value s) (cv s) (labels s) (isLoop s) (isSwitch s) (done_ s) (components s) (throwValue s) x (doneCallee_ s) (func_ s) (funcThis_ s) (arguments_ s) (doneArgs_ s) (doneExec_ s) (isConstructor s) (directEval_ s) (doneBlock_ s) (doneHandler_ s) (doneFinalizer_ s).
Definition set_doneCallee_ (x : DoneCallee) (s : t) : t :=
  mk (node s) (scope s) (done s) (value s) (cv s) (labels s) (isLoop s) (isSwitch s) (done_ s) (components s) (throwValue s) (n_ s) x (func_ s) (funcThis_ s) (arguments_ s) (doneArgs_ s) (doneExec_ s) (isConstructor s) (directEval_ s) (doneBlock_ s) (doneHandler_ s) (doneFinalizer_ s).
Definition set_func_ (x : Value) (s : t) : t :=
  mk (node s) (scope s) (done s) (value s) (cv s) (labels s) (isLoop s) (isSwitch s) (done_ s) (components s) (throwValue s) (n_ s) (doneCallee_ s) x (funcThis_ s) (arguments_ s) (doneArgs_ s) (doneExec_ s) (isConstructor s) (directEval_ s) (doneBlock_ s) (doneHandler_ s) (doneFinalizer_ s).
Definition set_funcThis_ (x : Value) (s : t) : t :=
  mk (node s) (scope s) (done s) (value s) (cv s) (labels s) (isLoop s) (isSwitch s) (done_ s) (components s) (throwValue s) (n_ s) (doneCallee_ s) (func_ s) x (arguments_ s) (doneArgs_ s) (doneExec_ s) (isConstructor s) (directEval_ s) (doneBlock_ s) (doneHandler_ s) (doneFinalizer_ s).
Definition set_arguments_ (x : list Value) (s : t) : t :=
  mk (node s) (scope s) (done s) (value s) (cv s) (labels s) (isLoop s) (isSwitch s) (done_ s) (components s) (throwValue s) (n_ s) (doneCallee_ s) (func_ s) (funcThis_ s) x (doneArgs_ s) (doneExec_ s) (isConstructor s) (directEval_ s) (doneBlock_ s) (doneHandler_ s) (doneFinalizer_ s).
Definition set_doneArgs_ (x : bool) (s : t) : t :=
  mk (node s) (scope s) (done s) (value s) (cv s) (labels s) (isLoop s) (isSwitch s) (done_ s) (components s) (throwValue s) (n_ s) (doneCallee_ s) (func_ s) (funcThis_ s) (arguments_ s) x (doneExec_ s) (isConstructor s) (directEval_ s) (doneBlock_ s) (doneHandler_ s) (doneFinalizer_ s).
Definition set_doneExec_ (x : bool) (s : t) : t :=
  mk (node s) (scope s) (done s) (value s) (cv s) (labels s) (isLoop s) (isSwitch s) (done_ s) (components s) (throwValue s) (n_ s) (doneCallee_ s) (func_ s) (funcThis_ s) (arguments_ s) (doneArgs_ s) x (isConstructor s) (directEval_ s) (doneBlock_ s) (doneHandler_ s) (doneFinalizer_ s).
Definition set_isConstructor (x : bool) (s : t) : t :=
  mk (node s) (scope s) (done s) (value s) (cv s) (labels s) (isLoop s) (isSwitch s) (done_ s) (components s) (throwValue s) (n_ s) (doneCallee_ s) (func_ s) (funcThis_ s) (arguments_ s) (doneArgs_ s) (doneExec_ s) x (directEval_ s) (doneBlock_ s) (doneHandler_ s) (doneFinalizer_ s).
Definition set_directEval_ (x : bool) (s : t) : t :=
  mk (node s) (scope s) (done s) (value s) (cv s) (labels s) (isLoop s) (isSwitch s) (done_ s) (components s) (throwValue s) (n_ s) (doneCallee_ s) (func_ s) (funcThis_ s) (arguments_ s) (doneArgs_ s) (doneExec_ s) (isConstructor s) x (doneBlock_ s) (doneHandler_ s) (doneFinalizer_ s).
Definition set_doneBlock_ (x : bool) (s : t) : t :=
  mk (node s) (scope s) (done s) (value s) (cv s) (labels s) (isLoop s) (isSwitch s) (done_ s) (components s) (throwValue s) (n_ s) (doneCallee_ s) (func_ s) (funcThis_ s) (arguments_ s) (doneArgs_ s) (doneExec_ s) (isConstructor s) (directEval_ s) x (doneHandler_ s) (doneFinalizer_ s).
Definition set_doneHandler_ (x : bool) (s : t) : t :=
  mk (node s) (scope s) (done s) (value s) (cv s) (labels s) (isLoop s) (isSwitch s) (done_ s) (components s) (throwValue s) (n_ s) (doneCallee_ s) (func_ s) (funcThis_ s) (arguments_ s) (doneArgs_ s) (doneExec_ s) (isConstructor s) (directEval_ s) (doneBlock_ s) x (doneFinalizer_ s).
Definition set_doneFinalizer_ (x : bool) (s : t) : t :=
  mk (node s) (scope s) (done s) (value s) (cv s) (labels s) (isLoop s) (isSwitch s) (done_ s) (components s) (throwValue s) (n_ s) (doneCallee_ s) (func_ s) (funcThis_ s) (arguments_ s) (doneArgs_ s) (doneExec_ s) (isConstructor s) (directEval_ s) (doneBlock_ s) (doneHandler_ s) x.
End State.

(** ** The interpreter

    The fields of an [S8Interpreter] instance the embedded methods use.  The
    state stack is kept with its top first; it is [None] while the constructor
    has not created it yet.  The built-in constructors and prototypes are
    [None] until [initGlobal] has made them.  [host] is the state of the
    embedding application, which host functions read and write. *)
Module Interp.
Record t (Host : Type) : Type := mk {
  heap : Heap;
  stateStack : option (list State.t);
  paused_ : bool;
  getterStep_ : bool;
  setterStep_ : bool;
  value : Value;
  globalScope : Scope;
  globalObject : loc;
  functionCounter_ : nat;
  host : Host;
  OBJECT_PROTO : option loc;
  FUNCTION_PROTO : option loc;
  FUNCTION : option loc;
  OBJECT : option loc;
  ARRAY : option loc;
  ARRAY_PROTO : option loc;
  STRING : option loc;
  BOOLEAN : option loc;
  NUMBER : option loc;
  DATE : option loc;
  DATE_PROTO : option loc;
  REGEXP : option loc;
  REGEXP_PROTO : option loc;
  ERROR : option loc;
  EVAL_ERROR : option loc;
  RANGE_ERROR : option loc;
  REFERENCE_ERROR : option loc;
  SYNTAX_ERROR : option loc;
  TYPE_ERROR : option loc;
  URI_ERROR : option loc
}.
Arguments heap {Host} _.
Arguments stateStack {Host} _.
Arguments paused_ {Host} _.
Arguments getterStep_ {Host} _.
Arguments setterStep_ {Host} _.
Arguments value {Host} _.
Arguments globalScope {Host} _.
Arguments globalObject {Host} _.
Arguments functionCounter_ {Host} _.
Arguments host {Host} _.
Arguments OBJECT_PROTO {Host} _.
Arguments FUNCTION_PROTO {Host} _.
Arguments FUNCTION {Host} _.
Arguments OBJECT {Host} _.
Arguments ARRAY {Host} _.
Arguments ARRAY_PROTO {Host} _.
Arguments STRING {Host} _.
Arguments BOOLEAN {Host} _.
Arguments NUMBER {Host} _.
Arguments DATE {Host} _.
Arguments DATE_PROTO {Host} _.
Arguments REGEXP {Host} _.
Arguments REGEXP_PROTO {Host} _.
Arguments ERROR {Host} _.
Arguments EVAL_ERROR {Host} _.
Arguments RANGE_ERROR {Host} _.
Arguments REFERENCE_ERROR {Host} _.
Arguments SYNTAX_ERROR {Host} _.
Arguments TYPE_ERROR {Host} _.
Arguments URI_ERROR {Host} _.
Arguments mk {Host}.
Definition set_heap {Host : Type} (x : Heap) (i : t Host) : t Host :=
  mk x (stateStack i) (paused_ i) (getterStep_ i) (setterStep_ i) (value i) (globalScope i) (globalObject i) (functionCounter_ i) (host i) (OBJECT_PROTO i) (FUNCTION_PROTO i) (FUNCTION i) (OBJECT i) (ARRAY i) (ARRAY_PROTO i) (STRING i) (BOOLEAN i) (NUMBER i) (DATE i) (DATE_PROTO i) (REGEXP i) (REGEXP_PROTO i) (ERROR i) (EVAL_ERROR i) (RANGE_ERROR i) (REFERENCE_ERROR i) (SYNTAX_ERROR i) (TYPE_ERROR i) (URI_ERROR i).
Definition set_stateStack {Host : Type} (x : option (list State.t)) (i : t Host) : t Host :=
  mk (heap i) x (paused_ i) (getterStep_ i) (setterStep_ i) (value i) (globalScope i) (globalObject i) (functionCounter_ i) (host i) (OBJECT_PROTO i) (FUNCTION_PROTO i) (FUNCTION i) (OBJECT i) (ARRAY i) (ARRAY_PROTO i) (STRING i) (BOOLEAN i) (NUMBER i) (DATE i) (DATE_PROTO i) (REGEXP i) (REGEXP_PROTO i) (ERROR i) (EVAL_ERROR i) (RANGE_ERROR i) (REFERENCE_ERROR i) (SYNTAX_ERROR i) (TYPE_ERROR i) (URI_ERROR i).
Definition set_paused_ {Host : Type} (x : bool) (i : t Host) : t Host :=
  mk (heap i) (stateStack i) x (getterStep_ i) (setterStep_ i) (value i) (globalScope i) (globalObject i) (functionCounter_ i) (host i) (OBJECT_PROTO i) (FUNCTION_PROTO i) (FUNCTION i) (OBJECT i) (ARRAY i) (ARRAY_PROTO i) (STRING i) (BOOLEAN i) (NUMBER i) (DATE i) (DATE_PROTO i) (REGEXP i) (REGEXP_PROTO i) (ERROR i) (EVAL_ERROR i) (RANGE_ERROR i) (REFERENCE_ERROR i) (SYNTAX_ERROR i) (TYPE_ERROR i) (URI_ERROR i).
Definition set_getterStep_ {Host : Type} (x : bool) (i : t Host) : t Host :=
  mk (heap i) (stateStack i) (paused_ i) x (setterStep_ i) (value i) (globalScope i) (globalObject i) (functionCounter_ i) (host i) (OBJECT_PROTO i) (FUNCTION_PROTO i) (FUNCTION i) (OBJECT i) (ARRAY i) (ARRAY_PROTO i) (STRING i) (BOOLEAN i) (NUMBER i) (DATE i) (DATE_PROTO i) (REGEXP i) (REGEXP_PROTO i) (ERROR i) (EVAL_ERROR i) (RANGE_ERROR i) (REFERENCE_ERROR i) (SYNTAX_ERROR i) (TYPE_ERROR i) (URI_ERROR i).
Definition set_setterStep_ {Host : Type} (x : bool) (i : t Host) : t Host :=
  mk (heap i) (stateStack i) (paused_ i) (getterStep_ i) x (value i) (globalScope i) (globalObject i) (functionCounter_ i) (host i) (OBJECT_PROTO i) (FUNCTION_PROTO i) (FUNCTION i) (OBJECT i) (ARRAY i) (ARRAY_PROTO i) (STRING i) (BOOLEAN i) (NUMBER i) (DATE i) (DATE_PROTO i) (REGEXP i) (REGEXP_PROTO i) (ERROR i) (EVAL_ERROR i) (RANGE_ERROR i) (REFERENCE_ERROR i) (SYNTAX_ERROR i) (TYPE_ERROR i) (URI_ERROR i).
Definition set_value {Host : Type} (x : Value) (i : t Host) : t Host :=
  mk (heap i) (stateStack i) (paused_ i) (getterStep_ i) (setterStep_ i) x (globalScope i) (globalObject i) (functionCounter_ i) (host i) (OBJECT_PROTO i) (FUNCTION_PROTO i) (FUNCTION i) (OBJECT i) (ARRAY i) (ARRAY_PROTO i) (STRING i) (BOOLEAN i) (NUMBER i) (DATE i) (DATE_PROTO i) (REGEXP i) (REGEXP_PROTO i) (ERROR i) (EVAL_ERROR i) (RANGE_ERROR i) (REFERENCE_ERROR i) (SYNTAX_ERROR i) (TYPE_ERROR i) (URI_ERROR i).
Definition set_globalScope {Host : Type} (x : Scope) (i : t Host) : t Host :=
  mk (heap i) (stateStack i) (paused_ i) (getterStep_ i) (setterStep_ i) (value i) x (globalObject i) (functionCounter_ i) (host i) (OBJECT_PROTO i) (FUNCTION_PROTO i) (FUNCTION i) (OBJECT i) (ARRAY i) (ARRAY_PROTO i) (STRING i) (BOOLEAN i) (NUMBER i) (DATE i) (DATE_PROTO i) (REGEXP i) (REGEXP_PROTO i) (ERROR i) (EVAL_ERROR i) (RANGE_ERROR i) (REFERENCE_ERROR i) (SYNTAX_ERROR i) (TYPE_ERROR i) (URI_ERROR i).
Definition set_globalObject {Host : Type} (x : loc) (i : t Host) : t Host :=
  mk (heap i) (stateStack i) (paused_ i) (getterStep_ i) (setterStep_ i) (value i) (globalScope i) x (functionCounter_ i) (host i) (OBJECT_PROTO i) (FUNCTION_PROTO i) (FUNCTION i) (OBJECT i) (ARRAY i) (ARRAY_PROTO i) (STRING i) (BOOLEAN i) (NUMBER i) (DATE i) (DATE_PROTO i) (REGEXP i) (REGEXP_PROTO i) (ERROR i) (EVAL_ERROR i) (RANGE_ERROR i) (REFERENCE_ERROR i) (SYNTAX_ERROR i) (TYPE_ERROR i) (URI_ERROR i).
Definition set_functionCounter_ {Host : Type} (x : nat) (i : t Host) : t Host :=
  mk (heap i) (stateStack i) (paused_ i) (getterStep_ i) (setterStep_ i) (value i) (globalScope i) (globalObject i) x (host i) (OBJECT_PROTO i) (FUNCTION_PROTO i) (FUNCTION i) (OBJECT i) (ARRAY i) (ARRAY_PROTO i) (STRING i) (BOOLEAN i) (NUMBER i) (DATE i) (DATE_PROTO i) (REGEXP i) (REGEXP_PROTO i) (ERROR i) (EVAL_ERROR i) (RANGE_ERROR i) (REFERENCE_ERROR i) (SYNTAX_ERROR i) (TYPE_ERROR i) (URI_ERROR i).
Definition set_host {Host : Type} (x : Host) (i : t Host) : t Host :=
  mk (heap i) (stateStack i) (paused_ i) (getterStep_ i) (setterStep_ i) (value i) (globalScope i) (globalObject i) (functionCounter_ i) x (OBJECT_PROTO i) (FUNCTION_PROTO i) (FUNCTION i) (OBJECT i) (ARRAY i) (ARRAY_PROTO i) (STRING i) (BOOLEAN i) (NUMBER i) (DATE i) (DATE_PROTO i) (REGEXP i) (REGEXP_PROTO i) (ERROR i) (EVAL_ERROR i) (RANGE_ERROR i) (REFERENCE_ERROR i) (SYNTAX_ERROR i) (TYPE_ERROR i) (URI_ERROR i).
Definition set_OBJECT_PROTO {Host : Type} (x : option loc) (i : t Host) : t Host :=
  mk (heap i) (stateStack i) (paused_ i) (getterStep_ i) (setterStep_ i) (value i) (globalScope i) (globalObject i) (functionCounter_ i) (host i) x (FUNCTION_PROTO i) (FUNCTION i) (OBJECT i) (ARRAY i) (ARRAY_PROTO i) (STRING i) (BOOLEAN i) (NUMBER i) (DATE i) (DATE_PROTO i) (REGEXP i) (REGEXP_PROTO i) (ERROR i) (EVAL_ERROR i) (RANGE_ERROR i) (REFERENCE_ERROR i) (SYNTAX_ERROR i) (TYPE_ERROR i) (URI_ERROR i).
Definition set_FUNCTION_PROTO {Host : Type} (x : option loc) (i : t Host) : t Host :=
  mk (heap i) (stateStack i) (paused_ i) (getterStep_ i) (setterStep_ i) (value i) (globalScope i) (globalObject i) (functionCounter_ i) (host i) (OBJECT_PROTO i) x (FUNCTION i) (OBJECT i) (ARRAY i) (ARRAY_PROTO i) (STRING i) (BOOLEAN i) (NUMBER i) (DATE i) (DATE_PROTO i) (REGEXP i) (REGEXP_PROTO i) (ERROR i) (EVAL_ERROR i) (RANGE_ERROR i) (REFERENCE_ERROR i) (SYNTAX_ERROR i) (TYPE_ERROR i) (URI_ERROR i).
Definition set_FUNCTION {Host : Type} (x : option loc) (i : t Host) : t Host :=
  mk (heap i) (stateStack i) (paused_ i) (getterStep_ i) (setterStep_ i) (value i) (globalScope i) (globalObject i) (functionCounter_ i) (host i) (OBJECT_PROTO i) (FUNCTION_PROTO i) x (OBJECT i) (ARRAY i) (ARRAY_PROTO i) (STRING i) (BOOLEAN i) (NUMBER i) (DATE i) (DATE_PROTO i) (REGEXP i) (REGEXP_PROTO i) (ERROR i) (EVAL_ERROR i) (RANGE_ERROR i) (REFERENCE_ERROR i) (SYNTAX_ERROR i) (TYPE_ERROR i) (URI_ERROR i).
Definition set_OBJECT {Host : Type} (x : option loc) (i : t Host) : t Host :=
  mk (heap i) (stateStack i) (paused_ i) (getterStep_ i) (setterStep_ i) (value i) (globalScope i) (globalObject i) (functionCounter_ i) (host i) (OBJECT_PROTO i) (FUNCTION_PROTO i) (FUNCTION i) x (ARRAY i) (ARRAY_PROTO i) (STRING i) (BOOLEAN i) (NUMBER i) (DATE i) (DATE_PROTO i) (REGEXP i) (REGEXP_PROTO i) (ERROR i) (EVAL_ERROR i) (RANGE_ERROR i) (REFERENCE_ERROR i) (SYNTAX_ERROR i) (TYPE_ERROR i) (URI_ERROR i).
Definition set_ARRAY {Host : Type} (x : option loc) (i : t Host) : t Host :=
  mk (heap i) (stateStack i) (paused_ i) (getterStep_ i) (setterStep_ i) (value i) (globalScope i) (globalObject i) (functionCounter_ i) (host i) (OBJECT_PROTO i) (FUNCTION_PROTO i) (FUNCTION i) (OBJECT i) x (ARRAY_PROTO i) (STRING i) (BOOLEAN i) (NUMBER i) (DATE i) (DATE_PROTO i) (REGEXP i) (REGEXP_PROTO i) (ERROR i) (EVAL_ERROR i) (RANGE_ERROR i) (REFERENCE_ERROR i) (SYNTAX_ERROR i) (TYPE_ERROR i) (URI_ERROR i).
Definition set_ARRAY_PROTO {Host : Type} (x : option loc) (i : t Host) : t Host :=
  mk (heap i) (stateStack i) (paused_ i) (getterStep_ i) (setterStep_ i) (value i) (globalScope i) (globalObject i) (functionCounter_ i) (host i) (OBJECT_PROTO i) (FUNCTION_PROTO i) (FUNCTION i) (OBJECT i) (ARRAY i) x (STRING i) (BOOLEAN i) (NUMBER i) (DATE i) (DATE_PROTO i) (REGEXP i) (REGEXP_PROTO i) (ERROR i) (EVAL_ERROR i) (RANGE_ERROR i) (REFERENCE_ERROR i) (SYNTAX_ERROR i) (TYPE_ERROR i) (URI_ERROR i).
Definition set_STRING {Host : Type} (x : option loc) (i : t Host) : t Host :=
  mk (heap i) (stateStack i) (paused_ i) (getterStep_ i) (setterStep_ i) (value i) (globalScope i) (globalObject i) (functionCounter_ i) (host i) (OBJECT_PROTO i) (FUNCTION_PROTO i) (FUNCTION i) (OBJECT i) (ARRAY i) (ARRAY_PROTO i) x (BOOLEAN i) (NUMBER i) (DATE i) (DATE_PROTO i) (REGEXP i) (REGEXP_PROTO i) (ERROR i) (EVAL_ERROR i) (RANGE_ERROR i) (REFERENCE_ERROR i) (SYNTAX_ERROR i) (TYPE_ERROR i) (URI_ERROR i).
Definition set_BOOLEAN {Host : Type} (x : option loc) (i : t Host) : t Host :=
  mk (heap i) (stateStack i) (paused_ i) (getterStep_ i) (setterStep_ i) (value i) (globalScope i) (globalObject i) (functionCounter_ i) (host i) (OBJECT_PROTO i) (FUNCTION_PROTO i) (FUNCTION i) (OBJECT i) (ARRAY i) (ARRAY_PROTO i) (STRING i) x (NUMBER i) (DATE i) (DATE_PROTO i) (REGEXP i) (REGEXP_PROTO i) (ERROR i) (EVAL_ERROR i) (RANGE_ERROR i) (REFERENCE_ERROR i) (SYNTAX_ERROR i) (TYPE_ERROR i) (URI_ERROR i).
Definition set_NUMBER {Host : Type} (x : option loc) (i : t Host) : t Host :=
  mk (heap i) (stateStack i) (paused_ i) (getterStep_ i) (setterStep_ i) (value i) (globalScope i) (globalObject i) (functionCounter_ i) (host i) (OBJECT_PROTO i) (FUNCTION_PROTO i) (FUNCTION i) (OBJECT i) (ARRAY i) (ARRAY_PROTO i) (STRING i) (BOOLEAN i) x (DATE i) (DATE_PROTO i) (REGEXP i) (REGEXP_PROTO i) (ERROR i) (EVAL_ERROR i) (RANGE_ERROR i) (REFERENCE_ERROR i) (SYNTAX_ERROR i) (TYPE_ERROR i) (URI_ERROR i).
Definition set_DATE {Host : Type} (x : option loc) (i : t Host) : t Host :=
  mk (heap i) (stateStack i) (paused_ i) (getterStep_ i) (setterStep_ i) (value i) (globalScope i) (globalObject i) (functionCounter_ i) (host i) (OBJECT_PROTO i) (FUNCTION_PROTO i) (FUNCTION i) (OBJECT i) (ARRAY i) (ARRAY_PROTO i) (STRING i) (BOOLEAN i) (NUMBER i) x (DATE_PROTO i) (REGEXP i) (REGEXP_PROTO i) (ERROR i) (EVAL_ERROR i) (RANGE_ERROR i) (REFERENCE_ERROR i) (SYNTAX_ERROR i) (TYPE_ERROR i) (URI_ERROR i).
Definition set_DATE_PROTO {Host : Type} (x : option loc) (i : t Host) : t Host :=
  mk (heap i) (stateStack i) (paused_ i) (getterStep_ i) (setterStep_ i) (value i) (globalScope i) (globalObject i) (functionCounter_ i) (host i) (OBJECT_PROTO i) (FUNCTION_PROTO i) (FUNCTION i) (OBJECT i) (ARRAY i) (ARRAY_PROTO i) (STRING i) (BOOLEAN i) (NUMBER i) (DATE i) x (REGEXP i) (REGEXP_PROTO i) (ERROR i) (EVAL_ERROR i) (RANGE_ERROR i) (REFERENCE_ERROR i) (SYNTAX_ERROR i) (TYPE_ERROR i) (URI_ERROR i).
Definition set_REGEXP {Host : Type} (x : option loc) (i : t Host) : t Host :=
  mk (heap i) (stateStack i) (paused_ i) (getterStep_ i) (setterStep_ i) (value i) (globalScope i) (globalObject i) (functionCounter_ i) (host i) (OBJECT_PROTO i) (FUNCTION_PROTO i) (FUNCTION i) (OBJECT i) (ARRAY i) (ARRAY_PROTO i) (STRING i) (BOOLEAN i) (NUMBER i) (DATE i) (DATE_PROTO i) x (REGEXP_PROTO i) (ERROR i) (EVAL_ERROR i) (RANGE_ERROR i) (REFERENCE_ERROR i) (SYNTAX_ERROR i) (TYPE_ERROR i) (URI_ERROR i).
Definition set_REGEXP_PROTO {Host : Type} (x : option loc) (i : t Host) : t Host :=
  mk (heap i) (stateStack i) (paused_ i) (getterStep_ i) (setterStep_ i) (value i) (globalScope i) (globalObject i) (functionCounter_ i) (host i) (OBJECT_PROTO i) (FUNCTION_PROTO i) (FUNCTION i) (OBJECT i) (ARRAY i) (ARRAY_PROTO i) (STRING i) (BOOLEAN i) (NUMBER i) (DATE i) (DATE_PROTO i) (REGEXP i) x (ERROR i) (EVAL_ERROR i) (RANGE_ERROR i) (REFERENCE_ERROR i) (SYNTAX_ERROR i) (TYPE_ERROR i) (URI_ERROR i).
Definition set_ERROR {Host : Type} (x : option loc) (i : t Host) : t Host :=
  mk (heap i) (stateStack i) (paused_ i) (getterStep_ i) (setterStep_ i) (value i) (globalScope i) (globalObject i) (functionCounter_ i) (host i) (OBJECT_PROTO i) (FUNCTION_PROTO i) (FUNCTION i) (OBJECT i) (ARRAY i) (ARRAY_PROTO i) (STRING i) (BOOLEAN i) (NUMBER i) (DATE i) (DATE_PROTO i) (REGEXP i) (REGEXP_PROTO i) x (EVAL_ERROR i) (RANGE_ERROR i) (REFERENCE_ERROR i) (SYNTAX_ERROR i) (TYPE_ERROR i) (URI_ERROR i).
Definition set_EVAL_ERROR {Host : Type} (x : option loc) (i : t Host) : t Host :=
  mk (heap i) (stateStack i) (paused_ i) (getterStep_ i) (setterStep_ i) (value i) (globalScope i) (globalObject i) (functionCounter_ i) (host i) (OBJECT_PROTO i) (FUNCTION_PROTO i) (FUNCTION i) (OBJECT i) (ARRAY i) (ARRAY_PROTO i) (STRING i) (BOOLEAN i) (NUMBER i) (DATE i) (DATE_PROTO i) (REGEXP i) (REGEXP_PROTO i) (ERROR i) x (RANGE_ERROR i) (REFERENCE_ERROR i) (SYNTAX_ERROR i) (TYPE_ERROR i) (URI_ERROR i).
Definition set_RANGE_ERROR {Host : Type} (x : option loc) (i : t Host) : t Host :=
  mk (heap i) (stateStack i) (paused_ i) (getterStep_ i) (setterStep_ i) (value i) (globalScope i) (globalObject i) (functionCounter_ i) (host i) (OBJECT_PROTO i) (FUNCTION_PROTO i) (FUNCTION i) (OBJECT i) (ARRAY i) (ARRAY_PROTO i) (STRING i) (BOOLEAN i) (NUMBER i) (DATE i) (DATE_PROTO i) (REGEXP i) (REGEXP_PROTO i) (ERROR i) (EVAL_ERROR i) x (REFERENCE_ERROR i) (SYNTAX_ERROR i) (TYPE_ERROR i) (URI_ERROR i).
Definition set_REFERENCE_ERROR {Host : Type} (x : option loc) (i : t Host) : t Host :=
  mk (heap i) (stateStack i) (paused_ i) (getterStep_ i) (setterStep_ i) (value i) (globalScope i) (globalObject i) (functionCounter_ i) (host i) (OBJECT_PROTO i) (FUNCTION_PROTO i) (FUNCTION i) (OBJECT i) (ARRAY i) (ARRAY_PROTO i) (STRING i) (BOOLEAN i) (NUMBER i) (DATE i) (DATE_PROTO i) (REGEXP i) (REGEXP_PROTO i) (ERROR i) (EVAL_ERROR i) (RANGE_ERROR i) x (SYNTAX_ERROR i) (TYPE_ERROR i) (URI_ERROR i).
Definition set_SYNTAX_ERROR {Host : Type} (x : option loc) (i : t Host) : t Host :=
  mk (heap i) (stateStack i) (paused_ i) (getterStep_ i) (setterStep_ i) (value i) (globalScope i) (globalObject i) (functionCounter_ i) (host i) (OBJECT_PROTO i) (FUNCTION_PROTO i) (FUNCTION i) (OBJECT i) (ARRAY i) (ARRAY_PROTO i) (STRING i) (BOOLEAN i) (NUMBER i) (DATE i) (DATE_PROTO i) (REGEXP i) (REGEXP_PROTO i) (ERROR i) (EVAL_ERROR i) (RANGE_ERROR i) (REFERENCE_ERROR i) x (TYPE_ERROR i) (URI_ERROR i).
Definition set_TYPE_ERROR {Host : Type} (x : option loc) (i : t Host) : t Host :=
  mk (heap i) (stateStack i) (paused_ i) (getterStep_ i) (setterStep_ i) (value i) (globalScope i) (globalObject i) (functionCounter_ i) (host i) (OBJECT_PROTO i) (FUNCTION_PROTO i) (FUNCTION i) (OBJECT i) (ARRAY i) (ARRAY_PROTO i) (STRING i) (BOOLEAN i) (NUMBER i) (DATE i) (DATE_PROTO i) (REGEXP i) (REGEXP_PROTO i) (ERROR i) (EVAL_ERROR i) (RANGE_ERROR i) (REFERENCE_ERROR i) (SYNTAX_ERROR i) x (URI_ERROR i).
Definition set_URI_ERROR {Host : Type} (x : option loc) (i : t Host) : t Host :=
  mk (heap i) (stateStack i) (paused_ i) (getterStep_ i) (setterStep_ i) (value i) (globalScope i) (globalObject i) (functionCounter_ i) (host i) (OBJECT_PROTO i) (FUNCTION_PROTO i) (FUNCTION i) (OBJECT i) (ARRAY i) (ARRAY_PROTO i) (STRING i) (BOOLEAN i) (NUMBER i) (DATE i) (DATE_PROTO i) (REGEXP i) (REGEXP_PROTO i) (ERROR i) (EVAL_ERROR i) (RANGE_ERROR i) (REFERENCE_ERROR i) (SYNTAX_ERROR i) (TYPE_ERROR i) x.
End Interp.

(** ** Property descriptors

    The optional fourth argument of [setProperty]: a host object whose fields
    are present ([Some]) or absent. *)
Module Descriptor.
Record t : Type := mk {
  configurable : option Value;
  enumerable : option Value;
  writable : option Value;
  value : option Value;
  get : option Value;
  set : option Value
}.
End Descriptor.

Definition READONLY_DESCRIPTOR : Descriptor.t :=
  Descriptor.mk (Some (VBool true)) (Some (VBool true)) (Some (VBool false)) None None None.
Definition NONENUMERABLE_DESCRIPTOR : Descriptor.t :=
  Descriptor.mk (Some (VBool true)) (Some (VBool false)) (Some (VBool true)) None None None.
Definition READONLY_NONENUMERABLE_DESCRIPTOR : Descriptor.t :=
  Descriptor.mk (Some (VBool true)) (Some (VBool false)) (Some (VBool false)) None None None.
Definition VARIABLE_DESCRIPTOR : Descriptor.t :=
  Descriptor.mk (Some (VBool false)) (Some (VBool true)) (Some (VBool true)) None None None.

(** The [value] argument of [setProperty]: a guest value, or the sentinel
    [VALUE_IN_DESCRIPTOR]. *)
Inductive SetValue : Type :=
| VALUE_IN_DESCRIPTOR
| Given (v : Value).

(** ** Host values and host errors *)

(** What the embedding application hands to [nativeToPseudo] and receives
    from [pseudoToNative].  A host array is the list of its slots ([None] is
    a hole); a plain host object is the list of its own enumerable entries in
    creation order.  [NativeBackReference i] is the result [pseudoToNative]
    gives for a guest object met again below itself: the host object under
    construction at depth [i]. *)
Inductive Native : Type :=
| NativeUndefined
| NativeNull
| NativeBool (b : bool)
| NativeNumber (n : number)
| NativeString (s : string)
| NativeArray (slots : list (option Native))
| NativeObject (entries : list (string * Native))
| NativeFunction (id : nat) (hasPrototype : bool)
| NativeRegExp (source flags : string) (lastIndex : Z)
| NativeDate (ms : number)
| NativePseudo (l : loc)
| NativeBackReference (i : nat).

(** A host exception: an [Error] instance by constructor name and message,
    or a thrown string. *)
Inductive HostError : Type :=
| HostErrorObject (name message : string)
| HostString (s : string).

(** What a host function called through a wrapper does. *)
Inductive HostCompletion : Type :=
| HostReturns (v : Native)
| HostThrows (e : HostError).

(** The ways a call into the engine ends: it returns, it throws the
    [STEP_ERROR] sentinel after putting a guest exception on the state stack,
    it throws a host exception, it never ends, or it reaches code outside the
    embedded fragment. *)
Inductive Outcome (Host A : Type) : Type :=
| Return (a : A) (i : Interp.t Host)
| StepError (i : Interp.t Host)
| HostThrow (e : HostError) (i : Interp.t Host)
| Diverge
| Unmodelled.
Arguments Return {Host A} a i.
Arguments StepError {Host A} i.
Arguments HostThrow {Host A} e i.
Arguments Diverge {Host A}.
Arguments Unmodelled {Host A}.

(** Engine methods as state transformers. *)
Definition M (Host A : Type) : Type := Interp.t Host -> Outcome Host A.

Definition ret {Host A} (a : A) : M Host A := fun i => Return a i.

Definition bind {Host A B} (m : M Host A) (k : A -> M Host B) : M Host B :=
  fun i =>
    match m i with
    | Return a i' => k a i'
    | StepError i' => StepError i'
    | HostThrow e i' => HostThrow e i'
    | Diverge => Diverge
    | Unmodelled => Unmodelled
    end.

Definition modify {Host} (f : Interp.t Host -> Interp.t Host) : M Host unit :=
  fun i => Return tt (f i).
Definition throwHost {Host A} (e : HostError) : M Host A := fun i => HostThrow e i.
Definition throwSTEP_ERROR {Host A} : M Host A := fun i => StepError i.
Definition diverge {Host A} : M Host A := fun _ => Diverge.
Definition unmodelled {Host A} : M Host A := fun _ => Unmodelled.

Declare Scope engine_scope.
Delimit Scope engine_scope with engine.
Notation "x <- m ;; k" := (bind m (fun x => k))
  (at level 100, m at next level, right associativity) : engine_scope.
Notation "m ;;; k" := (bind m (fun _ => k))
  (at level 100, right associativity) : engine_scope.
Local Open Scope engine_scope.

(** Conversions that call [toString] recursively end in a string, in the
    host's stack overflow, or outside the embedded fragment. *)
Inductive Conv (A : Type) : Type :=
| ConvOk (a : A)
| ConvOverflow
| ConvUnmodelled.
Arguments ConvOk {A} a.
Arguments ConvOverflow {A}.
Arguments ConvUnmodelled {A}.

Definition conv_bind {A B} (c : Conv A) (k : A -> Conv B) : Conv B :=
  match c with
  | ConvOk a => k a
  | ConvOverflow => ConvOverflow
  | ConvUnmodelled => ConvUnmodelled
  end.

Definition liftConv {Host A} (c : Conv A) : M Host A :=
  match c with
  | ConvOk a => ret a
  | ConvOverflow => throwHost (HostErrorObject "RangeError" "Maximum call stack size exceeded")
  | ConvUnmodelled => unmodelled
  end.

(** [String(v)] for a primitive. *)
Definition PrimitiveToString (v : Value) : option string :=
  match v with
  | VUndefined => Some "undefined"
  | VNull => Some "null"
  | VBool true => Some "true"
  | VBool false => Some "false"
  | VNumber n => Some (NumberToString n)
  | VString s => Some s
  | _ => None
  end.

(** The element count [for (i = 0; i < length; i++)] runs through. *)
Definition loop_bound (length : Value) : option nat :=
  match length with
  | VNumber (NInt z) => Some (Z.to_nat z)
  | VNumber (NFrac f _) => Some (Z.to_nat (f + 1))
  | VNumber NaN | VNumber (Infinity true) => Some 0%nat
  | _ => None
  end.

Fixpoint join_strings (sep : string) (l : list string) : string :=
  match l with
  | [] => ""
  | [s] => s
  | s :: l' => s +:+ sep +:+ join_strings sep l'
  end.

Definition gets {Host A} (f : Interp.t Host -> A) : M Host A := fun i => Return (f i) i.

(** Reading and updating the guest object at a place of the heap.  A place
    beyond the heap is no object of the interpreter. *)
Definition lookupObj {Host} (l : loc) : M Host Obj.t :=
  fun i => match Interp.heap i !! l with
           | Some o => Return o i
           | None => Unmodelled
           end.

Definition updateObj {Host} (l : loc) (f : Obj.t -> Obj.t) : M Host unit :=
  modify (fun i => Interp.set_heap (alter f l (Interp.heap i)) i).

(** [new S8Interpreter.Object(proto)]: the new object's place. *)
Definition allocObj {Host} (o : Obj.t) : M Host loc :=
  fun i => Return (length (Interp.heap i))
                  (Interp.set_heap (Interp.heap i ++ [o]) i).

(** A field that holds a guest object or is still [undefined]. *)
Definition fieldValue (f : option loc) : Value :=
  match f with Some l => VObject l | None => VUndefined end.


(** ** The embedding application of [test/simplerun.test.ts]

    The host keeps [parentObj] and [objFromNative]; its functions are
    numbered in the order [initFunction] registers them. *)
Module SimpleRun.

Record Host : Type := mkHost {
  val : number;
  str : string;
  objFromNative : Native
}.

(** [beforeEach]. *)
Definition start : Host := mkHost (NInt 0) "" (NativeObject []).

Definition setStr : nat := 0.
Definition getStr : nat := 1.
Definition setVal : nat := 2.
Definition getVal : nat := 3.
Definition export : nat := 4.

Definition hostFunction (f : nat) (h : Host) (args : list Native) : Host * HostCompletion :=
  let arg := default NativeUndefined (head args) in
  match f with
  | 0%nat =>
      (mkHost (val h) (match arg with NativeString s => s | _ => str h end)
              (objFromNative h), HostReturns NativeUndefined)
  | 1%nat => (h, HostReturns (NativeString (str h)))
  | 2%nat =>
      (mkHost (match arg with NativeNumber n => n | _ => val h end) (str h)
              (objFromNative h), HostReturns NativeUndefined)
  | 3%nat => (h, HostReturns (NativeNumber (val h)))
  | 4%nat => (mkHost (val h) (str h) arg, HostReturns NativeUndefined)
  | _ => (h, HostReturns NativeUndefined)
  end.

(** The test registers no async function. *)
Definition asyncFunction (f : nat) (h : Host) (args : list Value) : Host * option Value :=
  (h, None).

(** The host reads no string as a number and renders no date in these
    tests. *)
Definition hostStringToNumber (s : string) : number := NaN.
Definition hostDateToString (ms : number) : string := "Invalid Date".

(** [throw "horrible err"; setVal(2);] as the parser returns it. *)
Definition justFailing : Node :=
  Program 32
    [ThrowStatement 21 (Literal 20 (VString "horrible err"));
     ExpressionStatement 32
       (CallExpression 31 (Identifier 28 "setVal") [Literal 30 (VNumber (NInt 2))])].

(** [typeof missing] and [missing]. *)
Definition typeofMissing : Node :=
  Program 14 [ExpressionStatement 14 (UnaryExpression 14 "typeof" (Identifier 14 "missing"))].

Definition missing : Node :=
  Program 7 [ExpressionStatement 7 (Identifier 7 "missing")].

(** The empty program. *)
Definition empty : Node := Program 0 [].

End SimpleRun.
Section Engine.

(** The embedding application: its state, the host's reading of a string as
    a number where the string is not a canonical decimal integer, the host's
    rendering of a date, the host functions wrapped by [nativeToPseudo], and
    the host functions registered with [createAsyncFunction] (which either
    call back at once with a value or defer the callback). *)
Context {Host : Type}.
Variable hostStringToNumber : string -> number.
Variable hostDateToString : number -> string.
Variable hostFunction : nat -> Host -> list Native -> Host * HostCompletion.
Variable asyncFunction : nat -> Host -> list Value -> Host * option Value.

Abbreviation Interpreter := (Interp.t Host).
Abbreviation Eng := (M Host).

(** [Number(s)] for a string. *)
Definition StringToNumber (s : string) : number :=
  match canonical_decimal s with
  | Some z => NInt z
  | None => hostStringToNumber s
  end.

(** [String(obj.data)] for a slot that is not [null]. *)
Definition DataToString (d : InternalData) : string :=
  match d with
  | DataNull => "null"
  | DataBool true => "true"
  | DataBool false => "false"
  | DataNumber n => NumberToString n
  | DataString s => s
  | DataDate ms => hostDateToString ms
  | DataRegExp source flags _ => "/" +:+ source +:+ "/" +:+ flags
  end.

(** The loops of [toString] that look a key up along [obj.proto]. *)
Fixpoint protoLookup (fuel : nat) (h : Heap) (name : string) (l : loc) : Conv Value :=
  match fuel with
  | O => ConvUnmodelled
  | S fuel' =>
      match h !! l with
      | None => ConvUnmodelled
      | Some o =>
          if props_has name (Obj.properties o)
          then ConvOk (props_get name (Obj.properties o))
          else match Obj.proto o with
               | Some p => protoLookup fuel' h name p
               | None => ConvOk VUndefined
               end
      end
  end.

Fixpoint conv_map {A B} (f : A -> Conv B) (l : list A) : Conv (list B) :=
  match l with
  | [] => ConvOk []
  | a :: l' => conv_bind (f a) (fun b => conv_bind (conv_map f l') (fun bs => ConvOk (b :: bs)))
  end.

(** [S8Interpreter.Object.prototype.toString], called on the object at [l]
    while [cycles] is the content of [toStringCycles_].  The recursion runs
    through the host's call stack: [fuel] is its depth. *)
Fixpoint ObjectToString (fuel : nat) (h : Heap) (cycles : list loc) (l : loc)
  {struct fuel} : Conv string :=
  match fuel with
  | O => ConvOverflow
  | S fuel' =>
      let String_ (cycles : list loc) (v : Value) : Conv string :=
        match v with
        | VObject l' => ObjectToString fuel' h cycles l'
        | _ => match PrimitiveToString v with
               | Some s => ConvOk s
               | None => ConvUnmodelled
               end
        end in
      match h !! l with
      | None => ConvUnmodelled
      | Some this =>
          if bool_decide (Obj.class this = "Array") then
            match loop_bound (props_get "length" (Obj.properties this)) with
            | None => ConvUnmodelled
            | Some n =>
                let inside := cycles ++ [l] in
                let strs :=
                  map (fun i : nat =>
                         let value := props_get (pretty (Z.of_nat i)) (Obj.properties this) in
                         match value with
                         | VObject l' =>
                             if bool_decide (l' ∈ inside) then VString "..." else value
                         | _ => value
                         end) (seq 0 n) in
                conv_bind
                  (conv_map (fun e => match e with
                                      | VUndefined | VNull => ConvOk ""
                                      | _ => String_ cycles e
                                      end) strs)
                  (fun ss => ConvOk (join_strings "," ss))
            end
          else if bool_decide (Obj.class this = "Error") then
            if bool_decide (l ∈ cycles) then ConvOk "[object Error]"
            else
              conv_bind (protoLookup (S (length h)) h "name" l) (fun name =>
              conv_bind (protoLookup (S (length h)) h "message" l) (fun message =>
              let inside := cycles ++ [l] in
              conv_bind (if ToBoolean name
                         then conv_bind (String_ inside name) (fun s => ConvOk (VString s))
                         else ConvOk name) (fun name =>
              conv_bind (if ToBoolean message
                         then conv_bind (String_ inside message) (fun s => ConvOk (VString s))
                         else ConvOk message) (fun message =>
              if ToBoolean message
              then conv_bind (String_ cycles name) (fun n =>
                   conv_bind (String_ cycles message) (fun m =>
                   ConvOk (n +:+ ": " +:+ m)))
              else String_ cycles name))))
          else
            match Obj.data this with
            | DataNull => ConvOk ("[object " +:+ Obj.class this +:+ "]")
            | d => ConvOk (DataToString d)
            end
      end
  end.

(** [String(v)] for a guest value. *)
Definition ValueToString (h : Heap) (v : Value) : Conv string :=
  match v with
  | VObject l => ObjectToString (S (length h)) h [] l
  | _ => match PrimitiveToString v with
         | Some s => ConvOk s
         | None => ConvUnmodelled
         end
  end.

(** [Number(v)] for a guest value; an object goes through
    [S8Interpreter.Object.prototype.valueOf] and, when that returns the object
    itself, through [toString]. *)
Definition ToNumber (h : Heap) (v : Value) : Conv number :=
  match v with
  | VUndefined => ConvOk NaN
  | VNull => ConvOk (NInt 0)
  | VBool b => ConvOk (NInt (if b then 1 else 0))
  | VNumber n => ConvOk n
  | VString s => ConvOk (StringToNumber s)
  | VObject l =>
      match h !! l with
      | None => ConvUnmodelled
      | Some o =>
          match Obj.data o with
          | DataNull | DataRegExp _ _ _ =>
              conv_bind (ObjectToString (S (length h)) h [] l)
                        (fun s => ConvOk (StringToNumber s))
          | DataDate ms => ConvOk ms
          | DataBool b => ConvOk (NInt (if b then 1 else 0))
          | DataNumber n => ConvOk n
          | DataString s => ConvOk (StringToNumber s)
          end
      end
  | VScopeReference _ | VPropertyReference _ _ => ConvUnmodelled
  end.

(** [S8Interpreter.legalArrayLength]: [NaN] or the length. *)
Definition legalArrayLength (h : Heap) (x : Value) : Conv number :=
  conv_bind (ToNumber h x) (fun x_number =>
  let n := ToUint32 x_number in
  ConvOk (if number_strict_eq (NInt n) x_number then NInt n else NaN)).

(** [S8Interpreter.legalArrayIndex] on a string: [NaN] or the index. *)
Definition legalArrayIndex (x : string) : number :=
  let n := ToUint32 (StringToNumber x) in
  if bool_decide (pretty n = x) && negb (n =? 4294967295) then NInt n else NaN.

(** [a === b] on guest values; two host arrays are never the same object. *)
Definition strict_equals (a b : Value) : bool :=
  match a, b with
  | VNumber x, VNumber y => number_strict_eq x y
  | VScopeReference _, _ | VPropertyReference _ _, _ => false
  | _, _ => bool_decide (a = b)
  end.

(** [constructor.properties['prototype']] for a built-in constructor field. *)
Definition constructorPrototype (constructor : option loc) : Eng Value :=
  match constructor with
  | None => throwHost (HostErrorObject "TypeError" "Cannot read properties of undefined")
  | Some c => co <- lookupObj c ;; ret (props_get "prototype" (Obj.properties co))
  end.

(** [value.proto], read off any value. *)
Definition protoField (value : Value) : Eng Value :=
  match value with
  | VObject l =>
      o <- lookupObj l ;;
      ret (match Obj.proto o with Some p => VObject p | None => VNull end)
  | _ => ret VUndefined
  end.

(** [S8Interpreter.prototype.getPrototype]. *)
Definition getPrototype (value : Value) : Eng Value :=
  match value with
  | VNumber _ => i <- gets id ;; constructorPrototype (Interp.NUMBER i)
  | VBool _ => i <- gets id ;; constructorPrototype (Interp.BOOLEAN i)
  | VString _ => i <- gets id ;; constructorPrototype (Interp.STRING i)
  | _ => if ToBoolean value then protoField value else ret VNull
  end.

(** The loop of [isa]: [while (child) { ...; child = child.proto; }]. *)
Fixpoint isa_loop (fuel : nat) (child proto : Value) : Eng bool :=
  match fuel with
  | O => diverge
  | S fuel' =>
      if ToBoolean child then
        if strict_equals child proto then ret true
        else next <- protoField child ;; isa_loop fuel' next proto
      else ret false
  end.

(** [S8Interpreter.prototype.isa]. *)
Definition isa (child : Value) (constructor : option loc) : Eng bool :=
  match child, constructor with
  | VNull, _ | VUndefined, _ | _, None => ret false
  | _, Some c =>
      co <- lookupObj c ;;
      let proto := props_get "prototype" (Obj.properties co) in
      if strict_equals child proto then ret true
      else
        child' <- getPrototype child ;;
        h <- gets Interp.heap ;;
        isa_loop (S (length h)) child' proto
  end.

(** [String(v)] inside the engine. *)
Definition String_ (v : Value) : Eng string :=
  h <- gets Interp.heap ;; liftConv (ValueToString h v).

(** [name.charCodeAt(0) < 0x40]. *)
Definition startsBelow0x40 (name : string) : bool :=
  match name with
  | EmptyString => false
  | String c _ => (nat_of_ascii c <? 64)%nat
  end.

(** [s[n]]. *)
Definition charAt (s : string) (n : Z) : Value :=
  match String.get (Z.to_nat n) s with
  | Some c => VString (String c EmptyString)
  | None => VUndefined
  end.

(** The loop of [getProperty]:
    [do { ... } while ((obj = this.getPrototype(obj)))]. *)
Fixpoint getProperty_loop (fuel : nat) (obj : Value) (name : string) : Eng Value :=
  match fuel with
  | O => diverge
  | S fuel' =>
      owner <- match obj with
               | VObject l =>
                   o <- lookupObj l ;;
                   ret (if props_has name (Obj.properties o) then Some o else None)
               | _ => ret None
               end ;;
      match owner with
      | Some o =>
          match Obj.getter o !! name with
          | Some getter =>
              if ToBoolean getter
              then modify (Interp.set_getterStep_ true) ;;; ret getter
              else ret (props_get name (Obj.properties o))
          | None => ret (props_get name (Obj.properties o))
          end
      | None =>
          next <- getPrototype obj ;;
          if ToBoolean next then getProperty_loop fuel' next name else ret VUndefined
      end
  end.

(** [S8Interpreter.prototype.getProperty], with [name] already a string. *)
Definition getProperty_ (throwException : Value -> option string -> Eng Value)
    (obj : Value) (name : string) : Eng Value :=
  getterStep <- gets Interp.getterStep_ ;;
  if getterStep then throwHost (HostErrorObject "Error" "Getter not supported in that context")
  else
    match obj with
    | VUndefined | VNull =>
        i <- gets id ;;
        s <- String_ obj ;;
        throwException (fieldValue (Interp.TYPE_ERROR i))
          (Some ("Cannot read property '" +:+ name +:+ "' of " +:+ s))
    | _ => ret VUndefined
    end ;;;
    if isHostObject obj
    then throwHost (HostErrorObject "TypeError" "Expecting native value or pseudo object")
    else
      i <- gets id ;;
      magic <-
        (if bool_decide (name = "length") then
           isString <- isa obj (Interp.STRING i) ;;
           if isString
           then s <- String_ obj ;; ret (Some (VNumber (NInt (Z.of_nat (String.length s)))))
           else ret None
         else if startsBelow0x40 name then
           isString <- isa obj (Interp.STRING i) ;;
           if isString then
             match legalArrayIndex name with
             | NInt n =>
                 s <- String_ obj ;;
                 if n <? Z.of_nat (String.length s) then ret (Some (charAt s n)) else ret None
             | _ => ret None
             end
           else ret None
         else ret None) ;;
      match magic with
      | Some v => ret v
      | None => getProperty_loop (S (S (length (Interp.heap i)))) obj name
      end.

(** The loop of [hasProperty]. *)
Fixpoint hasProperty_loop (fuel : nat) (obj : Value) (name : string) : Eng bool :=
  match fuel with
  | O => diverge
  | S fuel' =>
      own <- match obj with
             | VObject l => o <- lookupObj l ;; ret (props_has name (Obj.properties o))
             | _ => ret false
             end ;;
      if own : bool then ret true
      else
        next <- getPrototype obj ;;
        if ToBoolean next then hasProperty_loop fuel' next name else ret false
  end.

(** [S8Interpreter.prototype.hasProperty], with [name] already a string. *)
Definition hasProperty (obj : Value) (name : string) : Eng bool :=
  if negb (isPseudoObject obj)
  then throwHost (HostErrorObject "TypeError" "Primitive data type has no properties")
  else
    i <- gets id ;;
    lengthOfString <-
      (if bool_decide (name = "length") then isa obj (Interp.STRING i) else ret false) ;;
    if lengthOfString : bool then ret true
    else
      isString <- isa obj (Interp.STRING i) ;;
      inString <-
        (if isString : bool then
           match legalArrayIndex name with
           | NInt n => s <- String_ obj ;; ret (n <? Z.of_nat (String.length s))
           | _ => ret false
           end
         else ret false) ;;
      if inString : bool then ret true
      else hasProperty_loop (S (S (length (Interp.heap i)))) obj name.

(** [S8Interpreter.prototype.hasProperty] as the [in] operator calls it,
    with a guest value for [name]: the test of the receiver comes first,
    then [name = String(name)], which runs the host's conversion and throws
    what that throws, then the rest of the function, which is
    [hasProperty]. *)
Definition hasProperty_value (obj name : Value) : Eng bool :=
  if negb (isPseudoObject obj)
  then throwHost (HostErrorObject "TypeError" "Primitive data type has no properties")
  else
    name <- String_ name ;;
    hasProperty obj name.

(** [S8Interpreter.prototype.createObjectProto]. *)
Definition createObjectProto (proto : Value) : Eng loc :=
  match proto with
  | VNull | VObject _ =>
      l <- allocObj (Obj.new (match proto with VObject p => Some p | _ => None end)) ;;
      i <- gets id ;;
      isError <- isa (VObject l) (Interp.ERROR i) ;;
      (if isError : bool then updateObj l (Obj.set_class "Error") else ret tt) ;;;
      ret l
  | VScopeReference _ | VPropertyReference _ _ => unmodelled
  | _ => throwHost (HostErrorObject "Error" "Non object prototype")
  end.

(** [S8Interpreter.prototype.createObject]. *)
Definition createObject (constructor : Value) : Eng loc :=
  match constructor with
  | VObject c =>
      co <- lookupObj c ;;
      createObjectProto (props_get "prototype" (Obj.properties co))
  | VScopeReference _ | VPropertyReference _ _ => unmodelled
  | _ =>
      if ToBoolean constructor
      then throwHost (HostErrorObject "TypeError" "Cannot read properties of undefined")
      else createObjectProto constructor
  end.

(** [S8Interpreter.prototype.getScope]. *)
Definition getScope : Eng Scope :=
  stack <- gets Interp.stateStack ;;
  match stack with
  | None | Some [] =>
      throwHost (HostErrorObject "TypeError" "Cannot read properties of undefined")
  | Some (top :: _) =>
      match State.scope top with
      | [] => throwHost (HostErrorObject "Error" "No scope found.")
      | scope => ret scope
      end
  end.

(** [scope.strict]. *)
Definition scopeStrict (s : Scope) : bool :=
  match s with
  | e :: _ => strict e
  | [] => false
  end.

(** The loop of [setProperty] that deletes the elements beyond a new array
    length: [for (i in obj.properties)] over the keys listed when the loop
    starts.  The flag tells whether every [delete] went through: the host
    throws a TypeError on an element that is not configurable. *)
Fixpoint truncateArray (value : Z) (keys : list string) (ps : Properties)
  : Properties * bool :=
  match keys with
  | [] => (ps, true)
  | k :: keys' =>
      match legalArrayIndex k with
      | NInt i =>
          if value <=? i
          then match props_delete (pretty i) ps with
               | Some ps' => truncateArray value keys' ps'
               | None => (ps, false)
               end
          else truncateArray value keys' ps
      | _ => truncateArray value keys' ps
      end
  end.

(** The loop of [setProperty] that finds the object defining [name]:
    [while (!(name in defObj.properties))]. *)
Fixpoint findDefObj (fuel : nat) (obj defObj : loc) (name : string) : Eng loc :=
  match fuel with
  | O => diverge
  | S fuel' =>
      d <- lookupObj defObj ;;
      if props_has name (Obj.properties d) then ret defObj
      else
        next <- getPrototype (VObject defObj) ;;
        match next with
        | VObject p => findDefObj fuel' obj p name
        | _ => if ToBoolean next then unmodelled else ret obj
        end
  end.

Definition hostDescriptorOf (d : Descriptor.t) (value : option Value) : HostDescriptor :=
  mkHostDescriptor (ToBoolean <$> Descriptor.configurable d)
                   (ToBoolean <$> Descriptor.enumerable d)
                   (ToBoolean <$> Descriptor.writable d)
                   value.

Definition isSome {A} (o : option A) : bool :=
  match o with Some _ => true | None => false end.

(** [m[name]] when the entry is there and truthy. *)
Definition truthyEntry (m : gmap string Value) (name : string) : option Value :=
  match m !! name with
  | Some v => if ToBoolean v then Some v else None
  | None => None
  end.

(** The accessor part of the descriptor branch: ['get' in opt_descriptor]
    and ['set' in opt_descriptor]. *)
Definition defineAccessor (field : option Value) (name : string)
    (m : gmap string Value) : gmap string Value :=
  match field with
  | Some f => if ToBoolean f then <[name := f]> m else delete name m
  | None => m
  end.

(** [delete obj.getter[name]; delete obj.setter[name];] *)
Definition clearAccessors (name : string) (o : Obj.t) : Obj.t :=
  Obj.set_setter (delete name (Obj.setter o))
    (Obj.set_getter (delete name (Obj.getter o)) o).

Section SetProperty.

(** [setProperty] raises guest exceptions through [throwException], which
    itself calls [setProperty] to put the message on the error object. *)
Variable throwException : Value -> option string -> Eng Value.

(** [if (obj.class === 'Array') { ... }]: the magic [length].  [None] is the
    [return] inside; otherwise the value to go on with. *)
Definition setProperty_array (l : loc) (name : string) (value : SetValue)
    (opt_descriptor : option Descriptor.t) : Eng (option SetValue) :=
  o <- lookupObj l ;;
  if bool_decide (Obj.class o = "Array") then
    let length := props_get "length" (Obj.properties o) in
    if bool_decide (name = "length") then
      let proceed (value : SetValue) : Eng (option SetValue) :=
        i <- gets id ;;
        legal <- match value with
                 | Given v => liftConv (legalArrayLength (Interp.heap i) v)
                 | VALUE_IN_DESCRIPTOR => ret NaN
                 end ;;
        (if isNaN legal
         then throwException (fieldValue (Interp.RANGE_ERROR i)) (Some "Invalid array length")
         else ret VUndefined) ;;;
        match legal with
        | NInt value =>
            h <- gets Interp.heap ;;
            lengthNumber <- liftConv (ToNumber h length) ;;
            if int_lt_number value lengthNumber then
              o <- lookupObj l ;;
              let '(ps, deleted) :=
                truncateArray value (props_forin (Obj.properties o)) (Obj.properties o) in
              updateObj l (Obj.set_properties ps) ;;;
              if deleted : bool then ret tt
              else throwHost (HostErrorObject "TypeError" "Cannot delete property")
            else ret tt
        | _ => ret tt
        end ;;;
        ret (Some (Given (VNumber legal))) in
      match opt_descriptor with
      | Some d =>
          match Descriptor.value d with
          | None => ret None
          | Some v => proceed (Given v)
          end
      | None => proceed value
      end
    else
      match legalArrayIndex name with
      | NInt i =>
          h <- gets Interp.heap ;;
          lengthNumber <- liftConv (ToNumber h length) ;;
          match props_assign "length" (VNumber (Math_max lengthNumber (i + 1)))
                  (Obj.properties o) with
          | Some ps => updateObj l (Obj.set_properties ps)
          | None =>
              throwHost (HostErrorObject "TypeError" "Cannot assign to read only property")
          end
      | _ => ret tt
      end ;;;
      ret (Some value)
  else ret (Some value).

(** [if (opt_descriptor) { ... }]: define the property. *)
Definition setProperty_define (l : loc) (name : string) (value : SetValue)
    (d : Descriptor.t) : Eng Value :=
  updateObj l (fun o => Obj.set_getter (defineAccessor (Descriptor.get d) name (Obj.getter o)) o) ;;;
  updateObj l (fun o => Obj.set_setter (defineAccessor (Descriptor.set d) name (Obj.setter o)) o) ;;;
  (if isSome (Descriptor.writable d) then updateObj l (clearAccessors name) else ret tt) ;;;
  descriptorValue <-
    match Descriptor.value d, value with
    | Some v, _ => updateObj l (clearAccessors name) ;;; ret (Some v)
    | None, Given v => updateObj l (clearAccessors name) ;;; ret (Some v)
    | None, VALUE_IN_DESCRIPTOR => ret None
    end ;;
  o <- lookupObj l ;;
  match props_define name (hostDescriptorOf d descriptorValue) (Obj.properties o) with
  | Some ps => updateObj l (Obj.set_properties ps) ;;; ret VUndefined
  | None =>
      i <- gets id ;;
      throwException (fieldValue (Interp.TYPE_ERROR i))
        (Some ("Cannot redefine property: " +:+ name)) ;;;
      ret VUndefined
  end.

(** [else { ... }]: set the property. *)
Definition setProperty_assign (l : loc) (name : string) (value : SetValue)
    (strict : bool) : Eng Value :=
  match value with
  | VALUE_IN_DESCRIPTOR => throwHost (HostErrorObject "ReferenceError" "Value not specified.")
  | Given v =>
      i <- gets id ;;
      defObj <- findDefObj (S (length (Interp.heap i))) l l name ;;
      d <- lookupObj defObj ;;
      match truthyEntry (Obj.setter d) name with
      | Some setter => modify (Interp.set_setterStep_ true) ;;; ret setter
      | None =>
          match truthyEntry (Obj.getter d) name with
          | Some _ =>
              if strict then
                s <- String_ (VObject l) ;;
                throwException (fieldValue (Interp.TYPE_ERROR i))
                  (Some ("Cannot set property '" +:+ name +:+ "' of object '" +:+ s
                         +:+ "' which only has a getter")) ;;;
                ret VUndefined
              else ret VUndefined
          | None =>
              o <- lookupObj l ;;
              match props_assign name v (Obj.properties o) with
              | Some ps => updateObj l (Obj.set_properties ps) ;;; ret VUndefined
              | None =>
                  if strict then
                    s <- String_ (VObject l) ;;
                    throwException (fieldValue (Interp.TYPE_ERROR i))
                      (Some ("Cannot assign to read only property '" +:+ name
                             +:+ "' of object '" +:+ s +:+ "'")) ;;;
                    ret VUndefined
                  else ret VUndefined
              end
          end
      end
  end.

(** The part of [setProperty] that runs when [obj] is a guest object. *)
Definition setProperty_object (l : loc) (name : string) (value : SetValue)
    (opt_descriptor : option Descriptor.t) (strict : bool) : Eng Value :=
  i <- gets id ;;
  isString <- isa (VObject l) (Interp.STRING i) ;;
  readOnly <-
    (if isString : bool then
       if bool_decide (name = "length") then ret true
       else match legalArrayIndex name with
            | NInt n => s <- String_ (VObject l) ;; ret (n <? Z.of_nat (String.length s))
            | _ => ret false
            end
     else ret false) ;;
  if readOnly : bool then
    if strict then
      o <- lookupObj l ;;
      throwException (fieldValue (Interp.TYPE_ERROR i))
        (Some ("Cannot assign to read only property '" +:+ name +:+ "' of String '"
               +:+ DataToString (Obj.data o) +:+ "'")) ;;;
      ret VUndefined
    else ret VUndefined
  else
    magic <- setProperty_array l name value opt_descriptor ;;
    match magic with
    | None => ret VUndefined
    | Some value =>
        o <- lookupObj l ;;
        if Obj.preventExtensions o && negb (props_has name (Obj.properties o)) then
          if strict then
            throwException (fieldValue (Interp.TYPE_ERROR i))
              (Some ("Can't add property '" +:+ name +:+ "', object is not extensible")) ;;;
            ret VUndefined
          else ret VUndefined
        else
          match opt_descriptor with
          | Some d => setProperty_define l name value d
          | None => setProperty_assign l name value strict
          end
    end.

(** [S8Interpreter.prototype.setProperty], with [name] already a string.
    The result is the setter to call, or [undefined]. *)
Definition setProperty_ (obj : Value) (name : string) (value : SetValue)
    (opt_descriptor : option Descriptor.t) : Eng Value :=
  setterStep <- gets Interp.setterStep_ ;;
  if setterStep then throwHost (HostErrorObject "Error" "Setter not supported in that context")
  else
    match obj with
    | VUndefined | VNull =>
        i <- gets id ;;
        s <- String_ obj ;;
        throwException (fieldValue (Interp.TYPE_ERROR i))
          (Some ("Cannot set property '" +:+ name +:+ "' of " +:+ s))
    | _ => ret VUndefined
    end ;;;
    if isHostObject obj
    then throwHost (HostErrorObject "TypeError" "Expecting native value or pseudo object")
    else
      match opt_descriptor with
      | Some d =>
          if (isSome (Descriptor.get d) || isSome (Descriptor.set d))
             && (isSome (Descriptor.value d) || isSome (Descriptor.writable d))
          then
            i <- gets id ;;
            throwException (fieldValue (Interp.TYPE_ERROR i))
              (Some ("Invalid property descriptor. "
                     +:+ "Cannot both specify accessors and a value or writable attribute"))
          else ret VUndefined
      | None => ret VUndefined
      end ;;;
      stack <- gets Interp.stateStack ;;
      strict <- match stack with
                | None => ret true
                | Some _ => scope <- getScope ;; ret (scopeStrict scope)
                end ;;
      match obj with
      | VObject l => setProperty_object l name value opt_descriptor strict
      | _ =>
          if strict : bool then
            i <- gets id ;;
            s <- String_ obj ;;
            throwException (fieldValue (Interp.TYPE_ERROR i))
              (Some ("Can't create property '" +:+ name +:+ "' on '" +:+ s +:+ "'")) ;;;
            ret VUndefined
          else ret VUndefined
      end.

End SetProperty.

(** How the loop of [unwind] ends: the function returns, the loop is left
    with the completion unhandled, or a host error is thrown. *)
Inductive UnwindExit : Type :=
| UnwindReturn
| UnwindUnhandled
| UnwindError (e : HostError).

(** [label ? (state.labels && state.labels.indexOf(label) !== -1) : other]. *)
Definition labelTest (label : option string) (state : State.t) (other : bool) : bool :=
  match label with
  | Some l =>
      if bool_decide (l = "") then other
      else match State.labels state with
           | Some ls => bool_decide (l ∈ ls)
           | None => false
           end
  | None => other
  end.

(** The loop of [unwind] over the state stack (top first):
    [for (const stack = this.stateStack; stack.length > 0; stack.pop())]. *)
Fixpoint unwind_loop (type : Completion) (value : Value) (label : option string)
    (stack : list State.t) : list State.t * UnwindExit :=
  match stack with
  | [] => ([], UnwindUnhandled)
  | state :: rest =>
      let after_switch :=
        match type with
        | BREAK =>
            if labelTest label state (State.isLoop state || State.isSwitch state)
            then (rest, UnwindReturn)
            else unwind_loop type value label rest
        | CONTINUE =>
            if labelTest label state (State.isLoop state)
            then (stack, UnwindReturn)
            else unwind_loop type value label rest
        | _ => unwind_loop type value label rest
        end in
      match State.node state with
      | TryStatement _ _ _ _ =>
          (State.set_cv (Some (mkCV type value label)) state :: rest, UnwindReturn)
      | CallExpression _ _ _ | NewExpression _ _ _ | SyntheticCall =>
          match type with
          | RETURN => (State.set_value value state :: rest, UnwindReturn)
          | THROW => after_switch
          | _ => (stack, UnwindError (HostErrorObject "Error"
                            "Unsynatctic break/continue not rejected by Acorn"))
          end
      | Program _ _ => (State.set_done true state :: rest, UnwindUnhandled)
      | _ => after_switch
      end
  end.

(** [S8Interpreter.Object.prototype.valueOf] on a guest value. *)
Definition valueOf (v : Value) : Eng Value :=
  match v with
  | VObject l =>
      o <- lookupObj l ;;
      ret (match Obj.data o with
           | DataNull | DataRegExp _ _ _ => v
           | DataDate ms => VNumber ms
           | DataBool b => VBool b
           | DataNumber n => VNumber n
           | DataString s => VString s
           end)
  | VUndefined | VNull =>
      throwHost (HostErrorObject "TypeError" "Cannot read properties of undefined")
  | VScopeReference _ | VPropertyReference _ _ => unmodelled
  | _ => ret v
  end.

(** [errorTable[name] || Error]: the host constructor's name. *)
Definition errorConstructorName (name : string) : string :=
  if bool_decide (name ∈ ["EvalError"; "RangeError"; "ReferenceError";
                          "SyntaxError"; "TypeError"; "URIError"])
  then name else "Error".

(** The names [errorTable] inherits from the host's [Object.prototype]:
    [errorTable[name]] is then no error constructor. *)
Definition inheritedNames : list string :=
  ["constructor"; "__defineGetter__"; "__defineSetter__"; "hasOwnProperty";
   "__lookupGetter__"; "__lookupSetter__"; "isPrototypeOf"; "propertyIsEnumerable";
   "toString"; "valueOf"; "__proto__"; "toLocaleString"].

(** [S8Interpreter.prototype.unwind].  What the host makes of a guest error
    named by one of [inheritedNames] is outside the embedding. *)
Definition unwind (type : Completion) (value : Value) (label : option string) : Eng unit :=
  if bool_decide (type = NORMAL)
  then throwHost (HostErrorObject "TypeError" "Should not unwind for NORMAL completions")
  else
    stack <- gets Interp.stateStack ;;
    match stack with
    | None => throwHost (HostErrorObject "TypeError" "Cannot read properties of undefined")
    | Some stack =>
        let '(stack', exit) := unwind_loop type value label stack in
        modify (Interp.set_stateStack (Some stack')) ;;;
        match exit with
        | UnwindReturn => ret tt
        | UnwindError e => throwHost e
        | UnwindUnhandled =>
            i <- gets id ;;
            isError <- isa value (Interp.ERROR i) ;;
            if isError : bool then
              nameValue <- getProperty_ (fun _ _ => unmodelled) value "name" ;;
              name <- String_ nameValue ;;
              messageValue <- getProperty_ (fun _ _ => unmodelled) value "message" ;;
              message <- valueOf messageValue ;;
              text <- String_ message ;;
              if bool_decide (name ∈ inheritedNames) then unmodelled
              else throwHost (HostErrorObject (errorConstructorName name) text)
            else
              s <- String_ value ;;
              throwHost (HostString s)
        end
    end.

(** [S8Interpreter.prototype.throwException]: [opt_message] is [None] when
    the first argument is the value to throw. *)
Definition throwException (errorClass : Value) (opt_message : option string) : Eng Value :=
  error <- match opt_message with
           | None => ret errorClass
           | Some message =>
               e <- createObject errorClass ;;
               setProperty_ (fun _ _ => unmodelled) (VObject e) "message"
                 (Given (VString message)) (Some NONENUMERABLE_DESCRIPTOR) ;;;
               ret (VObject e)
           end ;;
  unwind THROW error None ;;;
  throwSTEP_ERROR.

(** [S8Interpreter.prototype.getProperty] and
    [S8Interpreter.prototype.setProperty]. *)
Definition getProperty : Value -> string -> Eng Value := getProperty_ throwException.

Definition setProperty : Value -> string -> SetValue -> option Descriptor.t -> Eng Value :=
  setProperty_ throwException.

(** [S8Interpreter.prototype.createArray]. *)
Definition createArray : Eng loc :=
  i <- gets id ;;
  array <- createObjectProto (fieldValue (Interp.ARRAY_PROTO i)) ;;
  setProperty (VObject array) "length" (Given (VNumber (NInt 0)))
    (Some (Descriptor.mk (Some (VBool false)) (Some (VBool false)) (Some (VBool true))
             None None None)) ;;;
  updateObj array (Obj.set_class "Array") ;;;
  ret array.

(** [S8Interpreter.prototype.createFunctionBase_]. *)
Definition createFunctionBase_ (argumentLength : Z) (isConstructor : bool) : Eng loc :=
  i <- gets id ;;
  func <- createObjectProto (fieldValue (Interp.FUNCTION_PROTO i)) ;;
  (if isConstructor then
     i <- gets id ;;
     proto <- createObjectProto (fieldValue (Interp.OBJECT_PROTO i)) ;;
     setProperty (VObject func) "prototype" (Given (VObject proto))
       (Some NONENUMERABLE_DESCRIPTOR) ;;;
     setProperty (VObject proto) "constructor" (Given (VObject func))
       (Some NONENUMERABLE_DESCRIPTOR) ;;;
     ret tt
   else updateObj func (Obj.set_illegalConstructor true)) ;;;
  setProperty (VObject func) "length" (Given (VNumber (NInt argumentLength)))
    (Some READONLY_NONENUMERABLE_DESCRIPTOR) ;;;
  updateObj func (Obj.set_class "Function") ;;;
  ret func.

(** [S8Interpreter.prototype.createNativeFunction]; [argumentLength] is
    [nativeFunc.length]. *)
Definition createNativeFunction (nativeFunc : NativeFunc) (argumentLength : Z)
    (isConstructor : bool) : Eng loc :=
  func <- createFunctionBase_ argumentLength isConstructor ;;
  updateObj func (Obj.set_nativeFunc (Some nativeFunc)) ;;;
  modify (fun i => Interp.set_functionCounter_ (S (Interp.functionCounter_ i)) i) ;;;
  ret func.

(** [S8Interpreter.prototype.createAsyncFunction]; [argumentLength] is
    [asyncFunc.length], which the call site reads again. *)
Definition createAsyncFunction (asyncFunc : nat) (argumentLength : nat) : Eng loc :=
  func <- createFunctionBase_ (Z.of_nat argumentLength) true ;;
  updateObj func (Obj.set_asyncFunc (Some (asyncFunc, argumentLength))) ;;;
  modify (fun i => Interp.set_functionCounter_ (S (Interp.functionCounter_ i)) i) ;;;
  ret func.

(** [flags] has the letter [c]. *)
Fixpoint hasFlag (c : ascii) (flags : string) : bool :=
  match flags with
  | EmptyString => false
  | String c' flags' => bool_decide (c = c') || hasFlag c flags'
  end.

(** [S8Interpreter.prototype.populateRegExp]. *)
Definition populateRegExp (pseudoRegexp : loc) (source flags : string) (lastIndex : Z)
  : Eng unit :=
  updateObj pseudoRegexp (Obj.set_data (DataRegExp source flags 0)) ;;;
  setProperty (VObject pseudoRegexp) "lastIndex" (Given (VNumber (NInt lastIndex)))
    (Some NONENUMERABLE_DESCRIPTOR) ;;;
  setProperty (VObject pseudoRegexp) "source" (Given (VString source))
    (Some READONLY_NONENUMERABLE_DESCRIPTOR) ;;;
  setProperty (VObject pseudoRegexp) "global" (Given (VBool (hasFlag "g" flags)))
    (Some READONLY_NONENUMERABLE_DESCRIPTOR) ;;;
  setProperty (VObject pseudoRegexp) "ignoreCase" (Given (VBool (hasFlag "i" flags)))
    (Some READONLY_NONENUMERABLE_DESCRIPTOR) ;;;
  setProperty (VObject pseudoRegexp) "multiline" (Given (VBool (hasFlag "m" flags)))
    (Some READONLY_NONENUMERABLE_DESCRIPTOR) ;;;
  ret tt.

(** [S8Interpreter.prototype.nativeToPseudo].  The two loops are the inner
    fixpoints: over the slots of a host array from index [i] on, and over the
    entries of a plain host object in the order the host enumerates them. *)
Fixpoint nativeToPseudo (nativeObj : Native) : Eng Value :=
  match nativeObj with
  | NativePseudo _ => throwHost (HostErrorObject "Error" "Object is already pseudo")
  | NativeUndefined => ret VUndefined
  | NativeNull => ret VNull
  | NativeBool b => ret (VBool b)
  | NativeNumber n => ret (VNumber n)
  | NativeString s => ret (VString s)
  | NativeRegExp source flags lastIndex =>
      i <- gets id ;;
      pseudoRegexp <- createObjectProto (fieldValue (Interp.REGEXP_PROTO i)) ;;
      populateRegExp pseudoRegexp source flags lastIndex ;;;
      ret (VObject pseudoRegexp)
  | NativeDate ms =>
      i <- gets id ;;
      pseudoDate <- createObjectProto (fieldValue (Interp.DATE_PROTO i)) ;;
      updateObj pseudoDate (Obj.set_data (DataDate ms)) ;;;
      ret (VObject pseudoDate)
  | NativeFunction f hasPrototype =>
      func <- createNativeFunction (NativeWrapper f) 0 hasPrototype ;;
      ret (VObject func)
  | NativeArray slots =>
      pseudoArray <- createArray ;;
      (fix loop (slots : list (option Native)) (i : Z) : Eng unit :=
         match slots with
         | [] => ret tt
         | None :: slots' => loop slots' (i + 1)
         | Some element :: slots' =>
             v <- nativeToPseudo element ;;
             setProperty (VObject pseudoArray) (pretty i) (Given v) None ;;;
             loop slots' (i + 1)
         end) slots 0 ;;;
      ret (VObject pseudoArray)
  | NativeObject entries =>
      i <- gets id ;;
      pseudoObj <- createObjectProto (fieldValue (Interp.OBJECT_PROTO i)) ;;
      (fix loop (entries : list (string * Native)) : Eng unit :=
         match entries with
         | [] => ret tt
         | (key, element) :: entries' =>
             v <- nativeToPseudo element ;;
             setProperty (VObject pseudoObj) key (Given v) None ;;;
             loop entries'
         end) entries ;;;
      ret (VObject pseudoObj)
  | NativeBackReference _ => unmodelled
  end.

(** [cycles.pseudo.indexOf(pseudoObj)]. *)
Fixpoint indexOf (l : loc) (ls : list loc) : option nat :=
  match ls with
  | [] => None
  | x :: ls' => if bool_decide (x = l) then Some 0%nat else S <$> indexOf l ls'
  end.

(** A host array as built by assignments to its indices: the holes after
    the last element are no part of it. *)
Fixpoint trimHoles (slots : list (option Native)) : list (option Native) :=
  match slots with
  | [] => []
  | s :: slots' =>
      match s, trimHoles slots' with
      | None, [] => []
      | _, rest => s :: rest
      end
  end.

Definition fromPrimitive (v : Value) : option Native :=
  match v with
  | VUndefined => Some NativeUndefined
  | VNull => Some NativeNull
  | VBool b => Some (NativeBool b)
  | VNumber n => Some (NativeNumber n)
  | VString s => Some (NativeString s)
  | _ => None
  end.

(** [S8Interpreter.prototype.pseudoToNative]; [cycles] is [cycles.pseudo]
    ([cycles.native] runs parallel to it), [fuel] bounds the depth of the
    recursion, which never exceeds the number of objects of the heap. *)
Fixpoint pseudoToNative_ (fuel : nat) (pseudoObj : Value) (cycles : list loc)
  {struct fuel} : Eng Native :=
  match fuel with
  | O => unmodelled
  | S fuel' =>
      match pseudoObj with
      | VScopeReference _ | VPropertyReference _ _ =>
          throwHost (HostErrorObject "Error" "Object is not pseudo")
      | VObject l =>
          i <- gets id ;;
          isRegExp <- isa pseudoObj (Interp.REGEXP i) ;;
          if isRegExp : bool then
            o <- lookupObj l ;;
            match Obj.data o with
            | DataRegExp source flags lastIndex => ret (NativeRegExp source flags lastIndex)
            | DataNull =>
                throwHost (HostErrorObject "TypeError" "Cannot read properties of null")
            | _ => unmodelled
            end
          else
            isDate <- isa pseudoObj (Interp.DATE i) ;;
            if isDate : bool then
              o <- lookupObj l ;;
              match Obj.data o with
              | DataDate ms => ret (NativeDate ms)
              | DataNull =>
                  throwHost (HostErrorObject "TypeError" "Cannot read properties of null")
              | _ => unmodelled
              end
            else
              match indexOf l cycles with
              | Some k => ret (NativeBackReference k)
              | None =>
                  let cycles := cycles ++ [l] in
                  isArray <- isa pseudoObj (Interp.ARRAY i) ;;
                  if isArray : bool then
                    length <- getProperty pseudoObj "length" ;;
                    match loop_bound length with
                    | None => unmodelled
                    | Some n =>
                        slots <-
                          (fix loop (indices : list nat) : Eng (list (option Native)) :=
                             match indices with
                             | [] => ret []
                             | k :: indices' =>
                                 present <- hasProperty pseudoObj (pretty (Z.of_nat k)) ;;
                                 slot <-
                                   (if present : bool then
                                      v <- getProperty pseudoObj (pretty (Z.of_nat k)) ;;
                                      e <- pseudoToNative_ fuel' v cycles ;;
                                      ret (Some e)
                                    else ret None) ;;
                                 rest <- loop indices' ;;
                                 ret (slot :: rest)
                             end) (seq 0 n) ;;
                        ret (NativeArray (trimHoles slots))
                    end
                  else
                    o <- lookupObj l ;;
                    entries <-
                      (fix loop (keys : list string) : Eng (list (string * Native)) :=
                         match keys with
                         | [] => ret []
                         | key :: keys' =>
                             val <- pseudoToNative_ fuel'
                                      (props_get key (Obj.properties o)) cycles ;;
                             rest <- loop keys' ;;
                             ret ((key, val) :: rest)
                         end) (props_forin (Obj.properties o)) ;;
                    ret (NativeObject entries)
              end
      | _ =>
          match fromPrimitive pseudoObj with
          | Some n => ret n
          | None => unmodelled
          end
      end
  end.

Definition pseudoToNative (pseudoObj : Value) : Eng Native :=
  i <- gets id ;;
  pseudoToNative_ (S (S (length (Interp.heap i)))) pseudoObj [].

(** ** The state stack *)

(** [stack.pop()]. *)
Definition pop : Eng unit :=
  modify (fun i => Interp.set_stateStack (tail <$> Interp.stateStack i) i).

(** [stack.push(state)]. *)
Definition push (state : State.t) : Eng unit :=
  modify (fun i => Interp.set_stateStack (cons state <$> Interp.stateStack i) i).

(** Writing a field of the frame on top of the stack; on an empty stack the
    host throws. *)
Definition updateTop (f : State.t -> State.t) : Eng unit :=
  stack <- gets Interp.stateStack ;;
  match stack with
  | Some (top :: rest) => modify (Interp.set_stateStack (Some (f top :: rest)))
  | _ => throwHost (HostErrorObject "TypeError" "Cannot set properties of undefined")
  end.

(** [stack[stack.length - 1].value = v]. *)
Definition setTopValue (v : Value) : Eng unit := updateTop (State.set_value v).

(** [stack[stack.length - 1]], read. *)
Definition topState : Eng State.t :=
  stack <- gets Interp.stateStack ;;
  match stack with
  | Some (top :: _) => ret top
  | _ => throwHost (HostErrorObject "TypeError" "Cannot read properties of undefined")
  end.

(** [S8Interpreter.prototype.createSpecialScope] without [opt_object]. *)
Definition createSpecialScope (parentScope : Scope) : Eng Scope :=
  match parentScope with
  | [] => throwHost (HostErrorObject "Error" "parentScope required")
  | _ =>
      object <- createObjectProto VNull ;;
      ret (mkScopeEntry (scopeStrict parentScope) object :: parentScope)
  end.

(** The loop of [getValueFromScope]:
    [while (scope && scope !== this.globalScope)].  The result is the value
    found ([inl]) or the scope the loop ends on ([inr]). *)
Fixpoint scopeLookup (globalScope scope : Scope) (name : string) : Eng (Value + Scope) :=
  match scope with
  | [] => ret (inr [])
  | entry :: parent =>
      if bool_decide (scope = globalScope) then ret (inr scope)
      else
        o <- lookupObj (object entry) ;;
        if props_has name (Obj.properties o)
        then ret (inl (props_get name (Obj.properties o)))
        else scopeLookup globalScope parent name
  end.

(** [prevNode['type'] === 'UnaryExpression' && prevNode['operator'] === 'typeof']. *)
Definition isTypeofNode (n : Node) : bool :=
  match n with
  | UnaryExpression _ operator _ => bool_decide (operator = "typeof")
  | _ => false
  end.

(** [S8Interpreter.prototype.getValueFromScope]. *)
Definition getValueFromScope (name : string) : Eng Value :=
  scope <- getScope ;;
  i <- gets id ;;
  found <- scopeLookup (Interp.globalScope i) scope name ;;
  match found with
  | inl v => ret v
  | inr scope =>
      inGlobal <-
        (if bool_decide (scope = Interp.globalScope i) then
           match scope with
           | entry :: _ => hasProperty (VObject (object entry)) name
           | [] => throwHost (HostErrorObject "TypeError" "Cannot read properties of null")
           end
         else ret false) ;;
      if inGlobal : bool then
        match scope with
        | entry :: _ => getProperty (VObject (object entry)) name
        | [] => ret VUndefined
        end
      else
        prev <- topState ;;
        if isTypeofNode (State.node prev) then ret VUndefined
        else
          throwException (fieldValue (Interp.REFERENCE_ERROR i))
            (Some (name +:+ " is not defined"))
  end.

(** [S8Interpreter.prototype.getValue]. *)
Definition getValue (ref : Value) : Eng Value :=
  match ref with
  | VScopeReference name => getValueFromScope name
  | VPropertyReference obj name => s <- String_ name ;; getProperty obj s
  | _ => unmodelled
  end.

(** [Array.isArray(left) ? left[0] : other].  For a scope reference
    [left[0]] is the [SCOPE_REFERENCE] sentinel, a host object no guest value
    stands for; the frame's [funcThis_] is left [undefined] then (the host
    closures of the embedding do not read it). *)
Definition leftThis (left other : Value) : Value :=
  match left with
  | VPropertyReference obj _ => obj
  | VScopeReference _ => VUndefined
  | _ => other
  end.

(** [S8Interpreter.prototype.createGetter_]. *)
Definition createGetter_ (func : Value) (left : Value) : Eng State.t :=
  let funcThis := leftThis left left in
  getterStep <- gets Interp.getterStep_ ;;
  if negb getterStep then throwHost (HostErrorObject "Error" "Unexpected call to createGetter")
  else
    modify (Interp.set_getterStep_ false) ;;;
    top <- topState ;;
    ret (State.set_arguments_ []
           (State.set_doneArgs_ true
              (State.set_func_ func
                 (State.set_funcThis_ funcThis
                    (State.set_doneCallee_ CalleeTrue
                       (State.new SyntheticCall (State.scope top))))))).

(** [S8Interpreter.prototype.createSetter_]. *)
Definition createSetter_ (func : Value) (left : Value) (value : Value) : Eng State.t :=
  setterStep <- gets Interp.setterStep_ ;;
  if negb setterStep then throwHost (HostErrorObject "Error" "Unexpected call to createSetter")
  else
    modify (Interp.set_setterStep_ false) ;;;
    i <- gets id ;;
    let funcThis := leftThis left (VObject (Interp.globalObject i)) in
    top <- topState ;;
    ret (State.set_arguments_ [value]
           (State.set_doneArgs_ true
              (State.set_func_ func
                 (State.set_funcThis_ funcThis
                    (State.set_doneCallee_ CalleeTrue
                       (State.new SyntheticCall (State.scope top))))))).

(** ** Node handlers *)

(** [stepProgram].  [node['body'].shift()] removes the statement from the
    syntax tree itself; the frame's node keeps what is left. *)
Definition stepProgram (state : State.t) (node : Node) : Eng (option State.t) :=
  match node with
  | Program nend (expression :: body) =>
      updateTop (fun s => State.set_done false (State.set_node (Program nend body) s)) ;;;
      ret (Some (State.new expression (State.scope state)))
  | _ =>
      updateTop (State.set_done true) ;;;
      ret None
  end.

Definition stepExpressionStatement (state : State.t) (node : Node) : Eng (option State.t) :=
  match node with
  | ExpressionStatement _ expression =>
      if negb (State.done_ state) then
        updateTop (State.set_done_ true) ;;;
        ret (Some (State.new expression (State.scope state)))
      else
        pop ;;;
        modify (Interp.set_value (State.value state)) ;;;
        ret None
  | _ => unmodelled
  end.

Definition stepBlockStatement (state : State.t) (node : Node) : Eng (option State.t) :=
  match node with
  | BlockStatement _ body =>
      let n := State.n_ state in
      match body !! n with
      | Some expression =>
          updateTop (State.set_n_ (S n)) ;;;
          ret (Some (State.new expression (State.scope state)))
      | None => pop ;;; ret None
      end
  | _ => unmodelled
  end.

Definition stepEmptyStatement (state : State.t) (node : Node) : Eng (option State.t) :=
  pop ;;; ret None.

Definition stepThrowStatement (state : State.t) (node : Node) : Eng (option State.t) :=
  match node with
  | ThrowStatement _ argument =>
      if negb (State.done_ state) then
        updateTop (State.set_done_ true) ;;;
        ret (Some (State.new argument (State.scope state)))
      else
        throwException (State.value state) None ;;;
        ret None
  | _ => unmodelled
  end.

Definition stepTryStatement (state : State.t) (node : Node) : Eng (option State.t) :=
  match node with
  | TryStatement _ block handler finalizer =>
      if negb (State.doneBlock_ state) then
        updateTop (State.set_doneBlock_ true) ;;;
        ret (Some (State.new block (State.scope state)))
      else
        let finish : Eng (option State.t) :=
          pop ;;;
          match State.cv state with
          | Some cv => unwind (cv_type cv) (cv_value cv) (cv_label cv) ;;; ret None
          | None => ret None
          end in
        let finalize : Eng (option State.t) :=
          match finalizer with
          | Some finalizerNode =>
              if negb (State.doneFinalizer_ state) then
                updateTop (State.set_doneFinalizer_ true) ;;;
                ret (Some (State.new finalizerNode (State.scope state)))
              else finish
          | None => finish
          end in
        match State.cv state, handler with
        | Some cv, Some handlerNode =>
            if bool_decide (cv_type cv = THROW) && negb (State.doneHandler_ state) then
              updateTop (fun s => State.set_cv None (State.set_doneHandler_ true s)) ;;;
              ret (Some (State.set_throwValue (cv_value cv)
                           (State.new handlerNode (State.scope state))))
            else finalize
        | _, _ => finalize
        end
  | _ => unmodelled
  end.

Definition stepCatchClause (state : State.t) (node : Node) : Eng (option State.t) :=
  match node with
  | CatchClause _ param body =>
      if negb (State.done_ state) then
        updateTop (State.set_done_ true) ;;;
        scope <- createSpecialScope (State.scope state) ;;
        match scope with
        | entry :: _ =>
            setProperty (VObject (object entry)) param (Given (State.throwValue state)) None
        | [] => ret VUndefined
        end ;;;
        ret (Some (State.new body scope))
      else pop ;;; ret None
  | _ => unmodelled
  end.

Definition stepLiteral (state : State.t) (node : Node) : Eng (option State.t) :=
  match node with
  | Literal _ value =>
      pop ;;;
      setTopValue value ;;;
      ret None
  | _ => unmodelled
  end.

Definition stepIdentifier (state : State.t) (node : Node) : Eng (option State.t) :=
  match node with
  | Identifier _ name =>
      pop ;;;
      if State.components state then
        setTopValue (VScopeReference name) ;;;
        ret None
      else
        value <- getValueFromScope name ;;
        getterStep <- gets Interp.getterStep_ ;;
        if getterStep : bool then
          (* [this.hasProperty(scope, ...)] is given the scope, not its object *)
          throwHost (HostErrorObject "TypeError" "Primitive data type has no properties")
        else
          setTopValue value ;;;
          ret None
  | _ => unmodelled
  end.

(** [-n] on a number. *)
Definition negate (n : number) : number :=
  match n with
  | NaN => NaN
  | Infinity neg => Infinity (negb neg)
  | NInt z => NInt (- z)
  | NFrac f r =>
      NFrac (- f - 1)
        (match r with
         | String "-" r' => r'
         | _ => "-" +:+ r
         end)
  end.

(** [~n] on a number: the complement of ToInt32. *)
Definition bitwiseNot (n : number) : number :=
  let u := ToUint32 n in
  NInt (- (if u <? 2 ^ 31 then u else u - 2 ^ 32) - 1).

(** [typeof value], with the engine's test for guest functions. *)
Definition typeofValue (value : Value) : Eng string :=
  match value with
  | VUndefined => ret "undefined"
  | VNull => ret "object"
  | VBool _ => ret "boolean"
  | VNumber _ => ret "number"
  | VString _ => ret "string"
  | VObject l =>
      o <- lookupObj l ;;
      ret (if bool_decide (Obj.class o = "Function") then "function" else "object")
  | VScopeReference _ | VPropertyReference _ _ => ret "object"
  end.

(** The [delete] branch of [stepUnaryExpression]: [obj] is [value[0]].
    [delete obj.properties[name]] throws in the host when [obj] has no
    [properties] or when the entry is not configurable. *)
Definition deleteReference (state : State.t) (obj : option Value) (name : string)
  : Eng Value :=
  deleted <-
    match obj with
    | Some (VObject l) =>
        o <- lookupObj l ;;
        match props_delete name (Obj.properties o) with
        | Some ps => updateObj l (Obj.set_properties ps) ;;; ret true
        | None => ret false
        end
    | _ => ret false
    end ;;
  if deleted : bool then ret (VBool true)
  else if scopeStrict (State.scope state) then
    s <- match obj with
         | Some v => String_ v
         | None => ret "[object Object]"
         end ;;
    i <- gets id ;;
    throwException (fieldValue (Interp.TYPE_ERROR i))
      (Some ("Cannot delete property '" +:+ name +:+ "' of '" +:+ s +:+ "'"))
  else ret (VBool false).

Definition stepUnaryExpression (state : State.t) (node : Node) : Eng (option State.t) :=
  match node with
  | UnaryExpression _ operator argument =>
      if negb (State.done_ state) then
        updateTop (State.set_done_ true) ;;;
        ret (Some (State.set_components (bool_decide (operator = "delete"))
                     (State.new argument (State.scope state))))
      else
        pop ;;;
        let value := State.value state in
        h <- gets Interp.heap ;;
        value <-
          (if bool_decide (operator = "-") then
             n <- liftConv (ToNumber h value) ;; ret (VNumber (negate n))
           else if bool_decide (operator = "+") then
             n <- liftConv (ToNumber h value) ;; ret (VNumber n)
           else if bool_decide (operator = "!") then
             ret (VBool (negb (ToBoolean value)))
           else if bool_decide (operator = "~") then
             n <- liftConv (ToNumber h value) ;; ret (VNumber (bitwiseNot n))
           else if bool_decide (operator = "delete") then
             match value with
             | VScopeReference name => deleteReference state None name
             | VPropertyReference obj name =>
                 s <- String_ name ;; deleteReference state (Some obj) s
             | _ => ret (VBool true)
             end
           else if bool_decide (operator = "typeof") then
             s <- typeofValue value ;; ret (VString s)
           else if bool_decide (operator = "void") then
             ret VUndefined
           else
             throwHost (HostErrorObject "SyntaxError"
                          ("Unknown unary operator: " +:+ operator))) ;;
        setTopValue value ;;;
        ret None
  | _ => unmodelled
  end.

(** [this.calledWithNew()]. *)
Definition calledWithNew : Eng bool :=
  top <- topState ;; ret (State.isConstructor top).

(** [list.map(f)] in the engine, left to right. *)
Fixpoint mapM {A B} (f : A -> Eng B) (l : list A) : Eng (list B) :=
  match l with
  | [] => ret []
  | a :: l' => b <- f a ;; bs <- mapM f l' ;; ret (b :: bs)
  end.

(** [func.nativeFunc.apply(funcThis, args)] for the host closures of the
    embedding; [func] is the function object called. *)
Definition applyNative (nativeFunc : NativeFunc) (func : loc) (funcThis : Value)
    (args : list Value) : Eng Value :=
  match nativeFunc with
  | NativeWrapper f =>
      (* the wrapper made by nativeToPseudo *)
      nativeArgs <- mapM pseudoToNative args ;;
      i <- gets id ;;
      let '(host', completion) := hostFunction f (Interp.host i) nativeArgs in
      modify (Interp.set_host host') ;;;
      match completion with
      | HostReturns value => nativeToPseudo value
      | HostThrows e => throwHost e
      end
  | NativeErrorConstructor =>
      let opt_message := default VUndefined (head args) in
      withNew <- calledWithNew ;;
      newError <- (if withNew : bool then ret funcThis
                   else e <- createObject (VObject func) ;; ret (VObject e)) ;;
      (if ToBoolean opt_message then
         s <- String_ opt_message ;;
         setProperty newError "message" (Given (VString s)) (Some NONENUMERABLE_DESCRIPTOR)
       else ret VUndefined) ;;;
      ret newError
  | NativePreventExtensions =>
      let obj := default VUndefined (head args) in
      match obj with
      | VObject l => updateObj l (Obj.set_preventExtensions true)
      | _ => ret tt
      end ;;;
      ret obj
  | NativeOpaque => unmodelled
  end.

(** The resume callback handed to an async function:
    [state.value = value; thisInterpreter.paused_ = false;] where [state] is
    the frame of the call, on top of the stack while the interpreter waits. *)
Definition asyncCallback (value : Value) : Eng unit :=
  updateTop (State.set_value value) ;;;
  modify (Interp.set_paused_ false).

(** [state.arguments_.concat(new Array(argLength)).slice(0, argLength)]. *)
Definition forceLength (argLength : nat) (args : list Value) : list Value :=
  take argLength (args ++ replicate argLength VUndefined).

(** [stepCallExpression], which is [stepNewExpression] too.  Calls of guest
    functions and of [eval] are outside the embedded fragment. *)
Definition stepCallExpression (state : State.t) (node : Node) : Eng (option State.t) :=
  let scope := State.scope state in
  match State.doneCallee_ state, node with
  | CalleeNotDone, (CallExpression _ callee _ | NewExpression _ callee _) =>
      updateTop (State.set_doneCallee_ CalleeOne) ;;;
      ret (Some (State.set_components true (State.new callee scope)))
  | CalleeNotDone, _ => unmodelled
  | doneCallee, _ =>
      (* if (state.doneCallee_ === 1) *)
      early <-
        match doneCallee with
        | CalleeOne =>
            updateTop (State.set_doneCallee_ CalleeTwo) ;;;
            let func := State.value state in
            if isReference func then
              func_ <- getValue func ;;
              updateTop (State.set_func_ func_) ;;;
              match func with
              | VScopeReference name =>
                  updateTop (State.set_directEval_ (bool_decide (name = "eval")))
              | VPropertyReference obj _ => updateTop (State.set_funcThis_ obj)
              | _ => ret tt
              end ;;;
              getterStep <- gets Interp.getterStep_ ;;
              if getterStep : bool then
                updateTop (State.set_doneCallee_ CalleeOne) ;;;
                getter <- createGetter_ func_ func ;;
                ret (Some getter)
              else
                updateTop (fun s => State.set_n_ 0%nat (State.set_arguments_ [] s)) ;;;
                ret None
            else
              updateTop (fun s => State.set_n_ 0%nat
                                    (State.set_arguments_ [] (State.set_func_ func s))) ;;;
              ret None
        | _ => ret None
        end ;;
      match early with
      | Some getter => ret (Some getter)
      | None =>
          state <- topState ;;
          let func := State.func_ state in
          argument <-
            (if negb (State.doneArgs_ state) then
               (if negb (State.n_ state =? 0)%nat
                then updateTop (fun s => State.set_arguments_
                                           (State.arguments_ s ++ [State.value state]) s)
                else ret tt) ;;;
               match node with
               | CallExpression _ _ arguments | NewExpression _ _ arguments =>
                   match arguments !! State.n_ state with
                   | Some argument =>
                       updateTop (State.set_n_ (S (State.n_ state))) ;;;
                       ret (Some (State.new argument scope))
                   | None => ret None
                   end
               | _ =>
                   throwHost (HostErrorObject "TypeError"
                                "Cannot read properties of undefined")
               end
             else ret None) ;;
          match argument with
          | Some next => ret (Some next)
          | None =>
              (if negb (State.doneArgs_ state) then
                 match node with
                 | NewExpression _ _ _ =>
                     i <- gets id ;;
                     match func with
                     | VObject f =>
                         fo <- lookupObj f ;;
                         (if Obj.illegalConstructor fo then
                            s <- String_ func ;;
                            throwException (fieldValue (Interp.TYPE_ERROR i))
                              (Some (s +:+ " is not a constructor"))
                          else ret VUndefined) ;;;
                         (if bool_decide (Some f = Interp.ARRAY i) then
                            a <- createArray ;;
                            updateTop (State.set_funcThis_ (VObject a))
                          else
                            let proto := props_get "prototype" (Obj.properties fo) in
                            let proto :=
                              match proto with
                              | VObject _ => proto
                              | _ => fieldValue (Interp.OBJECT_PROTO i)
                              end in
                            o <- createObjectProto proto ;;
                            updateTop (State.set_funcThis_ (VObject o))) ;;;
                         updateTop (State.set_isConstructor true)
                     | _ =>
                         throwHost (HostErrorObject "TypeError"
                                      "Cannot read properties of undefined")
                     end
                 | _ =>
                     top <- topState ;;
                     if bool_decide (State.funcThis_ top = VUndefined) then
                       i <- gets id ;;
                       updateTop (State.set_funcThis_
                                    (if scopeStrict scope then VUndefined
                                     else VObject (Interp.globalObject i)))
                     else ret tt
                 end ;;;
                 updateTop (State.set_doneArgs_ true)
               else ret tt) ;;;
              state <- topState ;;
              if negb (State.doneExec_ state) then
                updateTop (State.set_doneExec_ true) ;;;
                i <- gets id ;;
                match func with
                | VObject f =>
                    fo <- lookupObj f ;;
                    if Obj.eval fo then unmodelled
                    else
                      match Obj.nativeFunc fo, Obj.asyncFunc fo with
                      | Some nativeFunc, _ =>
                          v <- applyNative nativeFunc f (State.funcThis_ state)
                                 (State.arguments_ state) ;;
                          updateTop (State.set_value v) ;;;
                          ret None
                      | None, Some (asyncFunc, length) =>
                          (if (length =? 0)%nat
                           then throwHost (HostErrorObject "RangeError" "Invalid array length")
                           else ret tt) ;;;
                          let argsWithoutCallback :=
                            forceLength (length - 1) (State.arguments_ state) in
                          modify (Interp.set_paused_ true) ;;;
                          i <- gets id ;;
                          let '(host', called) :=
                            asyncFunction asyncFunc (Interp.host i) argsWithoutCallback in
                          modify (Interp.set_host host') ;;;
                          match called with
                          | Some value => asyncCallback value
                          | None => ret tt
                          end ;;;
                          ret None
                      | None, None =>
                          throwException (fieldValue (Interp.TYPE_ERROR i))
                            (Some (Obj.class fo +:+ " is not callable")) ;;;
                          ret None
                      end
                | _ =>
                    s <- String_ func ;;
                    throwException (fieldValue (Interp.TYPE_ERROR i))
                      (Some (s +:+ " is not a function")) ;;;
                    ret None
                end
              else
                pop ;;;
                (if State.isConstructor state && negb (isPseudoObject (State.value state))
                                                 && negb (isHostObject (State.value state))
                 then setTopValue (State.funcThis_ state)
                 else setTopValue (State.value state)) ;;;
                ret None
          end
      end
  end.

(** ** The step machine *)

Section Dispatch.

(** [this.stepFunctions_]: the handlers by node type. *)
Variable stepFunctions_ : string -> State.t -> Node -> Eng (option State.t).

(** The loop of [step], [do { ... } while (!node['end'])].  [nextState] is
    a [var] of the function: an iteration whose handler throws [STEP_ERROR]
    leaves it as the iteration before set it. *)
Fixpoint step_loop (fuel : nat) (nextState : option State.t) : Eng bool :=
  match fuel with
  | O => diverge
  | S fuel' =>
      stack <- gets Interp.stateStack ;;
      match stack with
      | None => throwHost (HostErrorObject "TypeError" "Cannot read properties of undefined")
      | Some [] => ret false
      | Some (state :: _) =>
          let node := State.node state in
          let type := node_type node in
          if bool_decide (type = "Program") && State.done state then ret false
          else
            paused <- gets Interp.paused_ ;;
            if paused : bool then ret true
            else
              let continue (nextState : option State.t) : Eng bool :=
                match nextState with
                | Some next => push next
                | None => ret tt
                end ;;;
                getterStep <- gets Interp.getterStep_ ;;
                if getterStep : bool
                then throwHost (HostErrorObject "Error" "Getter not supported in this context")
                else
                  setterStep <- gets Interp.setterStep_ ;;
                  if setterStep : bool
                  then throwHost (HostErrorObject "Error"
                                    "Setter not supported in this context")
                  else if (node_end node =? 0)%nat
                       then step_loop fuel' nextState
                       else ret true in
              fun i =>
                match stepFunctions_ type state node i with
                | Return next i' => continue next i'
                | StepError i' => continue nextState i'
                | HostThrow e i' => HostThrow e i'
                | Diverge => Diverge
                | Unmodelled => Unmodelled
                end
      end
  end.

(** [S8Interpreter.prototype.step]. *)
Definition step (fuel : nat) : Eng bool := step_loop fuel None.

(** [S8Interpreter.prototype.run]:
    [while (!this.paused_ && this.step()) {}  return this.paused_;].
    [fuel] bounds the iterations of this loop and of the loop inside each
    [step]. *)
Fixpoint run (fuel : nat) : Eng bool :=
  match fuel with
  | O => diverge
  | S fuel' =>
      paused <- gets Interp.paused_ ;;
      if paused : bool then gets Interp.paused_
      else
        more <- step fuel ;;
        if more : bool then run fuel' else gets Interp.paused_
  end.

End Dispatch.

(** The handlers of the embedded fragment. *)
Definition stepFunctions (type : string) : State.t -> Node -> Eng (option State.t) :=
  if bool_decide (type = "Program") then stepProgram
  else if bool_decide (type = "ExpressionStatement") then stepExpressionStatement
  else if bool_decide (type = "BlockStatement") then stepBlockStatement
  else if bool_decide (type = "EmptyStatement") then stepEmptyStatement
  else if bool_decide (type = "ThrowStatement") then stepThrowStatement
  else if bool_decide (type = "TryStatement") then stepTryStatement
  else if bool_decide (type = "CatchClause") then stepCatchClause
  else if bool_decide (type = "Literal") then stepLiteral
  else if bool_decide (type = "Identifier") then stepIdentifier
  else if bool_decide (type = "UnaryExpression") then stepUnaryExpression
  else if bool_decide (type = "CallExpression") then stepCallExpression
  else if bool_decide (type = "NewExpression") then stepCallExpression
  else fun _ _ => unmodelled.

(** ** Construction

    [initGlobal] as far as the embedding needs it: the global bindings, the
    built-in constructors with their prototypes, the error classes, and the
    names that live on the global object and on [Object.prototype] (the
    functions behind them are opaque).  The methods of the other prototypes
    and the static methods of the constructors are not installed: the
    fragment has no syntax to reach them. *)

(** [S8Interpreter.prototype.setNativeFunctionPrototype]. *)
Definition setNativeFunctionPrototype (obj : loc) (name : string) (wrapper : NativeFunc)
    (wrapperLength : Z) : Eng unit :=
  o <- lookupObj obj ;;
  f <- createNativeFunction wrapper wrapperLength false ;;
  setProperty (props_get "prototype" (Obj.properties o)) name (Given (VObject f))
    (Some NONENUMERABLE_DESCRIPTOR) ;;;
  ret tt.

(** A built-in constructor made by [createNativeFunction(wrapper, true)] and
    published on the global object. *)
Definition initConstructor (globalObject : loc) (name : string) (wrapper : NativeFunc)
    (wrapperLength : Z) : Eng loc :=
  c <- createNativeFunction wrapper wrapperLength true ;;
  setProperty (VObject globalObject) name (Given (VObject c)) None ;;;
  ret c.

(** A global function made by [createNativeFunction(f, false)]. *)
Definition initGlobalFunction (globalObject : loc) (name : string)
    (descriptor : option Descriptor.t) : Eng unit :=
  f <- createNativeFunction NativeOpaque 1 false ;;
  setProperty (VObject globalObject) name (Given (VObject f)) descriptor ;;;
  ret tt.

Definition prototypeOf (constructor : loc) : Eng Value :=
  co <- lookupObj constructor ;; ret (props_get "prototype" (Obj.properties co)).

Definition asLoc (v : Value) : option loc :=
  match v with VObject l => Some l | _ => None end.

(** [initFunction], the constructor and its prototype. *)
Definition initFunction (globalObject : loc) : Eng unit :=
  f <- createNativeFunction NativeOpaque 1 true ;;
  modify (Interp.set_FUNCTION (Some f)) ;;;
  i <- gets id ;;
  setProperty (VObject globalObject) "Function" (Given (VObject f)) None ;;;
  setProperty (VObject f) "prototype" (Given (fieldValue (Interp.FUNCTION_PROTO i)))
    (Some NONENUMERABLE_DESCRIPTOR) ;;;
  setProperty (fieldValue (Interp.FUNCTION_PROTO i)) "constructor" (Given (VObject f))
    (Some NONENUMERABLE_DESCRIPTOR) ;;;
  match Interp.FUNCTION_PROTO i with
  | Some p => updateObj p (Obj.set_nativeFunc (Some NativeOpaque))
  | None => throwHost (HostErrorObject "TypeError" "Cannot set properties of undefined")
  end ;;;
  modify (fun i => Interp.set_functionCounter_ (S (Interp.functionCounter_ i)) i) ;;;
  setProperty (fieldValue (Interp.FUNCTION_PROTO i)) "length" (Given (VNumber (NInt 0)))
    (Some READONLY_NONENUMERABLE_DESCRIPTOR) ;;;
  ret tt.

(** [initObject], the constructor, [Object.preventExtensions] and the names
    on [Object.prototype]. *)
Definition initObject (globalObject : loc) : Eng unit :=
  o <- createNativeFunction NativeOpaque 1 true ;;
  modify (Interp.set_OBJECT (Some o)) ;;;
  i <- gets id ;;
  setProperty (VObject o) "prototype" (Given (fieldValue (Interp.OBJECT_PROTO i)))
    (Some NONENUMERABLE_DESCRIPTOR) ;;;
  setProperty (fieldValue (Interp.OBJECT_PROTO i)) "constructor" (Given (VObject o))
    (Some NONENUMERABLE_DESCRIPTOR) ;;;
  setProperty (VObject globalObject) "Object" (Given (VObject o)) None ;;;
  pe <- createNativeFunction NativePreventExtensions 1 false ;;
  setProperty (VObject o) "preventExtensions" (Given (VObject pe))
    (Some NONENUMERABLE_DESCRIPTOR) ;;;
  setNativeFunctionPrototype o "toString" NativeOpaque 0 ;;;
  setNativeFunctionPrototype o "toLocaleString" NativeOpaque 0 ;;;
  setNativeFunctionPrototype o "valueOf" NativeOpaque 0 ;;;
  setNativeFunctionPrototype o "hasOwnProperty" NativeOpaque 1 ;;;
  setNativeFunctionPrototype o "propertyIsEnumerable" NativeOpaque 1 ;;;
  setNativeFunctionPrototype o "isPrototypeOf" NativeOpaque 1.

(** [initArray], the constructor and [Array.prototype]. *)
Definition initArray (globalObject : loc) : Eng unit :=
  a <- initConstructor globalObject "Array" NativeOpaque 1 ;;
  p <- prototypeOf a ;;
  modify (fun i => Interp.set_ARRAY_PROTO (asLoc p) (Interp.set_ARRAY (Some a) i)) ;;;
  setProperty p "length" (Given (VNumber (NInt 0)))
    (Some (Descriptor.mk (Some (VBool false)) (Some (VBool false)) (Some (VBool true))
             None None None)) ;;;
  match p with
  | VObject pl => updateObj pl (Obj.set_class "Array")
  | _ => throwHost (HostErrorObject "TypeError" "Cannot set properties of undefined")
  end.

(** [initRegExp], the constructor and [RegExp.prototype]. *)
Definition initRegExp (globalObject : loc) : Eng unit :=
  r <- initConstructor globalObject "RegExp" NativeOpaque 2 ;;
  p <- prototypeOf r ;;
  modify (fun i => Interp.set_REGEXP_PROTO (asLoc p) (Interp.set_REGEXP (Some r) i)) ;;;
  setProperty p "global" (Given VUndefined) (Some READONLY_NONENUMERABLE_DESCRIPTOR) ;;;
  setProperty p "ignoreCase" (Given VUndefined) (Some READONLY_NONENUMERABLE_DESCRIPTOR) ;;;
  setProperty p "multiline" (Given VUndefined) (Some READONLY_NONENUMERABLE_DESCRIPTOR) ;;;
  setProperty p "source" (Given (VString "(?:)")) (Some READONLY_NONENUMERABLE_DESCRIPTOR) ;;;
  ret tt.

(** [createErrorSubclass] of [initError]. *)
Definition createErrorSubclass (globalObject : loc) (name : string) : Eng loc :=
  constructor <- createNativeFunction NativeErrorConstructor 1 true ;;
  i <- gets id ;;
  proto <- createObject (fieldValue (Interp.ERROR i)) ;;
  setProperty (VObject constructor) "prototype" (Given (VObject proto))
    (Some NONENUMERABLE_DESCRIPTOR) ;;;
  p <- prototypeOf constructor ;;
  setProperty p "name" (Given (VString name)) (Some NONENUMERABLE_DESCRIPTOR) ;;;
  setProperty (VObject globalObject) name (Given (VObject constructor)) None ;;;
  ret constructor.

(** [S8Interpreter.prototype.initError]. *)
Definition initError (globalObject : loc) : Eng unit :=
  e <- createNativeFunction NativeErrorConstructor 1 true ;;
  modify (Interp.set_ERROR (Some e)) ;;;
  setProperty (VObject globalObject) "Error" (Given (VObject e)) None ;;;
  p <- prototypeOf e ;;
  setProperty p "message" (Given (VString "")) (Some NONENUMERABLE_DESCRIPTOR) ;;;
  setProperty p "name" (Given (VString "Error")) (Some NONENUMERABLE_DESCRIPTOR) ;;;
  c <- createErrorSubclass globalObject "EvalError" ;;
  modify (Interp.set_EVAL_ERROR (Some c)) ;;;
  c <- createErrorSubclass globalObject "RangeError" ;;
  modify (Interp.set_RANGE_ERROR (Some c)) ;;;
  c <- createErrorSubclass globalObject "ReferenceError" ;;
  modify (Interp.set_REFERENCE_ERROR (Some c)) ;;;
  c <- createErrorSubclass globalObject "SyntaxError" ;;
  modify (Interp.set_SYNTAX_ERROR (Some c)) ;;;
  c <- createErrorSubclass globalObject "TypeError" ;;
  modify (Interp.set_TYPE_ERROR (Some c)) ;;;
  c <- createErrorSubclass globalObject "URIError" ;;
  modify (Interp.set_URI_ERROR (Some c)).

(** [S8Interpreter.prototype.initGlobal]; [initFunc] is the embedding's
    initialization function, called with the global object. *)
Definition initGlobal (initFunc : loc -> Eng unit) (globalObject : loc) : Eng unit :=
  let g := VObject globalObject in
  setProperty g "NaN" (Given (VNumber NaN)) (Some READONLY_DESCRIPTOR) ;;;
  setProperty g "Infinity" (Given (VNumber (Infinity false))) (Some READONLY_DESCRIPTOR) ;;;
  setProperty g "undefined" (Given VUndefined) (Some READONLY_DESCRIPTOR) ;;;
  setProperty g "window" (Given g) (Some READONLY_DESCRIPTOR) ;;;
  setProperty g "this" (Given g) (Some READONLY_DESCRIPTOR) ;;;
  setProperty g "self" (Given g) None ;;;
  op <- allocObj (Obj.new None) ;;
  modify (Interp.set_OBJECT_PROTO (Some op)) ;;;
  fp <- allocObj (Obj.new (Some op)) ;;
  modify (Interp.set_FUNCTION_PROTO (Some fp)) ;;;
  initFunction globalObject ;;;
  initObject globalObject ;;;
  updateObj globalObject (Obj.set_proto (Some op)) ;;;
  i <- gets id ;;
  setProperty g "constructor" (Given (fieldValue (Interp.OBJECT i)))
    (Some NONENUMERABLE_DESCRIPTOR) ;;;
  initArray globalObject ;;;
  c <- initConstructor globalObject "String" NativeOpaque 1 ;;
  modify (Interp.set_STRING (Some c)) ;;;
  c <- initConstructor globalObject "Boolean" NativeOpaque 1 ;;
  modify (Interp.set_BOOLEAN (Some c)) ;;;
  c <- initConstructor globalObject "Number" NativeOpaque 1 ;;
  modify (Interp.set_NUMBER (Some c)) ;;;
  c <- initConstructor globalObject "Date" NativeOpaque 2 ;;
  p <- prototypeOf c ;;
  modify (fun i => Interp.set_DATE_PROTO (asLoc p) (Interp.set_DATE (Some c) i)) ;;;
  initRegExp globalObject ;;;
  initError globalObject ;;;
  math <- createObjectProto (VObject op) ;;
  setProperty g "Math" (Given (VObject math)) None ;;;
  json <- createObjectProto (VObject op) ;;
  setProperty g "JSON" (Given (VObject json)) None ;;;
  func <- createNativeFunction NativeOpaque 1 false ;;
  updateObj func (Obj.set_eval true) ;;;
  setProperty g "eval" (Given (VObject func)) None ;;;
  initGlobalFunction globalObject "parseInt" None ;;;
  initGlobalFunction globalObject "parseFloat" None ;;;
  initGlobalFunction globalObject "isNaN" None ;;;
  initGlobalFunction globalObject "isFinite" None ;;;
  initGlobalFunction globalObject "escape" (Some NONENUMERABLE_DESCRIPTOR) ;;;
  initGlobalFunction globalObject "unescape" (Some NONENUMERABLE_DESCRIPTOR) ;;;
  initGlobalFunction globalObject "decodeURI" (Some NONENUMERABLE_DESCRIPTOR) ;;;
  initGlobalFunction globalObject "decodeURIComponent" (Some NONENUMERABLE_DESCRIPTOR) ;;;
  initGlobalFunction globalObject "encodeURI" (Some NONENUMERABLE_DESCRIPTOR) ;;;
  initGlobalFunction globalObject "encodeURIComponent" (Some NONENUMERABLE_DESCRIPTOR) ;;;
  initFunc globalObject.

(** The first statement is the directive ["use strict"]. *)
Definition startsStrict (ast : Node) : bool :=
  match ast with
  | Program _ (ExpressionStatement _ (Literal _ (VString s)) :: _) =>
      bool_decide (s = "use strict")
  | _ => false
  end.

(** An instance before its constructor has run. *)
Definition blank (host : Host) : Interpreter :=
  Interp.mk [] None false false false VUndefined [] 0%nat 0%nat host
    None None None None None None None None None None
    None None None None None None None None None None.

(** The constructor [S8Interpreter(code, opt_initFunc)] on a parsed program.
    The global scope is made by [createScope(ast, null)]; the fragment has
    no declarations to hoist and the polyfills, which install methods only,
    are not run. *)
Definition construct (ast : Node) (initFunc : loc -> Eng unit) : Eng unit :=
  object <- createObjectProto VNull ;;
  let scope := [mkScopeEntry (startsStrict ast) object] in
  initGlobal initFunc object ;;;
  modify (fun i => Interp.set_globalObject object (Interp.set_globalScope scope i)) ;;;
  modify (Interp.set_value VUndefined) ;;;
  modify (Interp.set_stateStack (Some [State.set_done false (State.new ast scope)])).

Definition newInterpreter (ast : Node) (initFunc : loc -> Eng unit) (host : Host)
  : Outcome Host unit :=
  construct ast initFunc (blank host).

(** ** Assignment to variables *)

(** The loop of [setValueToScope]:
    [while (scope && scope !== this.globalScope)].  [None] is the [return]
    inside, after the assignment; otherwise the scope the loop ends on.  The
    host throws a TypeError on an entry that is read-only. *)
Fixpoint scopeAssign (globalScope scope : Scope) (name : string) (value : Value)
  : Eng (option Scope) :=
  match scope with
  | [] => ret (Some [])
  | entry :: parent =>
      if bool_decide (scope = globalScope) then ret (Some scope)
      else
        o <- lookupObj (object entry) ;;
        if props_has name (Obj.properties o) then
          match props_assign name value (Obj.properties o) with
          | Some ps => updateObj (object entry) (Obj.set_properties ps) ;;; ret None
          | None =>
              throwHost (HostErrorObject "TypeError" "Cannot assign to read only property")
          end
        else scopeAssign globalScope parent name value
  end.

(** [S8Interpreter.prototype.setValueToScope]. *)
Definition setValueToScope (name : string) (value : Value) : Eng Value :=
  scope <- getScope ;;
  let strict := scopeStrict scope in
  i <- gets id ;;
  ended <- scopeAssign (Interp.globalScope i) scope name value ;;
  match ended with
  | None => ret VUndefined
  | Some scope =>
      toGlobal <-
        (if bool_decide (scope = Interp.globalScope i) then
           if negb strict then ret true
           else
             match scope with
             | entry :: _ => hasProperty (VObject (object entry)) name
             | [] => throwHost (HostErrorObject "TypeError" "Cannot read properties of null")
             end
         else ret false) ;;
      if toGlobal : bool then
        match scope with
        | entry :: _ => setProperty (VObject (object entry)) name (Given value) None
        | [] => throwHost (HostErrorObject "TypeError" "Cannot read properties of null")
        end
      else
        throwException (fieldValue (Interp.REFERENCE_ERROR i))
          (Some (name +:+ " is not defined"))
  end.

(** [S8Interpreter.prototype.setValue]. *)
Definition setValue (ref : Value) (value : Value) : Eng Value :=
  match ref with
  | VScopeReference name => setValueToScope name value
  | VPropertyReference obj name => s <- String_ name ;; setProperty obj s (Given value) None
  | _ => unmodelled
  end.

(** ** Well-formedness of interpreter states *)

(** The prototype chain that starts at [l] ends within [fuel] objects, all
    of them in the heap. *)
Fixpoint chainEnds (fuel : nat) (h : Heap) (l : loc) : bool :=
  match fuel with
  | O => false
  | S fuel' =>
      match h !! l with
      | None => false
      | Some o =>
          match Obj.proto o with
          | None => true
          | Some p => chainEnds fuel' h p
          end
      end
  end.

(** A built-in field is unset or holds an object of the heap. *)
Definition fieldOk (h : Heap) (f : option loc) : bool :=
  match f with
  | Some c => bool_decide (c < length h)%nat
  | None => true
  end.

(** [String(v)] returns. *)
Definition stringifies (h : Heap) (v : Value) : bool :=
  match ValueToString h v with
  | ConvOk _ => true
  | _ => false
  end.

(** What [hasProperty] needs of the state for a guest object [l]: the
    prototype chain of [l] ends, the [String] constructor is an object of the
    heap, and the host can render [l] as a string. *)
Definition receiverOk (i : Interpreter) (l : loc) : bool :=
  chainEnds (length (Interp.heap i)) (Interp.heap i) l
  && fieldOk (Interp.heap i) (Interp.STRING i)
  && stringifies (Interp.heap i) (VObject l).

(** [step] has nothing left to run: the stack is empty, or the frame on top
    is the [Program] frame marked done. *)
Definition programFinished (i : Interpreter) : bool :=
  match Interp.stateStack i with
  | Some [] => true
  | Some (state :: _) =>
      bool_decide (node_type (State.node state) = "Program") && State.done state
  | None => false
  end.

(** The function of the frame on top of the stack. *)
Definition topFunc (i : Interpreter) : option Value :=
  match Interp.stateStack i with
  | Some (state :: _) => Some (State.func_ state)
  | _ => None
  end.

(** An async call is pending: the frame on top of the stack is a call that
    has been executed, of a function object made by [createAsyncFunction]. *)
Definition asyncPending (i : Interpreter) : bool :=
  match Interp.stateStack i with
  | Some (state :: _) =>
      State.doneExec_ state &&
      match State.func_ state with
      | VObject f =>
          match Interp.heap i !! f with
          | Some fo => isSome (Obj.asyncFunc fo) && negb (isSome (Obj.nativeFunc fo))
          | None => false
          end
      | _ => false
      end
  | _ => false
  end.

(** An engine method that leaves [paused_] as it finds it, however it
    ends. *)
Definition keepsPaused {A} (m : Eng A) : Prop :=
  forall i : Interpreter,
    match m i with
    | Return _ i' | StepError i' | HostThrow _ i' => Interp.paused_ i' = Interp.paused_ i
    | Diverge | Unmodelled => True
    end.

(** An engine method that, when it returns, leaves the state stack as it
    finds it. *)
Definition sameStack {A} (m : Eng A) : Prop :=
  forall i : Interpreter,
    match m i with
    | Return _ i' => Interp.stateStack i' = Interp.stateStack i
    | _ => True
    end.

(** An engine method that returns at [i] without changing it. *)
Definition reads {A} (m : Eng A) (i : Interpreter) : Prop :=
  exists a, m i = Return a i.

(** What a method does from a state that satisfies [P]: it returns in a
    state that satisfies [Q], or throws in one that satisfies [E]. *)
Definition triple {A} (P : Interpreter -> Prop) (m : Eng A)
    (Q : A -> Interpreter -> Prop) (E : Interpreter -> Prop) : Prop :=
  forall i : Interpreter, P i ->
    match m i with
    | Return a i' => Q a i'
    | StepError i' | HostThrow _ i' => E i'
    | Diverge | Unmodelled => True
    end.

(** The interpreter is not paused. *)
Definition running (i : Interpreter) : Prop := Interp.paused_ i = false.

(** The interpreter is not paused and the frame on top of the stack calls
    [func]. *)
Definition calling (func : Value) (i : Interpreter) : Prop :=
  Interp.paused_ i = false /\ topFunc i = Some func.

(** A handler ends with the interpreter running, or pushes no frame and
    leaves an async call pending. *)
Definition runningOrPending (next : option State.t) (i : Interpreter) : Prop :=
  Interp.paused_ i = false \/ (next = None /\ asyncPending i = true).

(** A handler that pauses the interpreter only for an async call. *)
Definition suspends (m : Eng (option State.t)) : Prop :=
  triple running m runningOrPending running.

(** A table of handlers that pause the interpreter only for an async
    call.  In the source [paused_] is set in one place, the call of an async
    function in [stepCallExpression]. *)
Definition pauseForAsync (handlers : string -> State.t -> Node -> Eng (option State.t))
  : Prop :=
  forall type state node, suspends (handlers type state node).

(** A state that is paused only for an async call. *)
Definition pausedForAsync (i : Interpreter) : Prop :=
  Interp.paused_ i = true -> asyncPending i = true.

(** An engine method that, when it returns, leaves the function of the
    frame on top of the stack as it finds it. *)
Definition sameFunc {A} (m : Eng A) : Prop :=
  forall i : Interpreter,
    match m i with
    | Return _ i' => topFunc i' = topFunc i
    | _ => True
    end.

(** The call on top of the stack has been executed. *)
Definition topExecuted (i : Interpreter) : bool :=
  match Interp.stateStack i with
  | Some (state :: _) => State.doneExec_ state
  | _ => false
  end.

(** An engine method that only reads the interpreter. *)
Definition readsOnly {A} (m : Eng A) : Prop :=
  forall i : Interpreter,
    match m i with
    | Return _ i' | StepError i' | HostThrow _ i' => i' = i
    | Diverge | Unmodelled => True
    end.

(** [name] is bound in no scope of the chain [scope]: the object of no scope
    below the global one has it, and it is no property of the global object,
    own or inherited. *)
Fixpoint unbound (i : Interpreter) (scope : Scope) (name : string) : bool :=
  match scope with
  | [] => true
  | entry :: parent =>
      if bool_decide (scope = Interp.globalScope i) then
        match hasProperty (VObject (object entry)) name i with
        | Return false _ => true
        | _ => false
        end
      else
        match Interp.heap i !! object entry with
        | Some o => negb (props_has name (Obj.properties o)) && unbound i parent name
        | None => false
        end
  end.

(** A frame a [Throw] completion unwinds past: any but a [TryStatement] and
    the [Program]. *)
Definition unwindsPast (state : State.t) : bool :=
  match State.node state with
  | TryStatement _ _ _ _ | Program _ _ => false
  | _ => true
  end.

(** The root frame. *)
Definition isProgram (state : State.t) : bool :=
  match State.node state with
  | Program _ _ => true
  | _ => false
  end.

(** The keys of [errorTable]. *)
Definition errorTableNames : list string :=
  ["EvalError"; "RangeError"; "ReferenceError"; "SyntaxError"; "TypeError"; "URIError"].

(** [!this.stateStack || this.getScope().strict], where [getScope]
    returns. *)
Definition currentStrict (i : Interpreter) : option bool :=
  match Interp.stateStack i with
  | None => Some true
  | Some [] => None
  | Some (top :: _) =>
      match State.scope top with
      | [] => None
      | scope => Some (scopeStrict scope)
      end
  end.

(** What [setProperty] finds when it is handed the guest object at [l] that
    is no [String] object, with no setter call outstanding: the object and
    the strictness of the current scope. *)
Definition receiver (i : Interpreter) (l : loc) : option (Obj.t * bool) :=
  if Interp.setterStep_ i then None
  else
    match Interp.heap i !! l, currentStrict i, isa (VObject l) (Interp.STRING i) i with
    | Some o, Some strict, Return false _ => Some (o, strict)
    | _, _, _ => None
    end.

(** The descriptor names an accessor together with a value or the writable
    attribute. *)
Definition mixedDescriptor (d : option Descriptor.t) : bool :=
  match d with
  | Some d =>
      (isSome (Descriptor.get d) || isSome (Descriptor.set d))
      && (isSome (Descriptor.value d) || isSome (Descriptor.writable d))
  | None => false
  end.

(** The interpreter after [f] has been applied to the guest object at
    [l]. *)
Definition updated (l : loc) (f : Obj.t -> Obj.t) (i : Interpreter) : Interpreter :=
  Interp.set_heap (alter f l (Interp.heap i)) i.

(** The guest object after the accessor part of a definition: the getter
    and the setter named by the descriptor are installed or removed, and both
    are removed when the descriptor or the call supplies a value or the
    writable attribute. *)
Definition accessorsAfter (d : Descriptor.t) (value : SetValue) (name : string)
    (o : Obj.t) : Obj.t :=
  let o1 := Obj.set_getter (defineAccessor (Descriptor.get d) name (Obj.getter o)) o in
  let o2 := Obj.set_setter (defineAccessor (Descriptor.set d) name (Obj.setter o1)) o1 in
  let o3 := if isSome (Descriptor.writable d) then clearAccessors name o2 else o2 in
  match Descriptor.value d, value with
  | None, VALUE_IN_DESCRIPTOR => o3
  | _, _ => clearAccessors name o3
  end.

(** The value a definition hands to [Object.defineProperty]. *)
Definition definedValue (d : Descriptor.t) (value : SetValue) : option Value :=
  match Descriptor.value d, value with
  | Some v, _ => Some v
  | None, Given v => Some v
  | None, VALUE_IN_DESCRIPTOR => None
  end.

(** The write does not touch the magic [length] of an array: the object is
    no array, or the key is neither [length] nor an array index. *)
Definition noMagic (o : Obj.t) (name : string) : bool :=
  negb (bool_decide (Obj.class o = "Array"))
  || (negb (bool_decide (name = "length")) && isNaN (legalArrayIndex name)).

(** The receiver lets the key in: it is extensible or has the key. *)
Definition admits (o : Obj.t) (name : string) : bool :=
  negb (Obj.preventExtensions o && negb (props_has name (Obj.properties o))).

(** The way a method that throws ends, at the result type of its caller. *)
Definition rethrow {A B} (o : Outcome Host A) : Outcome Host B :=
  match o with
  | Return _ _ => Unmodelled
  | StepError i => StepError i
  | HostThrow e i => HostThrow e i
  | Diverge => Diverge
  | Unmodelled => Unmodelled
  end.

(** Every element at or beyond [n] is enumerable and configurable, as the
    elements a guest program writes are. *)
Definition elementsFrom (n : Z) (ps : Properties) : bool :=
  forallb (fun kp : string * Property =>
             match legalArrayIndex (fst kp) with
             | NInt z => (z <? n) || (p_enumerable (snd kp) && p_configurable (snd kp))
             | _ => true
             end) ps.

(** The string is empty or starts with a decimal digit. *)
Definition digitHead (s : string) : bool :=
  match s with
  | EmptyString => true
  | String c _ => isSome (digit_of_ascii c)
  end.

(** ** The host bridge *)

(** A JSON value as the host holds it: [null], booleans, numbers, strings,
    arrays without holes that are shorter than 2^32 - 1, and plain objects
    whose entries come with distinct keys in the order the host enumerates
    them. *)
Fixpoint json (n : Native) : bool :=
  match n with
  | NativeNull | NativeBool _ | NativeNumber _ | NativeString _ => true
  | NativeArray slots =>
      (Z.of_nat (length slots) <? 2 ^ 32 - 1)
      && forallb (fun s => match s with Some e => json e | None => false end) slots
  | NativeObject entries =>
      bool_decide (NoDup (map fst entries))
      && bool_decide (hostOrder (map fst entries) = map fst entries)
      && forallb (fun kv => json (snd kv)) entries
  | _ => false
  end.

(** The prototype a built-in constructor hands to its instances, for a
    constructor and a prototype that were there when [b] objects were. *)
Definition builtinPrototype (b : nat) (i : Interpreter) (c : option loc) : option loc :=
  match c with
  | Some c' =>
      if (c' <? b)%nat then
        match Interp.heap i !! c' with
        | Some co =>
            match props_get "prototype" (Obj.properties co) with
            | VObject p => if (p <? b)%nat then Some p else None
            | _ => None
            end
        | None => None
        end
      else None
  | None => None
  end.

(** The object at [l] has the prototype [p] and no accessors. *)
Definition plainWithProto (h : Heap) (p : option loc) (l : loc) : bool :=
  match h !! l with
  | Some o =>
      bool_decide (Obj.proto o = p)
      && bool_decide (Obj.getter o = ∅) && bool_decide (Obj.setter o = ∅)
  | None => false
  end.

(** The state the bridge works in, as the constructor leaves it: no accessor
    call is outstanding, there is a current scope, [Object.prototype] and
    [Array.prototype] are plain objects without accessors, the second on top
    of the first, and the prototypes of [String], [Error], [RegExp] and
    [Date] are other objects.  All of these were there when [b] objects
    were. *)
Definition bridgeReady (b : nat) (i : Interpreter) : bool :=
  negb (Interp.setterStep_ i) && negb (Interp.getterStep_ i)
  && isSome (currentStrict i)
  && bool_decide (b <= length (Interp.heap i))%nat
  && match Interp.OBJECT_PROTO i, Interp.ARRAY_PROTO i with
     | Some op, Some ap =>
         bool_decide (op <> ap) && (op <? b)%nat && (ap <? b)%nat
         && plainWithProto (Interp.heap i) None op
         && plainWithProto (Interp.heap i) (Some op) ap
         && bool_decide (builtinPrototype b i (Interp.ARRAY i) = Some ap)
         && forallb (fun c => match builtinPrototype b i c with
                              | Some p => bool_decide (p <> op) && bool_decide (p <> ap)
                              | None => false
                              end)
              [Interp.STRING i; Interp.ERROR i; Interp.REGEXP i; Interp.DATE i]
     | _, _ => false
     end.

(** [i'] is [i] with another heap, which is no shorter and holds the
    objects [i] has below [k]. *)
Definition extends (k : nat) (i i' : Interpreter) : Prop :=
  i' = Interp.set_heap (Interp.heap i') i
  /\ (length (Interp.heap i) <= length (Interp.heap i'))%nat
  /\ forall l, (l < k)%nat -> Interp.heap i' !! l = Interp.heap i !! l.

(** A guest object as the bridge makes them: its prototype, class and
    entries, no accessors, extensible. *)
Definition plainObject (p : loc) (c : string) (ps : Properties) (o : Obj.t) : Prop :=
  Obj.proto o = Some p /\ Obj.class o = c /\ Obj.properties o = ps
  /\ Obj.preventExtensions o = false
  /\ (forall name, Obj.getter o !! name = None)
  /\ (forall name, Obj.setter o !! name = None).

(** The interpreter with one more guest object. *)
Definition grown (o : Obj.t) (i : Interpreter) : Interpreter :=
  Interp.set_heap (Interp.heap i ++ [o]) i.

(** The guest value [v] reads back as the host value [n] in every ready
    state with the prototypes [op] and [ap] for objects and arrays whose
    heap holds the objects [h] has from [lo] up to [hi], the objects on the
    way down to [v] lying below [lo]. *)
Definition readsBack (b : nat) (op ap : option loc) (lo hi : nat) (h : Heap)
    (v : Value) (n : Native) : Prop :=
  forall (j : Interpreter) fuel cycles,
    bridgeReady b j = true ->
    Interp.OBJECT_PROTO j = op -> Interp.ARRAY_PROTO j = ap ->
    (forall l, (lo <= l < hi)%nat -> Interp.heap j !! l = h !! l) ->
    (hi <= length (Interp.heap j))%nat ->
    Forall (fun c => (c < lo)%nat) cycles ->
    (hi - lo < fuel)%nat ->
    pseudoToNative_ fuel v cycles j = Return n j.

(** The entries of a guest array that holds the values [vs] from index [k]
    on, and the properties of the array the bridge makes of [vs]. *)
Fixpoint elementProps (k : nat) (vs : list Value) : Properties :=
  match vs with
  | [] => []
  | v :: vs' => (pretty (Z.of_nat k), mkProperty v true true true) :: elementProps (S k) vs'
  end.

Definition arrayProps (vs : list Value) : Properties :=
  ("length", mkProperty (VNumber (NInt (Z.of_nat (length vs)))) true false false)
  :: elementProps 0 vs.

(** The properties of the guest object the bridge makes of the entries
    [kvs]. *)
Definition objectProps (kvs : list (string * Value)) : Properties :=
  map (fun kv => (fst kv, mkProperty (snd kv) true true true)) kvs.

(** The loops of [nativeToPseudo] and [pseudoToNative], by name. *)
Definition slotsToPseudo (rec : Native -> Eng Value) (pseudoArray : loc)
  : list (option Native) -> Z -> Eng unit :=
  fix loop (slots : list (option Native)) (i : Z) : Eng unit :=
    match slots with
    | [] => ret tt
    | None :: slots' => loop slots' (i + 1)
    | Some element :: slots' =>
        v <- rec element ;;
        setProperty (VObject pseudoArray) (pretty i) (Given v) None ;;;
        loop slots' (i + 1)
    end.

Definition entriesToPseudo (rec : Native -> Eng Value) (pseudoObj : loc)
  : list (string * Native) -> Eng unit :=
  fix loop (entries : list (string * Native)) : Eng unit :=
    match entries with
    | [] => ret tt
    | (key, element) :: entries' =>
        v <- rec element ;;
        setProperty (VObject pseudoObj) key (Given v) None ;;;
        loop entries'
    end.

Definition slotsToNative (rec : Value -> list loc -> Eng Native) (pseudoObj : Value)
    (cycles : list loc) : list nat -> Eng (list (option Native)) :=
  fix loop (indices : list nat) : Eng (list (option Native)) :=
    match indices with
    | [] => ret []
    | k :: indices' =>
        present <- hasProperty pseudoObj (pretty (Z.of_nat k)) ;;
        slot <-
          (if present : bool then
             v <- getProperty pseudoObj (pretty (Z.of_nat k)) ;;
             e <- rec v cycles ;;
             ret (Some e)
           else ret None) ;;
        rest <- loop indices' ;;
        ret (slot :: rest)
    end.

Definition entriesToNative (rec : Value -> list loc -> Eng Native) (o : Obj.t)
    (cycles : list loc) : list string -> Eng (list (string * Native)) :=
  fix loop (keys : list string) : Eng (list (string * Native)) :=
    match keys with
    | [] => ret []
    | key :: keys' =>
        val <- rec (props_get key (Obj.properties o)) cycles ;;
        rest <- loop keys' ;;
        ret ((key, val) :: rest)
    end.

(** The host value [n] goes into the guest heap of every ready state, on
    top of what is there, and the guest value it becomes reads back as
    [n]. *)
Definition roundTrips (n : Native) : Prop :=
  forall b (i : Interpreter),
    bridgeReady b i = true ->
    exists v i',
      nativeToPseudo n i = Return v i'
      /\ extends (length (Interp.heap i)) i i'
      /\ readsBack b (Interp.OBJECT_PROTO i) (Interp.ARRAY_PROTO i)
           (length (Interp.heap i)) (length (Interp.heap i')) (Interp.heap i') v n.

(** The state stack holds a [Program] frame, the root frame, at its bottom;
    and more than [k] frames in all. *)
Definition rootedStack (stack : list State.t) : bool :=
  match last stack with
  | Some root => isProgram root
  | None => false
  end.

Definition rooted (i : Interpreter) : bool :=
  match Interp.stateStack i with
  | Some stack => rootedStack stack
  | None => false
  end.

(** A table of handlers that leave the root frame on the stack: each pops
    the frames above it at most. *)
Definition keepRoot (handlers : string -> State.t -> Node -> Eng (option State.t))
  : Prop :=
  forall (i : Interpreter) state rest,
    Interp.stateStack i = Some (state :: rest) ->
    rooted i = true ->
    match handlers (node_type (State.node state)) state (State.node state) i with
    | Return _ i' | StepError i' => rooted i' = true
    | _ => True
    end.

Definition deep (k : nat) (i : Interpreter) : Prop :=
  exists stack,
    Interp.stateStack i = Some stack /\ rootedStack stack = true /\ (k < length stack)%nat.

(** [m] removes no frame: where it returns the stack is as deep as it was,
    and where it throws the root frame is still there. *)
Definition steady {A} (m : Eng A) : Prop :=
  forall i : Interpreter,
    match m i with
    | Return _ i' => forall k, deep k i -> deep k i'
    | StepError i' | HostThrow _ i' => deep 0 i -> deep 0 i'
    | _ => True
    end.

(** [m], run with [k] frames above the root frame, leaves the root frame on
    the stack. *)
Definition lands {A} (k : nat) (m : Eng A) : Prop :=
  forall i : Interpreter,
    deep k i ->
    match m i with
    | Return _ i' | StepError i' | HostThrow _ i' => deep 0 i'
    | _ => True
    end.

(** The frame on top of the stack is a [Program] frame marked done. *)
Definition rootDone (i : Interpreter) : bool :=
  match Interp.stateStack i with
  | Some (state :: _) =>
      bool_decide (node_type (State.node state) = "Program") && State.done state
  | _ => false
  end.

(** The kinds of frame [unwind] looks for. *)
Definition isTry (state : State.t) : bool :=
  match State.node state with
  | TryStatement _ _ _ _ => true
  | _ => false
  end.

Definition isCall (state : State.t) : bool :=
  match State.node state with
  | CallExpression _ _ _ | NewExpression _ _ _ | SyntheticCall => true
  | _ => false
  end.

(** A frame that is no try statement, no call and not the program. *)
Definition passes (state : State.t) : bool :=
  negb (isTry state) && negb (isCall state) && negb (isProgram state).

(** A frame an unlabelled [break] stops at, and one it goes past. *)
Definition breakTarget (state : State.t) : bool :=
  passes state && (State.isLoop state || State.isSwitch state).

Definition passedByBreak (state : State.t) : bool :=
  passes state && negb (State.isLoop state || State.isSwitch state).

(** Where [m] returns, the heap has the objects it had, the one at [l]
    apart. *)
Definition onlyAt (l : loc) {A} (m : Eng A) : Prop :=
  forall i : Interpreter,
    match m i with
    | Return _ i' =>
        length (Interp.heap i') = length (Interp.heap i)
        /\ forall l', l' <> l -> Interp.heap i' !! l' = Interp.heap i !! l'
    | _ => True
    end.

(** The scope object in which the walks of [getValueFromScope] and
    [setValueToScope] find [name] before they reach the global scope. *)
Fixpoint binder (h : Heap) (globalScope scope : Scope) (name : string) : option loc :=
  match scope with
  | [] => None
  | entry :: parent =>
      if bool_decide (scope = globalScope) then None
      else
        match h !! object entry with
        | Some o =>
            if props_has name (Obj.properties o) then Some (object entry)
            else binder h globalScope parent name
        | None => None
        end
  end.

(** The frame of a call when its last argument is evaluated: the value of
    the last argument joins the arguments, and a call with no [this] gets the
    global object, or [undefined] in strict mode. *)
Definition argumentsDone (state : State.t) (i : Interpreter) : State.t :=
  let s1 := if (State.n_ state =? 0)%nat then state
            else State.set_arguments_ (State.arguments_ state ++ [State.value state]) state in
  let s2 := if bool_decide (State.funcThis_ s1 = VUndefined)
            then State.set_funcThis_
                   (if scopeStrict (State.scope state) then VUndefined
                    else VObject (Interp.globalObject i)) s1
            else s1 in
  State.set_doneArgs_ true s2.

(** The state in which the bridge makes instances of a built-in class other
    than [Object] and [Array]: [bridgeReady], the prototype [q] is an object
    directly on top of [Object.prototype] that was there when [b] objects
    were, it is the prototype the constructor [c] hands to its instances,
    and the constructors [others] hand other prototypes to theirs. *)
Definition instancesReady (b : nat) (i : Interpreter) (q c : option loc)
    (others : list (option loc)) : bool :=
  bridgeReady b i
  && match q with
     | Some q' =>
         (q' <? b)%nat
         && match Interp.heap i !! q' with
            | Some oq =>
                isSome (Obj.proto oq) && bool_decide (Obj.proto oq = Interp.OBJECT_PROTO i)
            | None => false
            end
         && bool_decide (builtinPrototype b i c = Some q')
         && forallb (fun c' => match builtinPrototype b i c' with
                               | Some p => bool_decide (p <> q')
                                           && bool_decide (Some p <> Interp.OBJECT_PROTO i)
                               | None => false
                               end) others
     | None => false
     end.

(** [initFunction] of [test/simplerun.test.ts]: the five host functions,
    wrapped and published on the global object.  [export] is registered with
    [createNativeFunction] there and converts its argument itself; the
    wrapper made by [nativeToPseudo] does the same conversion. *)
Definition simpleRunInit (scope : loc) : Eng unit :=
  f <- nativeToPseudo (NativeFunction SimpleRun.setStr false) ;;
  setProperty (VObject scope) "setStr" (Given f) None ;;;
  f <- nativeToPseudo (NativeFunction SimpleRun.getStr false) ;;
  setProperty (VObject scope) "getStr" (Given f) None ;;;
  f <- nativeToPseudo (NativeFunction SimpleRun.setVal false) ;;
  setProperty (VObject scope) "setVal" (Given f) None ;;;
  f <- nativeToPseudo (NativeFunction SimpleRun.getVal false) ;;
  setProperty (VObject scope) "getVal" (Given f) None ;;;
  f <- nativeToPseudo (NativeFunction SimpleRun.export false) ;;
  setProperty (VObject scope) "export" (Given f) None ;;;
  ret tt.

(** No initialization function. *)
Definition noInit (scope : loc) : Eng unit := ret tt.

(** The instance the constructor leaves, when it returns. *)
Definition constructed (ast : Node) (initFunc : loc -> Eng unit) (host : Host)
  : Interpreter :=
  match newInterpreter ast initFunc host with
  | Return _ i => i
  | _ => blank host
  end.

(** An initialization function that registers one async function, [wait],
    of one parameter (the callback); and the program [wait();]. *)
Definition asyncInit (scope : loc) : Eng unit :=
  f <- createAsyncFunction 0 1 ;;
  setProperty (VObject scope) "wait" (Given (VObject f)) None ;;;
  ret tt.

Definition waiting : Node :=
  Program 7 [ExpressionStatement 7 (CallExpression 6 (Identifier 4 "wait") [])].

(** The interpreter after [n] calls of [step] that return. *)
Fixpoint steps (n : nat) (i : Interpreter) : Interpreter :=
  match n with
  | O => i
  | S n' =>
      match step stepFunctions 9 i with
      | Return _ i' => steps n' i'
      | _ => i
      end
  end.

(** The interpreter with the frame on top of its stack popped, as a handler
    sees it after [stack.pop()]. *)
Definition popped (i : Interpreter) : Interpreter :=
  Interp.set_stateStack (tail <$> Interp.stateStack i) i.

(** An initialization function that publishes a guest [TypeError] with the
    message [boom] as [err], renamed when [name] is given; and the program
    [throw err;]. *)
Definition errorInit (name : option string) (scope : loc) : Eng unit :=
  i <- gets id ;;
  e <- createObject (fieldValue (Interp.TYPE_ERROR i)) ;;
  setProperty (VObject e) "message" (Given (VString "boom"))
    (Some NONENUMERABLE_DESCRIPTOR) ;;;
  match name with
  | Some n => setProperty (VObject e) "name" (Given (VString n)) None
  | None => ret VUndefined
  end ;;;
  setProperty (VObject scope) "err" (Given (VObject e)) None ;;;
  ret tt.

Definition throwErr : Node :=
  Program 10 [ThrowStatement 10 (Identifier 9 "err")].

(** The frames above the root frame, the root frame, and the value of the
    frame on top. *)
Definition framesAbove (i : Interpreter) : list State.t :=
  removelast (default [] (Interp.stateStack i)).

Definition rootFrame (i : Interpreter) : State.t :=
  default (State.new (Program 0 []) []) (last (default [] (Interp.stateStack i))).

Definition topValue (i : Interpreter) : Value :=
  match Interp.stateStack i with
  | Some (state :: _) => State.value state
  | _ => VUndefined
  end.

(** An initialization function that publishes the guest objects of the
    examples:
    - [plain], with the entry [x = 5];
    - [getter] and [setter], two host functions, and [watched], which has the
      accessor [y] made of them; [heir], whose prototype is [watched];
    - [closed], with the entry [z = 1], not extensible;
    - [list], the array [[7, 8, 9]], and [closedList], the array [[7]], not
      extensible. *)
Definition objectsInit (scope : loc) : Eng unit :=
  i <- gets id ;;
  let publish (name : string) (l : loc) :=
    setProperty (VObject scope) name (Given (VObject l)) None in
  let number (n : Z) := Given (VNumber (NInt n)) in
  plain <- createObjectProto (fieldValue (Interp.OBJECT_PROTO i)) ;;
  setProperty (VObject plain) "x" (number 5) None ;;;
  publish "plain" plain ;;;
  getter <- nativeToPseudo (NativeFunction SimpleRun.getVal false) ;;
  setProperty (VObject scope) "getter" (Given getter) None ;;;
  setter <- nativeToPseudo (NativeFunction SimpleRun.setVal false) ;;
  setProperty (VObject scope) "setter" (Given setter) None ;;;
  watched <- createObjectProto (fieldValue (Interp.OBJECT_PROTO i)) ;;
  setProperty (VObject watched) "y" VALUE_IN_DESCRIPTOR
    (Some (Descriptor.mk (Some (VBool true)) (Some (VBool true)) None None
             (Some getter) (Some setter))) ;;;
  publish "watched" watched ;;;
  heir <- createObjectProto (VObject watched) ;;
  publish "heir" heir ;;;
  closed <- createObjectProto (fieldValue (Interp.OBJECT_PROTO i)) ;;
  setProperty (VObject closed) "z" (number 1) None ;;;
  updateObj closed (Obj.set_preventExtensions true) ;;;
  publish "closed" closed ;;;
  list <- createArray ;;
  setProperty (VObject list) "0" (number 7) None ;;;
  setProperty (VObject list) "1" (number 8) None ;;;
  setProperty (VObject list) "2" (number 9) None ;;;
  publish "list" list ;;;
  closedList <- createArray ;;
  setProperty (VObject closedList) "0" (number 7) None ;;;
  updateObj closedList (Obj.set_preventExtensions true) ;;;
  publish "closedList" closedList ;;;
  ret tt.

(** The guest object published under [name], and its state. *)
Definition global (name : string) (i : Interpreter) : loc :=
  match getProperty (VObject (Interp.globalObject i)) name i with
  | Return (VObject l) _ => l
  | _ => 0%nat
  end.

Definition objectAt (l : loc) (i : Interpreter) : Obj.t :=
  default (Obj.new None) (Interp.heap i !! l).

(** The program that is the directive [use strict] alone. *)
Definition strictProgram : Node :=
  Program 13 [ExpressionStatement 13 (Literal 12 (VString "use strict"))].

(** An initialization function that registers one async function, [wait],
    of two parameters (a number and the callback); and the program
    [wait(1);]. *)
Definition waitInit (scope : loc) : Eng unit :=
  f <- createAsyncFunction 0 2 ;;
  setProperty (VObject scope) "wait" (Given (VObject f)) None ;;;
  ret tt.

Definition waitFor : Node :=
  Program 10 [ExpressionStatement 10
                (CallExpression 9 (Identifier 4 "wait") [Literal 8 (VNumber (NInt 1))])].

(** The program [setVal(2);]. *)
Definition setValTwo : Node :=
  Program 10 [ExpressionStatement 10
                (CallExpression 9 (Identifier 6 "setVal") [Literal 8 (VNumber (NInt 2))])].

(** The program [try { throw "boom"; } catch (e) {}]. *)
Definition tryThrow : Node :=
  Program 30 [TryStatement 30
                (BlockStatement 20 [ThrowStatement 19 (Literal 18 (VString "boom"))])
                (Some (CatchClause 29 "e" (BlockStatement 29 []))) None].

(** The state stack, top first, and its frames by position. *)
Definition stackOf (i : Interpreter) : list State.t := default [] (Interp.stateStack i).

Definition frameAt (k : nat) (i : Interpreter) : State.t :=
  default (State.new (Program 0 []) []) (stackOf i !! k).

(** The program [delete x;]. *)
Definition deleteVariable : Node :=
  Program 9 [ExpressionStatement 9 (UnaryExpression 8 "delete" (Identifier 8 "x"))].

(** An initialization function that publishes two arrays that hold each
    other, as [var a = [], b = []; a[0] = b; b[0] = a;] leaves them. *)
Definition cyclicInit (scope : loc) : Eng unit :=
  a <- createArray ;;
  b <- createArray ;;
  setProperty (VObject a) "0" (Given (VObject b)) None ;;;
  setProperty (VObject b) "0" (Given (VObject a)) None ;;;
  setProperty (VObject scope) "a" (Given (VObject a)) None ;;;
  setProperty (VObject scope) "b" (Given (VObject b)) None ;;;
  ret tt.

(** ** Reasoning about engine computations *)

(** [m] returns in state [i] without changing it. *)
Lemma reads_ret {A} (a : A) i : reads (ret a) i.
Proof. by exists a. Qed.

Lemma reads_gets {A} (f : Interpreter -> A) i : reads (gets f) i.
Proof. by exists (f i). Qed.

Lemma reads_bind {A B} (m : Eng A) (k : A -> Eng B) i :
  reads m i -> (forall a, m i = Return a i -> reads (k a) i) -> reads (bind m k) i.
Proof.
  intros [a Ha] Hk. destruct (Hk a Ha) as [b Hb].
  exists b. unfold bind. by rewrite Ha.
Qed.

Lemma bind_Return {A B} (m : Eng A) (k : A -> Eng B) i a i' :
  m i = Return a i' -> bind m k i = k a i'.
Proof. intros H. unfold bind. by rewrite H. Qed.

Lemma reads_lookupObj (i : Interpreter) l :
  (l < length (Interp.heap i))%nat -> reads (lookupObj l) i.
Proof.
  intros Hl. unfold reads, lookupObj.
  destruct (lookup_lt_is_Some_2 _ _ Hl) as [o Ho]. rewrite Ho. eauto.
Qed.

Lemma lookupObj_Return (i i' : Interpreter) l o :
  lookupObj l i = Return o i' -> i' = i /\ Interp.heap i !! l = Some o.
Proof.
  unfold lookupObj. destruct (Interp.heap i !! l); [|done]. by intros [= -> ->].
Qed.

Lemma chainEnds_lt fuel h l : chainEnds fuel h l = true -> (l < length h)%nat.
Proof.
  destruct fuel; [done|]. cbn [chainEnds].
  destruct (h !! l) eqn:E; [|done]. intros _. by eapply lookup_lt_Some.
Qed.

Lemma chainEnds_mono fuel fuel' h l :
  (fuel <= fuel')%nat -> chainEnds fuel h l = true -> chainEnds fuel' h l = true.
Proof.
  revert fuel' l. induction fuel as [|fuel IH]; intros fuel' l Hle; [done|].
  destruct fuel' as [|fuel']; [lia|]. cbn [chainEnds].
  destruct (h !! l) as [o|]; [|done]. destruct (Obj.proto o); [|done].
  apply IH. lia.
Qed.

Lemma reads_protoField (i : Interpreter) l :
  (l < length (Interp.heap i))%nat -> reads (protoField (VObject l)) i.
Proof.
  intros Hl. unfold protoField. apply reads_bind; [by apply reads_lookupObj|].
  intros; apply reads_ret.
Qed.

Lemma protoField_Return (i i' : Interpreter) l v :
  protoField (VObject l) i = Return v i' ->
  i' = i /\ exists o, Interp.heap i !! l = Some o /\
    v = match Obj.proto o with Some p => VObject p | None => VNull end.
Proof.
  unfold protoField, bind. destruct (lookupObj l i) eqn:E; try done.
  apply lookupObj_Return in E as [-> E]. unfold ret. intros [= <- <-]. eauto.
Qed.

Lemma getPrototype_object (i : Interpreter) l :
  getPrototype (VObject l) i = protoField (VObject l) i.
Proof. done. Qed.

Lemma chainEnds_proto fuel h l o p :
  chainEnds (S fuel) h l = true -> h !! l = Some o -> Obj.proto o = Some p ->
  chainEnds fuel h p = true.
Proof. cbn [chainEnds]. intros H Ho Hp. by rewrite Ho, Hp in H. Qed.

Lemma reads_isa_loop (i : Interpreter) fuel p proto :
  chainEnds fuel (Interp.heap i) p = true ->
  reads (isa_loop (S fuel) (VObject p) proto) i.
Proof.
  revert p. induction fuel as [|fuel IH]; intros p Hp; [done|].
  cbn [isa_loop ToBoolean].
  destruct (strict_equals (VObject p) proto); [apply reads_ret|].
  apply reads_bind; [apply reads_protoField; by eapply chainEnds_lt|].
  intros v Hv. apply protoField_Return in Hv as [_ (o & Ho & ->)].
  destruct (Obj.proto o) as [q|] eqn:Hq.
  - apply IH. by eapply chainEnds_proto.
  - destruct fuel; apply reads_ret.
Qed.

Lemma reads_isa (i : Interpreter) l c :
  chainEnds (length (Interp.heap i)) (Interp.heap i) l = true ->
  fieldOk (Interp.heap i) c = true ->
  reads (isa (VObject l) c) i.
Proof.
  intros Hl Hc. unfold isa. destruct c as [c|]; [|apply reads_ret].
  apply bool_decide_eq_true in Hc.
  apply reads_bind; [by apply reads_lookupObj|]. intros co _.
  destruct (strict_equals _ _); [apply reads_ret|].
  apply reads_bind; [apply reads_protoField; by eapply chainEnds_lt|].
  intros v Hv. apply protoField_Return in Hv as [_ (o & Ho & ->)].
  apply reads_bind; [apply reads_gets|]. intros h [= <-].
  destruct (Obj.proto o) as [q|] eqn:Hq.
  - apply reads_isa_loop.
    destruct (length (Interp.heap i)) as [|n] eqn:Hn; [done|].
    apply (chainEnds_mono n); [lia|]. by eapply chainEnds_proto.
  - apply reads_ret.
Qed.

Lemma reads_String_ (i : Interpreter) v :
  stringifies (Interp.heap i) v = true -> reads (String_ v) i.
Proof.
  unfold stringifies, String_. intros H.
  apply reads_bind; [apply reads_gets|]. intros h [= <-].
  destruct (ValueToString _ _); try done. apply reads_ret.
Qed.

Lemma reads_hasProperty_loop (i : Interpreter) fuel l name :
  chainEnds fuel (Interp.heap i) l = true ->
  reads (hasProperty_loop (S fuel) (VObject l) name) i.
Proof.
  revert l. induction fuel as [|fuel IH]; intros l Hl; [done|].
  cbn [hasProperty_loop].
  apply reads_bind.
  { apply reads_bind; [apply reads_lookupObj; by eapply chainEnds_lt|].
    intros; apply reads_ret. }
  intros [] _; [apply reads_ret|].
  apply reads_bind; [apply reads_protoField; by eapply chainEnds_lt|].
  intros v Hv. apply protoField_Return in Hv as [_ (o & Ho & ->)].
  destruct (Obj.proto o) as [q|] eqn:Hq; cbn [ToBoolean].
  - apply IH. by eapply chainEnds_proto.
  - apply reads_ret.
Qed.

Lemma reads_hasProperty_when (i : Interpreter) l name :
  chainEnds (length (Interp.heap i)) (Interp.heap i) l = true ->
  fieldOk (Interp.heap i) (Interp.STRING i) = true ->
  (isa (VObject l) (Interp.STRING i) i = Return true i ->
   stringifies (Interp.heap i) (VObject l) = true) ->
  reads (hasProperty (VObject l) name) i.
Proof.
  intros Hl Hs Hstr.
  unfold hasProperty. cbn [isPseudoObject negb].
  apply reads_bind; [apply reads_gets|]. intros ? [= <-].
  apply reads_bind.
  { case_bool_decide; [by apply reads_isa|apply reads_ret]. }
  intros [] _; [apply reads_ret|].
  apply reads_bind; [by apply reads_isa|]. intros isString His.
  apply reads_bind.
  { destruct isString; [|apply reads_ret].
    destruct (legalArrayIndex name); try apply reads_ret.
    apply reads_bind; [by apply reads_String_, Hstr|]. intros; apply reads_ret. }
  intros [] _; [apply reads_ret|].
  apply reads_hasProperty_loop.
  apply (chainEnds_mono (length (Interp.heap i))); [lia|done].
Qed.

Lemma reads_hasProperty (i : Interpreter) l name :
  receiverOk i l = true -> reads (hasProperty (VObject l) name) i.
Proof.
  unfold receiverOk. intros [[Hl Hs]%andb_prop Hstr]%andb_prop.
  by apply reads_hasProperty_when.
Qed.

(** A host exception raised by a handler leaves [step] as it is: the loop's
    [catch] only eats [STEP_ERROR]. *)
Lemma step_rethrows stepFunctions_ fuel (i i' : Interpreter) state rest e :
  Interp.stateStack i = Some (state :: rest) ->
  bool_decide (node_type (State.node state) = "Program") && State.done state = false ->
  Interp.paused_ i = false ->
  stepFunctions_ (node_type (State.node state)) state (State.node state) i = HostThrow e i' ->
  step stepFunctions_ (S fuel) i = HostThrow e i'.
Proof.
  intros Hs Hd Hp Hh. unfold step. cbn [step_loop].
  unfold bind at 1, gets at 1. rewrite Hs, Hd.
  unfold bind at 1, gets at 1. rewrite Hp. by rewrite Hh.
Qed.


(** ** Engine methods that leave [paused_] alone *)

Lemma keeps_ret {A} (a : A) : keepsPaused (ret a).
Proof. by intros i. Qed.

Lemma keeps_gets {A} (f : Interpreter -> A) : keepsPaused (gets f).
Proof. by intros i. Qed.

Lemma keeps_throwHost {A} e : keepsPaused (@throwHost Host A e).
Proof. by intros i. Qed.

Lemma keeps_throwSTEP_ERROR {A} : keepsPaused (@throwSTEP_ERROR Host A).
Proof. by intros i. Qed.

Lemma keeps_diverge {A} : keepsPaused (@diverge Host A).
Proof. by intros i. Qed.

Lemma keeps_unmodelled {A} : keepsPaused (@unmodelled Host A).
Proof. by intros i. Qed.

Lemma keeps_modify (f : Interpreter -> Interpreter) :
  (forall i, Interp.paused_ (f i) = Interp.paused_ i) -> keepsPaused (modify f).
Proof. intros H i. apply H. Qed.

Lemma keeps_bind {A B} (m : Eng A) (k : A -> Eng B) :
  keepsPaused m -> (forall a, keepsPaused (k a)) -> keepsPaused (bind m k).
Proof.
  intros Hm Hk i. unfold bind. specialize (Hm i).
  destruct (m i) as [a i'| | | |]; try done.
  specialize (Hk a i'). destruct (k a i'); congruence.
Qed.

Lemma keeps_liftConv {A} (c : Conv A) : keepsPaused (@liftConv Host A c).
Proof. destruct c; by intros i. Qed.

Lemma keeps_lookupObj l : keepsPaused (@lookupObj Host l).
Proof. intros i. unfold lookupObj. by destruct (_ !! _). Qed.

Lemma keeps_updateObj l f : keepsPaused (@updateObj Host l f).
Proof. by intros i. Qed.

Lemma keeps_allocObj o : keepsPaused (@allocObj Host o).
Proof. by intros i. Qed.

Create HintDb keeps.

#[local] Hint Resolve keeps_ret keeps_gets keeps_throwHost keeps_throwSTEP_ERROR
  keeps_diverge keeps_unmodelled keeps_liftConv keeps_lookupObj keeps_updateObj
  keeps_allocObj : keeps.

(** Splits a goal [keepsPaused m] along the binds and the case analyses of
    [m]. *)
Ltac keeps :=
  repeat first
    [ progress auto with keeps
    | apply keeps_bind; [|intros]
    | apply keeps_modify; intros; reflexivity
    | match goal with
      | |- keepsPaused (match ?x with _ => _ end) => destruct x
      | |- keepsPaused (let '(_, _) := ?x in _) => destruct x
      end ].

Lemma keeps_constructorPrototype c : keepsPaused (constructorPrototype c).
Proof. unfold constructorPrototype. keeps. Qed.
#[local] Hint Resolve keeps_constructorPrototype : keeps.

Lemma keeps_protoField v : keepsPaused (protoField v).
Proof. unfold protoField. keeps. Qed.
#[local] Hint Resolve keeps_protoField : keeps.

Lemma keeps_getPrototype v : keepsPaused (getPrototype v).
Proof. unfold getPrototype. keeps. Qed.
#[local] Hint Resolve keeps_getPrototype : keeps.

Lemma keeps_isa_loop fuel child proto : keepsPaused (isa_loop fuel child proto).
Proof. revert child. induction fuel; intros; cbn [isa_loop]; keeps. Qed.
#[local] Hint Resolve keeps_isa_loop : keeps.

Lemma keeps_isa child c : keepsPaused (isa child c).
Proof. unfold isa. keeps. Qed.
#[local] Hint Resolve keeps_isa : keeps.

Lemma keeps_String_ v : keepsPaused (String_ v).
Proof. unfold String_. keeps. Qed.
#[local] Hint Resolve keeps_String_ : keeps.

Lemma keeps_getProperty_loop fuel obj name : keepsPaused (getProperty_loop fuel obj name).
Proof. revert obj. induction fuel; intros; cbn [getProperty_loop]; keeps. Qed.
#[local] Hint Resolve keeps_getProperty_loop : keeps.

Lemma keeps_getProperty_ throwException obj name :
  (forall c m, keepsPaused (throwException c m)) ->
  keepsPaused (getProperty_ throwException obj name).
Proof. intros H. unfold getProperty_. keeps. Qed.

Lemma keeps_hasProperty_loop fuel obj name : keepsPaused (hasProperty_loop fuel obj name).
Proof. revert obj. induction fuel; intros; cbn [hasProperty_loop]; keeps. Qed.
#[local] Hint Resolve keeps_hasProperty_loop : keeps.

Lemma keeps_hasProperty obj name : keepsPaused (hasProperty obj name).
Proof. unfold hasProperty. keeps. Qed.
#[local] Hint Resolve keeps_hasProperty : keeps.

Lemma keeps_createObjectProto proto : keepsPaused (createObjectProto proto).
Proof. unfold createObjectProto. keeps. Qed.
#[local] Hint Resolve keeps_createObjectProto : keeps.

Lemma keeps_createObject c : keepsPaused (createObject c).
Proof. unfold createObject. keeps. Qed.
#[local] Hint Resolve keeps_createObject : keeps.

Lemma keeps_getScope : keepsPaused getScope.
Proof. unfold getScope. keeps. Qed.
#[local] Hint Resolve keeps_getScope : keeps.

Lemma keeps_findDefObj fuel obj defObj name : keepsPaused (findDefObj fuel obj defObj name).
Proof. revert defObj. induction fuel; intros; cbn [findDefObj]; keeps. Qed.
#[local] Hint Resolve keeps_findDefObj : keeps.

Lemma keeps_setProperty_ throwException obj name value d :
  (forall c m, keepsPaused (throwException c m)) ->
  keepsPaused (setProperty_ throwException obj name value d).
Proof.
  intros H. unfold setProperty_, setProperty_object, setProperty_array,
    setProperty_define, setProperty_assign. keeps.
Qed.

Lemma keeps_valueOf v : keepsPaused (valueOf v).
Proof. unfold valueOf. keeps. Qed.
#[local] Hint Resolve keeps_valueOf : keeps.

Lemma keeps_unwind type value label : keepsPaused (unwind type value label).
Proof.
  unfold unwind. keeps.
Qed.
#[local] Hint Resolve keeps_unwind : keeps.

Lemma keeps_throwException c m : keepsPaused (throwException c m).
Proof.
  unfold throwException. keeps.
Qed.
#[local] Hint Resolve keeps_throwException : keeps.

Lemma keeps_getProperty obj name : keepsPaused (getProperty obj name).
Proof. apply keeps_getProperty_. auto with keeps. Qed.

Lemma keeps_setProperty obj name value d : keepsPaused (setProperty obj name value d).
Proof. apply keeps_setProperty_. auto with keeps. Qed.
#[local] Hint Resolve keeps_getProperty keeps_setProperty : keeps.

Lemma keeps_createArray : keepsPaused createArray.
Proof. unfold createArray. keeps. Qed.
#[local] Hint Resolve keeps_createArray : keeps.

Lemma keeps_createFunctionBase_ n c : keepsPaused (createFunctionBase_ n c).
Proof. unfold createFunctionBase_. keeps. Qed.
#[local] Hint Resolve keeps_createFunctionBase_ : keeps.

Lemma keeps_createNativeFunction f n c : keepsPaused (createNativeFunction f n c).
Proof. unfold createNativeFunction. keeps. Qed.
#[local] Hint Resolve keeps_createNativeFunction : keeps.

Lemma keeps_populateRegExp l s f n : keepsPaused (populateRegExp l s f n).
Proof. unfold populateRegExp. keeps. Qed.
#[local] Hint Resolve keeps_populateRegExp : keeps.

(** Induction over host values, through the slots of arrays and the entries
    of objects. *)
Lemma Native_induction (P : Native -> Prop) :
  P NativeUndefined -> P NativeNull -> (forall b, P (NativeBool b)) ->
  (forall n, P (NativeNumber n)) -> (forall s, P (NativeString s)) ->
  (forall slots,
      Forall (fun s => match s with Some e => P e | None => True end) slots ->
      P (NativeArray slots)) ->
  (forall entries, Forall (fun kv => P (snd kv)) entries -> P (NativeObject entries)) ->
  (forall f p, P (NativeFunction f p)) ->
  (forall s f n, P (NativeRegExp s f n)) ->
  (forall ms, P (NativeDate ms)) ->
  (forall l, P (NativePseudo l)) ->
  (forall k, P (NativeBackReference k)) ->
  forall n, P n.
Proof.
  intros Hu Hn Hb Hnum Hs Harr Hobj Hf Hr Hd Hp Hk.
  fix IH 1. intros [| |b|n|s|slots|entries|f p|s f n|ms|l|k];
    try solve [clear IH; auto].
  - apply Harr. induction slots as [|[e|] slots IHs]; constructor; auto.
  - apply Hobj. induction entries as [|[k e] entries IHe]; constructor; auto.
Qed.

Lemma keeps_nativeToPseudo n : keepsPaused (nativeToPseudo n).
Proof.
  induction n using Native_induction; cbn [nativeToPseudo]; keeps.
  - generalize 0. induction H as [|[e|] slots He Hs IHs]; intros z; keeps.
  - induction H as [|[k e] entries He Hs IHs]; keeps.
Qed.
#[local] Hint Resolve keeps_nativeToPseudo : keeps.

Lemma keeps_pseudoToNative_ fuel v cycles : keepsPaused (pseudoToNative_ fuel v cycles).
Proof.
  revert v cycles. induction fuel as [|fuel IH]; intros v cycles;
    cbn [pseudoToNative_]; keeps.
  - match goal with |- keepsPaused (_ ?l) => induction l; keeps end.
  - match goal with |- keepsPaused (_ ?l) => induction l; keeps end.
Qed.
#[local] Hint Resolve keeps_pseudoToNative_ : keeps.

Lemma keeps_pseudoToNative v : keepsPaused (pseudoToNative v).
Proof. unfold pseudoToNative. keeps. Qed.
#[local] Hint Resolve keeps_pseudoToNative : keeps.

Lemma keeps_mapM {A B} (f : A -> Eng B) l :
  (forall a, keepsPaused (f a)) -> keepsPaused (mapM f l).
Proof. intros H. induction l; cbn [mapM]; keeps. Qed.

Lemma keeps_pop : keepsPaused pop.
Proof. by intros i. Qed.

Lemma keeps_push s : keepsPaused (push s).
Proof. by intros i. Qed.

Lemma keeps_updateTop f : keepsPaused (updateTop f).
Proof. unfold updateTop. keeps. Qed.

Lemma keeps_topState : keepsPaused topState.
Proof. unfold topState. keeps. Qed.
#[local] Hint Resolve keeps_pop keeps_push keeps_updateTop keeps_topState : keeps.

Lemma keeps_setTopValue v : keepsPaused (setTopValue v).
Proof. unfold setTopValue. keeps. Qed.
#[local] Hint Resolve keeps_setTopValue : keeps.

Lemma keeps_createSpecialScope s : keepsPaused (createSpecialScope s).
Proof. unfold createSpecialScope. keeps. Qed.
#[local] Hint Resolve keeps_createSpecialScope : keeps.

Lemma keeps_scopeLookup g s name : keepsPaused (scopeLookup g s name).
Proof. induction s; cbn [scopeLookup]; keeps. Qed.
#[local] Hint Resolve keeps_scopeLookup : keeps.

Lemma keeps_getValueFromScope name : keepsPaused (getValueFromScope name).
Proof. unfold getValueFromScope. keeps. Qed.
#[local] Hint Resolve keeps_getValueFromScope : keeps.

Lemma keeps_getValue ref : keepsPaused (getValue ref).
Proof. unfold getValue. keeps. Qed.
#[local] Hint Resolve keeps_getValue : keeps.

Lemma keeps_createGetter_ f l : keepsPaused (createGetter_ f l).
Proof. unfold createGetter_. keeps. Qed.

Lemma keeps_createSetter_ f l v : keepsPaused (createSetter_ f l v).
Proof. unfold createSetter_. keeps. Qed.
#[local] Hint Resolve keeps_createGetter_ keeps_createSetter_ : keeps.

Lemma keeps_stepProgram s n : keepsPaused (stepProgram s n).
Proof. unfold stepProgram. keeps. Qed.

Lemma keeps_stepExpressionStatement s n : keepsPaused (stepExpressionStatement s n).
Proof. unfold stepExpressionStatement. keeps. Qed.

Lemma keeps_stepBlockStatement s n : keepsPaused (stepBlockStatement s n).
Proof. unfold stepBlockStatement. keeps. Qed.

Lemma keeps_stepEmptyStatement s n : keepsPaused (stepEmptyStatement s n).
Proof. unfold stepEmptyStatement. keeps. Qed.

Lemma keeps_stepThrowStatement s n : keepsPaused (stepThrowStatement s n).
Proof. unfold stepThrowStatement. keeps. Qed.

Lemma keeps_stepTryStatement s n : keepsPaused (stepTryStatement s n).
Proof. unfold stepTryStatement. keeps. Qed.

Lemma keeps_stepCatchClause s n : keepsPaused (stepCatchClause s n).
Proof. unfold stepCatchClause. keeps. Qed.

Lemma keeps_stepLiteral s n : keepsPaused (stepLiteral s n).
Proof. unfold stepLiteral. keeps. Qed.

Lemma keeps_stepIdentifier s n : keepsPaused (stepIdentifier s n).
Proof. unfold stepIdentifier. keeps. Qed.

Lemma keeps_typeofValue v : keepsPaused (typeofValue v).
Proof. unfold typeofValue. keeps. Qed.

Lemma keeps_deleteReference s o n : keepsPaused (deleteReference s o n).
Proof. unfold deleteReference. keeps. Qed.
#[local] Hint Resolve keeps_typeofValue keeps_deleteReference : keeps.

Lemma keeps_stepUnaryExpression s n : keepsPaused (stepUnaryExpression s n).
Proof. unfold stepUnaryExpression. keeps. Qed.

Lemma keeps_calledWithNew : keepsPaused calledWithNew.
Proof. unfold calledWithNew. keeps. Qed.
#[local] Hint Resolve keeps_calledWithNew : keeps.

Lemma keeps_applyNative f func this args : keepsPaused (applyNative f func this args).
Proof.
  unfold applyNative. keeps. apply keeps_mapM. intros; keeps.
Qed.
#[local] Hint Resolve keeps_applyNative : keeps.

(** ** Engine methods that return with the state stack untouched *)

Lemma same_ret {A} (a : A) : sameStack (ret a).
Proof. by intros i. Qed.

Lemma same_gets {A} (f : Interpreter -> A) : sameStack (gets f).
Proof. by intros i. Qed.

Lemma same_throwHost {A} e : sameStack (@throwHost Host A e).
Proof. by intros i. Qed.

Lemma same_throwSTEP_ERROR {A} : sameStack (@throwSTEP_ERROR Host A).
Proof. by intros i. Qed.

Lemma same_diverge {A} : sameStack (@diverge Host A).
Proof. by intros i. Qed.

Lemma same_unmodelled {A} : sameStack (@unmodelled Host A).
Proof. by intros i. Qed.

Lemma same_modify (f : Interpreter -> Interpreter) :
  (forall i, Interp.stateStack (f i) = Interp.stateStack i) -> sameStack (modify f).
Proof. intros H i. apply H. Qed.

Lemma same_bind {A B} (m : Eng A) (k : A -> Eng B) :
  sameStack m -> (forall a, sameStack (k a)) -> sameStack (bind m k).
Proof.
  intros Hm Hk i. unfold bind. specialize (Hm i).
  destruct (m i) as [a i'| | | |]; try done.
  specialize (Hk a i'). destruct (k a i'); congruence.
Qed.

(** A method that ends by throwing never returns. *)
Lemma same_bind_throws {A B} (m : Eng A) (k : A -> Eng B) :
  (forall a i, match k a i with Return _ _ => False | _ => True end) ->
  sameStack (bind m k).
Proof.
  intros Hk i. unfold bind. destruct (m i) as [a i'| | | |]; try done.
  specialize (Hk a i'). by destruct (k a i').
Qed.

Lemma same_liftConv {A} (c : Conv A) : sameStack (@liftConv Host A c).
Proof. destruct c; by intros i. Qed.

Lemma same_lookupObj l : sameStack (@lookupObj Host l).
Proof. intros i. unfold lookupObj. by destruct (_ !! _). Qed.

Lemma same_updateObj l f : sameStack (@updateObj Host l f).
Proof. by intros i. Qed.

Lemma same_allocObj o : sameStack (@allocObj Host o).
Proof. by intros i. Qed.

Create HintDb same.

#[local] Hint Resolve same_ret same_gets same_throwHost same_throwSTEP_ERROR
  same_diverge same_unmodelled same_liftConv same_lookupObj same_updateObj
  same_allocObj : same.

Ltac same :=
  repeat first
    [ progress auto with same
    | apply same_bind; [|intros]
    | apply same_modify; intros; reflexivity
    | match goal with
      | |- sameStack (match ?x with _ => _ end) => destruct x
      | |- sameStack (let '(_, _) := ?x in _) => destruct x
      end ].

Lemma same_constructorPrototype c : sameStack (constructorPrototype c).
Proof. unfold constructorPrototype. same. Qed.
#[local] Hint Resolve same_constructorPrototype : same.

Lemma same_protoField v : sameStack (protoField v).
Proof. unfold protoField. same. Qed.
#[local] Hint Resolve same_protoField : same.

Lemma same_getPrototype v : sameStack (getPrototype v).
Proof. unfold getPrototype. same. Qed.
#[local] Hint Resolve same_getPrototype : same.

Lemma same_isa_loop fuel child proto : sameStack (isa_loop fuel child proto).
Proof. revert child. induction fuel; intros; cbn [isa_loop]; same. Qed.
#[local] Hint Resolve same_isa_loop : same.

Lemma same_isa child c : sameStack (isa child c).
Proof. unfold isa. same. Qed.
#[local] Hint Resolve same_isa : same.

Lemma same_String_ v : sameStack (String_ v).
Proof. unfold String_. same. Qed.
#[local] Hint Resolve same_String_ : same.

Lemma same_getProperty_loop fuel obj name : sameStack (getProperty_loop fuel obj name).
Proof. revert obj. induction fuel; intros; cbn [getProperty_loop]; same. Qed.
#[local] Hint Resolve same_getProperty_loop : same.

Lemma same_getProperty_ throwException obj name :
  (forall c m, sameStack (throwException c m)) ->
  sameStack (getProperty_ throwException obj name).
Proof. intros H. unfold getProperty_. same. Qed.

Lemma same_hasProperty_loop fuel obj name : sameStack (hasProperty_loop fuel obj name).
Proof. revert obj. induction fuel; intros; cbn [hasProperty_loop]; same. Qed.
#[local] Hint Resolve same_hasProperty_loop : same.

Lemma same_hasProperty obj name : sameStack (hasProperty obj name).
Proof. unfold hasProperty. same. Qed.
#[local] Hint Resolve same_hasProperty : same.

Lemma same_createObjectProto proto : sameStack (createObjectProto proto).
Proof. unfold createObjectProto. same. Qed.
#[local] Hint Resolve same_createObjectProto : same.

Lemma same_createObject c : sameStack (createObject c).
Proof. unfold createObject. same. Qed.
#[local] Hint Resolve same_createObject : same.

Lemma same_getScope : sameStack getScope.
Proof. unfold getScope. same. Qed.
#[local] Hint Resolve same_getScope : same.

Lemma same_findDefObj fuel obj defObj name : sameStack (findDefObj fuel obj defObj name).
Proof. revert defObj. induction fuel; intros; cbn [findDefObj]; same. Qed.
#[local] Hint Resolve same_findDefObj : same.

Lemma same_setProperty_ throwException obj name value d :
  (forall c m, sameStack (throwException c m)) ->
  sameStack (setProperty_ throwException obj name value d).
Proof.
  intros H. unfold setProperty_, setProperty_object, setProperty_array,
    setProperty_define, setProperty_assign. same.
Qed.

Lemma same_valueOf v : sameStack (valueOf v).
Proof. unfold valueOf. same. Qed.
#[local] Hint Resolve same_valueOf : same.

(** [throwException] does not return: it ends in [throw STEP_ERROR] or in a
    host error. *)
Lemma throwException_throws c m (i : Interpreter) :
  match throwException c m i with Return _ _ => False | _ => True end.
Proof.
  unfold throwException. unfold bind at 1.
  match goal with |- context [match ?x i with _ => _ end] =>
    destruct (x i) as [e i1| | | |] end; try done.
  unfold bind. by destruct (unwind THROW e None i1).
Qed.

Lemma same_throwException c m : sameStack (throwException c m).
Proof. intros i. pose proof (throwException_throws c m i). by destruct (throwException c m i). Qed.
#[local] Hint Resolve same_throwException : same.

Lemma same_getProperty obj name : sameStack (getProperty obj name).
Proof. apply same_getProperty_. auto with same. Qed.

Lemma same_setProperty obj name value d : sameStack (setProperty obj name value d).
Proof. apply same_setProperty_. auto with same. Qed.
#[local] Hint Resolve same_getProperty same_setProperty : same.

Lemma same_createArray : sameStack createArray.
Proof. unfold createArray. same. Qed.
#[local] Hint Resolve same_createArray : same.

Lemma same_scopeLookup g s name : sameStack (scopeLookup g s name).
Proof. induction s; cbn [scopeLookup]; same. Qed.
#[local] Hint Resolve same_scopeLookup : same.

Lemma same_getValueFromScope name : sameStack (getValueFromScope name).
Proof. unfold getValueFromScope. same. Qed.
#[local] Hint Resolve same_getValueFromScope : same.

Lemma same_getValue ref : sameStack (getValue ref).
Proof. unfold getValue. same. Qed.
#[local] Hint Resolve same_getValue : same.

(** ** [step] and [run] *)

Section StepRun.

Variable stepFunctions_ : string -> State.t -> Node -> Eng (option State.t).

Lemma step_finished fuel ns (i : Interpreter) :
  programFinished i = true -> step_loop stepFunctions_ (S fuel) ns i = Return false i.
Proof.
  unfold programFinished. cbn [step_loop]. unfold bind, gets.
  destruct (Interp.stateStack i) as [[|state rest]|]; try done.
  by intros ->.
Qed.

Lemma step_paused fuel ns (i : Interpreter) :
  Interp.paused_ i = true -> programFinished i = false -> Interp.stateStack i <> None ->
  step_loop stepFunctions_ (S fuel) ns i = Return true i.
Proof.
  unfold programFinished. cbn [step_loop]. unfold bind, gets.
  destruct (Interp.stateStack i) as [[|state rest]|]; try done.
  intros Hp -> _. by rewrite Hp.
Qed.

(** [step] answers [false] only where it finds the program finished, and
    answers without touching that state. *)
Lemma step_loop_false fuel ns (i i' : Interpreter) :
  step_loop stepFunctions_ fuel ns i = Return false i' -> programFinished i' = true.
Proof.
  revert ns i. induction fuel as [|fuel IH]; intros ns i; [done|].
  cbn [step_loop]. unfold bind at 1, gets at 1. unfold programFinished.
  destruct (Interp.stateStack i) as [[|state rest]|] eqn:Hs; try done.
  - intros [= <-]. by rewrite Hs.
  - destruct (bool_decide _ && State.done state) eqn:Hd.
    + intros [= <-]. by rewrite Hs.
    + unfold bind at 1, gets at 1. destruct (Interp.paused_ i); [done|].
      assert (Hc : forall next i1,
        (match next with Some n => push n | None => ret tt end ;;;
         getterStep <- gets Interp.getterStep_ ;;
         if getterStep : bool
         then throwHost (HostErrorObject "Error" "Getter not supported in this context")
         else
           setterStep <- gets Interp.setterStep_ ;;
           if setterStep : bool
           then throwHost (HostErrorObject "Error" "Setter not supported in this context")
           else if (node_end (State.node state) =? 0)%nat
                then step_loop stepFunctions_ fuel next
                else ret true) i1 = Return false i' ->
        match Interp.stateStack i' with
        | Some [] => true
        | Some (state :: _) =>
            bool_decide (node_type (State.node state) = "Program") && State.done state
        | None => false
        end = true).
      { intros next i1. unfold bind at 1.
        destruct (match next with Some n => push n | None => ret tt end i1)
          as [[] i2| | | |]; try done.
        unfold bind at 1, gets at 1. destruct (Interp.getterStep_ i2); [done|].
        unfold bind at 1, gets at 1. destruct (Interp.setterStep_ i2); [done|].
        destruct (node_end _ =? 0)%nat; [|done]. apply IH. }
      destruct (stepFunctions_ _ state _ i) as [next i1|i1| | |]; try done; apply Hc.
Qed.

Lemma run_returns_paused_ fuel (i i' : Interpreter) b :
  run stepFunctions_ fuel i = Return b i' -> b = Interp.paused_ i'.
Proof.
  revert i. induction fuel as [|fuel IH]; intros i; [done|].
  cbn [run]. unfold bind at 1, gets at 1.
  destruct (Interp.paused_ i) eqn:Hp.
  - unfold gets. by intros [= <- <-].
  - unfold bind. destruct (step _ _ i) as [[] i1| | | |]; try done.
    + apply IH.
    + unfold gets. by intros [= <- <-].
Qed.

Lemma run_false_finished fuel (i i' : Interpreter) :
  run stepFunctions_ fuel i = Return false i' -> programFinished i' = true.
Proof.
  revert i. induction fuel as [|fuel IH]; intros i; [done|].
  cbn [run]. unfold bind at 1, gets at 1.
  destruct (Interp.paused_ i) eqn:Hp.
  - unfold gets. intros [= Hb <-]. congruence.
  - unfold bind. destruct (step _ _ i) as [[] i1| | | |] eqn:Hstep; try done.
    + apply IH.
    + unfold gets. intros [= Hb <-]. by apply step_loop_false in Hstep.
Qed.

End StepRun.

(** ** Pausing *)

Lemma triple_bind {A B} P (m : Eng A) Q (k : A -> Eng B) R E :
  triple P m Q E -> (forall a, triple (Q a) (k a) R E) -> triple P (bind m k) R E.
Proof.
  intros Hm Hk i HP. specialize (Hm i HP). unfold bind.
  destruct (m i) as [a i'| | | |]; try done. by apply Hk.
Qed.

Lemma triple_weaken {A} (P P' : Interpreter -> Prop) (m : Eng A) Q E :
  (forall i, P' i -> P i) -> triple P m Q E -> triple P' m Q E.
Proof. intros H Hm i HP. by apply Hm, H. Qed.

Lemma triple_running {A} (m : Eng A) :
  keepsPaused m -> triple running m (fun _ => running) running.
Proof.
  intros Hm i HP. specialize (Hm i). unfold running in *.
  destruct (m i); try done; congruence.
Qed.

Lemma keeps_suspends (m : Eng (option State.t)) : keepsPaused m -> suspends m.
Proof.
  intros Hm i HP. specialize (Hm i). unfold running, runningOrPending in *.
  destruct (m i); try done; try left; congruence.
Qed.

Lemma sameStack_sameFunc {A} (m : Eng A) : sameStack m -> sameFunc m.
Proof.
  intros Hm i. specialize (Hm i). unfold topFunc.
  destruct (m i); try done. by rewrite Hm.
Qed.

Lemma sameFunc_bind {A B} (m : Eng A) (k : A -> Eng B) :
  sameFunc m -> (forall a, sameFunc (k a)) -> sameFunc (bind m k).
Proof.
  intros Hm Hk i. unfold bind. specialize (Hm i).
  destruct (m i) as [a i'| | | |]; try done.
  specialize (Hk a i'). destruct (k a i'); congruence.
Qed.

Lemma sameFunc_updateTop f :
  (forall s, State.func_ (f s) = State.func_ s) -> sameFunc (updateTop f).
Proof.
  intros Hf i. unfold updateTop, bind, gets, topFunc.
  destruct (Interp.stateStack i) as [[|top rest]|]; try done.
  cbn. by rewrite Hf.
Qed.

Lemma sameFunc_topState : sameFunc topState.
Proof. apply sameStack_sameFunc. unfold topState. same. Qed.

Ltac samef :=
  repeat first
    [ apply sameFunc_topState
    | apply sameFunc_updateTop; intros; reflexivity
    | apply sameStack_sameFunc; solve [same]
    | apply sameFunc_bind; [|intros]
    | match goal with
      | |- sameFunc (match ?x with _ => _ end) => destruct x
      end ].

Lemma triple_calling {A} func (m : Eng A) :
  keepsPaused m -> sameFunc m -> triple (calling func) m (fun _ => calling func) running.
Proof.
  intros Hm Hf i [HP HF]. specialize (Hm i). specialize (Hf i).
  unfold running, calling in *. destruct (m i); try done; try split; congruence.
Qed.

Lemma triple_topState :
  triple running topState (fun state => calling (State.func_ state)) running.
Proof.
  intros i HP. unfold topState, bind, gets, calling, topFunc.
  destruct (Interp.stateStack i) as [[|top rest]|] eqn:Hs; cbn; try done.
  by rewrite Hs.
Qed.

Lemma calling_running func (i : Interpreter) : calling func i -> running i.
Proof. by intros [? _]. Qed.

Lemma calling_suspends func (m : Eng (option State.t)) :
  keepsPaused m -> triple (calling func) m runningOrPending running.
Proof.
  intros Hm. eapply triple_weaken; [apply calling_running|]. by apply keeps_suspends.
Qed.

(** The tail of [stepCallExpression], from the point where the callee has
    been evaluated. *)
Ltac call_tail :=
  eapply triple_bind; [apply triple_topState|]; intros state0;
  eapply triple_bind; [apply (triple_calling (State.func_ state0)); [keeps|samef]|];
  intros [next|]; [apply calling_suspends; keeps|];
  eapply triple_bind; [apply (triple_calling (State.func_ state0)); [keeps|samef]|];
  intros ?;
  eapply triple_bind; [apply (triple_calling (State.func_ state0)); [keeps|samef]|];
  intros state1;
  destruct (negb (State.doneExec_ state1)); [|apply calling_suspends; keeps].

Lemma suspends_stepCallExpression state node : suspends (stepCallExpression state node).
Proof.
  unfold stepCallExpression.
  destruct (State.doneCallee_ state) eqn:Hdc;
    [destruct node; apply keeps_suspends; keeps| | |].
  all: eapply triple_bind; [apply triple_running; keeps|]; intros [getter|];
    [apply keeps_suspends; keeps|]; call_tail.
  all: destruct (State.func_ state0) as [| | | | |f| |] eqn:Hfunc;
    try solve [apply calling_suspends; keeps].
  all: eapply triple_bind with
         (Q := fun _ i => calling (VObject f) i /\ topExecuted i = true);
    [intros i [HP HF];
     unfold updateTop, bind, gets, modify, calling, topFunc, topExecuted in *;
     by destruct (Interp.stateStack i) as [[|top rest]|]
    |intros ?].
  all: eapply triple_bind with
         (Q := fun _ i => calling (VObject f) i /\ topExecuted i = true);
    [by intros i H|intros i0].
  all: eapply triple_bind with
         (Q := fun fo i => (calling (VObject f) i /\ topExecuted i = true)
                           /\ Interp.heap i !! f = Some fo);
    [intros i H; unfold lookupObj;
     destruct (Interp.heap i !! f) eqn:Hf; [split; [exact H|exact Hf]|done]
    |intros fo].
  all: destruct (Obj.eval fo); [by intros i _|].
  all: destruct (Obj.nativeFunc fo) eqn:Hn;
    [eapply triple_weaken; [|apply keeps_suspends; keeps]; by intros i [[[? ?] ?] ?]|].
  all: destruct (Obj.asyncFunc fo) as [[af len]|] eqn:Ha;
    [|eapply triple_weaken; [|apply keeps_suspends; keeps]; by intros i [[[? ?] ?] ?]].
  all: intros i [[[HP HF] HE] Hfo]; unfold bind, modify, gets, ret, throwHost.
  all: destruct (len =? 0)%nat; [done|]; cbn.
  all: unfold topFunc, topExecuted in *.
  all: destruct (Interp.stateStack i) as [[|top rest]|] eqn:Hs; try done.
  all: destruct (asyncFunction _ _ _) as [host' [v|]]; cbn.
  1,3,5: unfold asyncCallback, updateTop, bind, gets, modify; cbn; rewrite Hs; by left.
  all: right; split; [done|]; unfold asyncPending; cbn; rewrite Hs, HE.
  all: injection HF as ->; by rewrite Hfo, Ha, Hn.
Qed.

Lemma suspends_stepFunctions type state node : suspends (stepFunctions type state node).
Proof.
  unfold stepFunctions.
  repeat case_bool_decide; try apply suspends_stepCallExpression;
    apply keeps_suspends;
    auto using keeps_stepProgram, keeps_stepExpressionStatement, keeps_stepBlockStatement,
      keeps_stepEmptyStatement, keeps_stepThrowStatement, keeps_stepTryStatement,
      keeps_stepCatchClause, keeps_stepLiteral, keeps_stepIdentifier,
      keeps_stepUnaryExpression, keeps_unmodelled.
Qed.

Lemma pauseForAsync_stepFunctions : pauseForAsync stepFunctions.
Proof. intros type state node. apply suspends_stepFunctions. Qed.

(** Every [step] of a state that is paused only for an async call leaves
    such a state, when the handlers pause for async calls only. *)
Lemma step_loop_pauseForAsync handlers fuel ns (i i' : Interpreter) b :
  pauseForAsync handlers ->
  pausedForAsync i -> step_loop handlers fuel ns i = Return b i' -> pausedForAsync i'.
Proof.
  intros Hhandlers.
  revert ns i. induction fuel as [|fuel IH]; intros ns i Hi; [done|].
  cbn [step_loop]. unfold bind at 1, gets at 1.
  destruct (Interp.stateStack i) as [[|state rest]|] eqn:Hs; try done.
  { by intros [= _ <-]. }
  destruct (bool_decide _ && State.done state) eqn:Hd.
  { by intros [= _ <-]. }
  unfold bind at 1, gets at 1. destruct (Interp.paused_ i) eqn:Hp.
  { by intros [= _ <-]. }
  pose proof (Hhandlers (node_type (State.node state)) state
                (State.node state) i Hp) as Hh.
  destruct (handlers _ state _ i) as [next i1|i1| | |]; try done.
  - unfold bind at 1.
    assert (exists i2,
      match next with Some n => push n | None => ret tt end i1 = Return tt i2
      /\ pausedForAsync i2) as (i2 & Hpush & Hi2).
    { destruct Hh as [Hr|[-> Ha]].
      - destruct next; eexists; (split; [reflexivity|]); intros Hp2; cbn in Hp2; congruence.
      - eexists; split; [reflexivity|]. by intros _. }
    rewrite Hpush.
    unfold bind at 1, gets at 1. destruct (Interp.getterStep_ i2); [done|].
    unfold bind at 1, gets at 1. destruct (Interp.setterStep_ i2); [done|].
    destruct (node_end _ =? 0)%nat.
    + by apply IH.
    + by intros [= _ <-].
  - unfold bind at 1.
    assert (exists i2,
      match ns with Some n => push n | None => ret tt end i1 = Return tt i2
      /\ pausedForAsync i2) as (i2 & Hpush & Hi2).
    { destruct ns; eexists; (split; [reflexivity|]); intros Hp2; cbn in Hp2;
        unfold running in Hh; congruence. }
    rewrite Hpush.
    unfold bind at 1, gets at 1. destruct (Interp.getterStep_ i2); [done|].
    unfold bind at 1, gets at 1. destruct (Interp.setterStep_ i2); [done|].
    destruct (node_end _ =? 0)%nat.
    + by apply IH.
    + by intros [= _ <-].
Qed.

Lemma run_pauseForAsync handlers fuel (i i' : Interpreter) b :
  pauseForAsync handlers ->
  pausedForAsync i -> run handlers fuel i = Return b i' -> pausedForAsync i'.
Proof.
  intros Hhandlers.
  revert i. induction fuel as [|fuel IH]; intros i Hi; [done|].
  cbn [run]. unfold bind at 1, gets at 1.
  destruct (Interp.paused_ i) eqn:Hp.
  - unfold gets. by intros [= _ <-].
  - unfold bind. destruct (step _ _ i) as [more i1| | | |] eqn:Hstep; try done.
    apply step_loop_pauseForAsync in Hstep; [|done|done].
    destruct more; [by apply IH|]. unfold gets. by intros [= _ <-].
Qed.

Lemma step_loop_pausedForAsync fuel ns (i i' : Interpreter) b :
  pausedForAsync i -> step_loop stepFunctions fuel ns i = Return b i' -> pausedForAsync i'.
Proof. apply step_loop_pauseForAsync, pauseForAsync_stepFunctions. Qed.

Lemma run_pausedForAsync fuel (i i' : Interpreter) b :
  pausedForAsync i -> run stepFunctions fuel i = Return b i' -> pausedForAsync i'.
Proof. apply run_pauseForAsync, pauseForAsync_stepFunctions. Qed.

(** ** Reading the scope chain *)

Lemma readsOnly_ret {A} (a : A) : readsOnly (ret a).
Proof. by intros i. Qed.

Lemma readsOnly_gets {A} (f : Interpreter -> A) : readsOnly (gets f).
Proof. by intros i. Qed.

Lemma readsOnly_throwHost {A} e : readsOnly (@throwHost Host A e).
Proof. by intros i. Qed.

Lemma readsOnly_diverge {A} : readsOnly (@diverge Host A).
Proof. by intros i. Qed.

Lemma readsOnly_bind {A B} (m : Eng A) (k : A -> Eng B) :
  readsOnly m -> (forall a, readsOnly (k a)) -> readsOnly (bind m k).
Proof.
  intros Hm Hk i. unfold bind. specialize (Hm i).
  destruct (m i) as [a i'| | | |]; try done. subst i'. apply Hk.
Qed.

Lemma readsOnly_liftConv {A} (c : Conv A) : readsOnly (@liftConv Host A c).
Proof. destruct c; by intros i. Qed.

Lemma readsOnly_lookupObj l : readsOnly (@lookupObj Host l).
Proof. intros i. unfold lookupObj. by destruct (_ !! _). Qed.

Create HintDb readsOnly.

#[local] Hint Resolve readsOnly_ret readsOnly_gets readsOnly_throwHost readsOnly_diverge
  readsOnly_liftConv readsOnly_lookupObj : readsOnly.

Ltac readsOnly :=
  repeat first
    [ progress auto with readsOnly
    | apply readsOnly_bind; [|intros]
    | match goal with
      | |- readsOnly (match ?x with _ => _ end) => destruct x
      end ].

Lemma readsOnly_getPrototype v : readsOnly (getPrototype v).
Proof. unfold getPrototype, constructorPrototype, protoField. readsOnly. Qed.
#[local] Hint Resolve readsOnly_getPrototype : readsOnly.

Lemma readsOnly_isa_loop fuel child proto : readsOnly (isa_loop fuel child proto).
Proof.
  revert child. induction fuel; intros; cbn [isa_loop]; unfold protoField; readsOnly.
Qed.
#[local] Hint Resolve readsOnly_isa_loop : readsOnly.

Lemma readsOnly_isa child c : readsOnly (isa child c).
Proof. unfold isa. readsOnly. Qed.
#[local] Hint Resolve readsOnly_isa : readsOnly.

Lemma readsOnly_String_ v : readsOnly (String_ v).
Proof. unfold String_. readsOnly. Qed.
#[local] Hint Resolve readsOnly_String_ : readsOnly.

Lemma readsOnly_hasProperty_loop fuel obj name : readsOnly (hasProperty_loop fuel obj name).
Proof. revert obj. induction fuel; intros; cbn [hasProperty_loop]; readsOnly. Qed.
#[local] Hint Resolve readsOnly_hasProperty_loop : readsOnly.

Lemma readsOnly_hasProperty obj name : readsOnly (hasProperty obj name).
Proof. unfold hasProperty. readsOnly. Qed.

(** The walk of [getValueFromScope] over a chain that does not bind [name]
    ends on the global scope or on [null], and the global object has no such
    property. *)
Lemma scopeLookup_unbound (i : Interpreter) scope name :
  unbound i scope name = true ->
  exists scope',
    scopeLookup (Interp.globalScope i) scope name i = Return (inr scope') i
    /\ match scope' with
       | [] => True
       | entry :: _ =>
           scope' = Interp.globalScope i
           /\ hasProperty (VObject (object entry)) name i = Return false i
       end.
Proof.
  induction scope as [|entry parent IH]; cbn [unbound scopeLookup].
  - intros _. by exists [].
  - case_bool_decide as Hg.
    + intros Hh. exists (entry :: parent). split; [done|]. split; [done|].
      pose proof (readsOnly_hasProperty (VObject (object entry)) name i) as Hp.
      destruct (hasProperty _ name i) as [[] i'| | | |]; try done. by subst i'.
    + unfold bind at 1, lookupObj.
      destruct (Interp.heap i !! object entry) as [o|]; [|done].
      intros [Hn Hu]%andb_prop. apply negb_true_iff in Hn. rewrite Hn. by apply IH.
Qed.

Lemma getValueFromScope_unbound (i : Interpreter) name top rest :
  Interp.stateStack i = Some (top :: rest) ->
  State.scope top <> [] ->
  Interp.globalScope i <> [] ->
  unbound i (State.scope top) name = true ->
  getValueFromScope name i =
    if isTypeofNode (State.node top) then Return VUndefined i
    else throwException (fieldValue (Interp.REFERENCE_ERROR i))
           (Some (name +:+ " is not defined")) i.
Proof.
  intros Hs Hne Hgne Hu. unfold getValueFromScope.
  unfold bind at 1, getScope, bind at 1, gets at 1. rewrite Hs.
  destruct (State.scope top) as [|e0 sc0] eqn:Hsc; [done|]. cbn [ret].
  rewrite (bind_Return (gets id) _ i i i eq_refl).
  destruct (scopeLookup_unbound i _ name Hu) as (scope' & Hl & Hg).
  rewrite (bind_Return _ _ _ _ _ Hl).
  assert (Hin : (if bool_decide (scope' = Interp.globalScope i)
                 then match scope' with
                      | [] => throwHost (HostErrorObject "TypeError"
                                           "Cannot read properties of null")
                      | entry :: _ => hasProperty (VObject (object entry)) name
                      end
                 else ret false) i = Return false i).
  { destruct scope' as [|entry scope'].
    - by rewrite bool_decide_eq_false_2.
    - destruct Hg as [Hg Hh]. by rewrite bool_decide_eq_true_2. }
  rewrite (bind_Return _ _ _ _ _ Hin).
  unfold bind at 1, topState, bind at 1, gets at 1. rewrite Hs. cbn [ret].
  by destruct (isTypeofNode (State.node top)).
Qed.

(** [typeof] of a frame whose operand evaluated to [undefined]. *)
Lemma stepUnaryExpression_typeof_undefined (i : Interpreter) e argument state below rest :
  Interp.stateStack i = Some (state :: below :: rest) ->
  State.done_ state = true ->
  State.value state = VUndefined ->
  stepUnaryExpression state (UnaryExpression e "typeof" argument) i
  = Return None
      (Interp.set_stateStack
         (Some (State.set_value (VString "undefined") below :: rest)) i).
Proof.
  intros Hs Hd Hv. unfold stepUnaryExpression. rewrite Hd, Hv. cbn [negb].
  unfold bind, pop, modify, gets, setTopValue, updateTop. cbn. rewrite Hs. cbn.
  by destruct i.
Qed.

(** ** Uncaught exceptions *)

Lemma unwind_loop_uncaught value above root :
  forallb unwindsPast above = true ->
  isProgram root = true ->
  unwind_loop THROW value None (above ++ [root])
  = ([State.set_done true root], UnwindUnhandled).
Proof.
  intros Ha Hr. induction above as [|state above IH]; cbn [app unwind_loop].
  - unfold isProgram in Hr. by destruct (State.node root).
  - cbn [forallb] in Ha. apply andb_prop in Ha as [Hs Ha].
    unfold unwindsPast in Hs. destruct (State.node state); try done; by apply IH.
Qed.

(** [getProperty] consults [throwException] for [undefined] and [null]
    only. *)
Lemma getProperty__object t1 t2 obj name :
  obj <> VUndefined -> obj <> VNull ->
  getProperty_ t1 obj name = getProperty_ t2 obj name.
Proof. intros Hu Hn. unfold getProperty_. by destruct obj. Qed.

Lemma isa_true_defined value c (i i' : Interpreter) :
  isa value c i = Return true i' -> value <> VUndefined /\ value <> VNull.
Proof. unfold isa. by destruct value. Qed.

Lemma throwException_value value (i : Interpreter) e i' :
  unwind THROW value None i = HostThrow e i' ->
  throwException value None i = HostThrow e i'.
Proof. intros H. unfold throwException. cbn. unfold bind. by rewrite H. Qed.

Lemma bind_ext_at {A B} (m : Eng A) (k k' : A -> Eng B) (i : Interpreter) :
  (forall a i', m i = Return a i' -> k a i' = k' a i') -> bind m k i = bind m k' i.
Proof. intros H. unfold bind. destruct (m i); try done. by apply H. Qed.

Lemma unwind_uncaught_state (i : Interpreter) value above root :
  Interp.stateStack i = Some (above ++ [root]) ->
  forallb unwindsPast above = true ->
  isProgram root = true ->
  unwind THROW value None i
  = (let i' := Interp.set_stateStack (Some [State.set_done true root]) i in
     (isError <- isa value (Interp.ERROR i') ;;
      if isError : bool then
        nameValue <- getProperty value "name" ;;
        name <- String_ nameValue ;;
        messageValue <- getProperty value "message" ;;
        message <- valueOf messageValue ;;
        text <- String_ message ;;
        if bool_decide (name ∈ inheritedNames) then unmodelled
        else throwHost (HostErrorObject (errorConstructorName name) text)
      else
        s <- String_ value ;;
        throwHost (HostString s)) i').
Proof.
  intros Hs Ha Hr. unfold unwind. cbn [bool_decide decide_rel].
  rewrite bool_decide_eq_false_2 by done.
  unfold bind at 1, gets at 1. rewrite Hs, unwind_loop_uncaught by done.
  unfold bind at 1, modify at 1. rewrite (bind_Return (gets id) _ _ _ _ eq_refl).
  cbn zeta. apply bind_ext_at. intros [] i1 His; [|done].
  apply isa_true_defined in His as [Hu Hn].
  by rewrite !(getProperty__object (fun _ _ => unmodelled) throwException).
Qed.

(** ** [setProperty] on a guest object *)

Lemma receiver_Some (i : Interpreter) l o strict :
  receiver i l = Some (o, strict) ->
  Interp.setterStep_ i = false
  /\ Interp.heap i !! l = Some o
  /\ currentStrict i = Some strict
  /\ isa (VObject l) (Interp.STRING i) i = Return false i.
Proof.
  unfold receiver. destruct (Interp.setterStep_ i); [done|].
  destruct (Interp.heap i !! l) as [o'|]; [|done].
  destruct (currentStrict i) as [s|]; [|done].
  pose proof (readsOnly_isa (VObject l) (Interp.STRING i) i) as Hr.
  destruct (isa _ _ i) as [[] i'| | | |]; try done.
  intros [= -> ->]. by subst i'.
Qed.

Lemma lookupObj_at (i : Interpreter) l o :
  Interp.heap i !! l = Some o -> lookupObj l i = Return o i.
Proof. intros H. unfold lookupObj. by rewrite H. Qed.

(** Past its entry checks, [setProperty] on a guest object. *)
Lemma setProperty_receiver (i : Interpreter) l o strict name value d :
  receiver i l = Some (o, strict) ->
  mixedDescriptor d = false ->
  setProperty (VObject l) name value d i
  = setProperty_object throwException l name value d strict i.
Proof.
  intros (Hss & Ho & Hstrict & Hisa)%receiver_Some Hd.
  unfold setProperty, setProperty_.
  rewrite (bind_Return (gets Interp.setterStep_) _ i _ i eq_refl). rewrite Hss.
  rewrite (bind_Return (ret VUndefined) _ i _ i eq_refl). cbn [isHostObject].
  assert (Hcheck : match d with
                   | Some d0 =>
                       if (isSome (Descriptor.get d0) || isSome (Descriptor.set d0))
                          && (isSome (Descriptor.value d0) || isSome (Descriptor.writable d0))
                       then
                         i0 <- gets id ;;
                         throwException (fieldValue (Interp.TYPE_ERROR i0))
                           (Some ("Invalid property descriptor. "
                                  +:+ "Cannot both specify accessors and a value or writable attribute"))
                       else ret VUndefined
                   | None => ret VUndefined
                   end i = Return VUndefined i).
  { destruct d as [d0|]; [|done]. cbn in Hd. by rewrite Hd. }
  rewrite (bind_Return _ _ i _ i Hcheck).
  rewrite (bind_Return (gets Interp.stateStack) _ i _ i eq_refl).
  assert (Hst : match Interp.stateStack i with
                | None => ret true
                | Some _ => scope <- getScope ;; ret (scopeStrict scope)
                end i = Return strict i).
  { unfold currentStrict in Hstrict. unfold getScope, bind, gets.
    destruct (Interp.stateStack i) as [[|top rest]|] eqn:Hs; try done.
    - rewrite Hs. destruct (State.scope top); [done|]. by injection Hstrict as <-.
    - by injection Hstrict as <-. }
  by rewrite (bind_Return _ _ i _ i Hst).
Qed.

(** Past the test for [String] objects and the magic [length] of arrays. *)
Lemma setProperty_object_plain (i : Interpreter) l o strict name value d :
  receiver i l = Some (o, strict) ->
  noMagic o name = true ->
  setProperty_object throwException l name value d strict i
  = (if admits o name then
       match d with
       | Some d => setProperty_define throwException l name value d
       | None => setProperty_assign throwException l name value strict
       end
     else if strict then
       throwException (fieldValue (Interp.TYPE_ERROR i))
         (Some ("Can't add property '" +:+ name +:+ "', object is not extensible")) ;;;
       ret VUndefined
     else ret VUndefined) i.
Proof.
  intros (Hss & Ho & Hstrict & Hisa)%receiver_Some Hc.
  unfold setProperty_object.
  rewrite (bind_Return (gets id) _ i _ i eq_refl).
  rewrite (bind_Return _ _ i _ i Hisa).
  rewrite (bind_Return (ret false) _ i _ i eq_refl).
  assert (Harr : setProperty_array throwException l name value d i = Return (Some value) i).
  { unfold setProperty_array. rewrite (bind_Return _ _ i _ i (lookupObj_at i l o Ho)).
    unfold noMagic in Hc. case_bool_decide as Hclass; [|done]. cbn in Hc.
    apply andb_prop in Hc as [Hn Hi]. apply negb_true_iff in Hn. rewrite Hn.
    by destruct (legalArrayIndex name). }
  rewrite (bind_Return _ _ i _ i Harr).
  rewrite (bind_Return _ _ i _ i (lookupObj_at i l o Ho)).
  unfold admits. by destruct (_ && _).
Qed.

(** A method that ends in [throwException] ends as [throwException]
    does. *)
Lemma bind_throwException c m (k : Value -> Eng Value) (i : Interpreter) :
  bind (throwException c m) k i = throwException c m i.
Proof.
  unfold bind. pose proof (throwException_throws c m i) as H.
  by destruct (throwException c m i).
Qed.

(** Plain assignment, once the object that defines [name] is found. *)
Lemma setProperty_assign_found (i : Interpreter) l o defObj d name v strict :
  Interp.heap i !! l = Some o ->
  findDefObj (S (length (Interp.heap i))) l l name i = Return defObj i ->
  Interp.heap i !! defObj = Some d ->
  setProperty_assign throwException l name (Given v) strict i
  = match truthyEntry (Obj.setter d) name with
    | Some setter => Return setter (Interp.set_setterStep_ true i)
    | None =>
        match truthyEntry (Obj.getter d) name with
        | Some _ =>
            if strict then
              (s <- String_ (VObject l) ;;
               throwException (fieldValue (Interp.TYPE_ERROR i))
                 (Some ("Cannot set property '" +:+ name +:+ "' of object '" +:+ s
                        +:+ "' which only has a getter"))) i
            else Return VUndefined i
        | None =>
            match props_assign name v (Obj.properties o) with
            | Some ps => Return VUndefined (updated l (Obj.set_properties ps) i)
            | None =>
                if strict then
                  (s <- String_ (VObject l) ;;
                   throwException (fieldValue (Interp.TYPE_ERROR i))
                     (Some ("Cannot assign to read only property '" +:+ name
                            +:+ "' of object '" +:+ s +:+ "'"))) i
                else Return VUndefined i
            end
        end
    end.
Proof.
  intros Ho Hf Hd. unfold setProperty_assign.
  rewrite (bind_Return (gets id) _ i _ i eq_refl).
  rewrite (bind_Return _ _ i _ i Hf).
  rewrite (bind_Return _ _ i _ i (lookupObj_at i defObj d Hd)).
  destruct (truthyEntry (Obj.setter d) name); [done|].
  destruct (truthyEntry (Obj.getter d) name).
  - destruct strict; [|done]. unfold bind at 1 3.
    destruct (String_ (VObject l) i) as [s i1| | | |]; try done.
    apply bind_throwException.
  - rewrite (bind_Return _ _ i _ i (lookupObj_at i l o Ho)).
    destruct (props_assign name v (Obj.properties o)); [done|].
    destruct strict; [|done]. unfold bind at 1 3.
    destruct (String_ (VObject l) i) as [s i1| | | |]; try done.
    apply bind_throwException.
Qed.

(** The object that has [name] defines it. *)
Lemma findDefObj_own (i : Interpreter) fuel l o name :
  Interp.heap i !! l = Some o ->
  props_has name (Obj.properties o) = true ->
  findDefObj (S fuel) l l name i = Return l i.
Proof.
  intros Ho Hh. cbn [findDefObj].
  rewrite (bind_Return _ _ i _ i (lookupObj_at i l o Ho)). by rewrite Hh.
Qed.

Lemma updated_lookup (i : Interpreter) l f o :
  Interp.heap i !! l = Some o -> Interp.heap (updated l f i) !! l = Some (f o).
Proof.
  intros Ho. unfold updated, Interp.set_heap. cbn. by rewrite list_lookup_alter_eq, Ho.
Qed.

Lemma updated_lookup_ne (i : Interpreter) l l' f :
  l <> l' -> Interp.heap (updated l f i) !! l' = Interp.heap i !! l'.
Proof.
  intros Hne. unfold updated, Interp.set_heap. cbn. by rewrite list_lookup_alter_ne.
Qed.

Lemma updated_const (i : Interpreter) l f o :
  Interp.heap i !! l = Some o -> updated l f i = updated l (fun _ => f o) i.
Proof.
  intros Ho. unfold updated, Interp.set_heap. f_equal. apply list_eq. intros k.
  destruct (decide (k = l)) as [->|Hne].
  - by rewrite !list_lookup_alter_eq, Ho.
  - by rewrite !list_lookup_alter_ne.
Qed.

Lemma updated_updated (i : Interpreter) l f g :
  updated l g (updated l f i) = updated l (g ∘ f) i.
Proof.
  unfold updated, Interp.set_heap. cbn. f_equal. apply list_eq. intros k.
  destruct (decide (k = l)) as [->|Hne].
  - rewrite !list_lookup_alter_eq. by destruct (_ !! l).
  - by rewrite !list_lookup_alter_ne.
Qed.

Lemma updateObj_at (i : Interpreter) l f :
  updateObj l f i = Return tt (updated l f i).
Proof. reflexivity. Qed.

(** Definition of a property on the guest object [o] at [l]. *)
Lemma setProperty_define_at (i : Interpreter) l o name value d :
  Interp.heap i !! l = Some o ->
  setProperty_define throwException l name value d i
  = (let o' := accessorsAfter d value name o in
     match props_define name (hostDescriptorOf d (definedValue d value))
             (Obj.properties o) with
     | Some ps => Return VUndefined (updated l (fun _ => Obj.set_properties ps o') i)
     | None =>
         throwException (fieldValue (Interp.TYPE_ERROR i))
           (Some ("Cannot redefine property: " +:+ name))
           (updated l (fun _ => o') i)
     end).
Proof.
  intros Ho. unfold setProperty_define.
  rewrite (bind_Return _ _ i _ _ (updateObj_at i l _)).
  rewrite (bind_Return _ _ _ _ _ (updateObj_at _ l _)), updated_updated.
  set (f2 := _ ∘ _).
  assert (Hw : (if isSome (Descriptor.writable d)
                then updateObj l (clearAccessors name) else ret tt) (updated l f2 i)
               = Return tt (updated l (fun o => if isSome (Descriptor.writable d)
                                                then clearAccessors name (f2 o)
                                                else f2 o) i)).
  { destruct (isSome (Descriptor.writable d)).
    - by rewrite updateObj_at, updated_updated.
    - unfold ret. f_equal. }
  rewrite (bind_Return _ _ _ _ _ Hw). clear Hw.
  set (f3 := fun o => if isSome _ then _ else _).
  assert (Hv : match Descriptor.value d, value with
               | Some v, _ => updateObj l (clearAccessors name) ;;; ret (Some v)
               | None, Given v => updateObj l (clearAccessors name) ;;; ret (Some v)
               | None, VALUE_IN_DESCRIPTOR => ret None
               end (updated l f3 i)
               = Return (definedValue d value)
                   (updated l (fun _ => accessorsAfter d value name o) i)).
  { unfold definedValue, accessorsAfter.
    destruct (Descriptor.value d) as [v|], value as [|w]; cbn zeta.
    - rewrite (bind_Return _ _ _ _ _ (updateObj_at _ l _)), updated_updated.
      unfold ret. f_equal. by rewrite (updated_const i l _ o Ho).
    - rewrite (bind_Return _ _ _ _ _ (updateObj_at _ l _)), updated_updated.
      unfold ret. f_equal. by rewrite (updated_const i l _ o Ho).
    - unfold ret. f_equal. by rewrite (updated_const i l _ o Ho).
    - rewrite (bind_Return _ _ _ _ _ (updateObj_at _ l _)), updated_updated.
      unfold ret. f_equal. by rewrite (updated_const i l _ o Ho). }
  rewrite (bind_Return _ _ _ _ _ Hv). clear Hv. cbn zeta.
  set (o' := accessorsAfter d value name o).
  rewrite (bind_Return _ _ _ _ _ (lookupObj_at _ l o' (updated_lookup i l _ o Ho))).
  assert (Hps : Obj.properties o' = Obj.properties o).
  { unfold o', accessorsAfter, clearAccessors.
    destruct (isSome (Descriptor.writable d)), (Descriptor.value d), value; by destruct o. }
  rewrite Hps. destruct (props_define _ _ _) as [ps|].
  - rewrite (bind_Return _ _ _ _ _ (updateObj_at _ l _)), updated_updated. done.
  - rewrite (bind_Return (gets id) _ _ _ _ eq_refl). by rewrite bind_throwException.
Qed.

(** *** The property store *)

Lemma props_lookup_app name ps qs :
  props_lookup name (ps ++ qs)
  = match props_lookup name ps with
    | Some p => Some p
    | None => props_lookup name qs
    end.
Proof.
  induction ps as [|[k q] ps IH]; cbn [app props_lookup]; [done|].
  by case_bool_decide.
Qed.

Lemma props_lookup_update name k p ps :
  props_lookup k (props_update name p ps)
  = if bool_decide (k = name)
    then match props_lookup name ps with Some _ => Some p | None => None end
    else props_lookup k ps.
Proof.
  induction ps as [|[k' q] ps IH]; cbn [props_update props_lookup].
  - by case_bool_decide.
  - destruct (bool_decide (k' = name)) eqn:Hk'; cbn [props_lookup].
    + apply bool_decide_eq_true_1 in Hk' as ->.
      case_bool_decide as Hk; [by subst; rewrite bool_decide_eq_true_2|].
      by rewrite (bool_decide_eq_false_2 (name = k)).
    + rewrite IH. apply bool_decide_eq_false_1 in Hk'.
      case_bool_decide as Hk; [subst|done].
      by rewrite (bool_decide_eq_false_2 (k' = name)).
Qed.

Lemma props_lookup_remove name k ps :
  props_lookup k (props_remove name ps)
  = if bool_decide (k = name) then None else props_lookup k ps.
Proof.
  induction ps as [|[k' q] ps IH]; cbn [props_remove props_lookup].
  - by case_bool_decide.
  - destruct (bool_decide (k' = name)) eqn:Hk'; cbn [props_lookup].
    + apply bool_decide_eq_true_1 in Hk' as ->. rewrite IH.
      case_bool_decide as Hk; [done|]. by rewrite (bool_decide_eq_false_2 (name = k)).
    + rewrite IH. apply bool_decide_eq_false_1 in Hk'.
      case_bool_decide as Hk; [subst|done].
      by rewrite (bool_decide_eq_false_2 (k' = name)).
Qed.

Lemma props_assign_lookup name v ps ps' k :
  props_assign name v ps = Some ps' ->
  props_lookup k ps'
  = if bool_decide (k = name)
    then Some (match props_lookup name ps with
               | Some p => mkProperty v (p_writable p) (p_enumerable p) (p_configurable p)
               | None => mkProperty v true true true
               end)
    else props_lookup k ps.
Proof.
  unfold props_assign. destruct (props_lookup name ps) as [p|] eqn:Hl.
  - destruct (p_writable p); [|done]. intros [= <-]. rewrite props_lookup_update.
    case_bool_decide; [|done]. by rewrite Hl.
  - intros [= <-]. rewrite props_lookup_app. cbn [props_lookup].
    destruct (decide (k = name)) as [->|Hk].
    + by rewrite Hl, !bool_decide_eq_true_2.
    + rewrite (bool_decide_eq_false_2 (name = k)), (bool_decide_eq_false_2 (k = name))
        by done.
      by destruct (props_lookup k ps).
Qed.

Lemma props_define_has name d ps ps' :
  props_define name d ps = Some ps' -> props_has name ps' = true.
Proof.
  unfold props_define, props_has. destruct (props_lookup name ps) as [p|] eqn:Hl.
  - destruct (_ && _ && _ && _).
    + intros [= <-]. by rewrite Hl.
    + destruct (_ || _); [|done]. intros [= <-].
      by rewrite props_lookup_update, bool_decide_eq_true_2, Hl.
  - intros [= <-]. rewrite props_lookup_app, Hl. cbn [props_lookup].
    by rewrite bool_decide_eq_true_2.
Qed.

Lemma props_define_other name d ps ps' k :
  props_define name d ps = Some ps' -> k <> name ->
  props_lookup k ps' = props_lookup k ps.
Proof.
  unfold props_define. intros H Hk. destruct (props_lookup name ps) as [p|] eqn:Hl.
  - destruct (_ && _ && _ && _).
    + by injection H as <-.
    + destruct (_ || _); [|done]. injection H as <-.
      by rewrite props_lookup_update, bool_decide_eq_false_2.
  - injection H as <-. rewrite props_lookup_app. cbn [props_lookup].
    rewrite (bool_decide_eq_false_2 (name = k)) by done. by destruct (props_lookup k ps).
Qed.

(** *** The accessor maps after a definition *)

Lemma clearAccessors_lookup name o :
  Obj.getter (clearAccessors name o) !! name = None
  /\ Obj.setter (clearAccessors name o) !! name = None.
Proof. unfold clearAccessors. destruct o; cbn. by rewrite !lookup_delete_eq. Qed.

Lemma accessorsAfter_cleared d value name o :
  isSome (definedValue d value) || isSome (Descriptor.writable d) = true ->
  Obj.getter (accessorsAfter d value name o) !! name = None
  /\ Obj.setter (accessorsAfter d value name o) !! name = None.
Proof.
  unfold accessorsAfter, definedValue. cbn zeta.
  destruct (Descriptor.value d), value; cbn [isSome orb];
    try (intros _; apply clearAccessors_lookup).
  intros ->. apply clearAccessors_lookup.
Qed.

Lemma accessorsAfter_installed d name o :
  (isSome (Descriptor.get d) || isSome (Descriptor.set d))
  && (isSome (Descriptor.value d) || isSome (Descriptor.writable d)) = false ->
  (forall g, Descriptor.get d = Some g -> ToBoolean g = true ->
             Obj.getter (accessorsAfter d VALUE_IN_DESCRIPTOR name o) !! name = Some g)
  /\ (forall s, Descriptor.set d = Some s -> ToBoolean s = true ->
                Obj.setter (accessorsAfter d VALUE_IN_DESCRIPTOR name o) !! name = Some s).
Proof.
  intros Hd. split.
  - intros g Hg Ht. rewrite Hg in Hd. cbn in Hd.
    apply orb_false_elim in Hd as [Hv Hw].
    unfold accessorsAfter. cbn zeta.
    destruct (Descriptor.value d); [done|]. destruct (Descriptor.writable d); [done|].
    cbn. unfold defineAccessor. rewrite Hg, Ht. destruct o; cbn.
    by rewrite lookup_insert_eq.
  - intros s Hs Ht. rewrite Hs, orb_true_r in Hd. cbn in Hd.
    apply orb_false_elim in Hd as [Hv Hw].
    unfold accessorsAfter. cbn zeta.
    destruct (Descriptor.value d); [done|]. destruct (Descriptor.writable d); [done|].
    cbn. unfold defineAccessor. rewrite Hs, Ht. destruct o; cbn.
    by rewrite lookup_insert_eq.
Qed.

(** ** The magic [length] of arrays *)

Lemma rethrow_throwException c m (i : Interpreter) :
  @rethrow Value Value (throwException c m i) = throwException c m i.
Proof.
  pose proof (throwException_throws c m i) as H. by destruct (throwException c m i).
Qed.

Lemma bind_throwException_rethrow {B} c m (k : Value -> Eng B) (i : Interpreter) :
  bind (throwException c m) k i = rethrow (throwException c m i).
Proof.
  unfold bind. pose proof (throwException_throws c m i) as H.
  by destruct (throwException c m i).
Qed.

Lemma bind_rethrow {A B C} (m : Eng A) (k : A -> Eng B) (i : Interpreter)
    (o : Outcome Host C) :
  m i = rethrow o -> bind m k i = rethrow o.
Proof. intros H. unfold bind. rewrite H. by destruct o. Qed.

(** A legal index is its own canonical rendering. *)
Lemma legalArrayIndex_pretty k z : legalArrayIndex k = NInt z -> pretty z = k.
Proof.
  unfold legalArrayIndex. destruct (bool_decide _ && _) eqn:H; [|done].
  intros [= <-]. apply andb_prop in H as [H _]. by apply bool_decide_eq_true_1 in H.
Qed.

(** [for (i in obj.properties)] visits every enumerable key. *)
Lemma props_forin_enumerable k p ps :
  props_lookup k ps = Some p -> p_enumerable p = true -> k ∈ props_forin ps.
Proof.
  intros Hl He.
  assert (Hk : k ∈ enumerable_keys ps).
  { unfold enumerable_keys. induction ps as [|[k' q] ps IH]; [done|].
    cbn [props_lookup] in Hl. rewrite filter_cons. cbn [snd]. case_bool_decide as Hkk.
    - injection Hl as ->. subst k'. rewrite decide_True by done. cbn. by left.
    - destruct (decide (p_enumerable q = true)); cbn; [right|]; by apply IH. }
  unfold props_forin. cbn zeta. apply elem_of_app.
  destruct (array_index_key k) as [z|] eqn:Ha.
  - left. assert (pretty z = k) as <-.
    { unfold array_index_key, canonical_decimal in Ha. destruct k; [done|].
      destruct (parse_digits _ 0) as [z'|]; [|done].
      case_bool_decide as Hp; [|done]. destruct (z' <? _); [|done]. by injection Ha as <-. }
    apply list_elem_of_In, in_map, list_elem_of_In. rewrite merge_sort_Permutation.
    apply list_elem_of_omap. by exists (pretty z).
  - right. apply list_elem_of_filter. by split.
Qed.

Lemma props_lookup_In k p ps : props_lookup k ps = Some p -> In (k, p) ps.
Proof.
  induction ps as [|[k' q] ps IH]; cbn [props_lookup]; [done|].
  case_bool_decide as Hk.
  - intros [= ->]. subst. by left.
  - intros H. right. by apply IH.
Qed.

Lemma elementsFrom_configurable n ps k p z :
  elementsFrom n ps = true -> props_lookup k ps = Some p ->
  legalArrayIndex k = NInt z -> n <= z ->
  p_enumerable p = true /\ p_configurable p = true.
Proof.
  intros He Hl Hk Hz. unfold elementsFrom in He. rewrite forallb_forall in He.
  specialize (He _ (props_lookup_In _ _ _ Hl)). cbn in He. rewrite Hk in He.
  apply orb_prop in He as [He|He]; [lia|]. by apply andb_prop in He.
Qed.

Lemma elementsFrom_remove n name ps :
  elementsFrom n ps = true -> elementsFrom n (props_remove name ps) = true.
Proof.
  unfold elementsFrom. induction ps as [|[k q] ps IH]; cbn [props_remove forallb]; [done|].
  intros [Hq Hps]%andb_prop. case_bool_decide; [by apply IH|].
  cbn [forallb]. by rewrite Hq, IH.
Qed.

(** The loop that shortens an array, on elements it can delete: it deletes
    the keys it visits that are indices at or beyond [n], and those only. *)
Lemma truncateArray_spec n keys ps :
  elementsFrom n ps = true ->
  exists ps',
    truncateArray n keys ps = (ps', true)
    /\ (forall k z, k ∈ keys -> legalArrayIndex k = NInt z -> n <= z ->
                    props_lookup k ps' = None)
    /\ (forall k, (forall z, legalArrayIndex k = NInt z -> z < n) ->
                  props_lookup k ps' = props_lookup k ps)
    /\ (forall k, props_lookup k ps = None -> props_lookup k ps' = None).
Proof.
  revert ps. induction keys as [|k0 keys IH]; intros ps He; cbn [truncateArray].
  { exists ps. split; [done|]. split; [|done]. intros k z Hk. by apply elem_of_nil in Hk. }
  assert (Hskip : (forall z0, legalArrayIndex k0 = NInt z0 -> z0 < n) ->
    exists ps',
      truncateArray n keys ps = (ps', true)
      /\ (forall k z, k ∈ k0 :: keys -> legalArrayIndex k = NInt z -> n <= z ->
                      props_lookup k ps' = None)
      /\ (forall k, (forall z, legalArrayIndex k = NInt z -> z < n) ->
                    props_lookup k ps' = props_lookup k ps)
      /\ (forall k, props_lookup k ps = None -> props_lookup k ps' = None)).
  { intros Hz0. destruct (IH ps He) as (ps' & Ht & Hdel & Hkeep & Hmono).
    exists ps'. split; [done|]. split; [|done].
    intros k z [->|Hk]%elem_of_cons Hkz Hnz; [|by eapply Hdel].
    specialize (Hz0 z Hkz). lia. }
  destruct (legalArrayIndex k0) as [| |i|] eqn:Hk0;
    try (apply Hskip; by intros).
  destruct (n <=? i) eqn:Hni.
  2: { apply Hskip. intros z0 [= <-]. by apply Z.leb_gt in Hni. }
  apply Z.leb_le in Hni. rewrite (legalArrayIndex_pretty _ _ Hk0).
  unfold props_delete. destruct (props_lookup k0 ps) as [p|] eqn:Hl.
  - destruct (elementsFrom_configurable n ps k0 p i He Hl Hk0 Hni) as [_ ->].
    destruct (IH (props_remove k0 ps) (elementsFrom_remove n k0 ps He))
      as (ps' & Ht & Hdel & Hkeep & Hmono).
    exists ps'. split; [done|]. split; [|split].
    + intros k z [->|Hk]%elem_of_cons Hkz Hnz; [|by eapply Hdel].
      apply Hmono. by rewrite props_lookup_remove, bool_decide_eq_true_2.
    + intros k Hk. rewrite (Hkeep k Hk), props_lookup_remove.
      case_bool_decide as Hkk; [|done]. subst k. specialize (Hk i Hk0). lia.
    + intros k Hk. apply Hmono. rewrite props_lookup_remove. by case_bool_decide.
  - destruct (IH ps He) as (ps' & Ht & Hdel & Hkeep & Hmono).
    exists ps'. split; [done|]. split; [|done].
    intros k z [->|Hk]%elem_of_cons Hkz Hnz; [|by eapply Hdel]. by apply Hmono.
Qed.

Lemma readsOnly_findDefObj fuel obj defObj name : readsOnly (findDefObj fuel obj defObj name).
Proof.
  revert defObj. induction fuel; intros; cbn [findDefObj]; readsOnly.
  all: by intros i.
Qed.

(** What [setProperty] does after the array block touches the receiver's
    own entry for [name] only. *)
Lemma setProperty_assign_frame (i i' : Interpreter) l o name value strict r :
  Interp.heap i !! l = Some o ->
  setProperty_assign throwException l name value strict i = Return r i' ->
  exists o',
    Interp.heap i' !! l = Some o'
    /\ forall k, k <> name ->
                 props_lookup k (Obj.properties o') = props_lookup k (Obj.properties o).
Proof.
  intros Ho. unfold setProperty_assign. destruct value as [|v]; [done|].
  rewrite (bind_Return (gets id) _ i _ i eq_refl). unfold bind at 1.
  pose proof (readsOnly_findDefObj (S (length (Interp.heap i))) l l name i) as Hf.
  destruct (findDefObj _ l l name i) as [defObj i1| | | |]; try done. subst i1.
  unfold bind at 1, lookupObj at 1. destruct (Interp.heap i !! defObj) as [d|]; [|done].
  destruct (truthyEntry (Obj.setter d) name).
  { intros [= _ <-]. by exists o. }
  destruct (truthyEntry (Obj.getter d) name).
  { destruct strict; [|intros [= _ <-]; by exists o].
    unfold bind at 1 2. destruct (String_ (VObject l) i) as [s i1| | | |]; try done.
    pose proof (throwException_throws (fieldValue (Interp.TYPE_ERROR i))
                  (Some ("Cannot set property '" +:+ name +:+ "' of object '" +:+ s
                         +:+ "' which only has a getter")) i1) as Ht.
    by destruct (throwException _ _ i1). }
  rewrite (bind_Return _ _ i _ i (lookupObj_at i l o Ho)).
  destruct (props_assign name v (Obj.properties o)) as [ps|] eqn:Hps.
  - rewrite (bind_Return _ _ _ _ _ (updateObj_at _ l _)). intros [= _ <-].
    exists (Obj.set_properties ps o). split; [by apply updated_lookup|].
    intros k Hk. destruct o; cbn in *.
    by rewrite (props_assign_lookup _ _ _ _ _ Hps), bool_decide_eq_false_2.
  - destruct strict; [|intros [= _ <-]; by exists o].
    unfold bind at 1 2. destruct (String_ (VObject l) i) as [s i1| | | |]; try done.
    pose proof (throwException_throws (fieldValue (Interp.TYPE_ERROR i))
                  (Some ("Cannot assign to read only property '" +:+ name
                         +:+ "' of object '" +:+ s +:+ "'")) i1) as Ht.
    by destruct (throwException _ _ i1).
Qed.

Lemma setProperty_define_frame (i i' : Interpreter) l o name value d r :
  Interp.heap i !! l = Some o ->
  setProperty_define throwException l name value d i = Return r i' ->
  exists o',
    Interp.heap i' !! l = Some o'
    /\ forall k, k <> name ->
                 props_lookup k (Obj.properties o') = props_lookup k (Obj.properties o).
Proof.
  intros Ho. rewrite (setProperty_define_at i l o) by done. cbn zeta.
  destruct (props_define _ _ _) as [ps|] eqn:Hps.
  - intros [= _ <-]. eexists. split; [by apply (updated_lookup i l _ o)|].
    intros k Hk. destruct (accessorsAfter d value name o); cbn.
    by apply (props_define_other _ _ _ _ _ Hps).
  - pose proof (throwException_throws (fieldValue (Interp.TYPE_ERROR i))
                  (Some ("Cannot redefine property: " +:+ name))
                  (updated l (fun _ => accessorsAfter d value name o) i)) as Ht.
    by destruct (throwException _ _ _).
Qed.

(** [setProperty] on a guest object, split at the array block. *)
Lemma setProperty_after_array (i i1 i' : Interpreter) l o o1 strict name value value1 d r :
  receiver i l = Some (o, strict) ->
  mixedDescriptor d = false ->
  setProperty_array throwException l name value d i = Return (Some value1) i1 ->
  Interp.heap i1 !! l = Some o1 ->
  setProperty (VObject l) name value d i = Return r i' ->
  exists o',
    Interp.heap i' !! l = Some o'
    /\ forall k, k <> name ->
                 props_lookup k (Obj.properties o') = props_lookup k (Obj.properties o1).
Proof.
  intros Hr Hd Harr Ho1.
  pose proof (receiver_Some _ _ _ _ Hr) as (_ & Ho & _ & Hisa).
  rewrite (setProperty_receiver i l o strict) by done.
  unfold setProperty_object.
  rewrite (bind_Return (gets id) _ i _ i eq_refl).
  rewrite (bind_Return _ _ i _ i Hisa).
  rewrite (bind_Return (ret false) _ i _ i eq_refl).
  rewrite (bind_Return _ _ i _ i1 Harr).
  rewrite (bind_Return _ _ _ _ _ (lookupObj_at i1 l o1 Ho1)).
  destruct (_ && _).
  - destruct strict; [|intros [= _ <-]; by exists o1].
    rewrite bind_throwException.
    pose proof (throwException_throws (fieldValue (Interp.TYPE_ERROR i))
                  (Some ("Can't add property '" +:+ name
                         +:+ "', object is not extensible")) i1) as Ht.
    by destruct (throwException _ _ i1).
  - destruct d as [d|].
    + by apply setProperty_define_frame.
    + by apply setProperty_assign_frame.
Qed.

(** [length] is no array index, whatever the host makes of the string as a
    number. *)
Lemma pretty_N_go_digitHead (x : N) s :
  digitHead s = true -> digitHead (pretty_N_go x s) = true.
Proof.
  revert s. induction (N.lt_wf_0 x) as [x _ IH]; intros s Hs.
  destruct (decide (x = 0%N)) as [->|Hx]; [done|].
  rewrite pretty_N_go_step by lia. apply IH.
  - apply N.div_lt; lia.
  - cbn. unfold pretty_N_char. by repeat case_match.
Qed.

Lemma pretty_Z_not_length (z : Z) : pretty z <> "length".
Proof.
  assert (HN : forall n : N, pretty n <> "length").
  { intros n Hn. assert (Hd : digitHead (pretty n) = true).
    { unfold pretty, pretty_N. case_decide; [done|]. by apply pretty_N_go_digitHead. }
    by rewrite Hn in Hd. }
  destruct z as [|p|p]; [done| |done]. apply (HN (Npos p)).
Qed.

Lemma legalArrayIndex_length : legalArrayIndex "length" = NaN.
Proof.
  unfold legalArrayIndex. cbn zeta. rewrite bool_decide_eq_false_2; [done|].
  apply pretty_Z_not_length.
Qed.

(** The array block of [setProperty], for [length] and for an index. *)
Lemma setProperty_array_illegal (i : Interpreter) l o v :
  Interp.heap i !! l = Some o -> Obj.class o = "Array" ->
  legalArrayLength (Interp.heap i) v = ConvOk NaN ->
  setProperty_array throwException l "length" (Given v) None i
  = rethrow (throwException (fieldValue (Interp.RANGE_ERROR i))
               (Some "Invalid array length") i).
Proof.
  intros Ho Hc Hl. unfold setProperty_array.
  rewrite (bind_Return _ _ i _ i (lookupObj_at i l o Ho)).
  rewrite bool_decide_eq_true_2 by done. cbn [bool_decide decide_rel].
  rewrite bool_decide_eq_true_2 by done.
  rewrite (bind_Return (gets id) _ i _ i eq_refl). cbn beta. unfold id. rewrite Hl. cbn [liftConv].
  rewrite (bind_Return (ret NaN) _ i _ i eq_refl). cbn [isNaN].
  apply bind_throwException_rethrow.
Qed.

Lemma setProperty_array_shorter (i : Interpreter) l o v n len ps1 :
  Interp.heap i !! l = Some o -> Obj.class o = "Array" ->
  legalArrayLength (Interp.heap i) v = ConvOk (NInt n) ->
  ToNumber (Interp.heap i) (props_get "length" (Obj.properties o)) = ConvOk len ->
  int_lt_number n len = true ->
  truncateArray n (props_forin (Obj.properties o)) (Obj.properties o) = (ps1, true) ->
  setProperty_array throwException l "length" (Given v) None i
  = Return (Some (Given (VNumber (NInt n)))) (updated l (Obj.set_properties ps1) i).
Proof.
  intros Ho Hc Hl Hlen Hlt Ht. unfold setProperty_array.
  rewrite (bind_Return _ _ i _ i (lookupObj_at i l o Ho)).
  rewrite bool_decide_eq_true_2 by done. cbn [bool_decide decide_rel].
  rewrite bool_decide_eq_true_2 by done.
  rewrite (bind_Return (gets id) _ i _ i eq_refl). cbn beta. unfold id.
  rewrite Hl. cbn [liftConv].
  rewrite (bind_Return (ret (NInt n)) _ i _ i eq_refl). cbn [isNaN].
  rewrite (bind_Return (ret VUndefined) _ i _ i eq_refl).
  erewrite bind_Return; [reflexivity|].
  rewrite (bind_Return (gets Interp.heap) _ i _ i eq_refl). cbn beta.
  rewrite Hlen. cbn [liftConv].
  rewrite (bind_Return (ret len) _ i _ i eq_refl). rewrite Hlt.
  rewrite (bind_Return _ _ i _ i (lookupObj_at i l o Ho)). rewrite Ht.
  by rewrite (bind_Return _ _ _ _ _ (updateObj_at _ l _)).
Qed.

Lemma setProperty_array_index (i : Interpreter) l o name value d z len ps1 :
  Interp.heap i !! l = Some o -> Obj.class o = "Array" ->
  name <> "length" ->
  legalArrayIndex name = NInt z ->
  ToNumber (Interp.heap i) (props_get "length" (Obj.properties o)) = ConvOk len ->
  props_assign "length" (VNumber (Math_max len (z + 1))) (Obj.properties o) = Some ps1 ->
  setProperty_array throwException l name value d i
  = Return (Some value) (updated l (Obj.set_properties ps1) i).
Proof.
  intros Ho Hc Hn Hz Hlen Hps. unfold setProperty_array.
  rewrite (bind_Return _ _ i _ i (lookupObj_at i l o Ho)).
  rewrite bool_decide_eq_true_2 by done.
  rewrite (bool_decide_eq_false_2 (name = "length")) by done. rewrite Hz.
  erewrite bind_Return; [reflexivity|].
  rewrite (bind_Return (gets Interp.heap) _ i _ i eq_refl). cbn beta.
  rewrite Hlen. cbn [liftConv].
  rewrite (bind_Return (ret len) _ i _ i eq_refl). by rewrite Hps.
Qed.

(** [setProperty] on a guest object whose array block returns. *)
Lemma setProperty_through_array (i i1 : Interpreter) l o o1 strict name value value1 d :
  receiver i l = Some (o, strict) ->
  mixedDescriptor d = false ->
  setProperty_array throwException l name value d i = Return (Some value1) i1 ->
  Interp.heap i1 !! l = Some o1 ->
  setProperty (VObject l) name value d i
  = (if admits o1 name then
       match d with
       | Some d => setProperty_define throwException l name value1 d
       | None => setProperty_assign throwException l name value1 strict
       end
     else if strict then
       throwException (fieldValue (Interp.TYPE_ERROR i))
         (Some ("Can't add property '" +:+ name +:+ "', object is not extensible")) ;;;
       ret VUndefined
     else ret VUndefined) i1.
Proof.
  intros Hr Hd Harr Ho1.
  pose proof (receiver_Some _ _ _ _ Hr) as (_ & Ho & _ & Hisa).
  rewrite (setProperty_receiver i l o strict) by done.
  unfold setProperty_object.
  rewrite (bind_Return (gets id) _ i _ i eq_refl).
  rewrite (bind_Return _ _ i _ i Hisa).
  rewrite (bind_Return (ret false) _ i _ i eq_refl).
  rewrite (bind_Return _ _ i _ i1 Harr).
  rewrite (bind_Return _ _ _ _ _ (lookupObj_at i1 l o1 Ho1)).
  unfold admits. by destruct (_ && _).
Qed.

Lemma set_properties_fields ps o :
  Obj.properties (Obj.set_properties ps o) = ps
  /\ Obj.setter (Obj.set_properties ps o) = Obj.setter o
  /\ Obj.getter (Obj.set_properties ps o) = Obj.getter o.
Proof. by destruct o. Qed.

(** ** The host bridge *)

(** *** Array indices *)

Lemma digit_of_pretty_N_char (d : N) :
  (d < 10)%N -> digit_of_ascii (pretty_N_char d) = Some (Z.of_N d).
Proof.
  intros Hd.
  assert (d = 0 \/ d = 1 \/ d = 2 \/ d = 3 \/ d = 4 \/ d = 5 \/ d = 6 \/ d = 7
          \/ d = 8 \/ d = 9)%N as H by lia.
  by repeat destruct H as [->|H]; [..|subst d].
Qed.

Lemma parse_pretty_N_go (x : N) s :
  parse_digits (pretty_N_go x s) 0 = parse_digits s (Z.of_N x).
Proof.
  revert s. induction (N.lt_wf_0 x) as [x _ IH]; intros s.
  destruct (decide (x = 0%N)) as [->|Hx]; [done|].
  rewrite pretty_N_go_step by lia. rewrite IH by (apply N.div_lt; lia).
  cbn [parse_digits]. rewrite digit_of_pretty_N_char by (apply N.mod_lt; lia).
  f_equal. pose proof (N.div_mod x 10 ltac:(lia)) as Hdm. lia.
Qed.

Lemma parse_pretty (z : Z) : 0 <= z -> parse_digits (pretty z) 0 = Some z.
Proof.
  intros Hz. destruct z as [|p|p]; [done| |lia].
  change (pretty (Z.pos p)) with (pretty (N.pos p)).
  unfold pretty, pretty_N. rewrite decide_False by done.
  by rewrite parse_pretty_N_go.
Qed.

Lemma legalArrayIndex_of_pretty (z : Z) :
  0 <= z < 2 ^ 32 - 1 -> legalArrayIndex (pretty z) = NInt z.
Proof.
  intros Hz. unfold legalArrayIndex, StringToNumber, canonical_decimal.
  rewrite parse_pretty by lia.
  rewrite (bool_decide_eq_true_2 (pretty z = pretty z)) by done.
  assert (pretty z <> "") as Hne.
  { intros He. pose proof (parse_pretty z (proj1 Hz)) as Hp. rewrite He in Hp.
    injection Hp as <-. done. }
  destruct (pretty z) eqn:Hp; [done|]. cbn [ToUint32]. rewrite <- Hp.
  rewrite Z.mod_small by lia. rewrite bool_decide_eq_true_2 by done.
  destruct (z =? 4294967295) eqn:Hzz; [lia|done].
Qed.

Lemma pretty_not_length_nat (k : nat) : pretty (Z.of_nat k) <> "length".
Proof. apply pretty_Z_not_length. Qed.

(** *** Ready states *)

Lemma plainWithProto_spec h p l :
  plainWithProto h p l = true ->
  exists o, h !! l = Some o /\ Obj.proto o = p /\ Obj.getter o = ∅ /\ Obj.setter o = ∅.
Proof.
  unfold plainWithProto. destruct (h !! l) as [o|]; [|done].
  intros [[Hp Hg]%andb_prop Hs]%andb_prop. exists o.
  by apply bool_decide_eq_true_1 in Hp, Hg, Hs.
Qed.

Lemma bridgeReady_facts b (i : Interpreter) :
  bridgeReady b i = true ->
  Interp.setterStep_ i = false /\ Interp.getterStep_ i = false
  /\ (exists strict, currentStrict i = Some strict)
  /\ (b <= length (Interp.heap i))%nat
  /\ exists op ap oo ao,
       Interp.OBJECT_PROTO i = Some op /\ Interp.ARRAY_PROTO i = Some ap
       /\ op <> ap /\ (op < b)%nat /\ (ap < b)%nat
       /\ (Interp.heap i !! op = Some oo /\ Obj.proto oo = None
           /\ Obj.getter oo = ∅ /\ Obj.setter oo = ∅)
       /\ (Interp.heap i !! ap = Some ao /\ Obj.proto ao = Some op
           /\ Obj.getter ao = ∅ /\ Obj.setter ao = ∅)
       /\ builtinPrototype b i (Interp.ARRAY i) = Some ap
       /\ forall c, c ∈ [Interp.STRING i; Interp.ERROR i; Interp.REGEXP i; Interp.DATE i] ->
                    exists p, builtinPrototype b i c = Some p /\ p <> op /\ p <> ap.
Proof.
  unfold bridgeReady.
  intros [[[[Hs Hg]%andb_prop Hc]%andb_prop Hb]%andb_prop H]%andb_prop.
  apply negb_true_iff in Hs, Hg. apply bool_decide_eq_true_1 in Hb.
  split; [done|]. split; [done|]. split.
  { destruct (currentStrict i) as [strict|]; [by exists strict|done]. }
  split; [done|].
  destruct (Interp.OBJECT_PROTO i) as [op|]; [|done].
  destruct (Interp.ARRAY_PROTO i) as [ap|]; [|done].
  apply andb_prop in H as [[[[[[Hne Hop]%andb_prop Hap]%andb_prop Hpo]%andb_prop
                               Hpa]%andb_prop Harr]%andb_prop Hall].
  apply bool_decide_eq_true_1 in Hne, Harr. apply Nat.ltb_lt in Hop, Hap.
  destruct (plainWithProto_spec _ _ _ Hpo) as (oo & Hoo).
  destruct (plainWithProto_spec _ _ _ Hpa) as (ao & Hao).
  exists op, ap, oo, ao. repeat (split; [done|]).
  intros c Hc'. rewrite forallb_forall in Hall.
  specialize (Hall c (proj1 (list_elem_of_In _ _) Hc')).
  destruct (builtinPrototype b i c) as [p|]; [|done].
  apply andb_prop in Hall as [H1 H2]. apply bool_decide_eq_true_1 in H1, H2. by exists p.
Qed.

Lemma builtinPrototype_spec b (i : Interpreter) c p :
  builtinPrototype b i c = Some p ->
  exists c' co,
    c = Some c' /\ (c' < b)%nat /\ Interp.heap i !! c' = Some co
    /\ props_get "prototype" (Obj.properties co) = VObject p /\ (p < b)%nat.
Proof.
  unfold builtinPrototype. destruct c as [c'|]; [|done].
  destruct (c' <? b)%nat eqn:Hc; [|done]. apply Nat.ltb_lt in Hc.
  destruct (Interp.heap i !! c') as [co|] eqn:Hco; [|done].
  destruct (props_get "prototype" (Obj.properties co)) as [| | | | |q| |] eqn:Hq; try done.
  destruct (q <? b)%nat eqn:Hqb; [|done]. apply Nat.ltb_lt in Hqb.
  intros [= <-]. by exists c', co.
Qed.

Lemma extends_refl k (i : Interpreter) : extends k i i.
Proof. split; [by destruct i|]. split; [lia|done]. Qed.

Lemma extends_trans k1 k2 (i1 i2 i3 : Interpreter) :
  extends k1 i1 i2 -> extends k2 i2 i3 -> (k1 <= k2)%nat -> extends k1 i1 i3.
Proof.
  intros (H1 & Hl1 & Ha1) (H2 & Hl2 & Ha2) Hk. split; [|split].
  - rewrite H2, H1. by destruct i1.
  - lia.
  - intros l Hl. rewrite Ha2 by lia. by apply Ha1.
Qed.

Lemma extends_weaken k k' (i i' : Interpreter) :
  extends k i i' -> (k' <= k)%nat -> extends k' i i'.
Proof. intros (H1 & Hl1 & Ha1) Hk. split; [done|]. split; [done|]. intros l Hl. apply Ha1. lia. Qed.

Lemma extends_grown o (i : Interpreter) : extends (length (Interp.heap i)) i (grown o i).
Proof.
  unfold grown. split; [by destruct i|]. split.
  - destruct i; cbn. rewrite length_app. lia.
  - intros l Hl. destruct i; cbn in *. by rewrite lookup_app_l.
Qed.

Lemma extends_updated l f (i : Interpreter) : extends l i (updated l f i).
Proof.
  unfold updated. split; [by destruct i|]. split.
  - destruct i; cbn. by rewrite length_alter.
  - intros l' Hl. destruct i; cbn. rewrite list_lookup_alter_ne; [done|lia].
Qed.

Lemma bridgeReady_extends b k (i i' : Interpreter) :
  bridgeReady b i = true -> extends k i i' -> (b <= k)%nat -> bridgeReady b i' = true.
Proof.
  intros Hr (Hi' & Hlen & Hagree) Hbk.
  pose proof (bridgeReady_facts b i Hr) as (_ & _ & _ & Hb & _).
  assert (Hlook : forall l, (l < b)%nat -> Interp.heap i' !! l = Interp.heap i !! l).
  { intros l Hl. apply Hagree. lia. }
  assert (Hbp : forall c, builtinPrototype b i' c = builtinPrototype b i c).
  { intros [c|]; [|done]. unfold builtinPrototype.
    destruct (c <? b)%nat eqn:Hc; [|done]. apply Nat.ltb_lt in Hc. by rewrite Hlook. }
  assert (Hss : Interp.setterStep_ i' = Interp.setterStep_ i) by (by rewrite Hi').
  assert (Hgs : Interp.getterStep_ i' = Interp.getterStep_ i) by (by rewrite Hi').
  assert (Hcs : currentStrict i' = currentStrict i) by (by rewrite Hi').
  assert (Hop : Interp.OBJECT_PROTO i' = Interp.OBJECT_PROTO i) by (by rewrite Hi').
  assert (Hap : Interp.ARRAY_PROTO i' = Interp.ARRAY_PROTO i) by (by rewrite Hi').
  assert (Har : Interp.ARRAY i' = Interp.ARRAY i) by (by rewrite Hi').
  assert (Hst : Interp.STRING i' = Interp.STRING i) by (by rewrite Hi').
  assert (Her : Interp.ERROR i' = Interp.ERROR i) by (by rewrite Hi').
  assert (Hre : Interp.REGEXP i' = Interp.REGEXP i) by (by rewrite Hi').
  assert (Hda : Interp.DATE i' = Interp.DATE i) by (by rewrite Hi').
  revert Hr. unfold bridgeReady. cbn [forallb].
  rewrite Hss, Hgs, Hcs, Hop, Hap, Har, Hst, Her, Hre, Hda, !Hbp.
  intros [[[[Hs Hg]%andb_prop Hc]%andb_prop Hb']%andb_prop H]%andb_prop.
  rewrite Hs, Hg, Hc. cbn [andb]. rewrite bool_decide_eq_true_2 by lia. cbn [andb].
  destruct (Interp.OBJECT_PROTO i) as [op|]; [|done].
  destruct (Interp.ARRAY_PROTO i) as [ap|]; [|done].
  apply andb_prop in H as [[[[[[Hne Hopb]%andb_prop Hapb]%andb_prop Hpo]%andb_prop
                               Hpa]%andb_prop Harr]%andb_prop Hall].
  rewrite Hne, Hopb, Hapb, Harr, Hall. apply Nat.ltb_lt in Hopb, Hapb.
  unfold plainWithProto in *. rewrite !Hlook by done. by rewrite Hpo, Hpa.
Qed.

(** *** [isa] on the objects the bridge makes *)

Lemma strict_equals_objects a b :
  strict_equals (VObject a) (VObject b) = bool_decide (a = b).
Proof.
  unfold strict_equals. destruct (decide (a = b)) as [->|Hne].
  - by rewrite !bool_decide_eq_true_2.
  - rewrite !bool_decide_eq_false_2; [done|done|]. by intros [= ?].
Qed.

Lemma protoField_at (i : Interpreter) l o :
  Interp.heap i !! l = Some o ->
  protoField (VObject l) i
  = Return (match Obj.proto o with Some p => VObject p | None => VNull end) i.
Proof. intros Ho. unfold protoField. by rewrite (bind_Return _ _ i _ i (lookupObj_at i l o Ho)). Qed.

(** [isa] for an object whose prototype is [Object.prototype] or
    [Array.prototype], itself on top of [Object.prototype]. *)
Lemma isa_on_chain (i : Interpreter) l o q oq c co p :
  Interp.heap i !! l = Some o -> Obj.proto o = Some q ->
  Interp.heap i !! q = Some oq ->
  Interp.heap i !! c = Some co ->
  props_get "prototype" (Obj.properties co) = VObject p ->
  l <> p ->
  (2 <= length (Interp.heap i))%nat ->
  match Obj.proto oq with
  | None => True
  | Some r => exists or, Interp.heap i !! r = Some or /\ Obj.proto or = None /\ r <> p
  end ->
  isa (VObject l) (Some c) i = Return (bool_decide (q = p)) i.
Proof.
  intros Ho Hq Hoq Hc Hp Hlp Hlen Hr. unfold isa.
  rewrite (bind_Return _ _ i _ i (lookupObj_at i c co Hc)). rewrite Hp.
  rewrite strict_equals_objects, bool_decide_eq_false_2 by done.
  assert (Hgp : getPrototype (VObject l) i = Return (VObject q) i).
  { unfold getPrototype. cbn [ToBoolean]. by rewrite (protoField_at i l o Ho), Hq. }
  rewrite (bind_Return _ _ i _ i Hgp).
  rewrite (bind_Return (gets Interp.heap) _ i _ i eq_refl).
  destruct (length (Interp.heap i)) as [|[|n]] eqn:Hn; [lia|lia|].
  cbn [isa_loop ToBoolean]. rewrite strict_equals_objects.
  case_bool_decide as Hqp; [done|].
  rewrite (bind_Return _ _ i _ i (protoField_at i q oq Hoq)).
  destruct (Obj.proto oq) as [r|]; [|done].
  destruct Hr as (or & Hor & Hpr & Hrp). cbn [ToBoolean].
  rewrite strict_equals_objects, bool_decide_eq_false_2 by done.
  rewrite (bind_Return _ _ i _ i (protoField_at i r or Hor)). by rewrite Hpr.
Qed.

Lemma isa_fresh b (i : Interpreter) l o q c p :
  bridgeReady b i = true ->
  Interp.heap i !! l = Some o -> (b <= l)%nat ->
  Obj.proto o = Some q ->
  Some q = Interp.OBJECT_PROTO i \/ Some q = Interp.ARRAY_PROTO i ->
  builtinPrototype b i c = Some p ->
  (Some p = Interp.OBJECT_PROTO i -> False) ->
  isa (VObject l) c i = Return (bool_decide (q = p)) i.
Proof.
  intros Hr Ho Hbl Hq Hqq Hc Hpo.
  destruct (bridgeReady_facts b i Hr)
    as (_ & _ & _ & Hb & op & ap & oo & ao & Hop & Hap & Hne & Hopb & Hapb
        & (Hoo & Hoop & _) & (Hao & Haop & _) & _).
  destruct (builtinPrototype_spec b i c p Hc) as (c' & co & -> & Hcb & Hco & Hpp & Hpb).
  rewrite Hop, Hap in Hqq. rewrite Hop in Hpo.
  assert (Hlen : (2 <= length (Interp.heap i))%nat).
  { apply lookup_lt_Some in Hoo, Hao. lia. }
  destruct Hqq as [[= ->]|[= ->]].
  - apply (isa_on_chain i l o op oo c' co p); try done; [lia|]. by rewrite Hoop.
  - apply (isa_on_chain i l o ap ao c' co p); try done; [lia|]. rewrite Haop.
    exists oo. split; [done|]. split; [done|]. intros ->. by apply Hpo.
Qed.

Lemma isa_fresh_other b (i : Interpreter) l o q c :
  bridgeReady b i = true ->
  Interp.heap i !! l = Some o -> (b <= l)%nat ->
  Obj.proto o = Some q ->
  Some q = Interp.OBJECT_PROTO i \/ Some q = Interp.ARRAY_PROTO i ->
  c ∈ [Interp.STRING i; Interp.ERROR i; Interp.REGEXP i; Interp.DATE i] ->
  isa (VObject l) c i = Return false i.
Proof.
  intros Hr Ho Hbl Hq Hqq Hc.
  destruct (bridgeReady_facts b i Hr)
    as (_ & _ & _ & _ & op & ap & oo & ao & Hop & Hap & _ & _ & _ & _ & _ & _ & Hall).
  destruct (Hall c Hc) as (p & Hp & Hpo & Hpa).
  rewrite (isa_fresh b i l o q c p) by (try done; rewrite Hop; by intros [= ->]).
  rewrite bool_decide_eq_false_2; [done|].
  rewrite Hop, Hap in Hqq. by destruct Hqq as [[= ->]|[= ->]].
Qed.

Lemma isa_fresh_array b (i : Interpreter) l o q :
  bridgeReady b i = true ->
  Interp.heap i !! l = Some o -> (b <= l)%nat ->
  Obj.proto o = Some q ->
  Some q = Interp.OBJECT_PROTO i \/ Some q = Interp.ARRAY_PROTO i ->
  isa (VObject l) (Interp.ARRAY i) i
  = Return (bool_decide (Some q = Interp.ARRAY_PROTO i)) i.
Proof.
  intros Hr Ho Hbl Hq Hqq.
  destruct (bridgeReady_facts b i Hr)
    as (_ & _ & _ & _ & op & ap & oo & ao & Hop & Hap & Hne & _ & _ & _ & _ & Harr & _).
  rewrite (isa_fresh b i l o q _ ap) by (try done; rewrite Hop; by intros [= ->]).
  rewrite Hap. f_equal. apply bool_decide_ext. split; [by intros ->|by intros [= ->]].
Qed.

(** *** The objects the bridge makes: creation, assignment, reading *)

Lemma updated_grown l f o (i : Interpreter) :
  l = length (Interp.heap i) -> updated l f (grown o i) = grown (f o) i.
Proof.
  intros ->. unfold updated, grown.
  assert (Hh : alter f (length (Interp.heap i)) (Interp.heap i ++ [o])
               = Interp.heap i ++ [f o]).
  { apply list_eq. intros k.
    destruct (decide (k = length (Interp.heap i))) as [->|Hk].
    - rewrite list_lookup_alter_eq, !lookup_app_r by lia.
      by rewrite Nat.sub_diag.
    - rewrite list_lookup_alter_ne by done.
      destruct (decide (k < length (Interp.heap i))%nat).
      + by rewrite !lookup_app_l by lia.
      + rewrite !lookup_app_r by lia.
        destruct (k - length (Interp.heap i))%nat as [|m] eqn:Hm; [lia|done]. }
  destruct i; unfold Interp.set_heap; cbn in *. by rewrite Hh.
Qed.

Lemma grown_lookup o (i : Interpreter) :
  Interp.heap (grown o i) !! length (Interp.heap i) = Some o.
Proof. unfold grown. destruct i; cbn. by rewrite lookup_app_r, Nat.sub_diag by lia. Qed.

Lemma grown_length o (i : Interpreter) :
  length (Interp.heap (grown o i)) = S (length (Interp.heap i)).
Proof. unfold grown. destruct i; cbn. rewrite length_app. cbn. lia. Qed.

Lemma updated_length l f (i : Interpreter) :
  length (Interp.heap (updated l f i)) = length (Interp.heap i).
Proof. unfold updated. destruct i; cbn. by rewrite length_alter. Qed.

Lemma updated_ext l f g o (i : Interpreter) :
  Interp.heap i !! l = Some o -> f o = g o -> updated l f i = updated l g i.
Proof.
  intros Ho Hfg. rewrite (updated_const i l f o Ho), (updated_const i l g o Ho).
  by rewrite Hfg.
Qed.

Lemma plainObject_set_properties p c ps ps' o :
  plainObject p c ps o -> plainObject p c ps' (Obj.set_properties ps' o).
Proof. intros (? & ? & ? & ? & ? & ?). by destruct o. Qed.

Lemma plainObject_new p : plainObject p "Object" [] (Obj.new (Some p)).
Proof. unfold plainObject, Obj.new. cbn. by repeat split. Qed.

Lemma getPrototype_at (i : Interpreter) l o :
  Interp.heap i !! l = Some o ->
  getPrototype (VObject l) i
  = Return (match Obj.proto o with Some p => VObject p | None => VNull end) i.
Proof. intros Ho. unfold getPrototype. cbn [ToBoolean]. by apply protoField_at. Qed.

Lemma truthyEntry_empty name : truthyEntry ∅ name = None.
Proof. unfold truthyEntry. by rewrite lookup_empty. Qed.

Lemma truthyEntry_none (m : gmap string Value) name :
  m !! name = None -> truthyEntry m name = None.
Proof. unfold truthyEntry. by intros ->. Qed.

Lemma receiver_fresh b (i : Interpreter) l o q :
  bridgeReady b i = true ->
  Interp.heap i !! l = Some o -> (b <= l)%nat ->
  Obj.proto o = Some q ->
  Some q = Interp.OBJECT_PROTO i \/ Some q = Interp.ARRAY_PROTO i ->
  exists strict, receiver i l = Some (o, strict).
Proof.
  intros Hr Ho Hbl Hq Hqq.
  destruct (bridgeReady_facts b i Hr) as (Hss & _ & (strict & Hs) & _).
  exists strict. unfold receiver. rewrite Hss, Ho, Hs.
  assert (Hisa : isa (VObject l) (Interp.STRING i) i = Return false i).
  { apply (isa_fresh_other b i l o q); try done. apply list_elem_of_here. }
  by rewrite Hisa.
Qed.

Lemma findDefObj_S fuel obj defObj name :
  findDefObj (S fuel) obj defObj name
  = (d <- lookupObj defObj ;;
     if props_has name (Obj.properties d) then ret defObj
     else
       next <- getPrototype (VObject defObj) ;;
       match next with
       | VObject p => findDefObj fuel obj p name
       | _ => if ToBoolean next then unmodelled else ret obj
       end).
Proof. reflexivity. Qed.

(** The object that defines [name] for an object of the bridge has no
    accessor for it. *)
Lemma findDefObj_fresh b (i : Interpreter) l o q name :
  bridgeReady b i = true ->
  Interp.heap i !! l = Some o -> (b <= l)%nat ->
  Obj.proto o = Some q ->
  Some q = Interp.OBJECT_PROTO i \/ Some q = Interp.ARRAY_PROTO i ->
  (forall k, Obj.getter o !! k = None) -> (forall k, Obj.setter o !! k = None) ->
  exists defObj d,
    findDefObj (S (length (Interp.heap i))) l l name i = Return defObj i
    /\ Interp.heap i !! defObj = Some d
    /\ truthyEntry (Obj.setter d) name = None
    /\ truthyEntry (Obj.getter d) name = None.
Proof.
  intros Hr Ho Hbl Hq Hqq Hg Hs.
  destruct (bridgeReady_facts b i Hr)
    as (_ & _ & _ & Hb & op & ap & oo & ao & Hop & Hap & Hne & Hopb & Hapb
        & (Hoo & Hoop & Hoog & Hoos) & (Hao & Haop & Haog & Haos) & _).
  assert (Hlen : (3 <= length (Interp.heap i))%nat).
  { apply lookup_lt_Some in Ho. lia. }
  destruct (length (Interp.heap i)) as [|[|[|n]]] eqn:Hn; [lia|lia|lia|].
  assert (Hfrom_op : forall fuel,
    exists defObj d,
      findDefObj (S fuel) l op name i = Return defObj i
      /\ Interp.heap i !! defObj = Some d
      /\ truthyEntry (Obj.setter d) name = None
      /\ truthyEntry (Obj.getter d) name = None).
  { intros fuel. rewrite findDefObj_S.
    rewrite (bind_Return _ _ i _ i (lookupObj_at i op oo Hoo)).
    destruct (props_has name (Obj.properties oo)).
    - exists op, oo. rewrite Hoog, Hoos. by rewrite !truthyEntry_empty.
    - rewrite (bind_Return _ _ i _ i (getPrototype_at i op oo Hoo)), Hoop.
      cbn [ToBoolean]. exists l, o. split; [done|]. split; [done|].
      split; by apply truthyEntry_none. }
  rewrite findDefObj_S.
  rewrite (bind_Return _ _ i _ i (lookupObj_at i l o Ho)).
  destruct (props_has name (Obj.properties o)) eqn:Hhas.
  { exists l, o. split; [done|]. split; [done|].
    split; by apply truthyEntry_none. }
  rewrite (bind_Return _ _ i _ i (getPrototype_at i l o Ho)), Hq.
  rewrite Hop, Hap in Hqq. destruct Hqq as [[= ->]|[= ->]].
  - apply Hfrom_op.
  - rewrite findDefObj_S.
    rewrite (bind_Return _ _ i _ i (lookupObj_at i ap ao Hao)).
    destruct (props_has name (Obj.properties ao)).
    + exists ap, ao. rewrite Haog, Haos. by rewrite !truthyEntry_empty.
    + rewrite (bind_Return _ _ i _ i (getPrototype_at i ap ao Hao)), Haop.
      apply Hfrom_op.
Qed.

(** Assignment to an object of the bridge that is no array. *)
Lemma setProperty_fresh_object b (i : Interpreter) l o q c ps ps' name v :
  bridgeReady b i = true ->
  Interp.heap i !! l = Some o -> (b <= l)%nat ->
  plainObject q c ps o ->
  Some q = Interp.OBJECT_PROTO i \/ Some q = Interp.ARRAY_PROTO i ->
  c <> "Array" ->
  props_assign name v ps = Some ps' ->
  setProperty (VObject l) name (Given v) None i
  = Return VUndefined (updated l (Obj.set_properties ps') i).
Proof.
  intros Hr Ho Hbl (Hq & Hc & Hps & Hpe & Hg & Hs) Hqq Hca Hassign.
  destruct (receiver_fresh b i l o q Hr Ho Hbl Hq Hqq) as (strict & Hrec).
  rewrite (setProperty_receiver i l o strict name (Given v) None Hrec eq_refl).
  rewrite (setProperty_object_plain i l o strict name (Given v) None Hrec).
  2:{ unfold noMagic. rewrite Hc. by rewrite bool_decide_eq_false_2. }
  unfold admits. rewrite Hpe. cbn [andb negb].
  destruct (findDefObj_fresh b i l o q name Hr Ho Hbl Hq Hqq Hg Hs)
    as (defObj & d & Hfind & Hd & Hds & Hdg).
  rewrite (setProperty_assign_found i l o defObj d name v strict Ho Hfind Hd).
  by rewrite Hds, Hdg, Hps, Hassign.
Qed.

(** Assignment to an index of an array of the bridge. *)
Lemma setProperty_fresh_array b (i : Interpreter) l o q ps ps1 ps2 z len v :
  bridgeReady b i = true ->
  Interp.heap i !! l = Some o -> (b <= l)%nat ->
  plainObject q "Array" ps o ->
  Some q = Interp.OBJECT_PROTO i \/ Some q = Interp.ARRAY_PROTO i ->
  0 <= z < 2 ^ 32 - 1 ->
  ToNumber (Interp.heap i) (props_get "length" ps) = ConvOk len ->
  props_assign "length" (VNumber (Math_max len (z + 1))) ps = Some ps1 ->
  props_assign (pretty z) v ps1 = Some ps2 ->
  setProperty (VObject l) (pretty z) (Given v) None i
  = Return VUndefined (updated l (Obj.set_properties ps2) i).
Proof.
  intros Hr Ho Hbl Hplain Hqq Hz Hlen Hps1 Hps2.
  pose proof Hplain as (Hq & Hc & Hps & Hpe & Hg & Hs).
  destruct (receiver_fresh b i l o q Hr Ho Hbl Hq Hqq) as (strict & Hrec).
  set (i1 := updated l (Obj.set_properties ps1) i).
  assert (Harr : setProperty_array throwException l (pretty z) (Given v) None i
                 = Return (Some (Given v)) i1).
  { apply (setProperty_array_index i l o (pretty z) (Given v) None z len ps1); try done.
    - apply pretty_Z_not_length.
    - by apply legalArrayIndex_of_pretty.
    - by rewrite Hps.
    - by rewrite Hps. }
  assert (Ho1 : Interp.heap i1 !! l = Some (Obj.set_properties ps1 o)).
  { by apply updated_lookup. }
  rewrite (setProperty_through_array i i1 l o _ strict (pretty z) (Given v) (Given v) None
             Hrec eq_refl Harr Ho1).
  pose proof (plainObject_set_properties q "Array" ps ps1 o Hplain)
    as (Hq1 & Hc1 & Hpp1 & Hpe1 & Hg1 & Hs1).
  unfold admits. rewrite Hpe1. cbn [andb negb].
  assert (Hr1 : bridgeReady b i1 = true).
  { apply (bridgeReady_extends b l i i1 Hr); [apply extends_updated|done]. }
  assert (Hqq1 : Some q = Interp.OBJECT_PROTO i1 \/ Some q = Interp.ARRAY_PROTO i1).
  { unfold i1, updated. destruct i. exact Hqq. }
  destruct (findDefObj_fresh b i1 l _ q (pretty z) Hr1 Ho1 Hbl Hq1 Hqq1 Hg1 Hs1)
    as (defObj & d & Hfind & Hd & Hds & Hdg).
  rewrite (setProperty_assign_found i1 l _ defObj d (pretty z) v strict Ho1 Hfind Hd).
  rewrite Hds, Hdg, Hpp1, Hps2. f_equal.
  unfold i1. rewrite updated_updated.
  apply (updated_ext l _ _ o i Ho). by destruct o.
Qed.

(** Reading an own entry of an object. *)
Lemma hasProperty_loop_own (i : Interpreter) fuel l o name :
  Interp.heap i !! l = Some o ->
  props_has name (Obj.properties o) = true ->
  hasProperty_loop (S fuel) (VObject l) name i = Return true i.
Proof.
  intros Ho Hhas. cbn [hasProperty_loop].
  assert (Hown : (o <- lookupObj l ;; ret (props_has name (Obj.properties o))) i
                 = Return true i).
  { rewrite (bind_Return _ _ i _ i (lookupObj_at i l o Ho)). by rewrite Hhas. }
  by rewrite (bind_Return _ _ i _ i Hown).
Qed.

Lemma getProperty_loop_own (i : Interpreter) fuel l o name :
  Interp.heap i !! l = Some o ->
  props_has name (Obj.properties o) = true ->
  Obj.getter o !! name = None ->
  getProperty_loop (S fuel) (VObject l) name i
  = Return (props_get name (Obj.properties o)) i.
Proof.
  intros Ho Hhas Hg. cbn [getProperty_loop].
  assert (Hown : (o <- lookupObj l ;;
                  ret (if props_has name (Obj.properties o) then Some o else None)) i
                 = Return (Some o) i).
  { rewrite (bind_Return _ _ i _ i (lookupObj_at i l o Ho)). by rewrite Hhas. }
  rewrite (bind_Return _ _ i _ i Hown). by rewrite Hg.
Qed.

Lemma hasProperty_fresh b (i : Interpreter) l o q name :
  bridgeReady b i = true ->
  Interp.heap i !! l = Some o -> (b <= l)%nat ->
  Obj.proto o = Some q ->
  Some q = Interp.OBJECT_PROTO i \/ Some q = Interp.ARRAY_PROTO i ->
  props_has name (Obj.properties o) = true ->
  hasProperty (VObject l) name i = Return true i.
Proof.
  intros Hr Ho Hbl Hq Hqq Hhas. unfold hasProperty. cbn [isPseudoObject negb].
  rewrite (bind_Return (gets id) _ i _ i eq_refl). cbn beta. unfold id.
  assert (Hisa : isa (VObject l) (Interp.STRING i) i = Return false i).
  { apply (isa_fresh_other b i l o q); try done. apply list_elem_of_here. }
  assert (Hfirst : (if bool_decide (name = "length")
                    then isa (VObject l) (Interp.STRING i) else ret false) i
                   = Return false i).
  { by case_bool_decide. }
  rewrite (bind_Return _ _ i _ i Hfirst).
  rewrite (bind_Return _ _ i _ i Hisa).
  rewrite (bind_Return (ret false) _ i _ i eq_refl).
  by apply (hasProperty_loop_own i _ l o).
Qed.

Lemma getProperty_fresh b (i : Interpreter) l o q name :
  bridgeReady b i = true ->
  Interp.heap i !! l = Some o -> (b <= l)%nat ->
  Obj.proto o = Some q ->
  Some q = Interp.OBJECT_PROTO i \/ Some q = Interp.ARRAY_PROTO i ->
  props_has name (Obj.properties o) = true ->
  Obj.getter o !! name = None ->
  getProperty (VObject l) name i = Return (props_get name (Obj.properties o)) i.
Proof.
  intros Hr Ho Hbl Hq Hqq Hhas Hg. unfold getProperty, getProperty_.
  destruct (bridgeReady_facts b i Hr) as (_ & Hgs & _).
  rewrite (bind_Return (gets Interp.getterStep_) _ i _ i eq_refl), Hgs.
  rewrite (bind_Return (ret VUndefined) _ i _ i eq_refl).
  cbn [isHostObject].
  rewrite (bind_Return (gets id) _ i _ i eq_refl). cbn beta. unfold id.
  assert (Hisa : isa (VObject l) (Interp.STRING i) i = Return false i).
  { apply (isa_fresh_other b i l o q); try done. apply list_elem_of_here. }
  assert (Hmagic :
    (if bool_decide (name = "length") then
       isString <- isa (VObject l) (Interp.STRING i) ;;
       if isString
       then s <- String_ (VObject l) ;; ret (Some (VNumber (NInt (Z.of_nat (String.length s)))))
       else ret None
     else if startsBelow0x40 name then
       isString <- isa (VObject l) (Interp.STRING i) ;;
       if isString then
         match legalArrayIndex name with
         | NInt n =>
             s <- String_ (VObject l) ;;
             if n <? Z.of_nat (String.length s) then ret (Some (charAt s n)) else ret None
         | _ => ret None
         end
       else ret None
     else ret None) i = Return None i).
  { case_bool_decide; [by rewrite (bind_Return _ _ i _ i Hisa)|].
    destruct (startsBelow0x40 name); [by rewrite (bind_Return _ _ i _ i Hisa)|done]. }
  rewrite (bind_Return _ _ i _ i Hmagic).
  by apply (getProperty_loop_own i _ l o).
Qed.

(** [createObjectProto] for [Object.prototype] and [Array.prototype]. *)
Lemma createObjectProto_fresh b (i : Interpreter) q :
  bridgeReady b i = true ->
  Some q = Interp.OBJECT_PROTO i \/ Some q = Interp.ARRAY_PROTO i ->
  createObjectProto (VObject q) i
  = Return (length (Interp.heap i)) (grown (Obj.new (Some q)) i).
Proof.
  intros Hr Hqq. unfold createObjectProto.
  set (i1 := grown (Obj.new (Some q)) i).
  assert (Halloc : allocObj (Obj.new (Some q)) i = Return (length (Interp.heap i)) i1).
  { done. }
  rewrite (bind_Return _ _ i _ i1 Halloc).
  rewrite (bind_Return (gets id) _ i1 _ i1 eq_refl). cbn beta. unfold id.
  destruct (bridgeReady_facts b i Hr) as (_ & _ & _ & Hb & _).
  assert (Hr1 : bridgeReady b i1 = true).
  { apply (bridgeReady_extends b _ i i1 Hr (extends_grown _ i) Hb). }
  assert (Hisa : isa (VObject (length (Interp.heap i))) (Interp.ERROR i1) i1
                 = Return false i1).
  { assert (Hqq1 : Some q = Interp.OBJECT_PROTO i1 \/ Some q = Interp.ARRAY_PROTO i1).
    { unfold i1, grown. destruct i. exact Hqq. }
    apply (isa_fresh_other b i1 _ (Obj.new (Some q)) q _ Hr1 (grown_lookup _ i) Hb eq_refl Hqq1).
    apply list_elem_of_further, list_elem_of_here. }
  by rewrite (bind_Return _ _ i1 _ i1 Hisa).
Qed.

Lemma createArray_fresh b (i : Interpreter) ap :
  bridgeReady b i = true ->
  Interp.ARRAY_PROTO i = Some ap ->
  exists o,
    createArray i = Return (length (Interp.heap i)) (grown o i)
    /\ plainObject ap "Array"
         [("length", mkProperty (VNumber (NInt 0)) true false false)] o.
Proof.
  intros Hr Hap. unfold createArray.
  rewrite (bind_Return (gets id) _ i _ i eq_refl). cbn beta. unfold id.
  rewrite Hap. cbn [fieldValue].
  set (l := length (Interp.heap i)).
  set (o0 := Obj.new (Some ap)).
  set (i1 := grown o0 i).
  assert (Hqq : Some ap = Interp.OBJECT_PROTO i \/ Some ap = Interp.ARRAY_PROTO i).
  { by right. }
  rewrite (bind_Return _ _ i _ i1 (createObjectProto_fresh b i ap Hr Hqq)).
  destruct (bridgeReady_facts b i Hr) as (_ & _ & _ & Hb & _).
  assert (Hr1 : bridgeReady b i1 = true).
  { apply (bridgeReady_extends b _ i i1 Hr (extends_grown _ i) Hb). }
  assert (Ho1 : Interp.heap i1 !! l = Some o0) by apply grown_lookup.
  assert (Hqq1 : Some ap = Interp.OBJECT_PROTO i1 \/ Some ap = Interp.ARRAY_PROTO i1).
  { unfold i1, grown. destruct i. exact Hqq. }
  destruct (receiver_fresh b i1 l o0 ap Hr1 Ho1 Hb eq_refl Hqq1) as (strict & Hrec).
  set (d := Descriptor.mk (Some (VBool false)) (Some (VBool false)) (Some (VBool true))
              None None None).
  set (o1 := Obj.set_properties
               [("length", mkProperty (VNumber (NInt 0)) true false false)]
               (accessorsAfter d (Given (VNumber (NInt 0))) "length" o0)).
  assert (Hset : setProperty (VObject l) "length" (Given (VNumber (NInt 0))) (Some d) i1
                 = Return VUndefined (updated l (fun _ => o1) i1)).
  { rewrite (setProperty_receiver i1 l o0 strict _ _ (Some d) Hrec eq_refl).
    rewrite (setProperty_object_plain i1 l o0 strict _ _ (Some d) Hrec eq_refl).
    cbn [admits]. unfold admits. cbn [Obj.preventExtensions o0 Obj.new andb negb].
    by rewrite (setProperty_define_at i1 l o0 _ _ d Ho1). }
  rewrite (bind_Return _ _ i1 _ _ Hset).
  rewrite (bind_Return _ _ _ _ _ (updateObj_at _ l (Obj.set_class "Array"))).
  rewrite updated_updated. unfold i1. rewrite updated_grown by done.
  eexists. split; [reflexivity|].
  unfold plainObject. cbn. repeat split; intros name; by rewrite !lookup_delete_None'.
Qed.

(** *** The round trip through the bridge *)

Lemma nativeToPseudo_array slots :
  nativeToPseudo (NativeArray slots)
  = (pseudoArray <- createArray ;;
     slotsToPseudo nativeToPseudo pseudoArray slots 0 ;;;
     ret (VObject pseudoArray)).
Proof. reflexivity. Qed.

Lemma nativeToPseudo_object entries :
  nativeToPseudo (NativeObject entries)
  = (i <- gets id ;;
     pseudoObj <- createObjectProto (fieldValue (Interp.OBJECT_PROTO i)) ;;
     entriesToPseudo nativeToPseudo pseudoObj entries ;;;
     ret (VObject pseudoObj)).
Proof. reflexivity. Qed.

Lemma pseudoToNative__object fuel l cycles :
  pseudoToNative_ (S fuel) (VObject l) cycles
  = (i <- gets id ;;
     isRegExp <- isa (VObject l) (Interp.REGEXP i) ;;
     if isRegExp : bool then
       o <- lookupObj l ;;
       match Obj.data o with
       | DataRegExp source flags lastIndex => ret (NativeRegExp source flags lastIndex)
       | DataNull =>
           throwHost (HostErrorObject "TypeError" "Cannot read properties of null")
       | _ => unmodelled
       end
     else
       isDate <- isa (VObject l) (Interp.DATE i) ;;
       if isDate : bool then
         o <- lookupObj l ;;
         match Obj.data o with
         | DataDate ms => ret (NativeDate ms)
         | DataNull =>
             throwHost (HostErrorObject "TypeError" "Cannot read properties of null")
         | _ => unmodelled
         end
       else
         match indexOf l cycles with
         | Some k => ret (NativeBackReference k)
         | None =>
             isArray <- isa (VObject l) (Interp.ARRAY i) ;;
             if isArray : bool then
               length <- getProperty (VObject l) "length" ;;
               match loop_bound length with
               | None => unmodelled
               | Some n =>
                   slots <- slotsToNative (pseudoToNative_ fuel) (VObject l)
                              (cycles ++ [l]) (seq 0 n) ;;
                   ret (NativeArray (trimHoles slots))
               end
             else
               o <- lookupObj l ;;
               entries <- entriesToNative (pseudoToNative_ fuel) o (cycles ++ [l])
                            (props_forin (Obj.properties o)) ;;
               ret (NativeObject entries)
         end).
Proof. reflexivity. Qed.

(** **** The properties of the objects the bridge makes *)

Lemma pretty_nat_inj j k : pretty (Z.of_nat j) = pretty (Z.of_nat k) -> j = k.
Proof. intros H. apply (inj (pretty : Z -> string)) in H. lia. Qed.

Lemma elementProps_app k vs ws :
  elementProps k (vs ++ ws) = elementProps k vs ++ elementProps (k + length vs) ws.
Proof.
  revert k. induction vs as [|v vs IH]; intros k; cbn [elementProps app length].
  - by rewrite Nat.add_0_r.
  - rewrite IH. by replace (S k + length vs)%nat with (k + S (length vs))%nat by lia.
Qed.

Lemma elementProps_lookup_other k vs name :
  (forall j, (k <= j < k + length vs)%nat -> name <> pretty (Z.of_nat j)) ->
  props_lookup name (elementProps k vs) = None.
Proof.
  revert k. induction vs as [|v vs IH]; intros k Hname; [done|].
  cbn [elementProps props_lookup length] in *.
  rewrite bool_decide_eq_false_2.
  - apply IH. intros j Hj. apply Hname. lia.
  - intros Heq. apply (Hname k); [lia|done].
Qed.

Lemma elementProps_lookup k vs j v :
  vs !! j = Some v ->
  props_lookup (pretty (Z.of_nat (k + j))) (elementProps k vs)
  = Some (mkProperty v true true true).
Proof.
  revert k j. induction vs as [|w vs IH]; intros k j Hj; [done|].
  cbn [elementProps props_lookup]. destruct j as [|j].
  - cbn in Hj. injection Hj as ->.
    by rewrite Nat.add_0_r, bool_decide_eq_true_2.
  - cbn in Hj. rewrite bool_decide_eq_false_2.
    + replace (k + S j)%nat with (S k + j)%nat by lia. by apply IH.
    + intros Heq%pretty_nat_inj. lia.
Qed.

Lemma arrayProps_length vs :
  props_lookup "length" (arrayProps vs)
  = Some (mkProperty (VNumber (NInt (Z.of_nat (length vs)))) true false false).
Proof. done. Qed.

Lemma arrayProps_lookup vs j v :
  vs !! j = Some v ->
  props_lookup (pretty (Z.of_nat j)) (arrayProps vs) = Some (mkProperty v true true true).
Proof.
  intros Hj. unfold arrayProps. cbn [props_lookup].
  rewrite bool_decide_eq_false_2.
  - by apply (elementProps_lookup 0 vs j v).
  - intros Heq. by apply (pretty_not_length_nat j).
Qed.

(** Assigning to the index after the last element. *)
Lemma arrayProps_push vs v :
  exists ps1,
    props_assign "length"
      (VNumber (Math_max (NInt (Z.of_nat (length vs))) (Z.of_nat (length vs) + 1)))
      (arrayProps vs) = Some ps1
    /\ props_assign (pretty (Z.of_nat (length vs))) v ps1 = Some (arrayProps (vs ++ [v])).
Proof.
  eexists. split.
  - unfold props_assign. rewrite arrayProps_length. cbn [p_writable].
    unfold arrayProps. cbn [props_update]. rewrite bool_decide_eq_true_2 by done.
    reflexivity.
  - unfold props_assign. cbn [props_lookup].
    rewrite bool_decide_eq_false_2.
    2:{ intros Heq. by apply (pretty_not_length_nat (length vs)). }
    rewrite elementProps_lookup_other.
    2:{ intros j Hj Heq%pretty_nat_inj. lia. }
    unfold arrayProps. rewrite elementProps_app, length_app. cbn [length elementProps Math_max].
    cbn [app p_writable p_enumerable p_configurable Nat.add].
    replace (Z.of_nat (length vs) `max` (Z.of_nat (length vs) + 1))
      with (Z.of_nat (length vs + 1)) by lia.
    reflexivity.
Qed.

Lemma objectProps_app kvs kvs' :
  objectProps (kvs ++ kvs') = objectProps kvs ++ objectProps kvs'.
Proof. unfold objectProps. by rewrite map_app. Qed.

Lemma objectProps_lookup_None kvs name :
  ~ In name (map fst kvs) -> props_lookup name (objectProps kvs) = None.
Proof.
  induction kvs as [|[k v] kvs IH]; intros Hname; [done|].
  cbn [objectProps map props_lookup fst snd] in *.
  rewrite bool_decide_eq_false_2 by (intros ->; apply Hname; by left).
  apply IH. intros Hin. apply Hname. by right.
Qed.

Lemma objectProps_lookup kvs k v :
  NoDup (map fst kvs) -> In (k, v) kvs ->
  props_lookup k (objectProps kvs) = Some (mkProperty v true true true).
Proof.
  induction kvs as [|[k' v'] kvs IH]; intros Hnd Hin; [done|].
  cbn [objectProps map props_lookup fst snd] in *.
  apply NoDup_cons in Hnd as [Hk' Hnd].
  destruct Hin as [[= -> ->]|Hin].
  - by rewrite bool_decide_eq_true_2.
  - rewrite bool_decide_eq_false_2; [by apply IH|].
    intros ->. apply Hk'. apply list_elem_of_In. by apply (in_map fst) in Hin.
Qed.

Lemma objectProps_keys kvs : enumerable_keys (objectProps kvs) = map fst kvs.
Proof.
  unfold enumerable_keys. induction kvs as [|[k v] kvs IH]; [done|].
  cbn [objectProps map fst snd]. rewrite filter_cons_True by done.
  cbn [map fst]. f_equal. apply IH.
Qed.

Lemma trimHoles_all_some (es : list Native) : trimHoles (map Some es) = map Some es.
Proof. induction es as [|e es IH]; [done|]. cbn [map trimHoles]. by rewrite IH. Qed.

Lemma indexOf_below l lo cycles :
  Forall (fun c => (c < lo)%nat) cycles -> (lo <= l)%nat -> indexOf l cycles = None.
Proof.
  intros Hc Hl. induction Hc as [|c cycles Hlt _ IH]; [done|].
  cbn [indexOf]. rewrite bool_decide_eq_false_2 by lia. by rewrite IH.
Qed.

Lemma readsBack_weaken b op ap lo hi h lo' hi' h' v n :
  readsBack b op ap lo hi h v n -> (lo' <= lo)%nat -> (hi <= hi')%nat ->
  (forall l, (lo <= l < hi)%nat -> h' !! l = h !! l) ->
  readsBack b op ap lo' hi' h' v n.
Proof.
  intros H Hlo Hhi Hh j fuel cycles Hr Hop Hap Hag Hlen Hcyc Hfuel.
  apply H; try done.
  - intros l Hl. rewrite Hag by lia. by apply Hh.
  - lia.
  - eapply Forall_impl; [exact Hcyc|]. cbn. intros c Hc. lia.
  - lia.
Qed.

(** **** Reading an array or an object of the bridge back *)

Lemma lookup_all_seq (pre es : list Native) :
  map (fun k => (pre ++ es) !! k) (seq (length pre) (length es)) = map Some es.
Proof.
  revert pre. induction es as [|e es IH]; intros pre; [done|].
  cbn [length seq map]. rewrite list_lookup_middle by done. f_equal.
  specialize (IH (pre ++ [e])). rewrite <- app_assoc in IH. cbn [app] in IH.
  rewrite length_app in IH. cbn [length] in IH.
  by replace (length pre + 1)%nat with (S (length pre)) in IH by lia.
Qed.

Lemma slotsToNative_fresh b (j : Interpreter) l o q vs es rec cycles :
  bridgeReady b j = true ->
  Interp.heap j !! l = Some o -> (b <= l)%nat ->
  plainObject q "Array" (arrayProps vs) o ->
  Some q = Interp.OBJECT_PROTO j \/ Some q = Interp.ARRAY_PROTO j ->
  Forall2 (fun v e => rec v cycles j = Return e j) vs es ->
  forall ks,
    Forall (fun k => (k < length vs)%nat) ks ->
    slotsToNative rec (VObject l) cycles ks j = Return (map (fun k => es !! k) ks) j.
Proof.
  intros Hr Ho Hbl (Hq & Hc & Hps & Hpe & Hg & Hs) Hqq Hall ks Hks.
  induction Hks as [|k ks Hk _ IH]; [done|].
  cbn [slotsToNative map].
  destruct (lookup_lt_is_Some_2 vs k Hk) as [v Hv].
  destruct (Forall2_lookup_l _ _ _ _ _ Hall Hv) as (e & He & Hrec).
  assert (Hlook : props_lookup (pretty (Z.of_nat k)) (Obj.properties o)
                  = Some (mkProperty v true true true)).
  { rewrite Hps. by apply arrayProps_lookup. }
  assert (Hhas : hasProperty (VObject l) (pretty (Z.of_nat k)) j = Return true j).
  { apply (hasProperty_fresh b j l o q); try done. unfold props_has. by rewrite Hlook. }
  assert (Hget : getProperty (VObject l) (pretty (Z.of_nat k)) j = Return v j).
  { rewrite (getProperty_fresh b j l o q); try done.
    - unfold props_get. by rewrite Hlook.
    - unfold props_has. by rewrite Hlook. }
  rewrite (bind_Return _ _ j _ j Hhas).
  assert (Hslot : (v <- getProperty (VObject l) (pretty (Z.of_nat k)) ;;
                   e <- rec v cycles ;; ret (Some e)) j = Return (Some e) j).
  { rewrite (bind_Return _ _ j _ j Hget). by rewrite (bind_Return _ _ j _ j Hrec). }
  rewrite (bind_Return _ _ j _ j Hslot).
  rewrite (bind_Return _ _ j _ j IH). by rewrite He.
Qed.

Lemma pseudoToNative_fresh_array b (j : Interpreter) l o ap vs es fuel cycles :
  bridgeReady b j = true ->
  Interp.heap j !! l = Some o -> (b <= l)%nat ->
  plainObject ap "Array" (arrayProps vs) o ->
  Interp.ARRAY_PROTO j = Some ap ->
  indexOf l cycles = None ->
  Forall2 (fun v e => pseudoToNative_ fuel v (cycles ++ [l]) j = Return e j) vs es ->
  pseudoToNative_ (S fuel) (VObject l) cycles j = Return (NativeArray (map Some es)) j.
Proof.
  intros Hr Ho Hbl Hplain Hap Hidx Hall.
  pose proof Hplain as (Hq & Hc & Hps & Hpe & Hg & Hs).
  assert (Hqq : Some ap = Interp.OBJECT_PROTO j \/ Some ap = Interp.ARRAY_PROTO j).
  { by right. }
  rewrite pseudoToNative__object.
  rewrite (bind_Return (gets id) _ j _ j eq_refl). cbn beta. unfold id.
  rewrite (bind_Return _ _ j _ j (isa_fresh_other b j l o ap (Interp.REGEXP j) Hr Ho Hbl Hq Hqq
             ltac:(do 2 apply list_elem_of_further; apply list_elem_of_here))).
  rewrite (bind_Return _ _ j _ j (isa_fresh_other b j l o ap (Interp.DATE j) Hr Ho Hbl Hq Hqq
             ltac:(do 3 apply list_elem_of_further; apply list_elem_of_here))).
  rewrite Hidx.
  rewrite (bind_Return _ _ j _ j (isa_fresh_array b j l o ap Hr Ho Hbl Hq Hqq)).
  rewrite bool_decide_eq_true_2 by done.
  assert (Hlen : getProperty (VObject l) "length" j
                 = Return (VNumber (NInt (Z.of_nat (length vs)))) j).
  { rewrite (getProperty_fresh b j l o ap); try done.
    - unfold props_get. by rewrite Hps, arrayProps_length.
    - unfold props_has. by rewrite Hps, arrayProps_length. }
  rewrite (bind_Return _ _ j _ j Hlen). cbn [loop_bound]. rewrite Nat2Z.id.
  assert (Hslots : slotsToNative (pseudoToNative_ fuel) (VObject l) (cycles ++ [l])
                     (seq 0 (length vs)) j = Return (map Some es) j).
  { rewrite (slotsToNative_fresh b j l o ap vs es); try done.
    - rewrite (Forall2_length _ _ _ Hall). by rewrite <- (lookup_all_seq [] es).
    - apply Forall_forall. intros k Hk%list_elem_of_In%in_seq. lia. }
  rewrite (bind_Return _ _ j _ j Hslots). by rewrite trimHoles_all_some.
Qed.

Lemma entriesToNative_fresh (j : Interpreter) o rec cycles kvs es :
  (forall kv, In kv kvs -> props_get (fst kv) (Obj.properties o) = snd kv) ->
  Forall2 (fun kv e => fst kv = fst e /\ rec (snd kv) cycles j = Return (snd e) j) kvs es ->
  entriesToNative rec o cycles (map fst kvs) j = Return es j.
Proof.
  intros Hget Hall. induction Hall as [|[k v] [k' e] kvs es [Hk Hrec] _ IH]; [done|].
  cbn [fst snd] in *. subst k'. cbn [map entriesToNative fst].
  pose proof (Hget (k, v) (or_introl eq_refl)) as Hkv. cbn [fst snd] in Hkv.
  rewrite Hkv.
  rewrite (bind_Return _ _ j _ j Hrec).
  rewrite (bind_Return _ _ j _ j (IH (fun kv Hin => Hget kv (or_intror Hin)))).
  done.
Qed.

Lemma pseudoToNative_fresh_object b (j : Interpreter) l o op kvs es fuel cycles :
  bridgeReady b j = true ->
  Interp.heap j !! l = Some o -> (b <= l)%nat ->
  plainObject op "Object" (objectProps kvs) o ->
  Interp.OBJECT_PROTO j = Some op ->
  indexOf l cycles = None ->
  NoDup (map fst kvs) -> hostOrder (map fst kvs) = map fst kvs ->
  Forall2 (fun kv e => fst kv = fst e
                       /\ pseudoToNative_ fuel (snd kv) (cycles ++ [l]) j = Return (snd e) j)
          kvs es ->
  pseudoToNative_ (S fuel) (VObject l) cycles j = Return (NativeObject es) j.
Proof.
  intros Hr Ho Hbl Hplain Hop Hidx Hnd Hord Hall.
  pose proof Hplain as (Hq & Hc & Hps & Hpe & Hg & Hs).
  assert (Hqq : Some op = Interp.OBJECT_PROTO j \/ Some op = Interp.ARRAY_PROTO j).
  { by left. }
  rewrite pseudoToNative__object.
  rewrite (bind_Return (gets id) _ j _ j eq_refl). cbn beta. unfold id.
  rewrite (bind_Return _ _ j _ j (isa_fresh_other b j l o op (Interp.REGEXP j) Hr Ho Hbl Hq Hqq
             ltac:(do 2 apply list_elem_of_further; apply list_elem_of_here))).
  rewrite (bind_Return _ _ j _ j (isa_fresh_other b j l o op (Interp.DATE j) Hr Ho Hbl Hq Hqq
             ltac:(do 3 apply list_elem_of_further; apply list_elem_of_here))).
  rewrite Hidx.
  rewrite (bind_Return _ _ j _ j (isa_fresh_array b j l o op Hr Ho Hbl Hq Hqq)).
  destruct (bridgeReady_facts b j Hr)
    as (_ & _ & _ & _ & op' & ap & _ & _ & Hop' & Hap & Hne & _).
  rewrite bool_decide_eq_false_2.
  2:{ rewrite Hap. intros [= ->]. rewrite Hop in Hop'. by injection Hop'. }
  rewrite (bind_Return _ _ j _ j (lookupObj_at j l o Ho)).
  unfold props_forin. rewrite Hps, objectProps_keys, Hord.
  assert (Hget : forall kv, In kv kvs -> props_get (fst kv) (Obj.properties o) = snd kv).
  { intros [k v] Hin. cbn [fst snd]. unfold props_get.
    by rewrite Hps, (objectProps_lookup kvs k v Hnd Hin). }
  by rewrite (bind_Return _ _ j _ j (entriesToNative_fresh j o _ _ kvs es Hget Hall)).
Qed.

(** **** Building an array or an object in the guest heap *)

Lemma extends_protos k (i i' : Interpreter) :
  extends k i i' ->
  Interp.OBJECT_PROTO i' = Interp.OBJECT_PROTO i
  /\ Interp.ARRAY_PROTO i' = Interp.ARRAY_PROTO i.
Proof. intros (H & _). rewrite H. by destruct i. Qed.

Lemma slotsToPseudo_spec b l opo ap es :
  Forall roundTrips es ->
  forall (j : Interpreter) vs done o,
    bridgeReady b j = true -> (b <= l)%nat ->
    Interp.OBJECT_PROTO j = opo -> Interp.ARRAY_PROTO j = Some ap ->
    Interp.heap j !! l = Some o ->
    plainObject ap "Array" (arrayProps vs) o ->
    Z.of_nat (length vs + length es) < 2 ^ 32 - 1 ->
    Forall2 (readsBack b opo (Some ap) (S l) (length (Interp.heap j)) (Interp.heap j))
      vs done ->
    exists j' vs' o',
      slotsToPseudo nativeToPseudo l (map Some es) (Z.of_nat (length vs)) j = Return tt j'
      /\ extends l j j'
      /\ Interp.heap j' !! l = Some o'
      /\ plainObject ap "Array" (arrayProps (vs ++ vs')) o'
      /\ Forall2 (readsBack b opo (Some ap) (S l) (length (Interp.heap j')) (Interp.heap j'))
           (vs ++ vs') (done ++ es).
Proof.
  intros Hes. induction Hes as [|e es He _ IH];
    intros j vs done o Hr Hbl Hop Hap Ho Hplain Hlen Hdone.
  - exists j, [], o. cbn [map slotsToPseudo]. rewrite !app_nil_r.
    split; [done|]. split; [apply extends_refl|]. done.
  - cbn [map slotsToPseudo].
    destruct (He b j Hr) as (v & j1 & Hv & Hext1 & Hback).
    rewrite Hop, Hap in Hback.
    rewrite (bind_Return _ _ j _ j1 Hv).
    pose proof Hext1 as (Hj1 & Hlen1 & Hag1).
    destruct (extends_protos _ j j1 Hext1) as [Hop1 Hap1].
    assert (Hl : (l < length (Interp.heap j))%nat) by (by apply lookup_lt_Some in Ho).
    destruct (bridgeReady_facts b j Hr) as (_ & _ & _ & Hb & _).
    assert (Hr1 : bridgeReady b j1 = true)
      by apply (bridgeReady_extends b _ j j1 Hr Hext1 Hb).
    assert (Ho1 : Interp.heap j1 !! l = Some o) by (by rewrite Hag1).
    destruct (arrayProps_push vs v) as (ps1 & Hps1 & Hps2).
    set (j2 := updated l (Obj.set_properties (arrayProps (vs ++ [v]))) j1).
    assert (Hset : setProperty (VObject l) (pretty (Z.of_nat (length vs))) (Given v) None j1
                   = Return VUndefined j2).
    { apply (setProperty_fresh_array b j1 l o ap (arrayProps vs) ps1 _ _
               (NInt (Z.of_nat (length vs)))); try done.
      - right. by rewrite Hap1, Hap.
      - cbn [length] in Hlen. lia. }
    rewrite (bind_Return _ _ j1 _ j2 Hset).
    assert (Hext2 : extends l j1 j2) by apply extends_updated.
    destruct (extends_protos _ j1 j2 Hext2) as [Hop2 Hap2].
    replace (Z.of_nat (length vs) + 1) with (Z.of_nat (length (vs ++ [v])))
      by (rewrite length_app; cbn [length]; lia).
    assert (Hlen2 : length (Interp.heap j2) = length (Interp.heap j1))
      by apply updated_length.
    destruct (IH j2 (vs ++ [v]) (done ++ [e])
                (Obj.set_properties (arrayProps (vs ++ [v])) o))
      as (j' & vs' & o' & Hloop & Hext & Ho' & Hplain' & Hall').
    + apply (bridgeReady_extends b l j1 j2 Hr1 Hext2 Hbl).
    + done.
    + by rewrite Hop2, Hop1.
    + by rewrite Hap2, Hap1.
    + by apply updated_lookup.
    + by apply (plainObject_set_properties ap "Array" (arrayProps vs)).
    + rewrite length_app. cbn [length] in *. lia.
    + apply Forall2_app.
      * eapply Forall2_impl; [exact Hdone|]. intros v0 e0 H0.
        apply (readsBack_weaken _ _ _ _ _ _ _ _ _ _ _ H0); [lia|lia|].
        intros x Hx. unfold j2. rewrite updated_lookup_ne by lia. apply Hag1. lia.
      * constructor; [|constructor].
        apply (readsBack_weaken _ _ _ _ _ _ _ _ _ _ _ Hback); [lia|lia|].
        intros x Hx. unfold j2. by rewrite updated_lookup_ne by lia.
    + exists j', (v :: vs'), o'. split; [done|]. split.
      { apply (extends_trans l l j j1 j'); [|by apply (extends_trans l l j1 j2 j')|done].
        apply (extends_weaken _ _ _ _ Hext1). lia. }
      split; [exact Ho'|]. rewrite <- !app_assoc in Hplain'.
      rewrite <- !app_assoc in Hall'.
      cbn [app] in Hplain', Hall'. split; [exact Hplain'|exact Hall'].
Qed.

Lemma Forall2_fst_eq {A B} (P : A -> B -> Prop) (kvs : list (string * A))
    (es : list (string * B)) :
  Forall2 (fun kv e => fst kv = fst e /\ P (snd kv) (snd e)) kvs es ->
  map fst kvs = map fst es.
Proof. induction 1 as [|kv e kvs es [Hk _] _ IH]; [done|]. cbn [map]. by rewrite Hk, IH. Qed.

Lemma entriesToPseudo_spec b l op apo entries :
  Forall (fun kv => roundTrips (snd kv)) entries ->
  forall (j : Interpreter) kvs done o,
    bridgeReady b j = true -> (b <= l)%nat ->
    Interp.OBJECT_PROTO j = Some op -> Interp.ARRAY_PROTO j = apo ->
    Interp.heap j !! l = Some o ->
    plainObject op "Object" (objectProps kvs) o ->
    NoDup (map fst kvs ++ map fst entries) ->
    Forall2 (fun kv e => fst kv = fst e
                         /\ readsBack b (Some op) apo (S l) (length (Interp.heap j))
                              (Interp.heap j) (snd kv) (snd e)) kvs done ->
    exists j' kvs' o',
      entriesToPseudo nativeToPseudo l entries j = Return tt j'
      /\ extends l j j'
      /\ Interp.heap j' !! l = Some o'
      /\ plainObject op "Object" (objectProps (kvs ++ kvs')) o'
      /\ Forall2 (fun kv e => fst kv = fst e
                              /\ readsBack b (Some op) apo (S l) (length (Interp.heap j'))
                                   (Interp.heap j') (snd kv) (snd e))
           (kvs ++ kvs') (done ++ entries).
Proof.
  intros Hes. induction Hes as [|[key e] entries He _ IH];
    intros j kvs done o Hr Hbl Hop Hap Ho Hplain Hnd Hdone.
  - exists j, [], o. cbn [entriesToPseudo]. rewrite !app_nil_r.
    split; [done|]. split; [apply extends_refl|]. done.
  - cbn [entriesToPseudo]. cbn [snd] in He.
    destruct (He b j Hr) as (v & j1 & Hv & Hext1 & Hback).
    rewrite Hop, Hap in Hback.
    rewrite (bind_Return _ _ j _ j1 Hv).
    pose proof Hext1 as (Hj1 & Hlen1 & Hag1).
    destruct (extends_protos _ j j1 Hext1) as [Hop1 Hap1].
    assert (Hl : (l < length (Interp.heap j))%nat) by (by apply lookup_lt_Some in Ho).
    destruct (bridgeReady_facts b j Hr) as (_ & _ & _ & Hb & _).
    assert (Hr1 : bridgeReady b j1 = true)
      by apply (bridgeReady_extends b _ j j1 Hr Hext1 Hb).
    assert (Ho1 : Interp.heap j1 !! l = Some o) by (by rewrite Hag1).
    cbn [map fst] in Hnd.
    assert (Hnew : ~ In key (map fst kvs)).
    { apply NoDup_app in Hnd as (_ & Hdisj & _). intros Hin%list_elem_of_In.
      apply (Hdisj key Hin). apply list_elem_of_here. }
    set (j2 := updated l (Obj.set_properties (objectProps (kvs ++ [(key, v)]))) j1).
    assert (Hset : setProperty (VObject l) key (Given v) None j1 = Return VUndefined j2).
    { apply (setProperty_fresh_object b j1 l o op "Object" (objectProps kvs)); try done.
      - left. by rewrite Hop1, Hop.
      - unfold props_assign. rewrite (objectProps_lookup_None kvs key Hnew).
        by rewrite objectProps_app. }
    rewrite (bind_Return _ _ j1 _ j2 Hset).
    assert (Hext2 : extends l j1 j2) by apply extends_updated.
    destruct (extends_protos _ j1 j2 Hext2) as [Hop2 Hap2].
    assert (Hlen2 : length (Interp.heap j2) = length (Interp.heap j1))
      by apply updated_length.
    destruct (IH j2 (kvs ++ [(key, v)]) (done ++ [(key, e)])
                (Obj.set_properties (objectProps (kvs ++ [(key, v)])) o))
      as (j' & kvs' & o' & Hloop & Hext & Ho' & Hplain' & Hall').
    + apply (bridgeReady_extends b l j1 j2 Hr1 Hext2 Hbl).
    + done.
    + by rewrite Hop2, Hop1.
    + by rewrite Hap2, Hap1.
    + by apply updated_lookup.
    + by apply (plainObject_set_properties op "Object" (objectProps kvs)).
    + rewrite map_app. cbn [map fst]. by rewrite <- app_assoc.
    + apply Forall2_app.
      * eapply Forall2_impl; [exact Hdone|]. intros kv0 e0 [Hk0 H0]. split; [done|].
        apply (readsBack_weaken _ _ _ _ _ _ _ _ _ _ _ H0); [lia|lia|].
        intros x Hx. unfold j2. rewrite updated_lookup_ne by lia. apply Hag1. lia.
      * constructor; [|constructor]. split; [done|]. cbn [snd].
        apply (readsBack_weaken _ _ _ _ _ _ _ _ _ _ _ Hback); [lia|lia|].
        intros x Hx. unfold j2. by rewrite updated_lookup_ne by lia.
    + exists j', ((key, v) :: kvs'), o'. split; [done|]. split.
      { apply (extends_trans l l j j1 j'); [|by apply (extends_trans l l j1 j2 j')|done].
        apply (extends_weaken _ _ _ _ Hext1). lia. }
      split; [exact Ho'|]. rewrite <- !app_assoc in Hplain'.
      rewrite <- !app_assoc in Hall'.
      cbn [app] in Hplain', Hall'. split; [exact Hplain'|exact Hall'].
Qed.

(** **** Every JSON value makes the round trip *)

Lemma roundTrips_primitive n v :
  nativeToPseudo n = ret v ->
  (forall fuel cycles, pseudoToNative_ (S fuel) v cycles = ret n) ->
  roundTrips n.
Proof.
  intros Hn Hp b i Hr. exists v, i. rewrite Hn. split; [done|].
  split; [apply extends_refl|].
  intros j fuel cycles _ _ _ _ _ _ Hfuel. destruct fuel as [|fuel]; [lia|].
  by rewrite Hp.
Qed.

Lemma json_slots slots :
  forallb (fun s => match s with Some e => json e | None => false end) slots = true ->
  Forall (fun s => match s with
                   | Some e => json e = true -> roundTrips e
                   | None => True
                   end) slots ->
  exists es, slots = map Some es /\ Forall roundTrips es.
Proof.
  intros Hj Hall. induction Hall as [|[e|] slots He _ IH].
  - by exists [].
  - cbn [forallb] in Hj. apply andb_prop in Hj as [Hje Hj].
    destruct (IH Hj) as (es & -> & Hes). exists (e :: es). split; [done|].
    constructor; [by apply He|done].
  - done.
Qed.

Lemma json_entries (entries : list (string * Native)) :
  forallb (fun kv => json (snd kv)) entries = true ->
  Forall (fun kv => json (snd kv) = true -> roundTrips (snd kv)) entries ->
  Forall (fun kv => roundTrips (snd kv)) entries.
Proof.
  intros Hj Hall. induction Hall as [|kv entries He _ IH]; [done|].
  cbn [forallb] in Hj. apply andb_prop in Hj as [Hje Hj].
  constructor; [by apply He|by apply IH].
Qed.

Lemma json_roundTrips n : json n = true -> roundTrips n.
Proof.
  induction n as [| |x|x|x|slots IH|entries IH| | | | |] using Native_induction;
    intros Hj; try discriminate Hj.
  - by apply (roundTrips_primitive _ VNull).
  - by apply (roundTrips_primitive _ (VBool x)).
  - by apply (roundTrips_primitive _ (VNumber x)).
  - by apply (roundTrips_primitive _ (VString x)).
  - cbn [json] in Hj. apply andb_prop in Hj as [Hlen Hall]. apply Z.ltb_lt in Hlen.
    destruct (json_slots slots Hall IH) as (es & -> & Hes). rewrite length_map in Hlen.
    intros b i Hr.
    destruct (bridgeReady_facts b i Hr)
      as (_ & _ & _ & Hb & op & ap & _ & _ & Hop & Hap & _).
    destruct (createArray_fresh b i ap Hr Hap) as (o & Hcreate & Hplain).
    rewrite nativeToPseudo_array, (bind_Return _ _ i _ _ Hcreate).
    set (l := length (Interp.heap i)) in *. set (i0 := grown o i) in *.
    assert (Hext0 : extends l i i0) by apply extends_grown.
    destruct (extends_protos _ i i0 Hext0) as [Hop0 Hap0].
    destruct (slotsToPseudo_spec b l (Interp.OBJECT_PROTO i) ap es Hes i0 [] [] o)
      as (j' & vs' & o' & Hloop & Hext & Ho' & Hplain' & Hall').
    + apply (bridgeReady_extends b l i i0 Hr Hext0 Hb).
    + done.
    + done.
    + by rewrite Hap0.
    + apply grown_lookup.
    + exact Hplain.
    + done.
    + constructor.
    + cbn [app length] in *.
      change (Z.of_nat 0) with 0 in Hloop.
      rewrite (bind_Return _ _ i0 _ j' Hloop).
      exists (VObject l), j'. split; [done|]. split.
      { by apply (extends_trans l l i i0 j'). }
      assert (Hl : (l < length (Interp.heap j'))%nat) by (by apply lookup_lt_Some in Ho').
      intros j fuel cycles Hrj Hopj Hapj Hag Hlenj Hcyc Hfuel.
      destruct fuel as [|fuel]; [lia|].
      apply (pseudoToNative_fresh_array b j l o' ap vs' es); try done.
      * rewrite Hag by lia. done.
      * by rewrite Hapj.
      * by apply (indexOf_below l l).
      * eapply Forall2_impl; [exact Hall'|].
        intros v e Hve. apply Hve; try done.
        -- by rewrite Hapj.
        -- intros x Hx. apply Hag. lia.
        -- apply Forall_app. split.
           ++ eapply Forall_impl; [exact Hcyc|]. cbn. intros c Hc. lia.
           ++ constructor; [lia|constructor].
        -- lia.
  - cbn [json] in Hj. apply andb_prop in Hj as [[Hnd Hord]%andb_prop Hall].
    apply bool_decide_eq_true_1 in Hnd, Hord.
    pose proof (json_entries entries Hall IH) as Hes.
    intros b i Hr.
    destruct (bridgeReady_facts b i Hr)
      as (_ & _ & _ & Hb & op & ap & _ & _ & Hop & Hap & _).
    rewrite nativeToPseudo_object.
    rewrite (bind_Return (gets id) _ i _ i eq_refl). cbn beta. unfold id.
    rewrite Hop. cbn [fieldValue].
    rewrite (bind_Return _ _ i _ _ (createObjectProto_fresh b i op Hr
               (or_introl (eq_sym Hop)))).
    set (l := length (Interp.heap i)) in *.
    set (i0 := grown (Obj.new (Some op)) i) in *.
    assert (Hext0 : extends l i i0) by apply extends_grown.
    destruct (extends_protos _ i i0 Hext0) as [Hop0 Hap0].
    destruct (entriesToPseudo_spec b l op (Interp.ARRAY_PROTO i) entries Hes i0 [] []
                (Obj.new (Some op)))
      as (j' & kvs' & o' & Hloop & Hext & Ho' & Hplain' & Hall').
    + apply (bridgeReady_extends b l i i0 Hr Hext0 Hb).
    + done.
    + by rewrite Hop0.
    + done.
    + apply grown_lookup.
    + apply plainObject_new.
    + done.
    + constructor.
    + cbn [app] in *.
      rewrite (bind_Return _ _ i0 _ j' Hloop).
      exists (VObject l), j'. split; [done|]. split.
      { by apply (extends_trans l l i i0 j'). }
      assert (Hl : (l < length (Interp.heap j'))%nat) by (by apply lookup_lt_Some in Ho').
      pose proof (Forall2_fst_eq _ _ _ Hall') as Hkeys.
      intros j fuel cycles Hrj Hopj Hapj Hag Hlenj Hcyc Hfuel.
      destruct fuel as [|fuel]; [lia|].
      apply (pseudoToNative_fresh_object b j l o' op kvs' entries); try done.
      * rewrite Hag by lia. done.
      * by apply (indexOf_below l l).
      * by rewrite Hkeys.
      * by rewrite Hkeys.
      * eapply Forall2_impl; [exact Hall'|].
        intros kv e [Hk Hve]. split; [done|]. apply Hve; try done.
        -- intros x Hx. apply Hag. lia.
        -- apply Forall_app. split.
           ++ eapply Forall_impl; [exact Hcyc|]. cbn. intros c Hc. lia.
           ++ constructor; [lia|constructor].
        -- lia.
Qed.

(** ** The root frame stays on the state stack *)

Lemma deep_le k k' (i : Interpreter) : deep k i -> (k' <= k)%nat -> deep k' i.
Proof. intros (s & Hs & Hr & Hk) Hle. exists s. split; [done|]. split; [done|lia]. Qed.

Lemma deep_rooted (i : Interpreter) : deep 0 i <-> rooted i = true.
Proof.
  unfold rooted, deep. split.
  - intros (s & -> & Hr & _). done.
  - destruct (Interp.stateStack i) as [s|]; [|done]. intros Hr. exists s.
    split; [done|]. split; [done|]. destruct s as [|x s]; [by cbn in Hr|cbn; lia].
Qed.

Lemma deep_same k (i i' : Interpreter) :
  Interp.stateStack i' = Interp.stateStack i -> deep k i -> deep k i'.
Proof. intros Heq (s & Hs & Hr). exists s. by rewrite Heq. Qed.

Lemma rootedStack_cons s stack :
  rootedStack stack = true -> rootedStack (s :: stack) = true.
Proof. unfold rootedStack. destruct stack as [|s' stack]; [done|]. by rewrite last_cons_cons. Qed.

Lemma rootedStack_tail s stack :
  rootedStack (s :: stack) = true -> isProgram s = false -> rootedStack stack = true.
Proof.
  unfold rootedStack. destruct stack as [|s' stack].
  - cbn. congruence.
  - by rewrite last_cons_cons.
Qed.

Lemma rootedStack_head s s' stack :
  rootedStack (s :: stack) = true -> (isProgram s = true -> isProgram s' = true) ->
  rootedStack (s' :: stack) = true.
Proof.
  unfold rootedStack. destruct stack as [|s2 stack].
  - cbn. auto.
  - by rewrite !last_cons_cons.
Qed.

Lemma steady_ret {A} (a : A) : steady (ret a).
Proof. intros i. cbn. auto. Qed.

Lemma steady_gets {A} (f : Interpreter -> A) : steady (gets f).
Proof. intros i. cbn. auto. Qed.

Lemma steady_throwHost {A} e : steady (@throwHost Host A e).
Proof. intros i. cbn. auto. Qed.

Lemma steady_throwSTEP_ERROR {A} : steady (@throwSTEP_ERROR Host A).
Proof. intros i. cbn. auto. Qed.

Lemma steady_diverge {A} : steady (@diverge Host A).
Proof. intros i. cbn. auto. Qed.

Lemma steady_unmodelled {A} : steady (@unmodelled Host A).
Proof. intros i. cbn. auto. Qed.

Lemma steady_modify (f : Interpreter -> Interpreter) :
  (forall i, Interp.stateStack (f i) = Interp.stateStack i) -> steady (modify f).
Proof. intros H i k. apply deep_same, H. Qed.

Lemma steady_bind {A B} (m : Eng A) (k : A -> Eng B) :
  steady m -> (forall a, steady (k a)) -> steady (bind m k).
Proof.
  intros Hm Hk i. unfold bind. specialize (Hm i).
  destruct (m i) as [a i'|i'|e i'| |]; try done.
  specialize (Hk a i'). destruct (k a i'); try done.
  - intros n Hn. by apply Hk, Hm.
  - intros Hn. by apply Hk, Hm.
  - intros Hn. by apply Hk, Hm.
Qed.

Lemma steady_liftConv {A} (c : Conv A) : steady (@liftConv Host A c).
Proof. destruct c; intros i; cbn; auto. Qed.

Lemma steady_lookupObj l : steady (@lookupObj Host l).
Proof. intros i. unfold lookupObj. destruct (_ !! _); cbn; auto. Qed.

Lemma steady_updateObj l f : steady (@updateObj Host l f).
Proof. intros i k. by apply deep_same. Qed.

Lemma steady_allocObj o : steady (@allocObj Host o).
Proof. intros i k. by apply deep_same. Qed.

Lemma steady_push s : steady (push s).
Proof.
  intros i k (stack & Hs & Hr & Hk). exists (s :: stack).
  split; [cbn; by rewrite Hs|]. split; [by apply rootedStack_cons|cbn; lia].
Qed.

Lemma steady_updateTop f :
  (forall s, isProgram s = true -> isProgram (f s) = true) -> steady (updateTop f).
Proof.
  intros Hf i. unfold updateTop, bind, gets.
  destruct (Interp.stateStack i) as [[|top rest]|] eqn:Hs; [cbn; auto| |cbn; auto].
  intros k (stack & Hs' & Hr & Hk). rewrite Hs in Hs'. injection Hs' as <-.
  exists (f top :: rest). split; [done|].
  split; [by apply (rootedStack_head top); auto|done].
Qed.

Lemma steady_updateTop_node f :
  (forall s, State.node (f s) = State.node s) -> steady (updateTop f).
Proof. intros Hf. apply steady_updateTop. intros s. unfold isProgram. by rewrite Hf. Qed.

Lemma steady_topState : steady topState.
Proof.
  intros i. unfold topState, bind, gets.
  destruct (Interp.stateStack i) as [[|top rest]|]; cbn; auto.
Qed.

Create HintDb steady.

#[local] Hint Resolve steady_ret steady_gets steady_throwHost steady_throwSTEP_ERROR
  steady_diverge steady_unmodelled steady_liftConv steady_lookupObj steady_updateObj
  steady_allocObj steady_push steady_topState : steady.

(** Splits a goal [steady m] along the binds and the case analyses of [m]. *)
Ltac steady :=
  repeat first
    [ progress auto with steady
    | apply steady_updateTop_node; intros; reflexivity
    | apply steady_updateTop; intros; reflexivity
    | match goal with
      | |- steady (bind _ _) => apply steady_bind; [|intros]
      end
    | apply steady_modify; intros; reflexivity
    | match goal with
      | |- steady (match ?x with _ => _ end) => destruct x
      | |- steady (let '(_, _) := ?x in _) => destruct x
      end ].

Lemma steady_constructorPrototype c : steady (constructorPrototype c).
Proof. unfold constructorPrototype. steady. Qed.
#[local] Hint Resolve steady_constructorPrototype : steady.

Lemma steady_protoField v : steady (protoField v).
Proof. unfold protoField. steady. Qed.
#[local] Hint Resolve steady_protoField : steady.

Lemma steady_getPrototype v : steady (getPrototype v).
Proof. unfold getPrototype. steady. Qed.
#[local] Hint Resolve steady_getPrototype : steady.

Lemma steady_isa_loop fuel child proto : steady (isa_loop fuel child proto).
Proof. revert child. induction fuel; intros; cbn [isa_loop]; steady. Qed.
#[local] Hint Resolve steady_isa_loop : steady.

Lemma steady_isa child c : steady (isa child c).
Proof. unfold isa. steady. Qed.
#[local] Hint Resolve steady_isa : steady.

Lemma steady_String_ v : steady (String_ v).
Proof. unfold String_. steady. Qed.
#[local] Hint Resolve steady_String_ : steady.

Lemma steady_getProperty_loop fuel obj name : steady (getProperty_loop fuel obj name).
Proof. revert obj. induction fuel; intros; cbn [getProperty_loop]; steady. Qed.
#[local] Hint Resolve steady_getProperty_loop : steady.

Lemma steady_getProperty_ throwException obj name :
  (forall c m, steady (throwException c m)) ->
  steady (getProperty_ throwException obj name).
Proof. intros H. unfold getProperty_. steady. Qed.

Lemma steady_hasProperty_loop fuel obj name : steady (hasProperty_loop fuel obj name).
Proof. revert obj. induction fuel; intros; cbn [hasProperty_loop]; steady. Qed.
#[local] Hint Resolve steady_hasProperty_loop : steady.

Lemma steady_hasProperty obj name : steady (hasProperty obj name).
Proof. unfold hasProperty. steady. Qed.
#[local] Hint Resolve steady_hasProperty : steady.

Lemma steady_createObjectProto proto : steady (createObjectProto proto).
Proof. unfold createObjectProto. steady. Qed.
#[local] Hint Resolve steady_createObjectProto : steady.

Lemma steady_createObject c : steady (createObject c).
Proof. unfold createObject. steady. Qed.
#[local] Hint Resolve steady_createObject : steady.

Lemma steady_getScope : steady getScope.
Proof. unfold getScope. steady. Qed.
#[local] Hint Resolve steady_getScope : steady.

Lemma steady_findDefObj fuel obj defObj name : steady (findDefObj fuel obj defObj name).
Proof. revert defObj. induction fuel; intros; cbn [findDefObj]; steady. Qed.
#[local] Hint Resolve steady_findDefObj : steady.

Lemma steady_setProperty_ throwException obj name value d :
  (forall c m, steady (throwException c m)) ->
  steady (setProperty_ throwException obj name value d).
Proof.
  intros H. unfold setProperty_, setProperty_object, setProperty_array,
    setProperty_define, setProperty_assign. steady.
Qed.

Lemma steady_valueOf v : steady (valueOf v).
Proof. unfold valueOf. steady. Qed.
#[local] Hint Resolve steady_valueOf : steady.

(** [unwind] stops at the root frame at the latest. *)
Lemma unwind_loop_rooted type value label stack :
  rootedStack stack = true ->
  rootedStack (fst (unwind_loop type value label stack)) = true.
Proof.
  induction stack as [|state rest IH]; [done|]. intros Hr.
  cbn [unwind_loop].
  assert (Hafter : isProgram state = false ->
    rootedStack (fst (match type with
        | BREAK =>
            if labelTest label state (State.isLoop state || State.isSwitch state)
            then (rest, UnwindReturn)
            else unwind_loop type value label rest
        | CONTINUE =>
            if labelTest label state (State.isLoop state)
            then (state :: rest, UnwindReturn)
            else unwind_loop type value label rest
        | _ => unwind_loop type value label rest
        end)) = true).
  { intros Hp. pose proof (rootedStack_tail _ _ Hr Hp) as Hrest.
    destruct type; try by apply IH.
    - destruct (labelTest _ _ _); [done|by apply IH].
    - destruct (labelTest _ _ _); [done|by apply IH]. }
  unfold isProgram in Hafter.
  destruct (State.node state) eqn:Hn;
    try (apply Hafter; reflexivity);
    try (cbn [fst]; apply (rootedStack_head state); [done|];
         unfold isProgram; by rewrite Hn).
  - cbn [fst]. apply (rootedStack_head state); [done|]. unfold isProgram. cbn. by rewrite Hn.
  - destruct type; try (apply Hafter; reflexivity); try done.
    cbn [fst]. apply (rootedStack_head state); [done|]. unfold isProgram. cbn. by rewrite Hn.
  - destruct type; try (apply Hafter; reflexivity); try done.
    cbn [fst]. apply (rootedStack_head state); [done|]. unfold isProgram. cbn. by rewrite Hn.
  - destruct type; try (apply Hafter; reflexivity); try done.
    cbn [fst]. apply (rootedStack_head state); [done|]. unfold isProgram. cbn. by rewrite Hn.
Qed.

Lemma lands_steady {A} k (m : Eng A) : steady m -> lands k m.
Proof.
  intros Hm i Hi. specialize (Hm i). destruct (m i); try done.
  - apply Hm. apply (deep_le k); [done|lia].
  - apply Hm. apply (deep_le k); [done|lia].
  - apply Hm. apply (deep_le k); [done|lia].
Qed.

Lemma lands_bind {A B} k (m : Eng A) (f : A -> Eng B) :
  steady m -> (forall a, lands k (f a)) -> lands k (bind m f).
Proof.
  intros Hm Hf i Hi. unfold bind. specialize (Hm i).
  destruct (m i) as [a i'|i'|e i'| |]; try done.
  - apply Hf. by apply Hm.
  - apply Hm. apply (deep_le k); [done|lia].
  - apply Hm. apply (deep_le k); [done|lia].
Qed.

Lemma lands_bind_0 {A B} (m : Eng A) (f : A -> Eng B) :
  lands 0 m -> (forall a, lands 0 (f a)) -> lands 0 (bind m f).
Proof.
  intros Hm Hf i Hi. unfold bind. specialize (Hm i Hi).
  destruct (m i) as [a i'|i'| | |]; try done. by apply Hf.
Qed.

Lemma lands_pop {B} (f : unit -> Eng B) :
  (forall a, lands 0 (f a)) -> lands 1 (bind pop f).
Proof.
  intros Hf i (stack & Hs & Hr & Hk). unfold bind, pop, modify.
  apply Hf. destruct stack as [|top [|next rest]]; cbn in Hk; try lia.
  exists (next :: rest). split; [cbn; by rewrite Hs|].
  split; [|cbn; lia]. unfold rootedStack in *. by rewrite last_cons_cons in Hr.
Qed.

Lemma lands_unwind type value label : lands 0 (unwind type value label).
Proof.
  intros i (stack & Hs & Hr & Hk). unfold unwind.
  destruct (bool_decide (type = NORMAL)); [by exists stack|].
  unfold bind at 1, gets at 1. rewrite Hs.
  pose proof (unwind_loop_rooted type value label stack Hr) as Hr'.
  destruct (unwind_loop type value label stack) as [stack' exit]. cbn [fst] in Hr'.
  unfold bind at 1, modify at 1.
  set (i1 := Interp.set_stateStack (Some stack') i).
  assert (Hi1 : deep 0 i1).
  { apply deep_rooted. unfold rooted, i1. by destruct i. }
  assert (Hrest : steady
    (match exit with
     | UnwindReturn => ret tt
     | UnwindError e => throwHost e
     | UnwindUnhandled =>
         i <- gets id ;;
         isError <- isa value (Interp.ERROR i) ;;
         if isError : bool then
           nameValue <- getProperty_ (fun _ _ => unmodelled) value "name" ;;
           name <- String_ nameValue ;;
           messageValue <- getProperty_ (fun _ _ => unmodelled) value "message" ;;
           message <- valueOf messageValue ;;
           text <- String_ message ;;
           if bool_decide (name ∈ inheritedNames) then unmodelled
           else throwHost (HostErrorObject (errorConstructorName name) text)
         else
           s <- String_ value ;;
           throwHost (HostString s)
     end : Eng unit)).
  { steady; apply steady_getProperty_; intros; apply steady_unmodelled. }
  apply (lands_steady 0 _ Hrest i1 Hi1).
Qed.

Lemma steady_throwException c m : steady (throwException c m).
Proof.
  assert (Hl : lands 0 (throwException c m)).
  { unfold throwException. apply lands_bind.
    - steady; apply steady_setProperty_; intros; apply steady_unmodelled.
    - intros error. apply lands_bind_0; [apply lands_unwind|].
      intros _. apply lands_steady. steady. }
  intros i. pose proof (throwException_throws c m i) as Hn. specialize (Hl i).
  destruct (throwException c m i); try done.
Qed.
#[local] Hint Resolve steady_throwException : steady.

Lemma steady_getProperty obj name : steady (getProperty obj name).
Proof. apply steady_getProperty_. auto with steady. Qed.

Lemma steady_setProperty obj name value d : steady (setProperty obj name value d).
Proof. apply steady_setProperty_. auto with steady. Qed.
#[local] Hint Resolve steady_getProperty steady_setProperty : steady.

Lemma steady_createArray : steady createArray.
Proof. unfold createArray. steady. Qed.
#[local] Hint Resolve steady_createArray : steady.

Lemma steady_createFunctionBase_ n c : steady (createFunctionBase_ n c).
Proof. unfold createFunctionBase_. steady. Qed.
#[local] Hint Resolve steady_createFunctionBase_ : steady.

Lemma steady_createNativeFunction f n c : steady (createNativeFunction f n c).
Proof. unfold createNativeFunction. steady. Qed.
#[local] Hint Resolve steady_createNativeFunction : steady.

Lemma steady_populateRegExp l s f n : steady (populateRegExp l s f n).
Proof. unfold populateRegExp. steady. Qed.
#[local] Hint Resolve steady_populateRegExp : steady.

Lemma steady_nativeToPseudo n : steady (nativeToPseudo n).
Proof.
  induction n using Native_induction; cbn [nativeToPseudo]; steady.
  - generalize 0. induction H as [|[e|] slots He Hs IHs]; intros z; steady.
  - induction H as [|[k e] entries He Hs IHs]; steady.
Qed.
#[local] Hint Resolve steady_nativeToPseudo : steady.

Lemma steady_pseudoToNative_ fuel v cycles : steady (pseudoToNative_ fuel v cycles).
Proof.
  revert v cycles. induction fuel as [|fuel IH]; intros v cycles;
    cbn [pseudoToNative_]; steady.
  - match goal with |- steady (_ ?l) => induction l; steady end.
  - match goal with |- steady (_ ?l) => induction l; steady end.
Qed.
#[local] Hint Resolve steady_pseudoToNative_ : steady.

Lemma steady_pseudoToNative v : steady (pseudoToNative v).
Proof. unfold pseudoToNative. steady. Qed.
#[local] Hint Resolve steady_pseudoToNative : steady.

Lemma steady_mapM {A B} (f : A -> Eng B) l :
  (forall a, steady (f a)) -> steady (mapM f l).
Proof. intros H. induction l; cbn [mapM]; steady. Qed.

Lemma steady_setTopValue v : steady (setTopValue v).
Proof. unfold setTopValue. steady. Qed.
#[local] Hint Resolve steady_setTopValue : steady.

Lemma steady_createSpecialScope s : steady (createSpecialScope s).
Proof. unfold createSpecialScope. steady. Qed.
#[local] Hint Resolve steady_createSpecialScope : steady.

Lemma steady_scopeLookup g s name : steady (scopeLookup g s name).
Proof. induction s; cbn [scopeLookup]; steady. Qed.
#[local] Hint Resolve steady_scopeLookup : steady.

Lemma steady_getValueFromScope name : steady (getValueFromScope name).
Proof. unfold getValueFromScope. steady. Qed.
#[local] Hint Resolve steady_getValueFromScope : steady.

Lemma steady_getValue ref : steady (getValue ref).
Proof. unfold getValue. steady. Qed.
#[local] Hint Resolve steady_getValue : steady.

Lemma steady_createGetter_ f l : steady (createGetter_ f l).
Proof. unfold createGetter_. steady. Qed.

Lemma steady_createSetter_ f l v : steady (createSetter_ f l v).
Proof. unfold createSetter_. steady. Qed.
#[local] Hint Resolve steady_createGetter_ steady_createSetter_ : steady.

Lemma steady_typeofValue v : steady (typeofValue v).
Proof. unfold typeofValue. steady. Qed.

Lemma steady_deleteReference s o n : steady (deleteReference s o n).
Proof. unfold deleteReference. steady. Qed.
#[local] Hint Resolve steady_typeofValue steady_deleteReference : steady.

Lemma steady_calledWithNew : steady calledWithNew.
Proof. unfold calledWithNew. steady. Qed.
#[local] Hint Resolve steady_calledWithNew : steady.

Lemma steady_applyNative f func this args : steady (applyNative f func this args).
Proof.
  unfold applyNative. steady. apply steady_mapM. intros; steady.
Qed.
#[local] Hint Resolve steady_applyNative : steady.

Lemma steady_asyncCallback v : steady (asyncCallback v).
Proof. unfold asyncCallback. steady. Qed.
#[local] Hint Resolve steady_asyncCallback : steady.

(** *** The handlers *)

(** Splits a goal [lands k m]: [pop] takes the frame of the handler away,
    the rest leaves what is below. *)
Ltac lands :=
  repeat first
    [ apply lands_steady; solve [steady]
    | apply lands_unwind
    | match goal with
      | |- lands 1 (bind pop _) => apply lands_pop; intros
      | |- lands _ (bind _ _) => apply lands_bind; [solve [steady]|intros]
      | |- lands 0 (bind _ _) => apply lands_bind_0; [|intros]
      | |- lands _ (match ?x with _ => _ end) => destruct x
      | |- lands _ (let '(_, _) := ?x in _) => destruct x
      end ].

Lemma steady_stepProgram s n : steady (stepProgram s n).
Proof. unfold stepProgram. steady. Qed.

Lemma lands_stepExpressionStatement s n : lands 1 (stepExpressionStatement s n).
Proof. unfold stepExpressionStatement. lands. Qed.

Lemma lands_stepBlockStatement s n : lands 1 (stepBlockStatement s n).
Proof. unfold stepBlockStatement. lands. Qed.

Lemma lands_stepEmptyStatement s n : lands 1 (stepEmptyStatement s n).
Proof. unfold stepEmptyStatement. lands. Qed.

Lemma lands_stepThrowStatement s n : lands 1 (stepThrowStatement s n).
Proof. unfold stepThrowStatement. lands. Qed.

Lemma lands_stepTryStatement s n : lands 1 (stepTryStatement s n).
Proof. unfold stepTryStatement. lands. Qed.

Lemma lands_stepCatchClause s n : lands 1 (stepCatchClause s n).
Proof. unfold stepCatchClause. lands. Qed.

Lemma lands_stepLiteral s n : lands 1 (stepLiteral s n).
Proof. unfold stepLiteral. lands. Qed.

Lemma lands_stepIdentifier s n : lands 1 (stepIdentifier s n).
Proof. unfold stepIdentifier. lands. Qed.

Lemma lands_stepUnaryExpression s n : lands 1 (stepUnaryExpression s n).
Proof. unfold stepUnaryExpression. lands. Qed.

Lemma lands_stepCallExpression s n : lands 1 (stepCallExpression s n).
Proof. unfold stepCallExpression. lands. Qed.

(** *** [step] and [run] *)

Lemma rooted_stepFunctions (i : Interpreter) state rest :
  Interp.stateStack i = Some (state :: rest) ->
  rooted i = true ->
  match stepFunctions (node_type (State.node state)) state (State.node state) i with
  | Return _ i' | StepError i' => rooted i' = true
  | _ => True
  end.
Proof.
  intros Hs Hr.
  assert (H0 : deep 0 i) by (by apply deep_rooted).
  assert (Hl : lands 1 (stepFunctions (node_type (State.node state)) state
                          (State.node state))).
  { unfold stepFunctions.
    repeat case_bool_decide;
      auto using lands_stepExpressionStatement, lands_stepBlockStatement,
        lands_stepEmptyStatement, lands_stepThrowStatement, lands_stepTryStatement,
        lands_stepCatchClause, lands_stepLiteral, lands_stepIdentifier,
        lands_stepUnaryExpression, lands_stepCallExpression;
      apply lands_steady; auto using steady_stepProgram, steady_unmodelled. }
  destruct (isProgram state) eqn:Hp.
  - unfold isProgram in Hp. destruct (State.node state) eqn:Hn; try done.
    cbn [node_type]. unfold stepFunctions. rewrite bool_decide_eq_true_2 by done.
    pose proof (lands_steady 0 _ (steady_stepProgram state (State.node state)) i H0) as H.
    rewrite Hn in H.
    destruct (stepProgram _ _ i); try done; by apply deep_rooted.
  - assert (H1 : deep 1 i).
    { exists (state :: rest). split; [done|]. unfold rooted in Hr. rewrite Hs in Hr.
      split; [done|]. destruct rest as [|s rest]; [|cbn; lia].
      unfold rootedStack in Hr. cbn in Hr. congruence. }
    specialize (Hl i H1).
    destruct (stepFunctions _ _ _ i); try done; by apply deep_rooted.
Qed.

Lemma rooted_push next (i : Interpreter) :
  rooted i = true ->
  exists i', match next with Some n => push n | None => ret tt end i = Return tt i'
             /\ rooted i' = true.
Proof.
  intros Hi. destruct next as [n|]; [|by exists i].
  eexists. split; [reflexivity|]. apply deep_rooted.
  pose proof (steady_push n i) as Hq. unfold push, modify in Hq. apply Hq.
  by apply deep_rooted.
Qed.

Lemma keepRoot_stepFunctions : keepRoot stepFunctions.
Proof. intros i state rest. apply rooted_stepFunctions. Qed.

(** Every [step] leaves the root frame on the stack, when the handlers
    do. *)
Lemma step_loop_keepRoot handlers fuel ns (i i' : Interpreter) b :
  keepRoot handlers ->
  rooted i = true -> step_loop handlers fuel ns i = Return b i' -> rooted i' = true.
Proof.
  intros Hhandlers.
  revert ns i. induction fuel as [|fuel IH]; intros ns i Hi; [done|].
  cbn [step_loop]. unfold bind at 1, gets at 1.
  destruct (Interp.stateStack i) as [[|state rest]|] eqn:Hs; try done.
  { by intros [= _ <-]. }
  destruct (bool_decide _ && State.done state) eqn:Hd.
  { by intros [= _ <-]. }
  unfold bind at 1, gets at 1. destruct (Interp.paused_ i) eqn:Hp.
  { by intros [= _ <-]. }
  pose proof (Hhandlers i state rest Hs Hi) as Hh.
  assert (Hc : forall next i1,
    rooted i1 = true ->
    (match next with Some n => push n | None => ret tt end ;;;
     getterStep <- gets Interp.getterStep_ ;;
     if getterStep : bool
     then throwHost (HostErrorObject "Error" "Getter not supported in this context")
     else
       setterStep <- gets Interp.setterStep_ ;;
       if setterStep : bool
       then throwHost (HostErrorObject "Error" "Setter not supported in this context")
       else if (node_end (State.node state) =? 0)%nat
            then step_loop handlers fuel next
            else ret true) i1 = Return b i' ->
    rooted i' = true).
  { intros next i1 Hi1. unfold bind at 1.
    destruct (rooted_push next i1 Hi1) as (i2 & Hpush & Hi2). rewrite Hpush.
    unfold bind at 1, gets at 1. destruct (Interp.getterStep_ i2); [done|].
    unfold bind at 1, gets at 1. destruct (Interp.setterStep_ i2); [done|].
    destruct (node_end _ =? 0)%nat.
    - by apply IH.
    - by intros [= _ <-]. }
  destruct (handlers _ state _ i) as [next i1|i1| | |]; try done; by apply Hc.
Qed.

Lemma run_keepRoot handlers fuel (i i' : Interpreter) b :
  keepRoot handlers ->
  rooted i = true -> run handlers fuel i = Return b i' -> rooted i' = true.
Proof.
  intros Hhandlers.
  revert i. induction fuel as [|fuel IH]; intros i Hi; [done|].
  cbn [run]. unfold bind at 1, gets at 1.
  destruct (Interp.paused_ i) eqn:Hp.
  - unfold gets. by intros [= _ <-].
  - unfold bind. destruct (step _ _ i) as [more i1| | | |] eqn:Hstep; try done.
    apply step_loop_keepRoot in Hstep; [|done|done].
    destruct more.
    + by apply IH.
    + unfold gets. by intros [= _ <-].
Qed.

Lemma step_loop_rooted fuel ns (i i' : Interpreter) b :
  rooted i = true -> step_loop stepFunctions fuel ns i = Return b i' -> rooted i' = true.
Proof. apply step_loop_keepRoot, keepRoot_stepFunctions. Qed.

Lemma run_rooted fuel (i i' : Interpreter) b :
  rooted i = true -> run stepFunctions fuel i = Return b i' -> rooted i' = true.
Proof. apply run_keepRoot, keepRoot_stepFunctions. Qed.

Lemma rootDone_finished (i : Interpreter) :
  programFinished i = true -> rooted i = true -> rootDone i = true.
Proof.
  unfold programFinished, rooted, rootDone.
  by destruct (Interp.stateStack i) as [[|state rest]|].
Qed.

(** ** The state the constructor leaves *)

Lemma keeps_setNativeFunctionPrototype obj name wrapper n :
  keepsPaused (setNativeFunctionPrototype obj name wrapper n).
Proof. unfold setNativeFunctionPrototype. keeps. Qed.

Lemma keeps_initConstructor g name wrapper n : keepsPaused (initConstructor g name wrapper n).
Proof. unfold initConstructor. keeps. Qed.

Lemma keeps_initGlobalFunction g name d : keepsPaused (initGlobalFunction g name d).
Proof. unfold initGlobalFunction. keeps. Qed.

Lemma keeps_prototypeOf c : keepsPaused (prototypeOf c).
Proof. unfold prototypeOf. keeps. Qed.

#[local] Hint Resolve keeps_setNativeFunctionPrototype keeps_initConstructor
  keeps_initGlobalFunction keeps_prototypeOf : keeps.

Lemma keeps_initFunction g : keepsPaused (initFunction g).
Proof. unfold initFunction. keeps. Qed.

Lemma keeps_initObject g : keepsPaused (initObject g).
Proof. unfold initObject. keeps. Qed.

Lemma keeps_initArray g : keepsPaused (initArray g).
Proof. unfold initArray. keeps. Qed.

Lemma keeps_initRegExp g : keepsPaused (initRegExp g).
Proof. unfold initRegExp. keeps. Qed.

Lemma keeps_createErrorSubclass g name : keepsPaused (createErrorSubclass g name).
Proof. unfold createErrorSubclass. keeps. Qed.

#[local] Hint Resolve keeps_initFunction keeps_initObject keeps_initArray keeps_initRegExp
  keeps_createErrorSubclass : keeps.

Lemma keeps_initError g : keepsPaused (initError g).
Proof. unfold initError. keeps. Qed.

#[local] Hint Resolve keeps_initError : keeps.

Lemma keeps_initGlobal initFunc g :
  (forall scope, keepsPaused (initFunc scope)) -> keepsPaused (initGlobal initFunc g).
Proof. intros Hinit. unfold initGlobal. keeps. Qed.

Lemma keeps_construct ast initFunc :
  (forall scope, keepsPaused (initFunc scope)) -> keepsPaused (construct ast initFunc).
Proof.
  intros Hinit. unfold construct.
  apply keeps_bind; [apply keeps_createObjectProto|]. intros object.
  apply keeps_bind; [by apply keeps_initGlobal|]. intros _. keeps.
Qed.

Lemma keepsPaused_Return {A} (m : Eng A) (i : Interpreter) a i' :
  keepsPaused m -> m i = Return a i' -> Interp.paused_ i' = Interp.paused_ i.
Proof. intros Hk Hm. specialize (Hk i). by rewrite Hm in Hk. Qed.

(** The constructor leaves the interpreter running, when the initialization
    function does not touch [paused_]. *)
Lemma construct_running ast initFunc host (i0 : Interpreter) :
  (forall scope, keepsPaused (initFunc scope)) ->
  construct ast initFunc (blank host) = Return tt i0 ->
  Interp.paused_ i0 = false.
Proof.
  intros Hinit Hnew.
  pose proof (keeps_construct ast initFunc Hinit) as Hk.
  pose proof (keepsPaused_Return _ _ _ _ Hk Hnew) as Hp.
  rewrite Hp. reflexivity.
Qed.

(** The constructor leaves one frame on the stack, the frame of the program,
    not done. *)
Lemma construct_stack ast initFunc host (i0 : Interpreter) :
  construct ast initFunc (blank host) = Return tt i0 ->
  exists scope,
    Interp.stateStack i0 = Some [State.set_done false (State.new ast scope)].
Proof.
  unfold construct. unfold bind at 1.
  destruct (createObjectProto VNull (blank host)) as [object i1| | | |]; try done.
  unfold bind at 1.
  destruct (initGlobal initFunc object i1) as [[] i2| | | |]; try done.
  unfold bind, modify. intros [= <-]. by eexists.
Qed.

(** A program node. *)
Lemma node_type_Program ast :
  node_type ast = "Program" -> exists e body, ast = Program e body.
Proof. destruct ast; try done. intros _. by eexists _, _. Qed.

Lemma construct_rooted ast initFunc host (i0 : Interpreter) :
  node_type ast = "Program" ->
  construct ast initFunc (blank host) = Return tt i0 ->
  rooted i0 = true.
Proof.
  intros (e & body & ->)%node_type_Program (scope & Hs)%construct_stack.
  unfold rooted. by rewrite Hs.
Qed.

Lemma keeps_createAsyncFunction f n : keepsPaused (createAsyncFunction f n).
Proof. unfold createAsyncFunction. keeps. Qed.

(** The initialization functions of the examples leave [paused_] alone. *)
Lemma keeps_noInit scope : keepsPaused (noInit scope).
Proof. unfold noInit. keeps. Qed.

Lemma keeps_asyncInit scope : keepsPaused (asyncInit scope).
Proof. unfold asyncInit. pose proof keeps_createAsyncFunction. keeps. Qed.

(** ** More of the engine *)

(** *** Array indices and lengths *)

Lemma ToUint32_range n : 0 <= ToUint32 n < 2 ^ 32.
Proof. destruct n; cbn [ToUint32]; try lia; apply Z.mod_pos_bound; lia. Qed.

(** X1: [legalArrayIndex] accepts exactly the canonical decimal renderings
    of the integers from 0 to 2^32 - 2 and answers with the integer; for
    every other string, the rendering of 2^32 - 1 included, it answers
    [NaN]. *)
Theorem legalArrayIndex_exactly (k : string) :
  match legalArrayIndex k with
  | NInt z => 0 <= z < 2 ^ 32 - 1 /\ k = pretty z
  | NaN => forall z, 0 <= z < 2 ^ 32 - 1 -> k <> pretty z
  | _ => False
  end.
Proof.
  destruct (legalArrayIndex k) as [|neg|z|f r] eqn:H.
  - intros z Hz ->. by rewrite legalArrayIndex_of_pretty in H.
  - unfold legalArrayIndex in H. by destruct (_ && _).
  - split; [|symmetry; by apply legalArrayIndex_pretty].
    unfold legalArrayIndex in H.
    destruct (bool_decide _ && negb _) eqn:Hc; [|done].
    injection H as <-. apply andb_prop in Hc as [_ Hn].
    apply negb_true_iff, Z.eqb_neq in Hn.
    pose proof (ToUint32_range (StringToNumber k)). lia.
  - unfold legalArrayIndex in H. by destruct (_ && _).
Qed.

(** X2: among the numbers, the legal array lengths are exactly the integers
    from 0 to 2^32 - 1, and [legalArrayLength] answers with the integer;
    for every other number it answers [NaN]. *)
Theorem legalArrayLength_number (h : Heap) (x : number) :
  legalArrayLength h (VNumber x)
  = ConvOk (match x with
            | NInt z => if (0 <=? z) && (z <? 2 ^ 32) then NInt z else NaN
            | _ => NaN
            end).
Proof.
  unfold legalArrayLength. cbn [ToNumber conv_bind]. f_equal.
  destruct x as [|neg|z|f r]; try done.
  cbn [ToUint32 number_strict_eq].
  destruct ((0 <=? z) && (z <? 2 ^ 32)) eqn:Hz.
  - apply andb_prop in Hz as [H0 H1]. apply Z.leb_le in H0. apply Z.ltb_lt in H1.
    rewrite Z.mod_small by lia. by rewrite bool_decide_eq_true_2.
  - rewrite bool_decide_eq_false_2; [done|]. intros [= Heq].
    pose proof (Z.mod_pos_bound z (2 ^ 32) ltac:(lia)).
    apply andb_false_iff in Hz as [H0|H1].
    + apply Z.leb_gt in H0. lia.
    + apply Z.ltb_ge in H1. lia.
Qed.

(** *** The root frame *)

(** X3: whatever the completion it is given, [unwind] leaves the root
    [Program] frame on the state stack, where it returns and where it throws
    the host error of an uncaught guest exception. *)
Theorem unwind_keeps_root_frame type value label (i : Interpreter) :
  rooted i = true ->
  match unwind type value label i with
  | Return _ i' | StepError i' | HostThrow _ i' => rooted i' = true
  | _ => True
  end.
Proof.
  intros Hi. pose proof (lands_unwind type value label i (proj2 (deep_rooted i) Hi)) as H.
  destruct (unwind type value label i); try done; by apply deep_rooted.
Qed.

Lemma rooted_handler (i : Interpreter) state rest :
  Interp.stateStack i = Some (state :: rest) ->
  rooted i = true ->
  match stepFunctions (node_type (State.node state)) state (State.node state) i with
  | Return _ i' | StepError i' | HostThrow _ i' => rooted i' = true
  | _ => True
  end.
Proof.
  intros Hs Hr.
  assert (H0 : deep 0 i) by (by apply deep_rooted).
  assert (Hl : lands 1 (stepFunctions (node_type (State.node state)) state
                          (State.node state))).
  { unfold stepFunctions.
    repeat case_bool_decide;
      auto using lands_stepExpressionStatement, lands_stepBlockStatement,
        lands_stepEmptyStatement, lands_stepThrowStatement, lands_stepTryStatement,
        lands_stepCatchClause, lands_stepLiteral, lands_stepIdentifier,
        lands_stepUnaryExpression, lands_stepCallExpression;
      apply lands_steady; auto using steady_stepProgram, steady_unmodelled. }
  destruct (isProgram state) eqn:Hp.
  - unfold isProgram in Hp. destruct (State.node state) eqn:Hn; try done.
    cbn [node_type]. unfold stepFunctions. rewrite bool_decide_eq_true_2 by done.
    pose proof (lands_steady 0 _ (steady_stepProgram state (State.node state)) i H0) as H.
    rewrite Hn in H.
    destruct (stepProgram _ _ i); try done; by apply deep_rooted.
  - assert (H1 : deep 1 i).
    { exists (state :: rest). split; [done|]. unfold rooted in Hr. rewrite Hs in Hr.
      split; [done|]. destruct rest as [|s rest]; [|cbn; lia].
      unfold rootedStack in Hr. cbn in Hr. congruence. }
    specialize (Hl i H1).
    destruct (stepFunctions _ _ _ i); try done; by apply deep_rooted.
Qed.

Lemma step_loop_keeps_root fuel ns (i : Interpreter) :
  rooted i = true ->
  match step_loop stepFunctions fuel ns i with
  | Return _ i' | StepError i' | HostThrow _ i' => rooted i' = true
  | _ => True
  end.
Proof.
  revert ns i. induction fuel as [|fuel IH]; intros ns i Hi; [done|].
  cbn [step_loop]. unfold bind at 1, gets at 1.
  destruct (Interp.stateStack i) as [[|state rest]|] eqn:Hs; try done.
  destruct (bool_decide _ && State.done state) eqn:Hd; [done|].
  unfold bind at 1, gets at 1. destruct (Interp.paused_ i) eqn:Hp; [done|].
  pose proof (rooted_handler i state rest Hs Hi) as Hh.
  assert (Hc : forall next i1,
    rooted i1 = true ->
    match
      (match next with Some n => push n | None => ret tt end ;;;
       getterStep <- gets Interp.getterStep_ ;;
       if getterStep : bool
       then throwHost (HostErrorObject "Error" "Getter not supported in this context")
       else
         setterStep <- gets Interp.setterStep_ ;;
         if setterStep : bool
         then throwHost (HostErrorObject "Error" "Setter not supported in this context")
         else if (node_end (State.node state) =? 0)%nat
              then step_loop stepFunctions fuel next
              else ret true) i1
    with
    | Return _ i' | StepError i' | HostThrow _ i' => rooted i' = true
    | _ => True
    end).
  { intros next i1 Hi1. unfold bind at 1.
    destruct (rooted_push next i1 Hi1) as (i2 & Hpush & Hi2). rewrite Hpush.
    unfold bind at 1, gets at 1. destruct (Interp.getterStep_ i2); [done|].
    unfold bind at 1, gets at 1. destruct (Interp.setterStep_ i2); [done|].
    destruct (node_end _ =? 0)%nat; [by apply IH|done]. }
  destruct (stepFunctions _ state _ i) as [next i1|i1|e i1| |]; try done; by apply Hc.
Qed.

(** X4: [step] never takes the root [Program] frame off the state stack:
    from a state that has it, every call that returns or throws a host
    error leaves a state that has it. *)
Theorem step_keeps_root_frame fuel (i : Interpreter) :
  rooted i = true ->
  match step stepFunctions fuel i with
  | Return _ i' | StepError i' | HostThrow _ i' => rooted i' = true
  | _ => True
  end.
Proof. apply step_loop_keeps_root. Qed.

(** *** Where [unwind] stops *)

Lemma unwind_loop_try value above try rest :
  forallb unwindsPast above = true ->
  isTry try = true ->
  unwind_loop THROW value None (above ++ try :: rest)
  = (State.set_cv (Some (mkCV THROW value None)) try :: rest, UnwindReturn).
Proof.
  intros Ha Ht. induction above as [|state above IH]; cbn [app unwind_loop].
  - unfold isTry in Ht. by destruct (State.node try).
  - cbn [forallb] in Ha. apply andb_prop in Ha as [Hs Ha].
    unfold unwindsPast in Hs. destruct (State.node state); try done; by apply IH.
Qed.

Lemma unwind_returns type value label (i : Interpreter) stack stack' :
  type <> NORMAL ->
  Interp.stateStack i = Some stack ->
  unwind_loop type value label stack = (stack', UnwindReturn) ->
  unwind type value label i = Return tt (Interp.set_stateStack (Some stack') i).
Proof.
  intros Ht Hs Hl. unfold unwind. rewrite bool_decide_eq_false_2 by done.
  unfold bind at 1, gets at 1. by rewrite Hs, Hl.
Qed.

(** X5: a guest value thrown while a [TryStatement] frame is on the stack,
    with no other try statement and no [Program] frame above it, is caught:
    [throwException] pops the frames above the try frame, records the
    completion on it and throws [STEP_ERROR], the signal on which [step]
    goes on with the next frame. *)
Theorem throw_is_caught_by_nearest_try (i : Interpreter) value above try rest :
  Interp.stateStack i = Some (above ++ try :: rest) ->
  forallb unwindsPast above = true ->
  isTry try = true ->
  throwException value None i
  = StepError (Interp.set_stateStack
                 (Some (State.set_cv (Some (mkCV THROW value None)) try :: rest)) i).
Proof.
  intros Hs Ha Ht. unfold throwException.
  rewrite (bind_Return (ret value) _ i _ i eq_refl).
  by rewrite (bind_Return _ _ i _ _
                (unwind_returns THROW value None i _ _ ltac:(done) Hs
                   (unwind_loop_try value above try rest Ha Ht))).
Qed.

(** X20: a [throw] statement inside a [try] block does not leave [step]:
    when the frame on top is a throw statement whose argument is evaluated
    and a [TryStatement] frame is below it, with no other try statement and
    no [Program] frame between them, [step] returns true and leaves the try
    frame on top of the stack with the thrown value recorded on it. *)
Theorem caught_throw_resumes_at_try
    fuel (i : Interpreter) thrower e argument above try rest :
  Interp.stateStack i = Some (thrower :: above ++ try :: rest) ->
  State.node thrower = ThrowStatement e argument ->
  State.done_ thrower = true ->
  e <> 0%nat ->
  Interp.paused_ i = false ->
  Interp.getterStep_ i = false ->
  Interp.setterStep_ i = false ->
  forallb unwindsPast above = true ->
  isTry try = true ->
  step stepFunctions (S fuel) i
  = Return true
      (Interp.set_stateStack
         (Some (State.set_cv (Some (mkCV THROW (State.value thrower) None)) try :: rest)) i).
Proof.
  intros Hs Hnode Hdone He Hp Hg Hss Ha Ht.
  unfold step. cbn [step_loop].
  rewrite (bind_Return (gets Interp.stateStack) _ i _ i eq_refl), Hs, Hnode.
  cbn [node_type]. rewrite bool_decide_eq_false_2 by done. cbn [andb].
  rewrite (bind_Return (gets Interp.paused_) _ i _ i eq_refl), Hp.
  assert (Hh : stepFunctions "ThrowStatement" thrower (ThrowStatement e argument) i
               = StepError
                   (Interp.set_stateStack
                      (Some (State.set_cv (Some (mkCV THROW (State.value thrower) None)) try
                             :: rest)) i)).
  { unfold stepFunctions. repeat (case_bool_decide; [done|]).
    rewrite bool_decide_eq_true_2 by done.
    unfold stepThrowStatement. rewrite Hdone. cbn [negb]. unfold bind at 1.
    assert (Ha' : forallb unwindsPast (thrower :: above) = true).
    { cbn [forallb]. rewrite Ha. unfold unwindsPast. by rewrite Hnode. }
    unfold throwException.
    rewrite (bind_Return (ret (State.value thrower)) _ i _ i eq_refl).
    by rewrite (bind_Return _ _ i _ _
                  (unwind_returns THROW (State.value thrower) None i _ _ ltac:(done) Hs
                     (unwind_loop_try (State.value thrower) (thrower :: above) try rest
                        Ha' Ht))). }
  rewrite Hh.
  rewrite (bind_Return (ret tt) _ _ _ _ eq_refl).
  unfold bind at 1, gets at 1.
  assert (Hg' : forall s, Interp.getterStep_ (Interp.set_stateStack s i) = false)
    by (intros s; by destruct i).
  assert (Hs' : forall s, Interp.setterStep_ (Interp.set_stateStack s i) = false)
    by (intros s; by destruct i).
  rewrite Hg'. unfold bind at 1, gets at 1. rewrite Hs'.
  cbn [node_end]. destruct e as [|e]; [done|]. reflexivity.
Qed.

Lemma unwind_loop_call value label above call rest :
  forallb passes above = true ->
  isCall call = true ->
  unwind_loop RETURN value label (above ++ call :: rest)
  = (State.set_value value call :: rest, UnwindReturn).
Proof.
  intros Ha Hc. induction above as [|state above IH]; cbn [app unwind_loop].
  - unfold isCall in Hc. by destruct (State.node call).
  - cbn [forallb] in Ha. apply andb_prop in Ha as [Hs Ha].
    unfold passes, isTry, isCall, isProgram in Hs.
    destruct (State.node state); try done; by apply IH.
Qed.

(** X6: a [return] unwinds to the nearest call frame, where no try
    statement comes before it: [unwind] pops the frames above the call
    frame and leaves the returned value in its [value] slot. *)
Theorem return_stops_at_nearest_call (i : Interpreter) value label above call rest :
  Interp.stateStack i = Some (above ++ call :: rest) ->
  forallb passes above = true ->
  isCall call = true ->
  unwind RETURN value label i
  = Return tt (Interp.set_stateStack (Some (State.set_value value call :: rest)) i).
Proof.
  intros Hs Ha Hc.
  apply (unwind_returns RETURN value label i _ _ ltac:(done) Hs).
  by apply unwind_loop_call.
Qed.

Lemma unwind_loop_break value above target rest :
  forallb passedByBreak above = true ->
  breakTarget target = true ->
  unwind_loop BREAK value None (above ++ target :: rest) = (rest, UnwindReturn).
Proof.
  intros Ha Ht. induction above as [|state above IH]; cbn [app unwind_loop].
  - unfold breakTarget, passes, isTry, isCall, isProgram in Ht.
    apply andb_prop in Ht as [Hp Hl]. cbn [labelTest]. rewrite Hl.
    by destruct (State.node target).
  - cbn [forallb] in Ha. apply andb_prop in Ha as [Hs Ha].
    unfold passedByBreak, passes, isTry, isCall, isProgram in Hs.
    apply andb_prop in Hs as [Hp Hl]. apply negb_true_iff in Hl.
    cbn [labelTest]. rewrite Hl.
    destruct (State.node state); try done; by apply IH.
Qed.

Lemma unwind_loop_continue value above target rest :
  forallb (fun s => passes s && negb (State.isLoop s)) above = true ->
  passes target && State.isLoop target = true ->
  unwind_loop CONTINUE value None (above ++ target :: rest)
  = (target :: rest, UnwindReturn).
Proof.
  intros Ha Ht. induction above as [|state above IH]; cbn [app unwind_loop].
  - unfold passes, isTry, isCall, isProgram in Ht.
    apply andb_prop in Ht as [Hp Hl]. cbn [labelTest]. rewrite Hl.
    by destruct (State.node target).
  - cbn [forallb] in Ha. apply andb_prop in Ha as [Hs Ha].
    unfold passes, isTry, isCall, isProgram in Hs.
    apply andb_prop in Hs as [Hp Hl]. apply negb_true_iff in Hl.
    cbn [labelTest]. rewrite Hl.
    destruct (State.node state); try done; by apply IH.
Qed.

(** X7: an unlabelled [break] unwinds to the nearest frame marked as a loop
    or a switch and pops that frame too; an unlabelled [continue] unwinds
    to the nearest loop frame and leaves it on top of the stack. *)
Theorem break_and_continue_stop_at_the_loop (i : Interpreter) value above target rest :
  Interp.stateStack i = Some (above ++ target :: rest) ->
  forallb passedByBreak above = true ->
  passes target && State.isLoop target = true ->
  unwind BREAK value None i = Return tt (Interp.set_stateStack (Some rest) i)
  /\ unwind CONTINUE value None i
     = Return tt (Interp.set_stateStack (Some (target :: rest)) i).
Proof.
  intros Hs Ha Ht. pose proof Ht as [Hp Hl]%andb_prop. split.
  - apply (unwind_returns BREAK value None i _ _ ltac:(done) Hs).
    apply unwind_loop_break; [done|]. unfold breakTarget. by rewrite Hp, Hl.
  - apply (unwind_returns CONTINUE value None i _ _ ltac:(done) Hs).
    apply unwind_loop_continue; [|done].
    apply forallb_forall. intros s Hin.
    rewrite forallb_forall in Ha. specialize (Ha s Hin).
    unfold passedByBreak in Ha. apply andb_prop in Ha as [Hps Hls].
    rewrite Hps. cbn [andb]. apply negb_true_iff. apply negb_true_iff in Hls.
    by apply orb_false_iff in Hls as [-> _].
Qed.

(** *** What sets [paused_] *)

(** X8: of the node handlers only the one of calls touches [paused_]:
    whatever a handler of another node type does, it leaves [paused_] as it
    found it, where it returns and where it throws. *)
Theorem only_calls_pause type state node (i : Interpreter) :
  type <> "CallExpression" -> type <> "NewExpression" ->
  match stepFunctions type state node i with
  | Return _ i' | StepError i' | HostThrow _ i' => Interp.paused_ i' = Interp.paused_ i
  | _ => True
  end.
Proof.
  intros Hc Hn.
  assert (Hk : keepsPaused (stepFunctions type state node)).
  { unfold stepFunctions.
    repeat case_bool_decide; try done;
      auto using keeps_stepProgram, keeps_stepExpressionStatement,
        keeps_stepBlockStatement, keeps_stepEmptyStatement, keeps_stepThrowStatement,
        keeps_stepTryStatement, keeps_stepCatchClause, keeps_stepLiteral,
        keeps_stepIdentifier, keeps_stepUnaryExpression, keeps_unmodelled. }
  apply Hk.
Qed.

(** *** Reading properties *)

Lemma readsOnly_Return {A} (m : Eng A) (i i' : Interpreter) a :
  readsOnly m -> m i = Return a i' -> i' = i.
Proof. intros Hm H. specialize (Hm i). by rewrite H in Hm. Qed.

(** The walks of [hasProperty] and [getProperty] along the prototype chain
    agree on a name that is nowhere. *)
Lemma loops_agree_absent name fuel obj (i i' : Interpreter) :
  hasProperty_loop fuel obj name i = Return false i' ->
  getProperty_loop fuel obj name i = Return VUndefined i.
Proof.
  revert obj i'. induction fuel as [|fuel IH]; intros obj i'; [done|].
  cbn [hasProperty_loop getProperty_loop].
  assert (Hnext : forall i1,
    (next <- getPrototype obj ;;
     if ToBoolean next then hasProperty_loop fuel next name else ret false) i = Return false i1 ->
    (next <- getPrototype obj ;;
     if ToBoolean next then getProperty_loop fuel next name else ret VUndefined) i
    = Return VUndefined i).
  { intros i1. unfold bind at 1 2.
    destruct (getPrototype obj i) as [next i2| | | |] eqn:Hp; try done.
    apply (readsOnly_Return _ _ _ _ (readsOnly_getPrototype obj)) in Hp as ->.
    destruct (ToBoolean next); [apply IH|done]. }
  destruct obj as [| | | | |l| |];
    try (rewrite !(bind_Return (ret false) _ i _ i eq_refl);
         rewrite !(bind_Return (ret None) _ i _ i eq_refl); by apply Hnext).
  destruct (Interp.heap i !! l) as [o|] eqn:Ho.
  - assert (Hown : (o <- lookupObj l ;; ret (props_has name (Obj.properties o))) i
                   = Return (props_has name (Obj.properties o)) i).
    { by rewrite (bind_Return _ _ i _ i (lookupObj_at i l o Ho)). }
    assert (Howner : (o <- lookupObj l ;;
                      ret (if props_has name (Obj.properties o) then Some o else None)) i
                     = Return (if props_has name (Obj.properties o) then Some o else None) i).
    { by rewrite (bind_Return _ _ i _ i (lookupObj_at i l o Ho)). }
    rewrite (bind_Return _ _ i _ i Hown), (bind_Return _ _ i _ i Howner).
    destruct (props_has name (Obj.properties o)); [done|]. apply Hnext.
  - unfold bind at 1 2. unfold lookupObj at 1. by rewrite Ho.
Qed.

(** X9: a property [hasProperty] does not find reads as [undefined]: where
    [hasProperty] answers [false] for a guest object and no getter call is
    outstanding, [getProperty] returns [undefined] and leaves the
    interpreter as it is. *)
Theorem absent_property_reads_undefined obj name (i i' : Interpreter) :
  Interp.getterStep_ i = false ->
  hasProperty obj name i = Return false i' ->
  getProperty obj name i = Return VUndefined i.
Proof.
  intros Hg. unfold hasProperty, getProperty, getProperty_.
  destruct obj as [| | | | |l| |]; try done. cbn [isPseudoObject negb isHostObject].
  rewrite (bind_Return (gets id) _ i _ i eq_refl). cbn beta. unfold id.
  rewrite (bind_Return (gets Interp.getterStep_) _ i _ i eq_refl), Hg.
  rewrite (bind_Return (ret VUndefined) _ i _ i eq_refl).
  rewrite (bind_Return (gets id) _ i _ i eq_refl). cbn beta. unfold id.
  unfold bind at 1.
  destruct ((if bool_decide (name = "length")
             then isa (VObject l) (Interp.STRING i) else ret false) i)
    as [lengthOfString i1| | | |] eqn:Hfirst; try done.
  assert (i1 = i) as ->.
  { apply readsOnly_Return in Hfirst; [done|]. case_bool_decide; readsOnly. }
  destruct lengthOfString; [done|].
  unfold bind at 1.
  destruct (isa (VObject l) (Interp.STRING i) i) as [isString i2| | | |] eqn:Hisa; try done.
  apply (readsOnly_Return _ _ _ _ (readsOnly_isa _ _)) in Hisa as Hi2. subst i2.
  unfold bind at 1.
  destruct ((if isString : bool then
               match legalArrayIndex name with
               | NInt n => s <- String_ (VObject l) ;; ret (n <? Z.of_nat (String.length s))
               | _ => ret false
               end
             else ret false) i) as [inString i3| | | |] eqn:Hin; try done.
  assert (i3 = i) as ->.
  { apply readsOnly_Return in Hin; [done|]. readsOnly. }
  destruct inString; [done|]. intros Hloop.
  assert (Hmagic :
    (if bool_decide (name = "length") then
       isString <- isa (VObject l) (Interp.STRING i) ;;
       if isString
       then s <- String_ (VObject l) ;; ret (Some (VNumber (NInt (Z.of_nat (String.length s)))))
       else ret None
     else if startsBelow0x40 name then
       isString <- isa (VObject l) (Interp.STRING i) ;;
       if isString then
         match legalArrayIndex name with
         | NInt n =>
             s <- String_ (VObject l) ;;
             if n <? Z.of_nat (String.length s) then ret (Some (charAt s n)) else ret None
         | _ => ret None
         end
       else ret None
     else ret None) i = Return None i).
  { case_bool_decide as Hname.
    - rewrite Hfirst in Hisa. injection Hisa as <-.
      by rewrite (bind_Return _ _ i _ i Hfirst).
    - destruct (startsBelow0x40 name); [|done].
      rewrite (bind_Return _ _ i _ i Hisa). destruct isString; [|done].
      destruct (legalArrayIndex name) as [|neg|n|f r]; try done.
      unfold bind in Hin |- *.
      destruct (String_ (VObject l) i) as [s i4| | | |] eqn:Hs; try done.
      apply (readsOnly_Return _ _ _ _ (readsOnly_String_ _)) in Hs as ->.
      cbn [ret] in Hin. injection Hin as Hlt. by rewrite Hlt. }
  rewrite (bind_Return _ _ i _ i Hmagic).
  by apply (loops_agree_absent name _ _ i i').
Qed.

Lemma getProperty_loop_flags name fuel obj (i i' : Interpreter) v :
  getProperty_loop fuel obj name i = Return v i' ->
  i' = i \/ i' = Interp.set_getterStep_ true i.
Proof.
  revert obj. induction fuel as [|fuel IH]; intros obj; [done|].
  cbn [getProperty_loop]. unfold bind at 1.
  destruct (match obj with
            | VObject l =>
                o <- lookupObj l ;;
                ret (if props_has name (Obj.properties o) then Some o else None)
            | _ => ret None
            end i) as [owner i1| | | |] eqn:Hown; try done.
  assert (i1 = i) as ->.
  { apply readsOnly_Return in Hown; [done|]. destruct obj; readsOnly. }
  destruct owner as [o|].
  - destruct (Obj.getter o !! name) as [getter|].
    + destruct (ToBoolean getter).
      * cbn. intros [= _ <-]. by right.
      * cbn. intros [= _ <-]. by left.
    + cbn. intros [= _ <-]. by left.
  - unfold bind at 1.
    destruct (getPrototype obj i) as [next i2| | | |] eqn:Hp; try done.
    apply (readsOnly_Return _ _ _ _ (readsOnly_getPrototype obj)) in Hp as ->.
    destruct (ToBoolean next); [apply IH|]. cbn. intros [= _ <-]. by left.
Qed.

(** X10: [getProperty] changes nothing but the getter flag: where it
    returns, the interpreter is as it was, or differs in [getterStep_]
    alone, which it has set for the caller to run the getter it returns. *)
Theorem getProperty_only_flags_getter obj name (i i' : Interpreter) v :
  getProperty obj name i = Return v i' ->
  i' = i \/ i' = Interp.set_getterStep_ true i.
Proof.
  unfold getProperty, getProperty_. unfold bind at 1, gets at 1.
  destruct (Interp.getterStep_ i); [done|].
  unfold bind at 1.
  destruct (match obj with
            | VUndefined | VNull =>
                i0 <- gets id ;;
                s <- String_ obj ;;
                throwException (fieldValue (Interp.TYPE_ERROR i0))
                  (Some ("Cannot read property '" +:+ name +:+ "' of " +:+ s))
            | _ => ret VUndefined
            end i) as [u i1| | | |] eqn:Hfirst; try done.
  assert (i1 = i) as ->.
  { destruct obj; try (by injection Hfirst as _ <-).
    - unfold bind at 1, gets at 1 in Hfirst. unfold bind, id in Hfirst.
      destruct (String_ VUndefined i) as [s i2| | | |]; try done.
      pose proof (throwException_throws (fieldValue (Interp.TYPE_ERROR i))
                    (Some ("Cannot read property '" +:+ name +:+ "' of " +:+ s)) i2) as Ht.
      by rewrite Hfirst in Ht.
    - unfold bind at 1, gets at 1 in Hfirst. unfold bind, id in Hfirst.
      destruct (String_ VNull i) as [s i2| | | |]; try done.
      pose proof (throwException_throws (fieldValue (Interp.TYPE_ERROR i))
                    (Some ("Cannot read property '" +:+ name +:+ "' of " +:+ s)) i2) as Ht.
      by rewrite Hfirst in Ht. }
  destruct (isHostObject obj); [done|].
  unfold bind at 1, gets at 1. cbn beta. unfold id.
  unfold bind at 1.
  match goal with
  | |- match ?m i with _ => _ end = _ -> _ =>
      destruct (m i) as [magic i2| | | |] eqn:Hmagic; try done;
      assert (i2 = i) as ->
  end.
  { apply readsOnly_Return in Hmagic; [done|].
    case_bool_decide; [readsOnly|]. destruct (startsBelow0x40 name); readsOnly. }
  destruct magic as [w|].
  - cbn. intros [= _ <-]. by left.
  - apply getProperty_loop_flags.
Qed.

(** *** What [setProperty] touches *)

Lemma onlyAt_reads l {A} (m : Eng A) : readsOnly m -> onlyAt l m.
Proof. intros Hm i. specialize (Hm i). destruct (m i); try done. by subst. Qed.

Lemma onlyAt_bind l {A B} (m : Eng A) (k : A -> Eng B) :
  onlyAt l m -> (forall a, onlyAt l (k a)) -> onlyAt l (bind m k).
Proof.
  intros Hm Hk i. unfold bind. specialize (Hm i).
  destruct (m i) as [a i1| | | |]; try done.
  specialize (Hk a i1). destruct (k a i1); try done.
  destruct Hm as [Hl1 Ha1], Hk as [Hl2 Ha2]. split; [congruence|].
  intros l' Hl'. by rewrite Ha2, Ha1.
Qed.

Lemma onlyAt_updateObj l f : onlyAt l (@updateObj Host l f).
Proof.
  intros i. unfold updateObj, modify. split.
  - destruct i; cbn. by rewrite length_alter.
  - intros l' Hl'. destruct i; cbn. by rewrite list_lookup_alter_ne.
Qed.

Lemma onlyAt_modify l (f : Interpreter -> Interpreter) :
  (forall i, Interp.heap (f i) = Interp.heap i) -> onlyAt l (modify f).
Proof. intros Hf i. unfold modify. by rewrite Hf. Qed.

Lemma onlyAt_throwException l c m : onlyAt l (throwException c m).
Proof.
  intros i. pose proof (throwException_throws c m i). by destruct (throwException c m i).
Qed.

Ltac onlyAt :=
  repeat first
    [ apply onlyAt_throwException
    | apply onlyAt_updateObj
    | apply onlyAt_modify; intros; reflexivity
    | apply onlyAt_reads; solve [readsOnly]
    | match goal with
      | |- onlyAt _ (bind _ _) => apply onlyAt_bind; [|intros]
      | |- onlyAt _ (match ?x with _ => _ end) => destruct x
      | |- onlyAt _ (let '(_, _) := ?x in _) => destruct x
      end ].

Lemma onlyAt_setProperty l name value d :
  onlyAt l (setProperty (VObject l) name value d).
Proof.
  unfold setProperty, setProperty_, setProperty_object, setProperty_array,
    setProperty_define, setProperty_assign, getScope. onlyAt.
  apply onlyAt_reads, readsOnly_findDefObj.
Qed.

(** X11: a [setProperty] that returns has written to its receiver only:
    every other guest object is as it was, no object was added, and the
    state stack and [paused_] are untouched. *)
Theorem setProperty_touches_only_its_receiver l name value d (i i' : Interpreter) r :
  setProperty (VObject l) name value d i = Return r i' ->
  length (Interp.heap i') = length (Interp.heap i)
  /\ (forall l', l' <> l -> Interp.heap i' !! l' = Interp.heap i !! l')
  /\ Interp.stateStack i' = Interp.stateStack i
  /\ Interp.paused_ i' = Interp.paused_ i.
Proof.
  intros H.
  pose proof (onlyAt_setProperty l name value d i) as Ho.
  pose proof (same_setProperty (VObject l) name value d i) as Hs.
  pose proof (keeps_setProperty (VObject l) name value d i) as Hk.
  rewrite H in Ho, Hs, Hk. by destruct Ho.
Qed.

(** *** Writing and reading back *)

(** X12: in a state whose built-in prototypes carry no accessors, a value
    assigned to a property of a plain extensible object (one without
    accessors, on top of [Object.prototype] or [Array.prototype], and no
    array) is the value read back, and [hasProperty] finds the property,
    provided the object has no entry of that name or a writable one. *)
Theorem assigned_property_reads_back b (i : Interpreter) l o q c ps ps' name v :
  bridgeReady b i = true ->
  Interp.heap i !! l = Some o -> (b <= l)%nat ->
  plainObject q c ps o ->
  Some q = Interp.OBJECT_PROTO i \/ Some q = Interp.ARRAY_PROTO i ->
  c <> "Array" ->
  props_assign name v ps = Some ps' ->
  exists i',
    setProperty (VObject l) name (Given v) None i = Return VUndefined i'
    /\ getProperty (VObject l) name i' = Return v i'
    /\ hasProperty (VObject l) name i' = Return true i'.
Proof.
  intros Hr Ho Hbl Hplain Hqq Hc Hassign.
  exists (updated l (Obj.set_properties ps') i).
  split; [by apply (setProperty_fresh_object b i l o q c ps)|].
  set (i' := updated l (Obj.set_properties ps') i).
  assert (Hr' : bridgeReady b i' = true).
  { apply (bridgeReady_extends b l i i' Hr); [apply extends_updated|done]. }
  assert (Ho' : Interp.heap i' !! l = Some (Obj.set_properties ps' o)).
  { by apply updated_lookup. }
  pose proof (plainObject_set_properties q c ps ps' o Hplain)
    as (Hq' & _ & Hps' & _ & Hg' & _).
  assert (Hqq' : Some q = Interp.OBJECT_PROTO i' \/ Some q = Interp.ARRAY_PROTO i').
  { unfold i', updated. destruct i. exact Hqq. }
  pose proof (props_assign_lookup name v ps ps' name Hassign) as Hlook.
  rewrite bool_decide_eq_true_2 in Hlook by done.
  assert (Hhas : props_has name (Obj.properties (Obj.set_properties ps' o)) = true).
  { unfold props_has. by rewrite Hps', Hlook. }
  split.
  - rewrite (getProperty_fresh b i' l (Obj.set_properties ps' o) q name Hr' Ho' Hbl Hq' Hqq'
               Hhas (Hg' name)).
    unfold props_get. rewrite Hps', Hlook. by destruct (props_lookup name ps).
  - by apply (hasProperty_fresh b i' l (Obj.set_properties ps' o) q).
Qed.

(** *** New arrays *)

(** X13: in a state whose built-in prototypes are as the constructor leaves
    them, [createArray] adds one object to the heap: an object of class
    [Array] whose only entry is a [length] of 0, writable and neither
    enumerable nor configurable, which [isa] takes for an instance of
    [Array] and whose [length] reads as 0. *)
Theorem createArray_makes_an_empty_array b (i : Interpreter) :
  bridgeReady b i = true ->
  exists i' o,
    createArray i = Return (length (Interp.heap i)) i'
    /\ Interp.heap i' = Interp.heap i ++ [o]
    /\ Obj.class o = "Array"
    /\ Obj.properties o = [("length", mkProperty (VNumber (NInt 0)) true false false)]
    /\ isa (VObject (length (Interp.heap i))) (Interp.ARRAY i') i' = Return true i'
    /\ getProperty (VObject (length (Interp.heap i))) "length" i'
       = Return (VNumber (NInt 0)) i'.
Proof.
  intros Hr.
  destruct (bridgeReady_facts b i Hr)
    as (_ & _ & _ & Hb & op & ap & oo & ao & Hop & Hap & _).
  destruct (createArray_fresh b i ap Hr Hap) as (o & Hcreate & Hplain).
  set (l := length (Interp.heap i)) in *. set (i' := grown o i) in *.
  exists i', o. split; [done|].
  assert (Hext : extends l i i') by apply extends_grown.
  assert (Hr' : bridgeReady b i' = true) by apply (bridgeReady_extends b l i i' Hr Hext Hb).
  destruct (extends_protos _ i i' Hext) as [Hop' Hap'].
  assert (Ho : Interp.heap i' !! l = Some o) by apply grown_lookup.
  pose proof Hplain as (Hq & Hc & Hps & Hpe & Hg & Hs).
  assert (Hqq : Some ap = Interp.OBJECT_PROTO i' \/ Some ap = Interp.ARRAY_PROTO i').
  { right. by rewrite Hap', Hap. }
  split; [unfold i', grown; by destruct i|]. split; [done|]. split; [done|]. split.
  - rewrite (isa_fresh_array b i' l o ap Hr' Ho Hb Hq Hqq).
    by rewrite bool_decide_eq_true_2 by (by rewrite Hap', Hap).
  - rewrite (getProperty_fresh b i' l o ap "length" Hr' Ho Hb Hq Hqq); [|by rewrite Hps|done].
    by rewrite Hps.
Qed.

(** *** Variables *)

Lemma binder_has h g scope name l :
  binder h g scope name = Some l ->
  exists o, h !! l = Some o /\ props_has name (Obj.properties o) = true.
Proof.
  induction scope as [|entry parent IH]; [done|]. cbn [binder].
  case_bool_decide; [done|].
  destruct (h !! object entry) as [o|] eqn:Ho; [|done].
  destruct (props_has name (Obj.properties o)) eqn:Hhas; [|done].
  intros [= <-]. by exists o.
Qed.

Lemma scopeAssign_binder (i : Interpreter) g scope name v l o ps :
  binder (Interp.heap i) g scope name = Some l ->
  Interp.heap i !! l = Some o ->
  props_assign name v (Obj.properties o) = Some ps ->
  scopeAssign g scope name v i = Return None (updated l (Obj.set_properties ps) i).
Proof.
  intros Hb Ho Hps. induction scope as [|entry parent IH]; [done|].
  cbn [binder scopeAssign] in *. case_bool_decide; [done|].
  destruct (Interp.heap i !! object entry) as [o'|] eqn:Ho'; [|done].
  rewrite (bind_Return _ _ i _ i (lookupObj_at i _ o' Ho')).
  destruct (props_has name (Obj.properties o')) eqn:Hhas; [|by apply IH].
  injection Hb as Hl. rewrite Hl in Ho'. rewrite Ho in Ho'. injection Ho' as <-.
  rewrite Hps, Hl. by rewrite (bind_Return _ _ i _ _ (updateObj_at i l _)).
Qed.

Lemma scopeLookup_binder (i : Interpreter) g scope name l o :
  binder (Interp.heap i) g scope name = Some l ->
  Interp.heap i !! l = Some o ->
  scopeLookup g scope name i = Return (inl (props_get name (Obj.properties o))) i.
Proof.
  intros Hb Ho. induction scope as [|entry parent IH]; [done|].
  cbn [binder scopeLookup] in *. case_bool_decide; [done|].
  destruct (Interp.heap i !! object entry) as [o'|] eqn:Ho'; [|done].
  rewrite (bind_Return _ _ i _ i (lookupObj_at i _ o' Ho')).
  destruct (props_has name (Obj.properties o')) eqn:Hhas; [|by apply IH].
  injection Hb as Hl. rewrite Hl in Ho'. rewrite Ho in Ho'. by injection Ho' as <-.
Qed.

Lemma binder_updated (i : Interpreter) g scope name l o f :
  binder (Interp.heap i) g scope name = Some l ->
  Interp.heap i !! l = Some o ->
  props_has name (Obj.properties (f o)) = true ->
  binder (Interp.heap (updated l f i)) g scope name = Some l.
Proof.
  intros Hb Ho Hf. destruct (binder_has _ _ _ _ _ Hb) as (o0 & Ho0 & Hhas0).
  rewrite Ho in Ho0. injection Ho0 as <-.
  induction scope as [|entry parent IH]; [done|].
  cbn [binder] in *. case_bool_decide; [done|].
  destruct (decide (object entry = l)) as [Hl|Hl].
  - rewrite Hl in *. rewrite Ho in Hb. rewrite Hhas0 in Hb.
    rewrite (updated_lookup i l f o Ho). by rewrite Hf.
  - rewrite (updated_lookup_ne i l (object entry) f) by done.
    destruct (Interp.heap i !! object entry) as [o'|]; [|done].
    destruct (props_has name (Obj.properties o')); [done|]. by apply IH.
Qed.

(** X14: a value assigned to a variable that a scope below the global scope
    binds, in an entry that is writable, goes into the innermost scope
    object that has the name, and is the value the variable then reads
    as. *)
Theorem assigned_variable_reads_back (i : Interpreter) top rest name v l o ps :
  Interp.stateStack i = Some (top :: rest) ->
  binder (Interp.heap i) (Interp.globalScope i) (State.scope top) name = Some l ->
  Interp.heap i !! l = Some o ->
  props_assign name v (Obj.properties o) = Some ps ->
  setValueToScope name v i = Return VUndefined (updated l (Obj.set_properties ps) i)
  /\ getValueFromScope name (updated l (Obj.set_properties ps) i)
     = Return v (updated l (Obj.set_properties ps) i).
Proof.
  intros Hs Hb Ho Hps.
  set (i' := updated l (Obj.set_properties ps) i).
  assert (Hscope : forall j : Interpreter,
    Interp.stateStack j = Some (top :: rest) -> getScope j = Return (State.scope top) j).
  { intros j Hj. unfold getScope. rewrite (bind_Return (gets Interp.stateStack) _ j _ j eq_refl).
    rewrite Hj. destruct (State.scope top) eqn:Hsc; [done|]. by rewrite <- Hsc. }
  split.
  - unfold setValueToScope. rewrite (bind_Return _ _ i _ i (Hscope i Hs)).
    rewrite (bind_Return (gets id) _ i _ i eq_refl). cbn beta. unfold id.
    by rewrite (bind_Return _ _ i _ i' (scopeAssign_binder i _ _ name v l o ps Hb Ho Hps)).
  - assert (Hs' : Interp.stateStack i' = Some (top :: rest)).
    { unfold i', updated. by destruct i. }
    assert (Hg' : Interp.globalScope i' = Interp.globalScope i).
    { unfold i', updated. by destruct i. }
    pose proof (props_assign_lookup name v _ ps name Hps) as Hlook.
    rewrite bool_decide_eq_true_2 in Hlook by done.
    assert (Hb' : binder (Interp.heap i') (Interp.globalScope i') (State.scope top) name
                  = Some l).
    { rewrite Hg'. apply (binder_updated i _ _ name l o); [done|done|].
      unfold props_has. rewrite (proj1 (set_properties_fields ps o)). by rewrite Hlook. }
    unfold getValueFromScope. rewrite (bind_Return _ _ i' _ i' (Hscope i' Hs')).
    rewrite (bind_Return (gets id) _ i' _ i' eq_refl). cbn beta. unfold id.
    rewrite (bind_Return _ _ i' _ i'
               (scopeLookup_binder i' _ _ name l _ Hb' (updated_lookup i l _ o Ho))).
    unfold props_get. rewrite (proj1 (set_properties_fields ps o)), Hlook.
    by destruct (props_lookup name (Obj.properties o)).
Qed.

Lemma scopeAssign_unbound (i : Interpreter) scope name v :
  unbound i scope name = true ->
  exists scope',
    scopeAssign (Interp.globalScope i) scope name v i = Return (Some scope') i
    /\ match scope' with
       | [] => True
       | entry :: _ =>
           scope' = Interp.globalScope i
           /\ hasProperty (VObject (object entry)) name i = Return false i
       end.
Proof.
  induction scope as [|entry parent IH]; cbn [unbound scopeAssign].
  - intros _. by exists [].
  - case_bool_decide as Hg.
    + intros Hh. exists (entry :: parent). split; [done|]. split; [done|].
      pose proof (readsOnly_hasProperty (VObject (object entry)) name i) as Hp.
      destruct (hasProperty _ name i) as [[] i'| | | |]; try done. by subst i'.
    + unfold bind at 1, lookupObj.
      destruct (Interp.heap i !! object entry) as [o|]; [|done].
      intros [Hn Hu]%andb_prop. apply negb_true_iff in Hn. rewrite Hn. by apply IH.
Qed.

Lemma scopeAssign_to_global (i : Interpreter) locals name v :
  Interp.globalScope i <> [] ->
  unbound i (locals ++ Interp.globalScope i) name = true ->
  scopeAssign (Interp.globalScope i) (locals ++ Interp.globalScope i) name v i
  = Return (Some (Interp.globalScope i)) i.
Proof.
  intros Hg. induction locals as [|entry locals IH]; intros Hu.
  - cbn [app] in *. destruct (Interp.globalScope i) as [|g gs] eqn:HG; [done|].
    cbn [scopeAssign]. rewrite <- HG. by rewrite bool_decide_eq_true_2.
  - cbn [app unbound scopeAssign] in *.
    assert (Hne : entry :: locals ++ Interp.globalScope i <> Interp.globalScope i).
    { intros Heq. apply (f_equal length) in Heq. cbn in Heq. rewrite length_app in Heq. lia. }
    rewrite bool_decide_eq_false_2 in Hu |- * by done.
    unfold bind at 1, lookupObj.
    destruct (Interp.heap i !! object entry) as [o|]; [|done].
    apply andb_prop in Hu as [Hn Hu]. apply negb_true_iff in Hn. rewrite Hn. by apply IH.
Qed.

(** X15: an assignment to a variable that no scope binds and the global
    object does not have: in strict mode [setValueToScope] throws a guest
    [ReferenceError] with the message [name is not defined] and does not
    return; in sloppy mode, on a scope chain that ends in the global scope,
    it is the [setProperty] of the name on the global object. *)
Theorem undeclared_variable_assignment (i : Interpreter) name v top rest :
  Interp.stateStack i = Some (top :: rest) ->
  State.scope top <> [] ->
  Interp.globalScope i <> [] ->
  unbound i (State.scope top) name = true ->
  (scopeStrict (State.scope top) = true ->
   setValueToScope name v i
   = throwException (fieldValue (Interp.REFERENCE_ERROR i))
       (Some (name +:+ " is not defined")) i
   /\ forall r i', setValueToScope name v i <> Return r i')
  /\ (scopeStrict (State.scope top) = false ->
      forall locals g gs,
        Interp.globalScope i = g :: gs ->
        State.scope top = locals ++ Interp.globalScope i ->
        setValueToScope name v i = setProperty (VObject (object g)) name (Given v) None i).
Proof.
  intros Hs Hne Hgne Hu.
  assert (Hscope : getScope i = Return (State.scope top) i).
  { unfold getScope. rewrite (bind_Return (gets Interp.stateStack) _ i _ i eq_refl).
    rewrite Hs. destruct (State.scope top) eqn:Hsc; [done|]. by rewrite <- Hsc. }
  split.
  - intros Hstrict.
    assert (Heq : setValueToScope name v i
                  = throwException (fieldValue (Interp.REFERENCE_ERROR i))
                      (Some (name +:+ " is not defined")) i).
    { unfold setValueToScope. rewrite (bind_Return _ _ i _ i Hscope).
      rewrite (bind_Return (gets id) _ i _ i eq_refl). cbn beta. unfold id.
      destruct (scopeAssign_unbound i _ name v Hu) as (scope' & Hl & Hg).
      rewrite (bind_Return _ _ i _ i Hl). rewrite Hstrict. cbn [negb].
      assert (Hin : (if bool_decide (scope' = Interp.globalScope i)
                     then match scope' with
                          | entry :: _ => hasProperty (VObject (object entry)) name
                          | [] => throwHost (HostErrorObject "TypeError"
                                               "Cannot read properties of null")
                          end
                     else ret false) i = Return false i).
      { destruct scope' as [|entry scope'].
        - by rewrite bool_decide_eq_false_2.
        - destruct Hg as [Hg Hh]. by rewrite bool_decide_eq_true_2. }
      by rewrite (bind_Return _ _ i _ i Hin). }
    split; [done|]. intros r i' Hret. rewrite Heq in Hret.
    pose proof (throwException_throws (fieldValue (Interp.REFERENCE_ERROR i))
                  (Some (name +:+ " is not defined")) i) as Ht.
    by rewrite Hret in Ht.
  - intros Hsloppy locals g gs HG Hchain.
    unfold setValueToScope. rewrite (bind_Return _ _ i _ i Hscope).
    rewrite (bind_Return (gets id) _ i _ i eq_refl). cbn beta. unfold id.
    cbn zeta. rewrite Hsloppy. cbn [negb]. rewrite Hchain in Hu |- *.
    rewrite (bind_Return _ _ i _ i (scopeAssign_to_global i locals name v Hgne Hu)).
    rewrite bool_decide_eq_true_2 by done.
    rewrite (bind_Return (ret true) _ i _ i eq_refl). by rewrite HG.
Qed.

(** *** The handler of calls *)

Lemma topState_at (i : Interpreter) top rest :
  Interp.stateStack i = Some (top :: rest) -> topState i = Return top i.
Proof.
  intros Hs. unfold topState.
  rewrite (bind_Return (gets Interp.stateStack) _ i _ i eq_refl). by rewrite Hs.
Qed.

Lemma updateTop_at (i : Interpreter) top rest f :
  Interp.stateStack i = Some (top :: rest) ->
  updateTop f i = Return tt (Interp.set_stateStack (Some (f top :: rest)) i).
Proof.
  intros Hs. unfold updateTop.
  rewrite (bind_Return (gets Interp.stateStack) _ i _ i eq_refl). by rewrite Hs.
Qed.

Lemma stateStack_set s (i : Interpreter) :
  Interp.stateStack (Interp.set_stateStack s i) = s.
Proof. by destruct i. Qed.

Lemma set_stateStack_twice s s' (i : Interpreter) :
  Interp.set_stateStack s (Interp.set_stateStack s' i) = Interp.set_stateStack s i.
Proof. by destruct i. Qed.

Lemma argumentsDone_fields state (i : Interpreter) :
  State.doneExec_ (argumentsDone state i) = State.doneExec_ state
  /\ State.func_ (argumentsDone state i) = State.func_ state.
Proof.
  unfold argumentsDone. destruct (State.n_ state =? 0)%nat; case_bool_decide; by destruct state.
Qed.


Lemma argumentsDone_flags state (i : Interpreter) :
  State.doneCallee_ (argumentsDone state i) = State.doneCallee_ state
  /\ State.doneArgs_ (argumentsDone state i) = true.
Proof.
  unfold argumentsDone. destruct (State.n_ state =? 0)%nat; case_bool_decide; by destruct state.
Qed.

(** The handler of calls on a frame whose callee is evaluated and whose last
    argument has just been evaluated: it goes on as on the frame
    [argumentsDone]. *)
Lemma call_with_arguments_done (i : Interpreter) state rest e callee arguments :
  Interp.stateStack i = Some (state :: rest) ->
  State.doneCallee_ state = CalleeTwo ->
  State.doneArgs_ state = false ->
  arguments !! State.n_ state = None ->
  stepCallExpression state (CallExpression e callee arguments) i
  = stepCallExpression (argumentsDone state i) (CallExpression e callee arguments)
      (Interp.set_stateStack (Some (argumentsDone state i :: rest)) i).
Proof.
  intros Hs Hcallee Hargs Hlast.
  destruct (argumentsDone_flags state i) as [Hcallee' Hargs'].
  destruct (argumentsDone_fields state i) as [_ Hfunc'].
  set (i' := Interp.set_stateStack (Some (argumentsDone state i :: rest)) i).
  assert (Hs' : Interp.stateStack i' = Some (argumentsDone state i :: rest))
    by apply stateStack_set.
  symmetry.
  unfold stepCallExpression. rewrite Hcallee', Hcallee.
  rewrite (bind_Return (ret None) _ i' _ i' eq_refl).
  rewrite (bind_Return topState _ i' _ i' (topState_at i' _ _ Hs')).
  rewrite Hargs'. cbn [negb].
  rewrite (bind_Return (ret None) _ i' _ i' eq_refl).
  rewrite (bind_Return (ret tt) _ i' _ i' eq_refl).
  rewrite (bind_Return topState _ i' _ i' (topState_at i' _ _ Hs')).
  rewrite Hfunc'.
  symmetry.
  rewrite (bind_Return (ret None) _ i _ i eq_refl).
  rewrite (bind_Return topState _ i _ i (topState_at i _ _ Hs)).
  rewrite Hargs. cbn [negb]. rewrite Hlast.
  set (s1 := if (State.n_ state =? 0)%nat then state
             else State.set_arguments_ (State.arguments_ state ++ [State.value state]) state).
  set (i1 := Interp.set_stateStack (Some (s1 :: rest)) i).
  assert (Hs1 : Interp.stateStack i1 = Some (s1 :: rest)) by apply stateStack_set.
  match goal with |- bind ?A _ _ = _ => assert (HA : A i = Return None i1) end.
  { unfold s1, i1. destruct (State.n_ state =? 0)%nat; cbn [negb].
    - rewrite (bind_Return (ret tt) _ i _ i eq_refl). cbn.
      f_equal. destruct i; cbn in *. by rewrite Hs.
    - by rewrite (bind_Return _ _ i _ _ (updateTop_at i _ _ _ Hs)). }
  rewrite (bind_Return _ _ i _ i1 HA).
  match goal with |- bind ?B _ _ = _ => assert (HB : B i1 = Return tt i') end.
  { rewrite (bind_Return (bind topState _) _ i1 tt
               (Interp.set_stateStack
                  (Some ((if bool_decide (State.funcThis_ s1 = VUndefined)
                          then State.set_funcThis_
                                 (if scopeStrict (State.scope state) then VUndefined
                                  else VObject (Interp.globalObject i)) s1
                          else s1) :: rest)) i)).
    - rewrite (updateTop_at _ _ _ _ (stateStack_set _ _)).
      rewrite set_stateStack_twice. reflexivity.
    - rewrite (bind_Return topState _ i1 _ i1 (topState_at i1 _ _ Hs1)).
      case_bool_decide.
      + rewrite (bind_Return (gets id) _ i1 _ i1 eq_refl). cbn beta. unfold id.
        rewrite (updateTop_at _ _ _ _ Hs1). unfold i1. rewrite set_stateStack_twice.
        by destruct i.
      + unfold i1. by rewrite set_stateStack_twice || destruct i. }
  rewrite (bind_Return _ _ i1 _ i' HB).
  by rewrite (bind_Return topState _ i' _ i' (topState_at i' _ _ Hs')).
Qed.

(** The handler of calls on a frame whose callee and arguments are
    evaluated, up to the call: the frame is marked executed and the function
    object is looked up. *)
Ltac to_the_call i state Hs Hcallee Hargs Hexec Hfunc Hfo :=
  unfold stepCallExpression; rewrite Hcallee;
  rewrite (bind_Return (ret None) _ i _ i eq_refl);
  rewrite (bind_Return topState _ i _ i (topState_at i _ _ Hs));
  rewrite Hargs; cbn [negb];
  rewrite (bind_Return (ret None) _ i _ i eq_refl);
  rewrite (bind_Return (ret tt) _ i _ i eq_refl);
  rewrite (bind_Return topState _ i _ i (topState_at i _ _ Hs));
  rewrite Hexec; cbn [negb];
  rewrite (bind_Return _ _ i _ _ (updateTop_at i _ _ (State.set_doneExec_ true) Hs));
  match goal with |- context [bind (gets id) ?k ?j] =>
    rewrite (bind_Return (gets id) k j _ j eq_refl) end;
  cbn beta; unfold id; rewrite Hfunc;
  match goal with |- context [bind (lookupObj ?f) ?k ?j] =>
    rewrite (bind_Return (lookupObj f) k j _ j
               (lookupObj_at j f _ ltac:(destruct i; exact Hfo))) end.

Lemma async_call_executes (i : Interpreter) state rest node f fo af n :
  Interp.stateStack i = Some (state :: rest) ->
  State.doneCallee_ state = CalleeTwo ->
  State.doneArgs_ state = true ->
  State.doneExec_ state = false ->
  State.func_ state = VObject f ->
  Interp.heap i !! f = Some fo ->
  Obj.eval fo = false ->
  Obj.nativeFunc fo = None ->
  Obj.asyncFunc fo = Some (af, n) ->
  n <> 0%nat ->
  exists i',
    stepCallExpression state node i = Return None i'
    /\ Interp.heap i' = Interp.heap i
    /\ let '(host', called) :=
         asyncFunction af (Interp.host i) (forceLength (n - 1) (State.arguments_ state)) in
       Interp.host i' = host'
       /\ match called with
          | None =>
              Interp.paused_ i' = true
              /\ Interp.stateStack i' = Some (State.set_doneExec_ true state :: rest)
          | Some value =>
              Interp.paused_ i' = false
              /\ Interp.stateStack i'
                 = Some (State.set_value value (State.set_doneExec_ true state) :: rest)
          end.
Proof.
  intros Hs Hcallee Hargs Hexec Hfunc Hfo Heval Hnative Hasync Hn.
  to_the_call i state Hs Hcallee Hargs Hexec Hfunc Hfo.
  rewrite Heval, Hnative, Hasync.
  destruct n as [|n]; [done|]. cbn [Nat.eqb].
  set (i1 := Interp.set_stateStack (Some (State.set_doneExec_ true state :: rest)) i).
  rewrite (bind_Return (ret tt) _ i1 _ i1 eq_refl).
  unfold bind at 1, modify at 1.
  unfold bind at 1, gets at 1. cbn beta. unfold id.
  assert (Hhost : Interp.host (Interp.set_paused_ true i1) = Interp.host i).
  { unfold i1. by destruct i. }
  rewrite Hhost.
  destruct (asyncFunction af (Interp.host i)
              (forceLength (S n - 1) (State.arguments_ state))) as [host' [value|]].
  - eexists. split; [reflexivity|]. unfold i1. by destruct i.
  - eexists. split; [reflexivity|]. unfold i1. by destruct i.
Qed.

(** *** Calls of async functions *)

(** X16: the call of an async function, when its last argument has been
    evaluated: the handler marks the frame executed and hands the function
    the arguments cut or padded to its length less one (the callback is the
    last).  If the function has not called back when it returns, the
    interpreter is paused; if it has, the interpreter is not paused and the
    value given to the callback is the frame's value.  The heap is
    untouched. *)
Theorem async_call_pauses_until_called_back
    (i : Interpreter) state rest e callee arguments f fo af n :
  Interp.stateStack i = Some (state :: rest) ->
  State.doneCallee_ state = CalleeTwo ->
  State.doneArgs_ state = false ->
  State.doneExec_ state = false ->
  arguments !! State.n_ state = None ->
  State.func_ state = VObject f ->
  Interp.heap i !! f = Some fo ->
  Obj.eval fo = false ->
  Obj.nativeFunc fo = None ->
  Obj.asyncFunc fo = Some (af, n) ->
  n <> 0%nat ->
  let frame := State.set_doneExec_ true (argumentsDone state i) in
  exists i',
    stepCallExpression state (CallExpression e callee arguments) i = Return None i'
    /\ Interp.heap i' = Interp.heap i
    /\ let '(host', called) :=
         asyncFunction af (Interp.host i) (forceLength (n - 1) (State.arguments_ frame)) in
       Interp.host i' = host'
       /\ match called with
          | None =>
              Interp.paused_ i' = true
              /\ Interp.stateStack i' = Some (frame :: rest)
          | Some value =>
              Interp.paused_ i' = false
              /\ Interp.stateStack i' = Some (State.set_value value frame :: rest)
          end.
Proof.
  intros Hs Hcallee Hargs Hexec Hlast Hfunc Hfo Heval Hnative Hasync Hn frame.
  rewrite (call_with_arguments_done i state rest e callee arguments Hs Hcallee Hargs Hlast).
  destruct (argumentsDone_flags state i) as [Hcallee' Hargs'].
  destruct (argumentsDone_fields state i) as [Hexec' Hfunc'].
  set (i1 := Interp.set_stateStack (Some (argumentsDone state i :: rest)) i).
  destruct (async_call_executes i1 (argumentsDone state i) rest
              (CallExpression e callee arguments) f fo af n)
    as (i' & Hret & Hheap & Hcall); try done; try congruence.
  exists i'. split; [done|]. split; [rewrite Hheap; unfold i1; by destruct i|].
  assert (Hhost : Interp.host i1 = Interp.host i) by (unfold i1; by destruct i).
  rewrite Hhost in Hcall.
  assert (Hframe : State.arguments_ frame = State.arguments_ (argumentsDone state i)).
  { unfold frame. by destruct (argumentsDone state i). }
  rewrite Hframe. exact Hcall.
Qed.

(** *** Calls of host functions *)

Lemma same_createFunctionBase_ n c : sameStack (createFunctionBase_ n c).
Proof. unfold createFunctionBase_. same. Qed.
#[local] Hint Resolve same_createFunctionBase_ : same.

Lemma same_createNativeFunction f n c : sameStack (createNativeFunction f n c).
Proof. unfold createNativeFunction. same. Qed.
#[local] Hint Resolve same_createNativeFunction : same.

Lemma same_populateRegExp l s f n : sameStack (populateRegExp l s f n).
Proof. unfold populateRegExp. same. Qed.
#[local] Hint Resolve same_populateRegExp : same.

Lemma same_nativeToPseudo n : sameStack (nativeToPseudo n).
Proof.
  induction n using Native_induction; cbn [nativeToPseudo]; same.
  - generalize 0. induction H as [|[e|] slots He Hs IHs]; intros z; same.
  - induction H as [|[k e] entries He Hs IHs]; same.
Qed.
#[local] Hint Resolve same_nativeToPseudo : same.

Lemma same_pseudoToNative_ fuel v cycles : sameStack (pseudoToNative_ fuel v cycles).
Proof.
  revert v cycles. induction fuel as [|fuel IH]; intros v cycles;
    cbn [pseudoToNative_]; same.
  - match goal with |- sameStack (_ ?l) => induction l; same end.
  - match goal with |- sameStack (_ ?l) => induction l; same end.
Qed.
#[local] Hint Resolve same_pseudoToNative_ : same.

Lemma same_pseudoToNative v : sameStack (pseudoToNative v).
Proof. unfold pseudoToNative. same. Qed.
#[local] Hint Resolve same_pseudoToNative : same.

Lemma same_mapM {A B} (f : A -> Eng B) l :
  (forall a, sameStack (f a)) -> sameStack (mapM f l).
Proof. intros H. induction l; cbn [mapM]; same. Qed.

Lemma sameStack_Return {A} (m : Eng A) (i i' : Interpreter) a :
  sameStack m -> m i = Return a i' -> Interp.stateStack i' = Interp.stateStack i.
Proof. intros Hm H. specialize (Hm i). by rewrite H in Hm. Qed.

Lemma host_call_executes (i : Interpreter) state rest node f fo hf :
  Interp.stateStack i = Some (state :: rest) ->
  State.doneCallee_ state = CalleeTwo ->
  State.doneArgs_ state = true ->
  State.doneExec_ state = false ->
  State.func_ state = VObject f ->
  Interp.heap i !! f = Some fo ->
  Obj.eval fo = false ->
  Obj.nativeFunc fo = Some (NativeWrapper hf) ->
  let frame := State.set_doneExec_ true state in
  forall nativeArgs i2,
    mapM pseudoToNative (State.arguments_ state)
      (Interp.set_stateStack (Some (frame :: rest)) i) = Return nativeArgs i2 ->
    match hostFunction hf (Interp.host i2) nativeArgs with
    | (host', HostThrows err) =>
        stepCallExpression state node i = HostThrow err (Interp.set_host host' i2)
    | (host', HostReturns value) =>
        forall v i3,
          nativeToPseudo value (Interp.set_host host' i2) = Return v i3 ->
          stepCallExpression state node i
          = Return None (Interp.set_stateStack (Some (State.set_value v frame :: rest)) i3)
    end.
Proof.
  intros Hs Hcallee Hargs Hexec Hfunc Hfo Heval Hnative frame nativeArgs i2 Hmap.
  assert (Hs2 : Interp.stateStack i2 = Some (frame :: rest)).
  { rewrite (sameStack_Return _ _ _ _ (same_mapM _ _ same_pseudoToNative) Hmap).
    apply stateStack_set. }
  destruct (hostFunction hf (Interp.host i2) nativeArgs) as [host' [value|err]] eqn:Hhost.
  - intros v i3 Hback.
    to_the_call i state Hs Hcallee Hargs Hexec Hfunc Hfo.
    rewrite Heval, Hnative. unfold applyNative.
    fold frame.
    match goal with |- context [bind (bind (mapM ?g ?l) ?k1) ?k2 ?j] =>
      rewrite (bind_Return (bind (mapM g l) k1) k2 j v i3) end.
    + assert (Hs3 : Interp.stateStack i3 = Some (frame :: rest)).
      { rewrite (sameStack_Return _ _ _ _ (same_nativeToPseudo _) Hback).
        by destruct i2. }
      by rewrite (bind_Return _ _ i3 _ _ (updateTop_at i3 _ _ _ Hs3)).
    + rewrite (bind_Return _ _ _ _ _ Hmap).
      rewrite (bind_Return (gets id) _ i2 _ i2 eq_refl). cbn beta. unfold id.
      rewrite Hhost.
      by rewrite (bind_Return (modify _) _ i2 tt (Interp.set_host host' i2) eq_refl).
  - to_the_call i state Hs Hcallee Hargs Hexec Hfunc Hfo.
    rewrite Heval, Hnative. unfold applyNative.
    fold frame. unfold bind at 1. unfold bind at 1. rewrite Hmap.
    unfold bind at 1, gets at 1. cbn beta. unfold id. rewrite Hhost.
    reflexivity.
Qed.

(** X17: the call of a host function wrapped by [nativeToPseudo], when its
    last argument has been evaluated: the handler marks the frame executed,
    converts the arguments to host values and calls the function with them.
    A result is converted to a guest value and becomes the frame's value;
    an exception of the host function leaves the handler as a host error,
    which no guest [try] catches, with the host's state as the function
    left it. *)
Theorem host_function_call (i : Interpreter) state rest e callee arguments f fo hf :
  Interp.stateStack i = Some (state :: rest) ->
  State.doneCallee_ state = CalleeTwo ->
  State.doneArgs_ state = false ->
  State.doneExec_ state = false ->
  arguments !! State.n_ state = None ->
  State.func_ state = VObject f ->
  Interp.heap i !! f = Some fo ->
  Obj.eval fo = false ->
  Obj.nativeFunc fo = Some (NativeWrapper hf) ->
  let frame := State.set_doneExec_ true (argumentsDone state i) in
  forall nativeArgs i2,
    mapM pseudoToNative (State.arguments_ frame)
      (Interp.set_stateStack (Some (frame :: rest)) i) = Return nativeArgs i2 ->
    match hostFunction hf (Interp.host i2) nativeArgs with
    | (host', HostThrows err) =>
        stepCallExpression state (CallExpression e callee arguments) i
        = HostThrow err (Interp.set_host host' i2)
    | (host', HostReturns value) =>
        forall v i3,
          nativeToPseudo value (Interp.set_host host' i2) = Return v i3 ->
          stepCallExpression state (CallExpression e callee arguments) i
          = Return None (Interp.set_stateStack (Some (State.set_value v frame :: rest)) i3)
    end.
Proof.
  intros Hs Hcallee Hargs Hexec Hlast Hfunc Hfo Heval Hnative frame nativeArgs i2 Hmap.
  rewrite (call_with_arguments_done i state rest e callee arguments Hs Hcallee Hargs Hlast).
  destruct (argumentsDone_flags state i) as [Hcallee' Hargs'].
  destruct (argumentsDone_fields state i) as [Hexec' Hfunc'].
  set (i1 := Interp.set_stateStack (Some (argumentsDone state i :: rest)) i).
  apply (host_call_executes i1 (argumentsDone state i) rest
           (CallExpression e callee arguments) f fo hf); try done; congruence.
Qed.

(** *** Dates and regular expressions through the bridge *)

Lemma builtinPrototype_extends b k (i i' : Interpreter) c :
  extends k i i' -> (b <= k)%nat -> builtinPrototype b i' c = builtinPrototype b i c.
Proof.
  intros (Hi' & Hlen & Hagree) Hbk. destruct c as [c|]; [|done]. unfold builtinPrototype.
  destruct (c <? b)%nat eqn:Hc; [|done]. apply Nat.ltb_lt in Hc. by rewrite Hagree by lia.
Qed.

Lemma instancesReady_facts b (i : Interpreter) q c others :
  instancesReady b i q c others = true ->
  bridgeReady b i = true
  /\ exists q' oq op oo,
       q = Some q' /\ (q' < b)%nat
       /\ Interp.heap i !! q' = Some oq /\ Obj.proto oq = Some op
       /\ Interp.OBJECT_PROTO i = Some op
       /\ Interp.heap i !! op = Some oo /\ Obj.proto oo = None
       /\ builtinPrototype b i c = Some q'
       /\ forall c', c' ∈ others ->
                     exists p, builtinPrototype b i c' = Some p /\ p <> q' /\ p <> op.
Proof.
  unfold instancesReady. intros [Hr H]%andb_prop. split; [done|].
  destruct q as [q'|]; [|done].
  apply andb_prop in H as [[[Hq Hoq]%andb_prop Hc]%andb_prop Hall].
  apply Nat.ltb_lt in Hq. apply bool_decide_eq_true_1 in Hc.
  destruct (Interp.heap i !! q') as [oq|] eqn:Hlook; [|done].
  apply andb_prop in Hoq as [Hsome Hproto]. apply bool_decide_eq_true_1 in Hproto.
  destruct (bridgeReady_facts b i Hr)
    as (_ & _ & _ & _ & op & ap & oo & ao & Hop & _ & _ & _ & _ & (Hoo & Hoop & _) & _).
  exists q', oq, op, oo. rewrite Hproto, Hop. repeat (split; [done|]).
  intros c' Hc'. rewrite forallb_forall in Hall.
  specialize (Hall c' (proj1 (list_elem_of_In _ _) Hc')).
  destruct (builtinPrototype b i c') as [p|]; [|done].
  apply andb_prop in Hall as [H1 H2]. apply bool_decide_eq_true_1 in H1, H2.
  exists p. split; [done|]. split; [done|]. intros ->. apply H2. by rewrite Hop.
Qed.

Lemma instancesReady_extends b k (i i' : Interpreter) q c others :
  instancesReady b i q c others = true -> extends k i i' -> (b <= k)%nat ->
  instancesReady b i' q c others = true.
Proof.
  unfold instancesReady. intros [Hr H]%andb_prop Hext Hbk.
  rewrite (bridgeReady_extends b k i i' Hr Hext Hbk). cbn [andb].
  destruct q as [q'|]; [|done].
  apply andb_prop in H as [[[Hq Hoq]%andb_prop Hc]%andb_prop Hall].
  rewrite Hq. cbn [andb]. apply Nat.ltb_lt in Hq.
  pose proof Hext as (Hi' & _ & Hagree).
  assert (Hop : Interp.OBJECT_PROTO i' = Interp.OBJECT_PROTO i) by (by rewrite Hi').
  rewrite Hagree by lia. rewrite Hop, Hoq. cbn [andb].
  rewrite (builtinPrototype_extends b k i i' c Hext Hbk), Hc. cbn [andb].
  apply forallb_forall. intros c' Hc'. rewrite forallb_forall in Hall.
  rewrite (builtinPrototype_extends b k i i' c' Hext Hbk). by apply Hall.
Qed.

(** [isa] for an instance the bridge makes of such a class. *)
Lemma isa_instance b (i : Interpreter) q c others l o :
  instancesReady b i (Some q) c others = true ->
  Interp.heap i !! l = Some o -> (b <= l)%nat -> Obj.proto o = Some q ->
  isa (VObject l) c i = Return true i
  /\ forall c', c' ∈ others -> isa (VObject l) c' i = Return false i.
Proof.
  intros (Hr & q' & oq & op & oo & [= <-] & Hqb & Hoq & Hqp & Hop & Hoo & Hoop & Hc & Hall)
           %instancesReady_facts Ho Hbl Hproto.
  assert (Hne : q <> op). { intros ->. congruence. }
  assert (Hlen : (2 <= length (Interp.heap i))%nat).
  { apply lookup_lt_Some in Hoq, Hoo. lia. }
  assert (Hisa : forall c0 p, builtinPrototype b i c0 = Some p -> p <> op ->
                              isa (VObject l) c0 i = Return (bool_decide (q = p)) i).
  { intros c0 p Hc0 Hpo.
    destruct (builtinPrototype_spec b i c0 p Hc0) as (c' & co & -> & Hcb & Hco & Hpp & Hpb).
    apply (isa_on_chain i l o q oq c' co p); try done; [lia|].
    rewrite Hqp. exists oo. split; [done|]. split; [done|]. by intros ->. }
  split.
  - rewrite (Hisa c q Hc Hne). by rewrite bool_decide_eq_true_2.
  - intros c' Hc'. destruct (Hall c' Hc') as (p & Hp & Hpq & Hpo).
    rewrite (Hisa c' p Hp Hpo). by rewrite bool_decide_eq_false_2.
Qed.

Lemma createObjectProto_instance b (i : Interpreter) q c others :
  instancesReady b i (Some q) c others = true ->
  Interp.ERROR i ∈ others ->
  createObjectProto (VObject q) i
  = Return (length (Interp.heap i)) (grown (Obj.new (Some q)) i).
Proof.
  intros Hr He. unfold createObjectProto.
  set (i1 := grown (Obj.new (Some q)) i).
  assert (Halloc : allocObj (Obj.new (Some q)) i = Return (length (Interp.heap i)) i1).
  { done. }
  rewrite (bind_Return _ _ i _ i1 Halloc).
  rewrite (bind_Return (gets id) _ i1 _ i1 eq_refl). cbn beta. unfold id.
  pose proof (instancesReady_facts _ _ _ _ _ Hr) as (Hbr & _).
  destruct (bridgeReady_facts b i Hbr) as (_ & _ & _ & Hb & _).
  pose proof (instancesReady_extends b _ i i1 _ _ _ Hr (extends_grown _ i) Hb) as Hr1.
  destruct (isa_instance b i1 q c others _ _ Hr1 (grown_lookup _ i) Hb eq_refl) as [_ Hno].
  assert (He1 : Interp.ERROR i1 = Interp.ERROR i) by (unfold i1, grown; by destruct i).
  rewrite He1. by rewrite (bind_Return _ _ i1 _ i1 (Hno _ He)).
Qed.

(** X18: a host date handed to the guest and back is the same date: in a
    state where [Date.prototype] sits on top of [Object.prototype] and is
    the prototype of no other built-in class, [nativeToPseudo] makes one new
    guest object, and [pseudoToNative] reads from it the time value it was
    made from. *)
Theorem date_round_trip b (i : Interpreter) ms :
  instancesReady b i (Interp.DATE_PROTO i) (Interp.DATE i)
    [Interp.ERROR i; Interp.REGEXP i] = true ->
  exists o,
    let l := length (Interp.heap i) in
    nativeToPseudo (NativeDate ms) i = Return (VObject l) (grown o i)
    /\ pseudoToNative (VObject l) (grown o i) = Return (NativeDate ms) (grown o i).
Proof.
  intros Hr.
  pose proof (instancesReady_facts _ _ _ _ _ Hr) as (Hbr & dp & _ & _ & _ & Hdp & _).
  destruct (bridgeReady_facts b i Hbr) as (_ & _ & _ & Hb & _).
  rewrite Hdp in Hr.
  set (l := length (Interp.heap i)).
  set (o := Obj.set_data (DataDate ms) (Obj.new (Some dp))).
  exists o. cbv zeta. fold l.
  assert (Hmake : nativeToPseudo (NativeDate ms) i = Return (VObject l) (grown o i)).
  { cbn [nativeToPseudo].
    rewrite (bind_Return (gets id) _ i _ i eq_refl). cbn beta. unfold id.
    rewrite Hdp. cbn [fieldValue].
    rewrite (bind_Return _ _ i _ _
               (createObjectProto_instance b i dp _ _ Hr ltac:(apply list_elem_of_here))).
    rewrite (bind_Return _ _ _ _ _ (updateObj_at _ l _)).
    by rewrite updated_grown. }
  split; [done|].
  set (i' := grown o i).
  pose proof (instancesReady_extends b _ i i' _ _ _ Hr (extends_grown _ i) Hb) as Hr'.
  assert (Ho : Interp.heap i' !! l = Some o) by apply grown_lookup.
  destruct (isa_instance b i' dp _ _ l o Hr' Ho Hb eq_refl) as [Hdate Hno].
  assert (Hf : Interp.REGEXP i' = Interp.REGEXP i /\ Interp.DATE i' = Interp.DATE i).
  { unfold i', grown. by destruct i. }
  destruct Hf as [Hre Hda].
  unfold pseudoToNative.
  rewrite (bind_Return (gets id) _ i' _ i' eq_refl). cbn beta. unfold id.
  rewrite pseudoToNative__object.
  rewrite (bind_Return (gets id) _ i' _ i' eq_refl). cbn beta. unfold id.
  rewrite Hre, Hda.
  rewrite (bind_Return _ _ i' _ i'
             (Hno _ ltac:(apply list_elem_of_further, list_elem_of_here))).
  rewrite (bind_Return _ _ i' _ i' Hdate).
  by rewrite (bind_Return _ _ i' _ i' (lookupObj_at i' l o Ho)).
Qed.

(** The definition of a property on an instance the bridge makes of such a
    class. *)
Lemma define_on_instance b (i : Interpreter) q c others l o name value d ps :
  instancesReady b i (Some q) c others = true ->
  Interp.STRING i ∈ others ->
  Interp.heap i !! l = Some o -> (b <= l)%nat -> Obj.proto o = Some q ->
  Obj.class o <> "Array" -> Obj.preventExtensions o = false ->
  mixedDescriptor (Some d) = false ->
  props_define name (hostDescriptorOf d (definedValue d value)) (Obj.properties o) = Some ps ->
  setProperty (VObject l) name value (Some d) i
  = Return VUndefined
      (updated l (fun _ => Obj.set_properties ps (accessorsAfter d value name o)) i).
Proof.
  intros Hr Hs Ho Hbl Hq Hc Hpe Hd Hps.
  pose proof (instancesReady_facts _ _ _ _ _ Hr) as (Hbr & _).
  destruct (bridgeReady_facts b i Hbr) as (Hss & _ & (strict & Hst) & _).
  destruct (isa_instance b i q c others l o Hr Ho Hbl Hq) as [_ Hno].
  assert (Hrec : receiver i l = Some (o, strict)).
  { unfold receiver. by rewrite Hss, Ho, Hst, (Hno _ Hs). }
  rewrite (setProperty_receiver i l o strict _ _ (Some d) Hrec Hd).
  rewrite (setProperty_object_plain i l o strict _ _ (Some d) Hrec).
  - unfold admits. rewrite Hpe. cbn [andb negb].
    by rewrite (setProperty_define_at i l o _ _ d Ho), Hps.
  - unfold noMagic. by rewrite bool_decide_eq_false_2.
Qed.

Lemma define_on_new b (i : Interpreter) q c others o name value d ps :
  instancesReady b i (Some q) c others = true ->
  Interp.STRING i ∈ others ->
  Obj.proto o = Some q ->
  Obj.class o <> "Array" -> Obj.preventExtensions o = false ->
  mixedDescriptor (Some d) = false ->
  props_define name (hostDescriptorOf d (definedValue d value)) (Obj.properties o) = Some ps ->
  setProperty (VObject (length (Interp.heap i))) name value (Some d) (grown o i)
  = Return VUndefined (grown (Obj.set_properties ps (accessorsAfter d value name o)) i).
Proof.
  intros Hr Hs Hq Hc Hpe Hd Hps.
  pose proof (instancesReady_facts _ _ _ _ _ Hr) as (Hbr & _).
  destruct (bridgeReady_facts b i Hbr) as (_ & _ & _ & Hb & _).
  pose proof (instancesReady_extends b _ i (grown o i) _ _ _ Hr (extends_grown _ i) Hb) as Hr'.
  assert (Hs' : Interp.STRING (grown o i) ∈ others).
  { unfold grown. by destruct i. }
  rewrite (define_on_instance b (grown o i) q c others _ o name value d ps
             Hr' Hs' (grown_lookup o i) Hb Hq Hc Hpe Hd Hps).
  by rewrite updated_grown.
Qed.

(** X19: a host regular expression handed to the guest and back keeps its
    source and flags and loses its [lastIndex]: [nativeToPseudo] makes one
    new guest object, whose [lastIndex] property holds the host's
    [lastIndex], and [pseudoToNative] makes of it a regular expression of
    the same source and flags with [lastIndex] 0. *)
Theorem regexp_round_trip_resets_lastIndex b (i : Interpreter) source flags lastIndex :
  instancesReady b i (Interp.REGEXP_PROTO i) (Interp.REGEXP i)
    [Interp.ERROR i; Interp.STRING i] = true ->
  exists o,
    let l := length (Interp.heap i) in
    nativeToPseudo (NativeRegExp source flags lastIndex) i = Return (VObject l) (grown o i)
    /\ props_get "lastIndex" (Obj.properties o) = VNumber (NInt lastIndex)
    /\ pseudoToNative (VObject l) (grown o i)
       = Return (NativeRegExp source flags 0) (grown o i).
Proof.
  intros Hr.
  pose proof (instancesReady_facts _ _ _ _ _ Hr) as (Hbr & rp & _ & _ & _ & Hrp & _).
  destruct (bridgeReady_facts b i Hbr) as (_ & _ & _ & Hb & _).
  rewrite Hrp in Hr.
  assert (Hs : Interp.STRING i ∈ [Interp.ERROR i; Interp.STRING i]).
  { apply list_elem_of_further, list_elem_of_here. }
  set (l := length (Interp.heap i)).
  eexists. cbv zeta. fold l. split; [|split].
  - cbn [nativeToPseudo].
    rewrite (bind_Return (gets id) _ i _ i eq_refl). cbn beta. unfold id.
    rewrite Hrp. cbn [fieldValue].
    rewrite (bind_Return _ _ i _ _
               (createObjectProto_instance b i rp _ _ Hr ltac:(apply list_elem_of_here))).
    erewrite (bind_Return (populateRegExp _ _ _ _) _ (grown _ i) tt); [reflexivity|].
    unfold populateRegExp.
    rewrite (bind_Return _ _ _ _ _ (updateObj_at _ l _)).
    rewrite updated_grown by done.
    repeat match goal with
    | |- bind (setProperty (VObject _) ?name ?value (Some ?d)) ?k (grown ?o i) = _ =>
        let r := eval cbv in (props_define name (hostDescriptorOf d (definedValue d value))
                                (Obj.properties o)) in
        match r with
        | Some ?ps =>
            rewrite (bind_Return _ k (grown o i) VUndefined _
                       (define_on_new b i rp _ _ o name value d ps Hr Hs eq_refl
                          ltac:(done) eq_refl eq_refl eq_refl))
        end
    end.
    reflexivity.
  - reflexivity.
  - match goal with |- pseudoToNative _ (grown ?o _) = _ => set (o' := o) end.
    set (i' := grown o' i).
    pose proof (instancesReady_extends b _ i i' _ _ _ Hr (extends_grown _ i) Hb) as Hr'.
    assert (Ho : Interp.heap i' !! l = Some o') by apply grown_lookup.
    destruct (isa_instance b i' rp _ _ l o' Hr' Ho Hb eq_refl) as [Hregexp _].
    assert (Hre : Interp.REGEXP i' = Interp.REGEXP i) by (unfold i', grown; by destruct i).
    unfold pseudoToNative.
    rewrite (bind_Return (gets id) _ i' _ i' eq_refl). cbn beta. unfold id.
    rewrite pseudoToNative__object.
    rewrite (bind_Return (gets id) _ i' _ i' eq_refl). cbn beta. unfold id.
    rewrite Hre.
    rewrite (bind_Return _ _ i' _ i' Hregexp).
    by rewrite (bind_Return _ _ i' _ i' (lookupObj_at i' l o' Ho)).
Qed.

(** *** The scope of a catch clause *)

(** [isa] on an object without prototype. *)
Lemma isa_null_proto (i : Interpreter) l o c co :
  Interp.heap i !! l = Some o -> Obj.proto o = None ->
  Interp.heap i !! c = Some co ->
  props_get "prototype" (Obj.properties co) <> VObject l ->
  isa (VObject l) (Some c) i = Return false i.
Proof.
  intros Ho Hp Hc Hne. unfold isa.
  rewrite (bind_Return _ _ i _ i (lookupObj_at i c co Hc)).
  assert (Hse : strict_equals (VObject l) (props_get "prototype" (Obj.properties co)) = false).
  { unfold strict_equals. apply bool_decide_eq_false_2. congruence. }
  rewrite Hse.
  rewrite (bind_Return _ _ i _ i (getPrototype_at i l o Ho)), Hp.
  by rewrite (bind_Return (gets Interp.heap) _ i _ i eq_refl).
Qed.

Lemma isa_null_proto_builtin b (i : Interpreter) l o c :
  bridgeReady b i = true ->
  Interp.heap i !! l = Some o -> (b <= l)%nat -> Obj.proto o = None ->
  c ∈ [Interp.STRING i; Interp.ERROR i; Interp.REGEXP i; Interp.DATE i] ->
  isa (VObject l) c i = Return false i.
Proof.
  intros Hr Ho Hbl Hp Hc.
  destruct (bridgeReady_facts b i Hr)
    as (_ & _ & _ & _ & op & ap & oo & ao & _ & _ & _ & _ & _ & _ & _ & _ & Hall).
  destruct (Hall c Hc) as (p & Hbp & _).
  destruct (builtinPrototype_spec b i c p Hbp) as (c' & co & -> & _ & Hco & Hpp & Hpb).
  apply (isa_null_proto i l o c' co Ho Hp Hco). rewrite Hpp. intros [= ->]. lia.
Qed.

(** A new object without prototype, and the first assignment to it. *)
Lemma createObjectProto_null b (i : Interpreter) :
  bridgeReady b i = true ->
  createObjectProto VNull i = Return (length (Interp.heap i)) (grown (Obj.new None) i).
Proof.
  intros Hr. unfold createObjectProto.
  set (i1 := grown (Obj.new None) i).
  assert (Halloc : allocObj (Obj.new None) i = Return (length (Interp.heap i)) i1) by done.
  rewrite (bind_Return _ _ i _ i1 Halloc).
  rewrite (bind_Return (gets id) _ i1 _ i1 eq_refl). cbn beta. unfold id.
  destruct (bridgeReady_facts b i Hr) as (_ & _ & _ & Hb & _).
  pose proof (bridgeReady_extends b _ i i1 Hr (extends_grown _ i) Hb) as Hr1.
  rewrite (bind_Return _ _ i1 _ i1
             (isa_null_proto_builtin b i1 _ _ _ Hr1 (grown_lookup _ i) Hb eq_refl
                ltac:(apply list_elem_of_further, list_elem_of_here))).
  done.
Qed.

Lemma setProperty_on_new_null b (i : Interpreter) name v :
  bridgeReady b i = true ->
  setProperty (VObject (length (Interp.heap i))) name (Given v) None (grown (Obj.new None) i)
  = Return VUndefined
      (grown (Obj.set_properties [(name, mkProperty v true true true)] (Obj.new None)) i).
Proof.
  intros Hr.
  set (l := length (Interp.heap i)). set (o := Obj.new None). set (i1 := grown o i).
  destruct (bridgeReady_facts b i Hr) as (_ & _ & _ & Hb & _).
  pose proof (bridgeReady_extends b _ i i1 Hr (extends_grown _ i) Hb) as Hr1.
  destruct (bridgeReady_facts b i1 Hr1) as (Hss & _ & (strict & Hst) & _).
  assert (Ho : Interp.heap i1 !! l = Some o) by apply grown_lookup.
  assert (Hrec : receiver i1 l = Some (o, strict)).
  { unfold receiver. rewrite Hss, Ho, Hst.
    by rewrite (isa_null_proto_builtin b i1 l o _ Hr1 Ho Hb eq_refl
                  ltac:(apply list_elem_of_here)). }
  rewrite (setProperty_receiver i1 l o strict _ _ None Hrec eq_refl).
  rewrite (setProperty_object_plain i1 l o strict _ _ None Hrec eq_refl).
  cbn [admits]. unfold admits. cbn [Obj.preventExtensions o Obj.new andb negb].
  assert (Hfind : findDefObj (S (length (Interp.heap i1))) l l name i1 = Return l i1).
  { rewrite findDefObj_S.
    rewrite (bind_Return _ _ i1 _ i1 (lookupObj_at i1 l o Ho)). cbn [Obj.properties o Obj.new].
    cbn [props_has props_lookup].
    by rewrite (bind_Return _ _ i1 _ i1 (getPrototype_at i1 l o Ho)). }
  rewrite (setProperty_assign_found i1 l o l o name v strict Ho Hfind Ho).
  cbn [Obj.setter Obj.getter o Obj.new]. rewrite !truthyEntry_empty.
  cbn [Obj.properties o Obj.new]. unfold props_assign. cbn [props_lookup app].
  unfold i1. by rewrite updated_grown.
Qed.

(** X21: a catch clause binds its parameter to the thrown value: in a state
    as the constructor leaves it, where the scope objects of the global
    scope are in the heap, the handler of a [CatchClause] frame that
    has not run marks the frame, creates one scope object without prototype
    whose only entry is the parameter, holding the frame's [throwValue], and
    answers with the frame of the body in the scope made of that object on
    top of the frame's scope; once [step] has pushed that frame, the
    parameter reads as the thrown value. *)
Theorem catch_binds_the_thrown_value b (i : Interpreter) state rest e param body :
  bridgeReady b i = true ->
  Interp.stateStack i = Some (state :: rest) ->
  State.done_ state = false ->
  forallb (fun g => (object g <? length (Interp.heap i))%nat) (Interp.globalScope i) = true ->
  let l := length (Interp.heap i) in
  let scope := mkScopeEntry (scopeStrict (State.scope state)) l :: State.scope state in
  let next := State.new body scope in
  let i' := Interp.set_stateStack (Some (State.set_done_ true state :: rest))
              (grown (Obj.set_properties
                        [(param, mkProperty (State.throwValue state) true true true)]
                        (Obj.new None)) i) in
  let pushed := Interp.set_stateStack (Some (next :: State.set_done_ true state :: rest)) i' in
  stepCatchClause state (CatchClause e param body) i = Return (Some next) i'
  /\ getValueFromScope param pushed = Return (State.throwValue state) pushed.
Proof.
  intros Hr Hs Hdone Hglobal l scope next i' pushed.
  set (o := Obj.set_properties [(param, mkProperty (State.throwValue state) true true true)]
              (Obj.new None)).
  destruct (bridgeReady_facts b i Hr) as (_ & _ & (strict & Hst) & Hb & _).
  assert (Hscope : State.scope state <> []).
  { unfold currentStrict in Hst. rewrite Hs in Hst. by destruct (State.scope state). }
  set (i1 := Interp.set_stateStack (Some (State.set_done_ true state :: rest)) i).
  assert (Hr1 : bridgeReady b i1 = true).
  { revert Hr. unfold bridgeReady, currentStrict, i1. rewrite Hs.
    destruct i; cbn. by destruct state. }
  assert (Hlen : length (Interp.heap i1) = l) by (unfold i1; by destruct i).
  split.
  - unfold stepCatchClause. rewrite Hdone. cbn [negb].
    rewrite (bind_Return _ _ i _ _ (updateTop_at i _ _ (State.set_done_ true) Hs)).
    fold i1.
    assert (Hcreate : createSpecialScope (State.scope state) i1
                      = Return scope (grown (Obj.new None) i1)).
    { unfold createSpecialScope. destruct (State.scope state) as [|s ss] eqn:Hsc; [done|].
      rewrite (bind_Return _ _ i1 _ _ (createObjectProto_null b i1 Hr1)).
      unfold scope. by rewrite Hlen, ?Hsc. }
    rewrite (bind_Return _ _ i1 _ _ Hcreate). unfold scope at 1. cbn [object].
    rewrite <- Hlen.
    rewrite (bind_Return _ _ _ _ _
               (setProperty_on_new_null b i1 param (State.throwValue state) Hr1)).
    done.
  - assert (Hsp : Interp.stateStack pushed
                  = Some (next :: State.set_done_ true state :: rest))
      by apply stateStack_set.
    assert (Hget : getScope pushed = Return scope pushed).
    { unfold getScope. rewrite (bind_Return (gets Interp.stateStack) _ _ _ _ eq_refl).
      by rewrite Hsp. }
    assert (Ho : Interp.heap pushed !! l = Some o).
    { unfold pushed, i'. destruct i; cbn. by rewrite lookup_app_r, Nat.sub_diag by lia. }
    assert (Hg : Interp.globalScope pushed = Interp.globalScope i).
    { unfold pushed, i', grown. by destruct i. }
    unfold getValueFromScope.
    rewrite (bind_Return _ _ _ _ _ Hget).
    rewrite (bind_Return (gets id) _ pushed _ pushed eq_refl). cbn beta. unfold id.
    assert (Hlook : scopeLookup (Interp.globalScope pushed) scope param pushed
                    = Return (inl (State.throwValue state)) pushed).
    { unfold scope. cbn [scopeLookup object].
      rewrite bool_decide_eq_false_2.
      - rewrite (bind_Return _ _ _ _ _ (lookupObj_at pushed l o Ho)).
        unfold o, props_has, props_get.
        rewrite (proj1 (set_properties_fields _ _)). cbn [props_lookup].
        by rewrite bool_decide_eq_true_2.
      - rewrite Hg. intros Heq. rewrite <- Heq in Hglobal. cbn [forallb object] in Hglobal.
        apply andb_prop in Hglobal as [Hlt _]. apply Nat.ltb_lt in Hlt. lia. }
    by rewrite (bind_Return _ _ _ _ _ Hlook).
Qed.

(** *** [delete] *)

Lemma pop_at (i : Interpreter) top rest :
  Interp.stateStack i = Some (top :: rest) ->
  pop i = Return tt (Interp.set_stateStack (Some rest) i).
Proof. intros Hs. unfold pop, modify. by rewrite Hs. Qed.

(** X22: [delete] of a variable deletes nothing: the reference names a scope,
    which has no [properties], so the host's [delete] throws.  In sloppy
    mode the handler leaves the heap as it is and hands [false] to the frame
    below; in strict mode it throws and does not return. *)
Theorem delete_of_a_variable_deletes_nothing
    (i : Interpreter) state parent rest e argument name :
  Interp.stateStack i = Some (state :: parent :: rest) ->
  State.done_ state = true ->
  State.value state = VScopeReference name ->
  (scopeStrict (State.scope state) = false ->
   stepUnaryExpression state (UnaryExpression e "delete" argument) i
   = Return None
       (Interp.set_stateStack (Some (State.set_value (VBool false) parent :: rest)) i))
  /\ (scopeStrict (State.scope state) = true ->
      forall r i', stepUnaryExpression state (UnaryExpression e "delete" argument) i
                   <> Return r i').
Proof.
  intros Hs Hdone Hvalue.
  set (i1 := Interp.set_stateStack (Some (parent :: rest)) i).
  assert (Hs1 : Interp.stateStack i1 = Some (parent :: rest)) by apply stateStack_set.
  assert (Hstart :
    stepUnaryExpression state (UnaryExpression e "delete" argument) i
    = (value <- deleteReference state None name ;; setTopValue value ;;; ret None) i1).
  { unfold stepUnaryExpression. rewrite Hdone. cbn [negb].
    rewrite (bind_Return _ _ i _ _ (pop_at i _ _ Hs)). fold i1.
    rewrite (bind_Return (gets Interp.heap) _ i1 _ i1 eq_refl).
    repeat (rewrite bool_decide_eq_false_2 by done).
    rewrite bool_decide_eq_true_2 by done. by rewrite Hvalue. }
  rewrite Hstart. split.
  - intros Hsloppy. unfold deleteReference.
    rewrite (bind_Return (bind (ret false) _) _ i1 (VBool false) i1).
    + unfold setTopValue. rewrite (bind_Return _ _ i1 _ _ (updateTop_at i1 _ _ _ Hs1)).
      done.
    + rewrite (bind_Return (ret false) _ i1 _ i1 eq_refl). by rewrite Hsloppy.
  - intros Hstrict r i' Hret. unfold deleteReference in Hret.
    unfold bind at 1 in Hret. rewrite (bind_Return (ret false) _ i1 _ i1 eq_refl) in Hret.
    rewrite Hstrict in Hret.
    rewrite (bind_Return (ret "[object Object]") _ i1 _ i1 eq_refl) in Hret.
    rewrite (bind_Return (gets id) _ i1 _ i1 eq_refl) in Hret.
    match type of Hret with
    | match throwException ?c ?m ?j with _ => _ end = _ =>
        pose proof (throwException_throws c m j) as Ht;
        destruct (throwException c m j); done
    end.
Qed.

(** X23: [delete obj.name] on a guest object removes the entry of that name
    when there is none or a configurable one, and hands [true] to the frame
    below; the object is otherwise as it was, its getter and setter of that
    name included.  On an entry that is not configurable, in sloppy mode, it
    leaves the heap as it is and hands [false] to the frame below. *)
Theorem delete_of_a_property
    (i : Interpreter) state parent rest e argument l o name :
  Interp.stateStack i = Some (state :: parent :: rest) ->
  State.done_ state = true ->
  State.value state = VPropertyReference (VObject l) (VString name) ->
  Interp.heap i !! l = Some o ->
  match props_delete name (Obj.properties o) with
  | Some ps =>
      stepUnaryExpression state (UnaryExpression e "delete" argument) i
      = Return None
          (Interp.set_stateStack (Some (State.set_value (VBool true) parent :: rest))
             (updated l (Obj.set_properties ps) i))
      /\ props_has name ps = false
      /\ forall k, k <> name -> props_lookup k ps = props_lookup k (Obj.properties o)
  | None =>
      scopeStrict (State.scope state) = false ->
      stepUnaryExpression state (UnaryExpression e "delete" argument) i
      = Return None
          (Interp.set_stateStack (Some (State.set_value (VBool false) parent :: rest)) i)
  end.
Proof.
  intros Hs Hdone Hvalue Ho.
  set (i1 := Interp.set_stateStack (Some (parent :: rest)) i).
  assert (Hs1 : Interp.stateStack i1 = Some (parent :: rest)) by apply stateStack_set.
  assert (Ho1 : Interp.heap i1 !! l = Some o) by (unfold i1; by destruct i).
  assert (Hstart :
    stepUnaryExpression state (UnaryExpression e "delete" argument) i
    = (value <- deleteReference state (Some (VObject l)) name ;;
       setTopValue value ;;; ret None) i1).
  { unfold stepUnaryExpression. rewrite Hdone. cbn [negb].
    rewrite (bind_Return _ _ i _ _ (pop_at i _ _ Hs)). fold i1.
    rewrite (bind_Return (gets Interp.heap) _ i1 _ i1 eq_refl).
    repeat (rewrite bool_decide_eq_false_2 by done).
    rewrite bool_decide_eq_true_2 by done. rewrite Hvalue.
    assert (Hname : String_ (VString name) i1 = Return name i1) by done.
    unfold bind. by rewrite Hname. }
  rewrite Hstart. unfold deleteReference.
  destruct (props_delete name (Obj.properties o)) as [ps|] eqn:Hdel.
  - split; [|split].
    + set (i2 := updated l (Obj.set_properties ps) i1).
      rewrite (bind_Return (bind (bind (lookupObj l) _) _) _ i1 (VBool true) i2).
      * assert (Hs2 : Interp.stateStack i2 = Some (parent :: rest)).
        { unfold i2, i1, updated. by destruct i. }
        unfold setTopValue. rewrite (bind_Return _ _ i2 _ _ (updateTop_at i2 _ _ _ Hs2)).
        done.
      * rewrite (bind_Return (bind (lookupObj l) _) _ i1 true i2); [done|].
        rewrite (bind_Return _ _ i1 _ i1 (lookupObj_at i1 l o Ho1)). rewrite Hdel.
        by rewrite (bind_Return _ _ i1 _ _ (updateObj_at i1 l _)).
    + unfold props_delete in Hdel. unfold props_has.
      destruct (props_lookup name (Obj.properties o)) as [p|] eqn:Hl.
      * destruct (p_configurable p); [|done]. injection Hdel as <-.
        by rewrite props_lookup_remove, bool_decide_eq_true_2.
      * injection Hdel as <-. by rewrite Hl.
    + intros k Hk. unfold props_delete in Hdel.
      destruct (props_lookup name (Obj.properties o)) as [p|] eqn:Hl.
      * destruct (p_configurable p); [|done]. injection Hdel as <-.
        by rewrite props_lookup_remove, bool_decide_eq_false_2.
      * by injection Hdel as <-.
  - intros Hsloppy.
    rewrite (bind_Return (bind (bind (lookupObj l) _) _) _ i1 (VBool false) i1).
    + unfold setTopValue. rewrite (bind_Return _ _ i1 _ _ (updateTop_at i1 _ _ _ Hs1)).
      done.
    + rewrite (bind_Return (bind (lookupObj l) _) _ i1 false i1).
      * by rewrite Hsloppy.
      * rewrite (bind_Return _ _ i1 _ i1 (lookupObj_at i1 l o Ho1)). by rewrite Hdel.
Qed.

(** ** The claims about [step] and [run] *)

(** C3, in the order [step] tests: where the stack is empty or the frame on
    top is the [Program] frame marked done, [step] returns [false], paused
    or not; in every other state with [paused_] set it returns [true] and
    leaves the interpreter, its stack included, as it was.  Both hold for
    every table of handlers, so no handler is consulted.  Hence a paused
    interpreter never advances its stack. *)
Theorem step_finished_then_paused :
  forall (stepFunctions_ : string -> State.t -> Node -> Eng (option State.t))
         fuel (i : Interpreter),
    (programFinished i = true -> step stepFunctions_ (S fuel) i = Return false i)
    /\ (Interp.paused_ i = true -> programFinished i = false ->
        Interp.stateStack i <> None ->
        step stepFunctions_ (S fuel) i = Return true i)
    /\ (Interp.paused_ i = true -> Interp.stateStack i <> None ->
        exists b, step stepFunctions_ (S fuel) i = Return b i).
Proof.
  intros stepFunctions_ fuel i. split; [apply step_finished|].
  split; [apply step_paused|]. intros Hp Hs.
  destruct (programFinished i) eqn:Hf.
  - exists false. by apply step_finished.
  - exists true. by apply step_paused.
Qed.


(** C5: where the identifier [name] is bound in no scope of the chain of the
    current frame and is no property of the global object, [getValueFromScope]
    throws a guest [ReferenceError] with the message [name is not defined]
    and does not return; unless the frame on top of the stack is a [typeof]
    expression, where it returns [undefined] and leaves the interpreter as it
    was.  [typeof], stepped with [undefined] as the value of its operand,
    hands the string [undefined] to the frame below. *)
Theorem unresolved_identifier_throws_unless_typeof :
  forall (i : Interpreter) name top rest,
    Interp.stateStack i = Some (top :: rest) ->
    State.scope top <> [] ->
    Interp.globalScope i <> [] ->
    unbound i (State.scope top) name = true ->
    (isTypeofNode (State.node top) = false ->
     getValueFromScope name i
     = throwException (fieldValue (Interp.REFERENCE_ERROR i))
         (Some (name +:+ " is not defined")) i
     /\ forall v i', getValueFromScope name i <> Return v i')
    /\ (isTypeofNode (State.node top) = true ->
        getValueFromScope name i = Return VUndefined i)
    /\ (forall e argument state below rest',
          State.done_ state = true ->
          stepUnaryExpression (State.set_value VUndefined state)
            (UnaryExpression e "typeof" argument)
            (Interp.set_stateStack
               (Some (State.set_value VUndefined state :: below :: rest')) i)
          = Return None
              (Interp.set_stateStack
                 (Some (State.set_value (VString "undefined") below :: rest')) i)).
Proof.
  intros i name top rest Hs Hne Hg Hu.
  pose proof (getValueFromScope_unbound i name top rest Hs Hne Hg Hu) as H.
  split; [|split].
  - intros Ht. rewrite Ht in H. split; [done|]. intros v i'. rewrite H.
    pose proof (throwException_throws (fieldValue (Interp.REFERENCE_ERROR i))
                  (Some (name +:+ " is not defined")) i) as Hthrows.
    by destruct (throwException _ _ i).
  - intros Ht. by rewrite Ht in H.
  - intros e argument state below rest' Hd.
    rewrite (stepUnaryExpression_typeof_undefined _ e argument
               (State.set_value VUndefined state) below rest'); try done.
    all: first [by destruct i | by destruct state].
Qed.

(** C1, with the host constructor the code picks: a [Throw] completion that
    unwinds a stack with no [TryStatement] frame leaves the root [Program]
    frame alone on the stack, marked done, and throws in the host.  A value
    that is no guest [Error] reaches the host as its string conversion.  A
    guest [Error] reaches it as a host error with the guest's message, made
    by the host constructor of the guest's name when that is one of the six
    of [errorTable] and by the host's [Error] for any other name (the names
    [errorTable] inherits apart). *)
Theorem uncaught_throw_becomes_host_error :
  forall (i : Interpreter) value above root,
    Interp.stateStack i = Some (above ++ [root]) ->
    forallb unwindsPast above = true ->
    isProgram root = true ->
    let i' := Interp.set_stateStack (Some [State.set_done true root]) i in
    (forall s,
        isa value (Interp.ERROR i') i' = Return false i' ->
        String_ value i' = Return s i' ->
        unwind THROW value None i = HostThrow (HostString s) i'
        /\ throwException value None i = HostThrow (HostString s) i')
    /\ (forall nameValue name messageValue message text,
          isa value (Interp.ERROR i') i' = Return true i' ->
          getProperty value "name" i' = Return nameValue i' ->
          String_ nameValue i' = Return name i' ->
          getProperty value "message" i' = Return messageValue i' ->
          valueOf messageValue i' = Return message i' ->
          String_ message i' = Return text i' ->
          bool_decide (name ∈ inheritedNames) = false ->
          let hostName :=
            if bool_decide (name ∈ errorTableNames) then name else "Error" in
          unwind THROW value None i = HostThrow (HostErrorObject hostName text) i'
          /\ throwException value None i = HostThrow (HostErrorObject hostName text) i').
Proof.
  intros i value above root Hs Ha Hr i'.
  pose proof (unwind_uncaught_state i value above root Hs Ha Hr) as Hu.
  cbn zeta in Hu. fold i' in Hu. split.
  - intros s His Hstr.
    assert (unwind THROW value None i = HostThrow (HostString s) i') as H.
    { rewrite Hu. rewrite (bind_Return _ _ _ _ _ His).
      by rewrite (bind_Return _ _ _ _ _ Hstr). }
    split; [done|]. by apply throwException_value.
  - intros nameValue name messageValue message text His Hn Hns Hm Hv Ht Hni hostName.
    assert (unwind THROW value None i = HostThrow (HostErrorObject hostName text) i') as H.
    { rewrite Hu. rewrite (bind_Return _ _ _ _ _ His).
      rewrite (bind_Return _ _ _ _ _ Hn), (bind_Return _ _ _ _ _ Hns).
      rewrite (bind_Return _ _ _ _ _ Hm), (bind_Return _ _ _ _ _ Hv).
      rewrite (bind_Return _ _ _ _ _ Ht).
      by rewrite Hni. }
    split; [done|]. by apply throwException_value.
Qed.

(** ** The claims about [setProperty]

    [receiver i l = Some (o, strict)] says that [l] holds the guest object
    [o], no [String] object, that no setter call is outstanding and that the
    current scope is strict or not; [noMagic o name] keeps the write off the
    magic [length] of arrays. *)


(** C7, for writes that do not touch the magic [length] of an array: on an
    object that is not extensible, a key the object lacks is refused, in
    sloppy mode by returning with the interpreter unchanged and in strict
    mode by a guest [TypeError]; a key the object has is defined or assigned
    as on any object, so that a writable entry without accessors takes the
    value. *)
Theorem not_extensible_refuses_new_keys :
  forall (i : Interpreter) l o strict name value d,
    receiver i l = Some (o, strict) ->
    mixedDescriptor d = false ->
    noMagic o name = true ->
    Obj.preventExtensions o = true ->
    (props_has name (Obj.properties o) = false ->
     setProperty (VObject l) name value d i
     = if strict then
         throwException (fieldValue (Interp.TYPE_ERROR i))
           (Some ("Can't add property '" +:+ name +:+ "', object is not extensible")) i
       else Return VUndefined i)
    /\ (props_has name (Obj.properties o) = true ->
        setProperty (VObject l) name value d i
        = match d with
          | Some d => setProperty_define throwException l name value d i
          | None => setProperty_assign throwException l name value strict i
          end)
    /\ (forall v p,
          props_lookup name (Obj.properties o) = Some p ->
          p_writable p = true ->
          truthyEntry (Obj.setter o) name = None ->
          truthyEntry (Obj.getter o) name = None ->
          setProperty (VObject l) name (Given v) None i
          = Return VUndefined
              (updated l
                 (Obj.set_properties
                    (props_update name
                       (mkProperty v true (p_enumerable p) (p_configurable p))
                       (Obj.properties o))) i)).
Proof.
  intros i l o strict name value d Hr Hd Hm Hpe.
  pose proof (receiver_Some _ _ _ _ Hr) as (_ & Ho & _ & _).
  split; [|split].
  - intros Hh. rewrite (setProperty_receiver i l o strict) by done.
    rewrite (setProperty_object_plain i l o strict) by done.
    unfold admits. rewrite Hpe, Hh. cbn [negb andb].
    destruct strict; [|done]. apply bind_throwException.
  - intros Hh. rewrite (setProperty_receiver i l o strict) by done.
    rewrite (setProperty_object_plain i l o strict) by done.
    unfold admits. rewrite Hpe, Hh. cbn [negb andb]. by destruct d.
  - intros v p Hl Hw Hs Hg.
    assert (Hh : props_has name (Obj.properties o) = true).
    { unfold props_has. by rewrite Hl. }
    rewrite (setProperty_receiver i l o strict) by done.
    rewrite (setProperty_object_plain i l o strict) by done.
    unfold admits. rewrite Hpe, Hh. cbn [negb andb].
    rewrite (setProperty_assign_found i l o l o); try done.
    + rewrite Hs, Hg. unfold props_assign. by rewrite Hl, Hw.
    + by apply (findDefObj_own i _ l o).
Qed.


(** C2, with the coercion of the new length: on an array, [setProperty] of
    [length] to a value that [legalArrayLength] does not convert to an
    integer in [0, 2^32 - 1] throws a guest [RangeError].  Set to a value
    that converts to [n] below the current length, where the elements from
    [n] on are enumerable and configurable, a call that returns has deleted
    every index key at or beyond [n] and kept the ones below; and it returns,
    with [length] equal to [n], when [length] is a writable entry without
    accessors.  A call with an index key [z] that returns leaves [length] at
    the maximum of the current length and [z + 1]. *)
Theorem array_length_follows_elements :
  forall (i : Interpreter) l o strict,
    receiver i l = Some (o, strict) ->
    Obj.class o = "Array" ->
    (forall v,
        legalArrayLength (Interp.heap i) v = ConvOk NaN ->
        setProperty (VObject l) "length" (Given v) None i
        = throwException (fieldValue (Interp.RANGE_ERROR i))
            (Some "Invalid array length") i)
    /\ (forall v n len,
          legalArrayLength (Interp.heap i) v = ConvOk (NInt n) ->
          ToNumber (Interp.heap i) (props_get "length" (Obj.properties o)) = ConvOk len ->
          int_lt_number n len = true ->
          elementsFrom n (Obj.properties o) = true ->
          (forall r i',
              setProperty (VObject l) "length" (Given v) None i = Return r i' ->
              exists o',
                Interp.heap i' !! l = Some o'
                /\ (forall k z, legalArrayIndex k = NInt z -> n <= z ->
                                props_has k (Obj.properties o') = false)
                /\ (forall k z, legalArrayIndex k = NInt z -> z < n ->
                                props_lookup k (Obj.properties o')
                                = props_lookup k (Obj.properties o)))
          /\ (forall p,
                props_lookup "length" (Obj.properties o) = Some p ->
                p_writable p = true ->
                truthyEntry (Obj.setter o) "length" = None ->
                truthyEntry (Obj.getter o) "length" = None ->
                exists i' o',
                  setProperty (VObject l) "length" (Given v) None i = Return VUndefined i'
                  /\ Interp.heap i' !! l = Some o'
                  /\ props_get "length" (Obj.properties o') = VNumber (NInt n)))
    /\ (forall name value d z len ps1 r i',
          mixedDescriptor d = false ->
          name <> "length" ->
          legalArrayIndex name = NInt z ->
          ToNumber (Interp.heap i) (props_get "length" (Obj.properties o)) = ConvOk len ->
          props_assign "length" (VNumber (Math_max len (z + 1))) (Obj.properties o)
          = Some ps1 ->
          setProperty (VObject l) name value d i = Return r i' ->
          exists o',
            Interp.heap i' !! l = Some o'
            /\ props_get "length" (Obj.properties o') = VNumber (Math_max len (z + 1))).
Proof.
  intros i l o strict Hr Hc.
  pose proof (receiver_Some _ _ _ _ Hr) as (_ & Ho & _ & Hisa).
  split; [|split].
  - intros v Hv. rewrite (setProperty_receiver i l o strict) by done.
    unfold setProperty_object.
    rewrite (bind_Return (gets id) _ i _ i eq_refl).
    rewrite (bind_Return _ _ i _ i Hisa).
    rewrite (bind_Return (ret false) _ i _ i eq_refl).
    rewrite (bind_rethrow _ _ i _ (setProperty_array_illegal i l o v Ho Hc Hv)).
    apply rethrow_throwException.
  - intros v n len Hv Hlen Hlt He.
    destruct (truncateArray_spec n (props_forin (Obj.properties o)) (Obj.properties o) He)
      as (ps1 & Ht & Hdel & Hkeep & Hmono).
    pose proof (setProperty_array_shorter i l o v n len ps1 Ho Hc Hv Hlen Hlt Ht) as Harr.
    pose proof (updated_lookup i l (Obj.set_properties ps1) o Ho) as Ho1.
    assert (Hgone : forall k z, legalArrayIndex k = NInt z -> n <= z ->
                                props_lookup k ps1 = None).
    { intros k z Hk Hz. destruct (props_lookup k (Obj.properties o)) as [p|] eqn:Hl.
      - destruct (elementsFrom_configurable n _ k p z He Hl Hk Hz) as [Hen _].
        apply (Hdel k z); [|done|done]. by apply (props_forin_enumerable k p).
      - by apply Hmono. }
    split.
    + intros r i' Hret.
      destruct (setProperty_after_array i _ i' l o _ strict "length" _ _ None r
                  Hr eq_refl Harr Ho1 Hret) as (o' & Ho' & Hsame).
      exists o'. split; [done|]. split.
      * intros k z Hk Hz. unfold props_has. rewrite Hsame.
        -- destruct (set_properties_fields ps1 o) as (-> & _ & _).
           by rewrite (Hgone k z).
        -- intros ->. by rewrite legalArrayIndex_length in Hk.
      * intros k z Hk Hz. rewrite Hsame.
        -- destruct (set_properties_fields ps1 o) as (-> & _ & _).
           apply Hkeep. intros z' Hz'. congruence.
        -- intros ->. by rewrite legalArrayIndex_length in Hk.
    + intros p Hp Hw Hs Hg.
      assert (Hp1 : props_lookup "length" ps1 = Some p).
      { rewrite Hkeep; [done|]. intros z Hz. by rewrite legalArrayIndex_length in Hz. }
      destruct (set_properties_fields ps1 o) as (Hf1 & Hf2 & Hf3).
      assert (Hh1 : props_has "length" (Obj.properties (Obj.set_properties ps1 o)) = true).
      { unfold props_has. by rewrite Hf1, Hp1. }
      rewrite (setProperty_through_array i _ l o _ strict "length" _ _ None
                 Hr eq_refl Harr Ho1).
      unfold admits. rewrite Hh1, andb_false_r. cbn [negb].
      rewrite (setProperty_assign_found _ l _ l _ "length" _ strict Ho1
                 (findDefObj_own _ _ l _ _ Ho1 Hh1) Ho1).
      rewrite Hf1, Hf2, Hf3, Hs, Hg. unfold props_assign. rewrite Hp1, Hw.
      eexists. eexists. split; [reflexivity|]. split.
      * by apply (updated_lookup _ l _ _ Ho1).
      * destruct (set_properties_fields
                    (props_update "length"
                       (mkProperty (VNumber (NInt n)) true (p_enumerable p)
                          (p_configurable p)) ps1)
                    (Obj.set_properties ps1 o)) as (-> & _ & _).
        unfold props_get.
        by rewrite props_lookup_update, bool_decide_eq_true_2, Hp1.
  - intros name value d z len ps1 r i' Hd Hn Hz Hlen Hps Hret.
    pose proof (setProperty_array_index i l o name value d z len ps1
                  Ho Hc Hn Hz Hlen Hps) as Harr.
    pose proof (updated_lookup i l (Obj.set_properties ps1) o Ho) as Ho1.
    destruct (setProperty_after_array i _ i' l o _ strict name _ _ d r
                Hr Hd Harr Ho1 Hret) as (o' & Ho' & Hsame).
    exists o'. split; [done|]. unfold props_get. rewrite Hsame by done.
    destruct (set_properties_fields ps1 o) as (-> & _ & _).
    rewrite (props_assign_lookup _ _ _ _ _ Hps), bool_decide_eq_true_2 by done.
    by destruct (props_lookup "length" (Obj.properties o)).
Qed.


End Engine.

(** ** The properties at concrete inputs

    The interpreter of [test/simplerun.test.ts], constructed from a program
    with or without the test's initialization function. *)


(** [a in window], where the arrays [a] and [b] hold each other: the
    conversion of the name [a] to a string never ends in the host, and
    [hasProperty] throws the host's RangeError. *)
Lemma hasProperty_of_a_cyclic_array_overflows :
  let i := constructed SimpleRun.hostStringToNumber SimpleRun.hostDateToString
             SimpleRun.empty
             (cyclicInit SimpleRun.hostStringToNumber SimpleRun.hostDateToString)
             SimpleRun.start in
  let a := global SimpleRun.hostStringToNumber SimpleRun.hostDateToString "a" i in
  let b := global SimpleRun.hostStringToNumber SimpleRun.hostDateToString "b" i in
  props_get "0" (Obj.properties (objectAt a i)) = VObject b
  /\ props_get "0" (Obj.properties (objectAt b i)) = VObject a
  /\ a <> b
  /\ hasProperty_value SimpleRun.hostStringToNumber SimpleRun.hostDateToString
       (VObject (Interp.globalObject i)) (VObject a) i
     = HostThrow (HostErrorObject "RangeError" "Maximum call stack size exceeded") i.
Proof.
  cbv zeta. split; [vm_compute; reflexivity|]. split; [vm_compute; reflexivity|].
  split; [vm_compute; discriminate|]. vm_compute. reflexivity.
Defined.

Lemma step_witness :
  let i0 := constructed SimpleRun.hostStringToNumber SimpleRun.hostDateToString
              SimpleRun.typeofMissing noInit SimpleRun.start in
  let stepFunctions := stepFunctions SimpleRun.hostStringToNumber
                         SimpleRun.hostDateToString SimpleRun.hostFunction
                         SimpleRun.asyncFunction in
  exists i1,
    run stepFunctions 9 i0 = Return false i1
    /\ step stepFunctions 1 i1 = Return false i1
    /\ step stepFunctions 1 (Interp.set_paused_ true i0)
       = Return true (Interp.set_paused_ true i0).
Proof.
  eexists. split; [vm_compute; reflexivity|]. split.
  - apply (step_finished_then_paused _ 0). reflexivity.
  - apply (step_finished_then_paused _ 0); [reflexivity|vm_compute; reflexivity|].
    vm_compute. discriminate.
Defined.

Lemma step_false_while_paused :
  let i0 := constructed SimpleRun.hostStringToNumber SimpleRun.hostDateToString
              SimpleRun.typeofMissing noInit SimpleRun.start in
  let stepFunctions := stepFunctions SimpleRun.hostStringToNumber
                         SimpleRun.hostDateToString SimpleRun.hostFunction
                         SimpleRun.asyncFunction in
  exists i1,
    run stepFunctions 9 i0 = Return false i1
    /\ Interp.paused_ (Interp.set_paused_ true i1) = true
    /\ step stepFunctions 9 (Interp.set_paused_ true i1)
       = Return false (Interp.set_paused_ true i1).
Proof.
  eexists. split; [vm_compute; reflexivity|]. split; reflexivity.
Defined.



Lemma unresolved_identifier_witness :
  let stepFunctions := stepFunctions SimpleRun.hostStringToNumber
                         SimpleRun.hostDateToString SimpleRun.hostFunction
                         SimpleRun.asyncFunction in
  let getValueFromScope := getValueFromScope SimpleRun.hostStringToNumber
                             SimpleRun.hostDateToString in
  let i := popped (steps SimpleRun.hostStringToNumber SimpleRun.hostDateToString
                     SimpleRun.hostFunction SimpleRun.asyncFunction 2
                     (constructed SimpleRun.hostStringToNumber SimpleRun.hostDateToString
                        SimpleRun.missing noInit SimpleRun.start)) in
  let j := popped (steps SimpleRun.hostStringToNumber SimpleRun.hostDateToString
                     SimpleRun.hostFunction SimpleRun.asyncFunction 3
                     (constructed SimpleRun.hostStringToNumber SimpleRun.hostDateToString
                        SimpleRun.typeofMissing noInit SimpleRun.start)) in
  (forall v i', getValueFromScope "missing" i <> Return v i')
  /\ getValueFromScope "missing" j = Return VUndefined j
  /\ (exists i',
        run stepFunctions 9
          (constructed SimpleRun.hostStringToNumber SimpleRun.hostDateToString
             SimpleRun.missing noInit SimpleRun.start)
        = HostThrow (HostErrorObject "ReferenceError" "missing is not defined") i').
Proof.
  cbv zeta. split; [|split].
  - eapply (fun top rest Hs Hne Hg Hu Ht =>
              proj2 (proj1 (unresolved_identifier_throws_unless_typeof
                              SimpleRun.hostStringToNumber SimpleRun.hostDateToString
                              _ _ top rest Hs Hne Hg Hu) Ht)).
    + vm_compute. reflexivity.
    + vm_compute. discriminate.
    + vm_compute. discriminate.
    + vm_compute. reflexivity.
    + vm_compute. reflexivity.
  - eapply (fun top rest Hs Hne Hg Hu Ht =>
              proj1 (proj2 (unresolved_identifier_throws_unless_typeof
                              SimpleRun.hostStringToNumber SimpleRun.hostDateToString
                              _ _ top rest Hs Hne Hg Hu)) Ht).
    + vm_compute. reflexivity.
    + vm_compute. discriminate.
    + vm_compute. discriminate.
    + vm_compute. reflexivity.
    + vm_compute. reflexivity.
  - eexists. vm_compute. reflexivity.
Defined.

Lemma uncaught_throw_witness :
  let stepFunctions := stepFunctions SimpleRun.hostStringToNumber
                         SimpleRun.hostDateToString SimpleRun.hostFunction
                         SimpleRun.asyncFunction in
  let throwException := throwException SimpleRun.hostStringToNumber
                          SimpleRun.hostDateToString in
  let i0 := constructed SimpleRun.hostStringToNumber SimpleRun.hostDateToString
              SimpleRun.justFailing
              (simpleRunInit SimpleRun.hostStringToNumber SimpleRun.hostDateToString)
              SimpleRun.start in
  let i := steps SimpleRun.hostStringToNumber SimpleRun.hostDateToString
             SimpleRun.hostFunction SimpleRun.asyncFunction 3 i0 in
  let j := steps SimpleRun.hostStringToNumber SimpleRun.hostDateToString
             SimpleRun.hostFunction SimpleRun.asyncFunction 3
             (constructed SimpleRun.hostStringToNumber SimpleRun.hostDateToString
                throwErr
                (errorInit SimpleRun.hostStringToNumber SimpleRun.hostDateToString None)
                SimpleRun.start) in
  topValue i = VString "horrible err"
  /\ (exists i',
        throwException (topValue i) None i = HostThrow (HostString "horrible err") i'
        /\ Interp.stateStack i' = Some [State.set_done true (rootFrame i)])
  /\ (exists j',
        throwException (topValue j) None j
        = HostThrow (HostErrorObject "TypeError" "boom") j')
  /\ (exists i',
        run stepFunctions 9 i0 = HostThrow (HostString "horrible err") i'
        /\ SimpleRun.val (Interp.host i') = NInt 0).
Proof.
  cbv zeta. split; [vm_compute; reflexivity|]. split; [|split].
  - eexists. split.
    + eapply (fun i value Hs Ha Hr s H1 H2 =>
                proj2 (proj1 (uncaught_throw_becomes_host_error
                                SimpleRun.hostStringToNumber SimpleRun.hostDateToString
                                i value (framesAbove i) (rootFrame i) Hs Ha Hr)
                         s H1 H2)).
      * vm_compute. reflexivity.
      * vm_compute. reflexivity.
      * vm_compute. reflexivity.
      * vm_compute. reflexivity.
      * vm_compute. reflexivity.
    + reflexivity.
  - eexists.
    eapply (fun i value Hs Ha Hr nv mv m H1 H2 H3 H4 H5 H6 H7 =>
              proj2 (proj2 (uncaught_throw_becomes_host_error
                              SimpleRun.hostStringToNumber SimpleRun.hostDateToString
                              i value (framesAbove i) (rootFrame i) Hs Ha Hr)
                       nv "TypeError" mv m "boom" H1 H2 H3 H4 H5 H6 H7)).
    + vm_compute. reflexivity.
    + vm_compute. reflexivity.
    + vm_compute. reflexivity.
    + vm_compute. reflexivity.
    + vm_compute. reflexivity.
    + vm_compute. reflexivity.
    + vm_compute. reflexivity.
    + vm_compute. reflexivity.
    + vm_compute. reflexivity.
    + vm_compute. reflexivity.
  - eexists. split; vm_compute; reflexivity.
Defined.

Lemma custom_error_name_is_lost :
  let stepFunctions := stepFunctions SimpleRun.hostStringToNumber
                         SimpleRun.hostDateToString SimpleRun.hostFunction
                         SimpleRun.asyncFunction in
  let getProperty := getProperty SimpleRun.hostStringToNumber
                       SimpleRun.hostDateToString in
  let i0 := constructed SimpleRun.hostStringToNumber SimpleRun.hostDateToString
              throwErr
              (errorInit SimpleRun.hostStringToNumber SimpleRun.hostDateToString
                 (Some "MyError"))
              SimpleRun.start in
  exists err i',
    getProperty (VObject (Interp.globalObject i0)) "err" i0 = Return (VObject err) i0
    /\ isa (VObject err) (Interp.ERROR i0) i0 = Return true i0
    /\ getProperty (VObject err) "name" i0 = Return (VString "MyError") i0
    /\ getProperty (VObject err) "message" i0 = Return (VString "boom") i0
    /\ run stepFunctions 9 i0 = HostThrow (HostErrorObject "Error" "boom") i'.
Proof.
  cbv zeta. eexists. eexists. split; [vm_compute; reflexivity|].
  split; [vm_compute; reflexivity|]. split; [vm_compute; reflexivity|].
  split; vm_compute; reflexivity.
Defined.

(** The interpreter of the examples about [setProperty], in sloppy and in
    strict mode. *)
Definition sloppy : Interp.t SimpleRun.Host :=
  constructed SimpleRun.hostStringToNumber SimpleRun.hostDateToString SimpleRun.empty
    (objectsInit SimpleRun.hostStringToNumber SimpleRun.hostDateToString) SimpleRun.start.

Definition strictly : Interp.t SimpleRun.Host :=
  constructed SimpleRun.hostStringToNumber SimpleRun.hostDateToString strictProgram
    (objectsInit SimpleRun.hostStringToNumber SimpleRun.hostDateToString) SimpleRun.start.

Definition at_ (name : string) (i : Interp.t SimpleRun.Host) : loc :=
  global SimpleRun.hostStringToNumber SimpleRun.hostDateToString name i.



(** The descriptor [{get: getter}]. *)
Definition getterOnly : Descriptor.t :=
  Descriptor.mk None None None None (Some (VObject (at_ "getter" sloppy))) None.



Lemma not_extensible_witness :
  let setProperty := setProperty SimpleRun.hostStringToNumber SimpleRun.hostDateToString in
  let throwException := throwException SimpleRun.hostStringToNumber
                          SimpleRun.hostDateToString in
  let one := Given (VNumber (NInt 1)) in
  setProperty (VObject (at_ "closed" sloppy)) "w" one None sloppy = Return VUndefined sloppy
  /\ setProperty (VObject (at_ "closed" strictly)) "w" one None strictly
     = throwException (fieldValue (Interp.TYPE_ERROR strictly))
         (Some "Can't add property 'w', object is not extensible") strictly
  /\ (exists i',
        setProperty (VObject (at_ "closed" sloppy)) "z" (Given (VNumber (NInt 2))) None sloppy
        = Return VUndefined i'
        /\ props_get "z" (Obj.properties (objectAt (at_ "closed" sloppy) i'))
           = VNumber (NInt 2)).
Proof.
  cbv zeta. split; [|split].
  - eapply (fun o Hr Hd Hm Hpe Hh =>
              proj1 (not_extensible_refuses_new_keys
                       SimpleRun.hostStringToNumber SimpleRun.hostDateToString
                       sloppy (at_ "closed" sloppy) o false "w" _ None Hr Hd Hm Hpe) Hh).
    + vm_compute. reflexivity.
    + vm_compute. reflexivity.
    + vm_compute. reflexivity.
    + vm_compute. reflexivity.
    + vm_compute. reflexivity.
  - eapply (fun o Hr Hd Hm Hpe Hh =>
              proj1 (not_extensible_refuses_new_keys
                       SimpleRun.hostStringToNumber SimpleRun.hostDateToString
                       strictly (at_ "closed" strictly) o true "w" _ None Hr Hd Hm Hpe) Hh).
    + vm_compute. reflexivity.
    + vm_compute. reflexivity.
    + vm_compute. reflexivity.
    + vm_compute. reflexivity.
    + vm_compute. reflexivity.
  - eexists. split.
    + eapply (fun o Hr Hd Hm Hpe p Hl Hw Hs Hg =>
                proj2 (proj2 (not_extensible_refuses_new_keys
                         SimpleRun.hostStringToNumber SimpleRun.hostDateToString
                         sloppy (at_ "closed" sloppy) o false "z" (Given VUndefined) None
                         Hr Hd Hm Hpe)) (VNumber (NInt 2)) p Hl Hw Hs Hg).
      * vm_compute. reflexivity.
      * vm_compute. reflexivity.
      * vm_compute. reflexivity.
      * vm_compute. reflexivity.
      * vm_compute. reflexivity.
      * vm_compute. reflexivity.
      * vm_compute. reflexivity.
      * vm_compute. reflexivity.
    + vm_compute. reflexivity.
Defined.

(** The write [closedList[3] = 1] in sloppy mode: the array is not
    extensible and has no key [3]; the call returns [undefined] and adds no
    key, but the array's [length] has grown from 1 to 4. *)
Lemma not_extensible_array_grows :
  let setProperty := setProperty SimpleRun.hostStringToNumber SimpleRun.hostDateToString in
  let closedList := at_ "closedList" sloppy in
  exists i',
    Obj.preventExtensions (objectAt closedList sloppy) = true
    /\ props_has "3" (Obj.properties (objectAt closedList sloppy)) = false
    /\ props_get "length" (Obj.properties (objectAt closedList sloppy)) = VNumber (NInt 1)
    /\ setProperty (VObject closedList) "3" (Given (VNumber (NInt 1))) None sloppy
       = Return VUndefined i'
    /\ props_has "3" (Obj.properties (objectAt closedList i')) = false
    /\ props_get "length" (Obj.properties (objectAt closedList i')) = VNumber (NInt 4).
Proof.
  cbv zeta. eexists. split; [vm_compute; reflexivity|].
  split; [vm_compute; reflexivity|]. split; [vm_compute; reflexivity|].
  split; [vm_compute; reflexivity|]. split; vm_compute; reflexivity.
Defined.

Lemma array_length_witness :
  let setProperty := setProperty SimpleRun.hostStringToNumber SimpleRun.hostDateToString in
  let throwException := throwException SimpleRun.hostStringToNumber
                          SimpleRun.hostDateToString in
  let list := at_ "list" sloppy in
  setProperty (VObject list) "length" (Given (VNumber (NFrac 1 "1.5"))) None sloppy
  = throwException (fieldValue (Interp.RANGE_ERROR sloppy)) (Some "Invalid array length")
      sloppy
  /\ (exists i' o',
        setProperty (VObject list) "length" (Given (VNumber (NInt 1))) None sloppy
        = Return VUndefined i'
        /\ Interp.heap i' !! list = Some o'
        /\ props_get "length" (Obj.properties o') = VNumber (NInt 1))
  /\ (exists o',
        Interp.heap
          (match setProperty (VObject list) "5" (Given VNull) None sloppy with
           | Return _ i' => i'
           | _ => sloppy
           end) !! list = Some o'
        /\ props_get "length" (Obj.properties o') = VNumber (Math_max (NInt 3) (5 + 1))).
Proof.
  cbv zeta. split; [|split].
  - eapply (fun o strict Hr Hc v Hv =>
              proj1 (array_length_follows_elements
                       SimpleRun.hostStringToNumber SimpleRun.hostDateToString
                       sloppy (at_ "list" sloppy) o strict Hr Hc) v Hv).
    + vm_compute. reflexivity.
    + vm_compute. reflexivity.
    + vm_compute. reflexivity.
  - eapply (fun o strict Hr Hc len Hv Hlen Hlt He p Hp Hw Hs Hg =>
              proj2 (proj1 (proj2 (array_length_follows_elements
                       SimpleRun.hostStringToNumber SimpleRun.hostDateToString
                       sloppy (at_ "list" sloppy) o strict Hr Hc))
                       (VNumber (NInt 1)) 1 len Hv Hlen Hlt He) p Hp Hw Hs Hg).
    + vm_compute. reflexivity.
    + vm_compute. reflexivity.
    + vm_compute. reflexivity.
    + vm_compute. reflexivity.
    + vm_compute. reflexivity.
    + vm_compute. reflexivity.
    + vm_compute. reflexivity.
    + vm_compute. reflexivity.
    + vm_compute. reflexivity.
    + vm_compute. reflexivity.
  - eapply (fun o strict Hr Hc ps1 r Hd Hn Hz Hlen Hps Hret =>
              proj2 (proj2 (array_length_follows_elements
                       SimpleRun.hostStringToNumber SimpleRun.hostDateToString
                       sloppy (at_ "list" sloppy) o strict Hr Hc))
                "5" (Given VNull) None 5 (NInt 3) ps1 r _ Hd Hn Hz Hlen Hps Hret).
    + vm_compute. reflexivity.
    + vm_compute. reflexivity.
    + vm_compute. reflexivity.
    + vm_compute. discriminate.
    + vm_compute. reflexivity.
    + vm_compute. reflexivity.
    + vm_compute. reflexivity.
    + vm_compute. reflexivity.
Defined.

(** [list.length = "1"] and [list.length = null] on [list = [7, 8, 9]]:
    neither value is an integer, and neither write throws; the array is cut
    to one element and to none. *)
Lemma coerced_length_is_accepted :
  let setProperty := setProperty SimpleRun.hostStringToNumber SimpleRun.hostDateToString in
  let list := at_ "list" sloppy in
  exists i1 i2,
    setProperty (VObject list) "length" (Given (VString "1")) None sloppy
    = Return VUndefined i1
    /\ map fst (Obj.properties (objectAt list i1)) = ["length"; "0"]
    /\ props_get "length" (Obj.properties (objectAt list i1)) = VNumber (NInt 1)
    /\ setProperty (VObject list) "length" (Given VNull) None sloppy
       = Return VUndefined i2
    /\ map fst (Obj.properties (objectAt list i2)) = ["length"]
    /\ props_get "length" (Obj.properties (objectAt list i2)) = VNumber (NInt 0).
Proof.
  cbv zeta. eexists. eexists. split; [vm_compute; reflexivity|].
  split; [vm_compute; reflexivity|]. split; [vm_compute; reflexivity|].
  split; [vm_compute; reflexivity|]. split; vm_compute; reflexivity.
Defined.


(** [sloppy] after the guest statement [Array.prototype = plain;]. *)
Definition arrayPrototypeReplaced : Interp.t SimpleRun.Host :=
  match setProperty SimpleRun.hostStringToNumber SimpleRun.hostDateToString
          (fieldValue (Interp.ARRAY sloppy)) "prototype"
          (Given (VObject (at_ "plain" sloppy))) None sloppy with
  | Return _ i => i
  | _ => sloppy
  end.

(** After [Array.prototype = plain;] the array that [nativeToPseudo] makes
    of [[1]] is no instance of [Array] for [isa], and [pseudoToNative] turns
    it into the object [{0: 1}]. *)
Lemma round_trip_after_array_prototype_is_replaced :
  let setProperty := setProperty SimpleRun.hostStringToNumber SimpleRun.hostDateToString in
  let nativeToPseudo := nativeToPseudo SimpleRun.hostStringToNumber SimpleRun.hostDateToString in
  let pseudoToNative := pseudoToNative SimpleRun.hostStringToNumber SimpleRun.hostDateToString in
  let n := NativeArray [Some (NativeNumber (NInt 1))] in
  setProperty (fieldValue (Interp.ARRAY sloppy)) "prototype"
    (Given (VObject (at_ "plain" sloppy))) None sloppy
  = Return VUndefined arrayPrototypeReplaced
  /\ json n = true
  /\ exists v i',
       nativeToPseudo n arrayPrototypeReplaced = Return v i'
       /\ pseudoToNative v i' = Return (NativeObject [("0", NativeNumber (NInt 1))]) i'
       /\ pseudoToNative v i' <> Return n i'.
Proof.
  cbv zeta. split; [vm_compute; reflexivity|]. split; [vm_compute; reflexivity|].
  eexists. eexists. split; [vm_compute; reflexivity|].
  split; [vm_compute; reflexivity|]. vm_compute. discriminate.
Defined.

(** The descriptor [{set: setter}], and [sloppy] after the guest statement
    [Object.defineProperty(Object.prototype, 'k', {set: setter});]. *)
Definition setterOnly : Descriptor.t :=
  Descriptor.mk None None None None None (Some (VObject (at_ "setter" sloppy))).

Definition setterInherited : Interp.t SimpleRun.Host :=
  match setProperty SimpleRun.hostStringToNumber SimpleRun.hostDateToString
          (fieldValue (Interp.OBJECT_PROTO sloppy)) "k" VALUE_IN_DESCRIPTOR
          (Some setterOnly) sloppy with
  | Return _ i => i
  | _ => sloppy
  end.

(** Where [Object.prototype] has a setter for [k], [nativeToPseudo] of
    [{k: 1}] is handed the setter by [setProperty] and drops it: the object
    it returns has no [k], the flag [setterStep_] stays set, and
    [pseudoToNative] gives [{}] back; with a second key, the next
    [setProperty] throws in the host. *)
Lemma nativeToPseudo_drops_the_setter_it_is_handed :
  let setProperty := setProperty SimpleRun.hostStringToNumber SimpleRun.hostDateToString in
  let nativeToPseudo := nativeToPseudo SimpleRun.hostStringToNumber SimpleRun.hostDateToString in
  let pseudoToNative := pseudoToNative SimpleRun.hostStringToNumber SimpleRun.hostDateToString in
  let one := NativeNumber (NInt 1) in
  setProperty (fieldValue (Interp.OBJECT_PROTO sloppy)) "k" VALUE_IN_DESCRIPTOR
    (Some setterOnly) sloppy
  = Return VUndefined setterInherited
  /\ (exists v i',
        nativeToPseudo (NativeObject [("k", one)]) setterInherited = Return v i'
        /\ Interp.setterStep_ i' = true
        /\ pseudoToNative v i' = Return (NativeObject []) i')
  /\ (exists i',
        nativeToPseudo (NativeObject [("k", one); ("m", one)]) setterInherited
        = HostThrow (HostErrorObject "Error" "Setter not supported in that context") i').
Proof.
  cbv zeta. split; [vm_compute; reflexivity|]. split.
  - eexists. eexists. split; [vm_compute; reflexivity|].
    split; vm_compute; reflexivity.
  - eexists. vm_compute. reflexivity.
Defined.

(** ** More of the engine, at concrete inputs *)

(** [wait(1)] and [setVal(2)] when the argument has just been evaluated, and
    [try { throw "boom"; } catch (e) {}] when the thrown value has. *)
Definition waitingCall : Interp.t SimpleRun.Host :=
  steps SimpleRun.hostStringToNumber SimpleRun.hostDateToString SimpleRun.hostFunction
    SimpleRun.asyncFunction 6
    (constructed SimpleRun.hostStringToNumber SimpleRun.hostDateToString waitFor
       (waitInit SimpleRun.hostStringToNumber SimpleRun.hostDateToString) SimpleRun.start).

Definition hostCall : Interp.t SimpleRun.Host :=
  steps SimpleRun.hostStringToNumber SimpleRun.hostDateToString SimpleRun.hostFunction
    SimpleRun.asyncFunction 6
    (constructed SimpleRun.hostStringToNumber SimpleRun.hostDateToString setValTwo
       (simpleRunInit SimpleRun.hostStringToNumber SimpleRun.hostDateToString)
       SimpleRun.start).

(** [setVal(2)] when the literal [2] is on top of the stack. *)
Definition evaluating : Interp.t SimpleRun.Host :=
  steps SimpleRun.hostStringToNumber SimpleRun.hostDateToString SimpleRun.hostFunction
    SimpleRun.asyncFunction 5
    (constructed SimpleRun.hostStringToNumber SimpleRun.hostDateToString setValTwo
       (simpleRunInit SimpleRun.hostStringToNumber SimpleRun.hostDateToString)
       SimpleRun.start).

Definition throwing : Interp.t SimpleRun.Host :=
  steps SimpleRun.hostStringToNumber SimpleRun.hostDateToString SimpleRun.hostFunction
    SimpleRun.asyncFunction 5
    (constructed SimpleRun.hostStringToNumber SimpleRun.hostDateToString tryThrow noInit
       SimpleRun.start).

Lemma unwind_keeps_root_frame_witness :
  match unwind SimpleRun.hostStringToNumber SimpleRun.hostDateToString
          BREAK VUndefined None throwing with
  | Return _ i' | StepError i' | HostThrow _ i' => rooted i' = true
  | _ => True
  end.
Proof.
  apply (unwind_keeps_root_frame SimpleRun.hostStringToNumber SimpleRun.hostDateToString
           BREAK VUndefined None throwing).
  vm_compute. reflexivity.
Defined.

Lemma step_keeps_root_frame_witness :
  match step (stepFunctions SimpleRun.hostStringToNumber SimpleRun.hostDateToString
                SimpleRun.hostFunction SimpleRun.asyncFunction) 9 hostCall with
  | Return _ i' | StepError i' | HostThrow _ i' => rooted i' = true
  | _ => True
  end.
Proof.
  apply (step_keeps_root_frame SimpleRun.hostStringToNumber SimpleRun.hostDateToString
           SimpleRun.hostFunction SimpleRun.asyncFunction 9 hostCall).
  vm_compute. reflexivity.
Defined.

Lemma throw_is_caught_by_nearest_try_witness :
  throwException SimpleRun.hostStringToNumber SimpleRun.hostDateToString
    (VNumber (NInt 7)) None throwing
  = StepError
      (Interp.set_stateStack
         (Some (State.set_cv (Some (mkCV THROW (VNumber (NInt 7)) None)) (frameAt 2 throwing)
                :: drop 3 (stackOf throwing))) throwing).
Proof.
  apply (throw_is_caught_by_nearest_try SimpleRun.hostStringToNumber
           SimpleRun.hostDateToString throwing (VNumber (NInt 7))
           (take 2 (stackOf throwing)) (frameAt 2 throwing) (drop 3 (stackOf throwing))).
  - vm_compute. reflexivity.
  - vm_compute. reflexivity.
  - vm_compute. reflexivity.
Defined.

Lemma return_stops_at_nearest_call_witness :
  node_type (State.node (frameAt 0 evaluating)) = "Literal"
  /\ unwind SimpleRun.hostStringToNumber SimpleRun.hostDateToString
       RETURN (VNumber (NInt 7)) None evaluating
     = Return tt
         (Interp.set_stateStack
            (Some (State.set_value (VNumber (NInt 7)) (frameAt 1 evaluating)
                   :: drop 2 (stackOf evaluating))) evaluating).
Proof.
  split; [vm_compute; reflexivity|].
  apply (return_stops_at_nearest_call SimpleRun.hostStringToNumber
           SimpleRun.hostDateToString evaluating (VNumber (NInt 7)) None
           (take 1 (stackOf evaluating)) (frameAt 1 evaluating) (drop 2 (stackOf evaluating))).
  - vm_compute. reflexivity.
  - vm_compute. reflexivity.
  - vm_compute. reflexivity.
Defined.

(** A stack with a loop frame under an empty statement, over the root
    frame. *)
Definition inLoop : Interp.t SimpleRun.Host :=
  Interp.set_stateStack
    (Some (State.new (EmptyStatement 5) (Interp.globalScope sloppy)
           :: State.set_isLoop true
                (State.new (BlockStatement 9 [EmptyStatement 5]) (Interp.globalScope sloppy))
           :: stackOf sloppy))
    sloppy.

Lemma break_and_continue_stop_at_the_loop_witness :
  unwind SimpleRun.hostStringToNumber SimpleRun.hostDateToString BREAK VUndefined None inLoop
  = Return tt (Interp.set_stateStack (Some (stackOf sloppy)) inLoop)
  /\ unwind SimpleRun.hostStringToNumber SimpleRun.hostDateToString
       CONTINUE VUndefined None inLoop
     = Return tt (Interp.set_stateStack (Some (frameAt 1 inLoop :: stackOf sloppy)) inLoop).
Proof.
  apply (break_and_continue_stop_at_the_loop SimpleRun.hostStringToNumber
           SimpleRun.hostDateToString inLoop VUndefined
           [frameAt 0 inLoop] (frameAt 1 inLoop) (stackOf sloppy)).
  - vm_compute. reflexivity.
  - vm_compute. reflexivity.
  - vm_compute. reflexivity.
Defined.

Lemma only_calls_pause_witness :
  match stepFunctions SimpleRun.hostStringToNumber SimpleRun.hostDateToString
          SimpleRun.hostFunction SimpleRun.asyncFunction
          "Literal" (frameAt 0 evaluating) (State.node (frameAt 0 evaluating)) evaluating with
  | Return _ i' | StepError i' | HostThrow _ i' =>
      Interp.paused_ i' = Interp.paused_ evaluating
  | _ => True
  end.
Proof.
  apply (only_calls_pause SimpleRun.hostStringToNumber SimpleRun.hostDateToString
           SimpleRun.hostFunction SimpleRun.asyncFunction
           "Literal" (frameAt 0 evaluating) (State.node (frameAt 0 evaluating)) evaluating).
  - vm_compute. discriminate.
  - vm_compute. discriminate.
Defined.

Lemma absent_property_reads_undefined_witness :
  getProperty SimpleRun.hostStringToNumber SimpleRun.hostDateToString
    (VObject (at_ "plain" sloppy)) "nope" sloppy
  = Return VUndefined sloppy.
Proof.
  apply (absent_property_reads_undefined SimpleRun.hostStringToNumber
           SimpleRun.hostDateToString (VObject (at_ "plain" sloppy)) "nope" sloppy sloppy).
  - vm_compute. reflexivity.
  - vm_compute. reflexivity.
Defined.

Lemma getProperty_only_flags_getter_witness :
  getProperty SimpleRun.hostStringToNumber SimpleRun.hostDateToString
    (VObject (at_ "heir" sloppy)) "y" sloppy
  = Return (VObject (at_ "getter" sloppy)) (Interp.set_getterStep_ true sloppy)
  /\ (Interp.set_getterStep_ true sloppy = sloppy
      \/ Interp.set_getterStep_ true sloppy = Interp.set_getterStep_ true sloppy).
Proof.
  assert (H : getProperty SimpleRun.hostStringToNumber SimpleRun.hostDateToString
                (VObject (at_ "heir" sloppy)) "y" sloppy
              = Return (VObject (at_ "getter" sloppy)) (Interp.set_getterStep_ true sloppy))
    by (vm_compute; reflexivity).
  split; [exact H|].
  exact (getProperty_only_flags_getter SimpleRun.hostStringToNumber
           SimpleRun.hostDateToString (VObject (at_ "heir" sloppy)) "y" sloppy
           (Interp.set_getterStep_ true sloppy) (VObject (at_ "getter" sloppy)) H).
Defined.

(** The interpreter after [plain.x = 6]. *)
Definition assigned : Interp.t SimpleRun.Host :=
  match setProperty SimpleRun.hostStringToNumber SimpleRun.hostDateToString
          (VObject (at_ "plain" sloppy)) "x" (Given (VNumber (NInt 6))) None sloppy with
  | Return _ i' => i'
  | _ => sloppy
  end.

Lemma setProperty_touches_only_its_receiver_witness :
  length (Interp.heap assigned) = length (Interp.heap sloppy)
  /\ (forall l', l' <> at_ "plain" sloppy ->
                 Interp.heap assigned !! l' = Interp.heap sloppy !! l')
  /\ Interp.stateStack assigned = Interp.stateStack sloppy
  /\ Interp.paused_ assigned = Interp.paused_ sloppy.
Proof.
  apply (setProperty_touches_only_its_receiver SimpleRun.hostStringToNumber
           SimpleRun.hostDateToString (at_ "plain" sloppy) "x" (Given (VNumber (NInt 6))) None
           sloppy assigned VUndefined).
  vm_compute. reflexivity.
Defined.

Lemma assigned_property_reads_back_witness :
  exists i',
    setProperty SimpleRun.hostStringToNumber SimpleRun.hostDateToString
      (VObject (at_ "plain" sloppy)) "x" (Given (VNumber (NInt 6))) None sloppy
    = Return VUndefined i'
    /\ getProperty SimpleRun.hostStringToNumber SimpleRun.hostDateToString
         (VObject (at_ "plain" sloppy)) "x" i'
       = Return (VNumber (NInt 6)) i'
    /\ hasProperty SimpleRun.hostStringToNumber SimpleRun.hostDateToString
         (VObject (at_ "plain" sloppy)) "x" i'
       = Return true i'.
Proof.
  apply (assigned_property_reads_back SimpleRun.hostStringToNumber
           SimpleRun.hostDateToString (at_ "plain" sloppy) sloppy (at_ "plain" sloppy)
           (objectAt (at_ "plain" sloppy) sloppy) 1%nat "Object"
           [("x", mkProperty (VNumber (NInt 5)) true true true)]
           [("x", mkProperty (VNumber (NInt 6)) true true true)]).
  - vm_compute. reflexivity.
  - vm_compute. reflexivity.
  - vm_compute. lia.
  - repeat split; try (vm_compute; reflexivity); intros name; vm_compute; reflexivity.
  - left. vm_compute. reflexivity.
  - vm_compute. discriminate.
  - vm_compute. reflexivity.
Defined.

Lemma createArray_makes_an_empty_array_witness :
  exists i' o,
    createArray SimpleRun.hostStringToNumber SimpleRun.hostDateToString sloppy
    = Return (length (Interp.heap sloppy)) i'
    /\ Interp.heap i' = Interp.heap sloppy ++ [o]
    /\ Obj.class o = "Array"
    /\ Obj.properties o = [("length", mkProperty (VNumber (NInt 0)) true false false)]
    /\ isa (VObject (length (Interp.heap sloppy))) (Interp.ARRAY i') i' = Return true i'
    /\ getProperty SimpleRun.hostStringToNumber SimpleRun.hostDateToString
         (VObject (length (Interp.heap sloppy))) "length" i'
       = Return (VNumber (NInt 0)) i'.
Proof.
  apply (createArray_makes_an_empty_array SimpleRun.hostStringToNumber
           SimpleRun.hostDateToString (length (Interp.heap sloppy)) sloppy).
  vm_compute. reflexivity.
Defined.

(** A frame whose scope is a local scope on top of the global one; the
    scope object of the local scope is [plain], which has [x]. *)
Definition inFunction : Interp.t SimpleRun.Host :=
  Interp.set_stateStack
    (Some (State.new (Identifier 1 "x")
             (mkScopeEntry false (at_ "plain" sloppy) :: Interp.globalScope sloppy)
           :: stackOf sloppy))
    sloppy.

Lemma assigned_variable_reads_back_witness :
  let i' := updated (at_ "plain" sloppy)
              (Obj.set_properties [("x", mkProperty (VNumber (NInt 6)) true true true)])
              inFunction in
  setValueToScope SimpleRun.hostStringToNumber SimpleRun.hostDateToString
    "x" (VNumber (NInt 6)) inFunction
  = Return VUndefined i'
  /\ getValueFromScope SimpleRun.hostStringToNumber SimpleRun.hostDateToString "x" i'
     = Return (VNumber (NInt 6)) i'.
Proof.
  cbv zeta.
  apply (assigned_variable_reads_back SimpleRun.hostStringToNumber
           SimpleRun.hostDateToString inFunction (frameAt 0 inFunction) (stackOf sloppy)
           "x" (VNumber (NInt 6)) (at_ "plain" sloppy) (objectAt (at_ "plain" sloppy) sloppy)).
  - vm_compute. reflexivity.
  - vm_compute. reflexivity.
  - vm_compute. reflexivity.
  - vm_compute. reflexivity.
Defined.

(** The entry of the global scope. *)
Definition globalEntry (i : Interp.t SimpleRun.Host) : ScopeEntry :=
  default (mkScopeEntry false 0) (head (Interp.globalScope i)).
Lemma undeclared_variable_assignment_witness :
  setValueToScope SimpleRun.hostStringToNumber SimpleRun.hostDateToString
    "zz" (VNumber (NInt 6)) strictly
  = throwException SimpleRun.hostStringToNumber SimpleRun.hostDateToString
      (fieldValue (Interp.REFERENCE_ERROR strictly)) (Some ("zz" +:+ " is not defined"))
      strictly
  /\ setValueToScope SimpleRun.hostStringToNumber SimpleRun.hostDateToString
       "zz" (VNumber (NInt 6)) sloppy
     = setProperty SimpleRun.hostStringToNumber SimpleRun.hostDateToString
         (VObject (object (globalEntry sloppy))) "zz" (Given (VNumber (NInt 6))) None sloppy.
Proof.
  split.
  - assert (H1 : Interp.stateStack strictly
                 = Some (frameAt 0 strictly :: drop 1 (stackOf strictly)))
      by (vm_compute; reflexivity).
    assert (H2 : State.scope (frameAt 0 strictly) <> []) by (vm_compute; discriminate).
    assert (H3 : Interp.globalScope strictly <> []) by (vm_compute; discriminate).
    assert (H4 : unbound SimpleRun.hostStringToNumber SimpleRun.hostDateToString strictly
                   (State.scope (frameAt 0 strictly)) "zz" = true)
      by (vm_compute; reflexivity).
    assert (H5 : scopeStrict (State.scope (frameAt 0 strictly)) = true)
      by (vm_compute; reflexivity).
    exact (proj1 (proj1 (undeclared_variable_assignment
                           SimpleRun.hostStringToNumber SimpleRun.hostDateToString
                           strictly "zz" (VNumber (NInt 6))
                           (frameAt 0 strictly) (drop 1 (stackOf strictly))
                           H1 H2 H3 H4) H5)).
  - assert (H1 : Interp.stateStack sloppy
                 = Some (frameAt 0 sloppy :: drop 1 (stackOf sloppy)))
      by (vm_compute; reflexivity).
    assert (H2 : State.scope (frameAt 0 sloppy) <> []) by (vm_compute; discriminate).
    assert (H3 : Interp.globalScope sloppy <> []) by (vm_compute; discriminate).
    assert (H4 : unbound SimpleRun.hostStringToNumber SimpleRun.hostDateToString sloppy
                   (State.scope (frameAt 0 sloppy)) "zz" = true)
      by (vm_compute; reflexivity).
    assert (H5 : scopeStrict (State.scope (frameAt 0 sloppy)) = false)
      by (vm_compute; reflexivity).
    assert (H6 : Interp.globalScope sloppy
                 = globalEntry sloppy :: drop 1 (Interp.globalScope sloppy))
      by (vm_compute; reflexivity).
    assert (H7 : State.scope (frameAt 0 sloppy) = [] ++ Interp.globalScope sloppy)
      by (vm_compute; reflexivity).
    exact (proj2 (undeclared_variable_assignment
                    SimpleRun.hostStringToNumber SimpleRun.hostDateToString
                    sloppy "zz" (VNumber (NInt 6))
                    (frameAt 0 sloppy) (drop 1 (stackOf sloppy))
                    H1 H2 H3 H4) H5 [] (globalEntry sloppy)
                 (drop 1 (Interp.globalScope sloppy)) H6 H7).
Defined.

(** The function object of the call on top of the stack. *)
Definition calleeOf (i : Interp.t SimpleRun.Host) : loc :=
  match State.func_ (frameAt 0 i) with
  | VObject f => f
  | _ => 0%nat
  end.

Lemma async_call_pauses_until_called_back_witness :
  let frame := State.set_doneExec_ true (argumentsDone (frameAt 0 waitingCall) waitingCall) in
  exists i',
    stepCallExpression SimpleRun.hostStringToNumber SimpleRun.hostDateToString
      SimpleRun.hostFunction SimpleRun.asyncFunction
      (frameAt 0 waitingCall)
      (CallExpression 9 (Identifier 4 "wait") [Literal 8 (VNumber (NInt 1))]) waitingCall
    = Return None i'
    /\ Interp.heap i' = Interp.heap waitingCall
    /\ Interp.host i' = Interp.host waitingCall
    /\ Interp.paused_ i' = true
    /\ Interp.stateStack i' = Some (frame :: drop 1 (stackOf waitingCall))
    /\ State.arguments_ frame = [VNumber (NInt 1)].
Proof.
  cbv zeta.
  assert (H1 : Interp.stateStack waitingCall
               = Some (frameAt 0 waitingCall :: drop 1 (stackOf waitingCall)))
    by (vm_compute; reflexivity).
  assert (H2 : State.doneCallee_ (frameAt 0 waitingCall) = CalleeTwo)
    by (vm_compute; reflexivity).
  assert (H3 : State.doneArgs_ (frameAt 0 waitingCall) = false) by (vm_compute; reflexivity).
  assert (H4 : State.doneExec_ (frameAt 0 waitingCall) = false) by (vm_compute; reflexivity).
  assert (H5 : [Literal 8 (VNumber (NInt 1))] !! State.n_ (frameAt 0 waitingCall) = None)
    by (vm_compute; reflexivity).
  assert (H6 : State.func_ (frameAt 0 waitingCall) = VObject (calleeOf waitingCall))
    by (vm_compute; reflexivity).
  assert (H7 : Interp.heap waitingCall !! calleeOf waitingCall
               = Some (objectAt (calleeOf waitingCall) waitingCall))
    by (vm_compute; reflexivity).
  assert (H8 : Obj.eval (objectAt (calleeOf waitingCall) waitingCall) = false)
    by (vm_compute; reflexivity).
  assert (H9 : Obj.nativeFunc (objectAt (calleeOf waitingCall) waitingCall) = None)
    by (vm_compute; reflexivity).
  assert (H10 : Obj.asyncFunc (objectAt (calleeOf waitingCall) waitingCall)
                = Some (0%nat, 2%nat))
    by (vm_compute; reflexivity).
  assert (H11 : 2%nat <> 0%nat) by lia.
  destruct (async_call_pauses_until_called_back
              SimpleRun.hostStringToNumber SimpleRun.hostDateToString
              SimpleRun.hostFunction SimpleRun.asyncFunction
              waitingCall (frameAt 0 waitingCall) (drop 1 (stackOf waitingCall))
              9%nat (Identifier 4 "wait") [Literal 8 (VNumber (NInt 1))]
              (calleeOf waitingCall) (objectAt (calleeOf waitingCall) waitingCall)
              0%nat 2%nat H1 H2 H3 H4 H5 H6 H7 H8 H9 H10 H11)
    as (i' & Hret & Hheap & Hhost & Hpaused & Hstack).
  exists i'. repeat (split; [assumption|]). vm_compute. reflexivity.
Defined.

Lemma host_function_call_witness :
  let frame := State.set_doneExec_ true (argumentsDone (frameAt 0 hostCall) hostCall) in
  let rest := drop 1 (stackOf hostCall) in
  let host' := SimpleRun.mkHost (NInt 2) "" (NativeObject []) in
  SimpleRun.val (Interp.host hostCall) = NInt 0
  /\ stepCallExpression SimpleRun.hostStringToNumber SimpleRun.hostDateToString
       SimpleRun.hostFunction SimpleRun.asyncFunction
       (frameAt 0 hostCall)
       (CallExpression 9 (Identifier 6 "setVal") [Literal 8 (VNumber (NInt 2))]) hostCall
     = Return None
         (Interp.set_stateStack (Some (State.set_value VUndefined frame :: rest))
            (Interp.set_host host' (Interp.set_stateStack (Some (frame :: rest)) hostCall))).
Proof.
  cbv zeta. split; [vm_compute; reflexivity|].
  assert (H1 : Interp.stateStack hostCall
               = Some (frameAt 0 hostCall :: drop 1 (stackOf hostCall)))
    by (vm_compute; reflexivity).
  assert (H2 : State.doneCallee_ (frameAt 0 hostCall) = CalleeTwo)
    by (vm_compute; reflexivity).
  assert (H3 : State.doneArgs_ (frameAt 0 hostCall) = false) by (vm_compute; reflexivity).
  assert (H4 : State.doneExec_ (frameAt 0 hostCall) = false) by (vm_compute; reflexivity).
  assert (H5 : [Literal 8 (VNumber (NInt 2))] !! State.n_ (frameAt 0 hostCall) = None)
    by (vm_compute; reflexivity).
  assert (H6 : State.func_ (frameAt 0 hostCall) = VObject (calleeOf hostCall))
    by (vm_compute; reflexivity).
  assert (H7 : Interp.heap hostCall !! calleeOf hostCall
               = Some (objectAt (calleeOf hostCall) hostCall))
    by (vm_compute; reflexivity).
  assert (H8 : Obj.eval (objectAt (calleeOf hostCall) hostCall) = false)
    by (vm_compute; reflexivity).
  assert (H9 : Obj.nativeFunc (objectAt (calleeOf hostCall) hostCall)
               = Some (NativeWrapper SimpleRun.setVal))
    by (vm_compute; reflexivity).
  assert (H10 : mapM (pseudoToNative SimpleRun.hostStringToNumber SimpleRun.hostDateToString)
                  (State.arguments_
                     (State.set_doneExec_ true (argumentsDone (frameAt 0 hostCall) hostCall)))
                  (Interp.set_stateStack
                     (Some (State.set_doneExec_ true
                              (argumentsDone (frameAt 0 hostCall) hostCall)
                            :: drop 1 (stackOf hostCall))) hostCall)
                = Return [NativeNumber (NInt 2)]
                    (Interp.set_stateStack
                       (Some (State.set_doneExec_ true
                                (argumentsDone (frameAt 0 hostCall) hostCall)
                              :: drop 1 (stackOf hostCall))) hostCall))
    by (vm_compute; reflexivity).
  pose proof (host_function_call
                SimpleRun.hostStringToNumber SimpleRun.hostDateToString
                SimpleRun.hostFunction SimpleRun.asyncFunction
                hostCall (frameAt 0 hostCall) (drop 1 (stackOf hostCall))
                9%nat (Identifier 6 "setVal") [Literal 8 (VNumber (NInt 2))]
                (calleeOf hostCall) (objectAt (calleeOf hostCall) hostCall)
                SimpleRun.setVal H1 H2 H3 H4 H5 H6 H7 H8 H9 _ _ H10) as H.
  assert (Hhost : SimpleRun.hostFunction SimpleRun.setVal
                    (Interp.host
                       (Interp.set_stateStack
                          (Some (State.set_doneExec_ true
                                   (argumentsDone (frameAt 0 hostCall) hostCall)
                                 :: drop 1 (stackOf hostCall))) hostCall))
                    [NativeNumber (NInt 2)]
                  = (SimpleRun.mkHost (NInt 2) "" (NativeObject []),
                     HostReturns NativeUndefined))
    by (vm_compute; reflexivity).
  rewrite Hhost in H. apply H. reflexivity.
Defined.

Lemma date_round_trip_witness :
  exists o,
    let l := length (Interp.heap sloppy) in
    nativeToPseudo SimpleRun.hostStringToNumber SimpleRun.hostDateToString
      (NativeDate (NInt 86400000)) sloppy
    = Return (VObject l) (grown o sloppy)
    /\ pseudoToNative SimpleRun.hostStringToNumber SimpleRun.hostDateToString
         (VObject l) (grown o sloppy)
       = Return (NativeDate (NInt 86400000)) (grown o sloppy).
Proof.
  assert (H : instancesReady (length (Interp.heap sloppy)) sloppy
                (Interp.DATE_PROTO sloppy) (Interp.DATE sloppy)
                [Interp.ERROR sloppy; Interp.REGEXP sloppy] = true)
    by (vm_compute; reflexivity).
  exact (date_round_trip SimpleRun.hostStringToNumber SimpleRun.hostDateToString
           (length (Interp.heap sloppy)) sloppy (NInt 86400000) H).
Defined.

Lemma regexp_round_trip_resets_lastIndex_witness :
  exists o,
    let l := length (Interp.heap sloppy) in
    nativeToPseudo SimpleRun.hostStringToNumber SimpleRun.hostDateToString
      (NativeRegExp "a+" "g" 3) sloppy
    = Return (VObject l) (grown o sloppy)
    /\ props_get "lastIndex" (Obj.properties o) = VNumber (NInt 3)
    /\ pseudoToNative SimpleRun.hostStringToNumber SimpleRun.hostDateToString
         (VObject l) (grown o sloppy)
       = Return (NativeRegExp "a+" "g" 0) (grown o sloppy).
Proof.
  assert (H : instancesReady (length (Interp.heap sloppy)) sloppy
                (Interp.REGEXP_PROTO sloppy) (Interp.REGEXP sloppy)
                [Interp.ERROR sloppy; Interp.STRING sloppy] = true)
    by (vm_compute; reflexivity).
  exact (regexp_round_trip_resets_lastIndex
           SimpleRun.hostStringToNumber SimpleRun.hostDateToString
           (length (Interp.heap sloppy)) sloppy "a+" "g" 3 H).
Defined.

Lemma caught_throw_resumes_at_try_witness :
  State.value (frameAt 0 throwing) = VString "boom"
  /\ step (stepFunctions SimpleRun.hostStringToNumber SimpleRun.hostDateToString
             SimpleRun.hostFunction SimpleRun.asyncFunction) 1 throwing
     = Return true
         (Interp.set_stateStack
            (Some (State.set_cv (Some (mkCV THROW (State.value (frameAt 0 throwing)) None))
                     (frameAt 2 throwing)
                   :: drop 3 (stackOf throwing))) throwing).
Proof.
  split; [vm_compute; reflexivity|].
  assert (H1 : Interp.stateStack throwing
               = Some (frameAt 0 throwing
                       :: [frameAt 1 throwing] ++ frameAt 2 throwing :: drop 3 (stackOf throwing)))
    by (vm_compute; reflexivity).
  assert (H2 : State.node (frameAt 0 throwing)
               = ThrowStatement 19 (Literal 18 (VString "boom")))
    by (vm_compute; reflexivity).
  assert (H3 : State.done_ (frameAt 0 throwing) = true) by (vm_compute; reflexivity).
  assert (H4 : 19%nat <> 0%nat) by lia.
  assert (H5 : Interp.paused_ throwing = false) by (vm_compute; reflexivity).
  assert (H6 : Interp.getterStep_ throwing = false) by (vm_compute; reflexivity).
  assert (H7 : Interp.setterStep_ throwing = false) by (vm_compute; reflexivity).
  assert (H8 : forallb unwindsPast [frameAt 1 throwing] = true) by (vm_compute; reflexivity).
  assert (H9 : isTry (frameAt 2 throwing) = true) by (vm_compute; reflexivity).
  exact (caught_throw_resumes_at_try
           SimpleRun.hostStringToNumber SimpleRun.hostDateToString
           SimpleRun.hostFunction SimpleRun.asyncFunction 0 throwing
           (frameAt 0 throwing) 19%nat (Literal 18 (VString "boom"))
           [frameAt 1 throwing] (frameAt 2 throwing) (drop 3 (stackOf throwing))
           H1 H2 H3 H4 H5 H6 H7 H8 H9).
Defined.

(** [try { throw "boom"; } catch (e) {}] when the catch clause is on top of
    the stack and has not run. *)
Definition catching : Interp.t SimpleRun.Host :=
  steps SimpleRun.hostStringToNumber SimpleRun.hostDateToString SimpleRun.hostFunction
    SimpleRun.asyncFunction 7
    (constructed SimpleRun.hostStringToNumber SimpleRun.hostDateToString tryThrow noInit
       SimpleRun.start).

Lemma catch_binds_the_thrown_value_witness :
  let state := frameAt 0 catching in
  let rest := drop 1 (stackOf catching) in
  let l := length (Interp.heap catching) in
  let scope := mkScopeEntry (scopeStrict (State.scope state)) l :: State.scope state in
  let next := State.new (BlockStatement 29 []) scope in
  let i' := Interp.set_stateStack (Some (State.set_done_ true state :: rest))
              (grown (Obj.set_properties
                        [("e", mkProperty (State.throwValue state) true true true)]
                        (Obj.new None)) catching) in
  let pushed := Interp.set_stateStack (Some (next :: State.set_done_ true state :: rest)) i' in
  State.throwValue state = VString "boom"
  /\ stepCatchClause SimpleRun.hostStringToNumber SimpleRun.hostDateToString
       state (CatchClause 29 "e" (BlockStatement 29 [])) catching
     = Return (Some next) i'
  /\ getValueFromScope SimpleRun.hostStringToNumber SimpleRun.hostDateToString "e" pushed
     = Return (State.throwValue state) pushed.
Proof.
  cbv zeta. split; [vm_compute; reflexivity|].
  assert (H1 : bridgeReady (length (Interp.heap catching)) catching = true)
    by (vm_compute; reflexivity).
  assert (H2 : Interp.stateStack catching
               = Some (frameAt 0 catching :: drop 1 (stackOf catching)))
    by (vm_compute; reflexivity).
  assert (H3 : State.done_ (frameAt 0 catching) = false) by (vm_compute; reflexivity).
  assert (H4 : forallb (fun g => (object g <? length (Interp.heap catching))%nat)
                 (Interp.globalScope catching) = true)
    by (vm_compute; reflexivity).
  exact (catch_binds_the_thrown_value
           SimpleRun.hostStringToNumber SimpleRun.hostDateToString
           (length (Interp.heap catching)) catching (frameAt 0 catching)
           (drop 1 (stackOf catching)) 29%nat "e" (BlockStatement 29 []) H1 H2 H3 H4).
Defined.

(** [delete x;] when the reference to [x] is evaluated. *)
Definition deleting : Interp.t SimpleRun.Host :=
  steps SimpleRun.hostStringToNumber SimpleRun.hostDateToString SimpleRun.hostFunction
    SimpleRun.asyncFunction 4
    (constructed SimpleRun.hostStringToNumber SimpleRun.hostDateToString deleteVariable
       (objectsInit SimpleRun.hostStringToNumber SimpleRun.hostDateToString)
       SimpleRun.start).

Lemma delete_of_a_variable_deletes_nothing_witness :
  State.value (frameAt 0 deleting) = VScopeReference "x"
  /\ stepUnaryExpression SimpleRun.hostStringToNumber SimpleRun.hostDateToString
       (frameAt 0 deleting) (UnaryExpression 8 "delete" (Identifier 8 "x")) deleting
     = Return None
         (Interp.set_stateStack
            (Some (State.set_value (VBool false) (frameAt 1 deleting)
                   :: drop 2 (stackOf deleting))) deleting).
Proof.
  assert (H1 : Interp.stateStack deleting
               = Some (frameAt 0 deleting :: frameAt 1 deleting :: drop 2 (stackOf deleting)))
    by (vm_compute; reflexivity).
  assert (H2 : State.done_ (frameAt 0 deleting) = true) by (vm_compute; reflexivity).
  assert (H3 : State.value (frameAt 0 deleting) = VScopeReference "x")
    by (vm_compute; reflexivity).
  assert (H4 : scopeStrict (State.scope (frameAt 0 deleting)) = false)
    by (vm_compute; reflexivity).
  split; [exact H3|].
  exact (proj1 (delete_of_a_variable_deletes_nothing
                  SimpleRun.hostStringToNumber SimpleRun.hostDateToString
                  deleting (frameAt 0 deleting) (frameAt 1 deleting)
                  (drop 2 (stackOf deleting)) 8%nat (Identifier 8 "x") "x" H1 H2 H3) H4).
Defined.

(** The frame of [delete plain.x] when the reference is evaluated, on top of
    the root frame. *)
Definition deletingProperty : Interp.t SimpleRun.Host :=
  Interp.set_stateStack
    (Some (State.set_value (VPropertyReference (VObject (at_ "plain" sloppy)) (VString "x"))
             (State.set_done_ true
                (State.new (UnaryExpression 8 "delete" (Identifier 8 "x"))
                   (Interp.globalScope sloppy)))
           :: stackOf sloppy))
    sloppy.

Lemma delete_of_a_property_witness :
  stepUnaryExpression SimpleRun.hostStringToNumber SimpleRun.hostDateToString
    (frameAt 0 deletingProperty) (UnaryExpression 8 "delete" (Identifier 8 "x"))
    deletingProperty
  = Return None
      (Interp.set_stateStack
         (Some (State.set_value (VBool true) (frameAt 1 deletingProperty)
                :: drop 2 (stackOf deletingProperty)))
         (updated (at_ "plain" sloppy) (Obj.set_properties []) deletingProperty))
  /\ props_has "x" [] = false
  /\ forall k, k <> "x" ->
       props_lookup k []
       = props_lookup k (Obj.properties (objectAt (at_ "plain" sloppy) sloppy)).
Proof.
  assert (H1 : Interp.stateStack deletingProperty
               = Some (frameAt 0 deletingProperty :: frameAt 1 deletingProperty
                       :: drop 2 (stackOf deletingProperty)))
    by (vm_compute; reflexivity).
  assert (H2 : State.done_ (frameAt 0 deletingProperty) = true) by (vm_compute; reflexivity).
  assert (H3 : State.value (frameAt 0 deletingProperty)
               = VPropertyReference (VObject (at_ "plain" sloppy)) (VString "x"))
    by (vm_compute; reflexivity).
  assert (H4 : Interp.heap deletingProperty !! at_ "plain" sloppy
               = Some (objectAt (at_ "plain" sloppy) sloppy))
    by (vm_compute; reflexivity).
  assert (H5 : props_delete "x" (Obj.properties (objectAt (at_ "plain" sloppy) sloppy))
               = Some [])
    by (vm_compute; reflexivity).
  pose proof (delete_of_a_property
                SimpleRun.hostStringToNumber SimpleRun.hostDateToString
                deletingProperty (frameAt 0 deletingProperty) (frameAt 1 deletingProperty)
                (drop 2 (stackOf deletingProperty)) 8%nat (Identifier 8 "x")
                (at_ "plain" sloppy) (objectAt (at_ "plain" sloppy) sloppy) "x"
                H1 H2 H3 H4) as H.
  rewrite H5 in H. exact H.
Defined.
